(* ===== verification/_CoqProject ===== *)
-Q . S2P
Prelude.v
Bytes.v
Text.v
Interfaces.v
PoseidonTree.v
AuditError.v
OplogCanon.v
OplogTree.v
CanonicalPayload.v
Commitment.v
SledStore.v
Strkey.v
SorobanValues.v
StellarNative.v
AuditLog.v
AuditReplay.v
Interceptor.v
AuditSession.v
AuditDomains.v
AuditExample.v
Reader.v
ReaderSpec.v
VerificationStore.v
Epoch.v
EpochSpec.v
ChangeStream.v
ChangeStreamSpec.v
Attestation.v
AttestationSpec.v
JobStore.v
JobSpec.v
JobCommands.v
Scheduler.v
SchedulerExample.v
AppError.v
Timeline.v
TimelineSpec.v
Fields.v
Json.v
BsonJson.v
SafeChange.v
DesktopExample.v
SafeChangeSpec.v
ShellSource.v
Shell.v
ShellHost.v
ShellSpec.v
SqlAst.v
SqlExpr.v
JsonText.v
SqlToMongo.v
SqlSpec.v
SqlSelectSpec.v
SqlInsertSpec.v
Pipeline.v
PipelineSpec.v
WriteTarget.v
JsonFormat.v
JsonFormatSpec.v
CsvFormat.v
FieldMapping.v
BsonFormat.v
CollectionSink.v
Placeholders.v
ExportSpec.v
BsonFormatSpec.v
Transfer.v
Dump.v
DumpSpec.v
Restore.v
RestoreSpec.v
TransferExample.v
Contract.v
ContractSpec.v
StellarSpec.v
Daemon.v
ContractExample.v
DaemonSpec.v
