(* ===== verification/Prelude.v ===== *)
(** * NoSQLBuddy: a verification library (root file)

    NoSQLBuddy is a MongoDB client for the desktop with a tamper-evident audit trail.  This
    library models its Rust code under src/ and proves what makes it correct.  It models
    three programs that work together, and a contract:

    - the audit service (src/audit-service/), a library and a daemon: every write that is
      seen on a database becomes an event of an append-only log, its leaf goes into a
      Poseidon Merkle tree, and the root of the tree is committed on the Stellar network;
      daemons next to other members of a replica set check the oplog behind a commitment
      and sign it;
    - zk-audit (src/zk-audit/): the tree, the commitment scheme of the leaves, and the Soroban
      contract that keeps roots, commitments, attestations and disclosures on chain;
    - the desktop application (src/src-tauri/): the shell, safe changes, the translation of
      SQL, import and export, dump and restore, jobs with their scheduler, and the timeline
      of what was done.

    A write takes this way.  A command or a script of the desktop sends it to the server; on
    a standalone deployment the interceptor records it in the audit log, on a replica set the
    listener of the change stream does.  The log appends a line to its file and a leaf to its
    store and its tree; the epoch manager groups the leaves; the daemon closes an epoch,
    hashes the oplog of its time range, and the Stellar client commits root and hash to the
    contract; attesters compare the hash with their own replica and sign it; the contract
    counts the signatures.  Reader mode checks a log file against the root on chain.  Next to
    the audit trail the desktop notes what it did in the timeline.

    * How the code is modelled

    A struct is a [Record], an enum an [Inductive] with the constructors of the source, a
    function a [Definition] or [Fixpoint] that can be evaluated.  [Result] is [result]; code
    that changes state is in the monad [stateR S E]: [S -> result E A * S], where a failure
    keeps the state reached (below).  A method that takes a lock is one atomic operation;
    where the code holds two locks one after the other, or where other tasks run in between,
    the steps are given apart and the interleavings are an inductive relation (Timeline,
    JobCommands, Scheduler).  Unsigned and signed integers keep their width where the code
    can reach it: [Z] with the wrap-around written out ([u64_wrap] in Epoch, the checksum and
    shifts of Strkey, fees in StellarNative, the traps of Contract).  Strings are their
    UTF-8 bytes.  JSON objects and BSON documents are lists of fields in their order (Fields).

    What is not under src/ is an interface: a type class whose operations the definitions
    take and whose laws are documented behaviour (Interfaces: field arithmetic, Poseidon,
    SHA-256, HMAC, hex, base64, times; one class per use of serde_json; the server of MongoDB,
    the disk, the network, the JavaScript engine, the SQL parser).  No hash is assumed to be
    collision free: a theorem about binding concludes that two openings are equal or exhibits
    a collision among the inputs that were hashed.  A server, a disk or a network may fail or
    change its state in every call unless a theorem says otherwise.  Clocks and fresh
    identifiers are arguments.  Every interface has a concrete instance (Interfaces.Concrete,
    AuditExample, DesktopExample, SchedulerExample, TransferExample, ContractExample and the
    ends of the Spec files), and every theorem with hypotheses has a witness: a lemma named
    after it that applies it there.

    * The files

    Shared.  Prelude (this file): results, the state monad, lists, maps keyed by strings, the
    hint database [audit].  Bytes, Text: bytes, integers as bytes, [lines], [trim].
    Interfaces: the libraries.  AuditError, AppError: the two error types.

    The trail (audit-service/src/audit/ and zk-audit/src/).
    - PoseidonTree: merkle.rs.  The sparse tree computes the root of the complete binary
      tree; generated proofs verify; a proof that verifies is of the node as far under the
      root as it has siblings, the leaf at full depth, or there is a collision.
    - OplogCanon, OplogTree: oplog_canon.rs, oplog.rs.  Two entries have one encoding exactly
      when their projections agree up to the order of fields; ranges and proofs.
    - CanonicalPayload: crypto.rs.  Commitment: commitment.rs.  SledStore: sled_store.rs.
    - AuditLog: mod.rs, state and all operations.  Interceptor: interceptor.rs.  AuditReplay:
      exactly which files startup accepts.  AuditSession: sessions of commands; a restart
      restores the state, a torn last line is cut, the history of roots never changes, a
      legal hold blocks pruning.  AuditDomains: secondary trees and the super-root.
      AuditExample: a concrete log.
    - Reader, ReaderSpec: reader.rs.  VerificationStore: verification_store.rs.
    - Epoch, EpochSpec: epoch.rs.  The epochs tile a log that only grows.
    - ChangeStream, ChangeStreamSpec: change_stream.rs.  While the disk works,
      nothing is lost or doubled over reconnections from the first recorded event on; what
      happens before it, and when the disk fails.
    - Attestation, AttestationSpec: attestation.rs.

    The chain (audit-service/src/audit/stellar_native.rs, auditd/, zk-audit/soroban-contract/).
    - Strkey: string keys; one mistyped character is always noticed.
    - SorobanValues: values written to and read from the contract.
    - StellarNative, StellarSpec: transactions; at most one accepted submission, confirmed when
      it succeeds, and its end.
    - Contract, ContractSpec, ContractExample: the contract; every transaction refines the
      specification [effect]; ledgers initialized first keep the invariant and are append-only; the
      verdict is K of N; what anyone can do without an authorization.
    - Daemon, DaemonSpec: publisher.rs, attester.rs and their handlers in mod.rs, over the
      epochs, the log, the client and the contract.  DaemonSpec closes the loop: what the
      daemon signs the contract accepts, and what it reports is on the ledger.

    The desktop (src-tauri/src/).
    - JobStore, JobSpec, JobCommands, Scheduler, SchedulerExample: job_store.rs, jobs.rs,
      scheduler.rs.  No template runs twice at once, permits bound the runs, a tick ends.
    - Timeline, TimelineSpec: timeline_store.rs and operation_recorder.rs.
    - Fields, Json, BsonJson, DesktopExample: documents; bson_json.rs.
    - SafeChange, SafeChangeSpec: safe_change.rs.  When a rollback plan
      restores a document, and when it does not.
    - ShellSource, Shell, ShellHost, ShellSpec: shell.rs, its command and that of rollbacks
      (commands/shell.rs, rollback.rs).  What the rewriting
      of a script may change; which operations a script leaves in the log and the timeline,
      and that they survive a restart.
    - SqlAst, SqlExpr, SqlToMongo, JsonText, SqlSpec, SqlSelectSpec, SqlInsertSpec:
      sql_to_mongo.rs.
    - Pipeline, PipelineSpec, WriteTarget, JsonFormat, JsonFormatSpec, CsvFormat,
      FieldMapping, BsonFormat, BsonFormatSpec, CollectionSink, Placeholders, ExportSpec:
      import_export/.  The contract of a run; a failed export leaves the old file.
    - Transfer, Dump, DumpSpec, Restore, RestoreSpec, TransferExample: commands/dump.rs and
      restore.rs, over the pipeline, the jobs and the timeline.  A restored dump gives the
      collections back, each one that can be dropped before.

    Interfaces between the parts are type classes whose clients are proved against the class:
    [DocumentSource] and [DocumentSink] of Pipeline, with the contract of file sinks
    [AtomicSink] in ExportSpec, the codecs
    ([SerdePair], [AuditJson], [EntryJson]), the store ([SledDb]), the endpoint and the
    server.

    * Fuel and bounds

    Recursion that is not structural takes fuel, and a theorem or the definition's comment
    says how much is enough: the length of the input for scanners of text ([lossy], [strip],
    [split_chars], [scan], the JSON scanners), two for the drained bits of base 32; the
    retries of a submission count down from [MAX_BAD_SEQ_RETRIES].  Where the code itself may not end, fuel counts
    steps and running out is an outcome of its own: the polls of [wait_for_transaction]
    ([Polling]; StellarSpec proves that sixteen suffice unless an error status is answered),
    the rows of a run of the pipeline ([run_pipeline]; PipelineSpec proves that one more
    than the rows suffices), the connections of the change-stream listener, the turns of a
    script in ShellHost.
    Theorems about logs assume fewer than 2^64 events, the width of an index.

    * Not modelled

    - Circuits and proofs (zk-audit/src/prover.rs, serialize.rs, disclosure.rs, the ceremony,
      zk-spike/): calls of the arkworks and circom crates, whose verifier is an interface of
      Contract.
    - Network and process code: the RPC endpoint (stellar_rpc.rs), the CLI wrapper
      (stellar.rs), ipfs.rs, pinata.rs, the age encryption, the development stack (dev_stack.rs,
      dev_setup.rs, dev_proxy.rs), the HTTP router of the daemon.
    - The command line program (nosqlbuddy-audit.rs) and the audit commands of the desktop
      (src-tauri/src/audit/commands.rs): they read arguments, call the parts above or the
      service over HTTP, and print.
    - Commands of the desktop that pass a call to the driver and convert its reply
      (commands/mongo.rs, connections.rs, data.rs and the like), profiles and the keyring,
      and the analyses for display (schema, shape, relationship, data model, query code,
      completion).
    - In the modelled files: tests, Serde attributes, log output, and what the components'
      notes of the manifest name.
    - Time passing, thread scheduling inside one atomic operation, and the panics of a
      poisoned lock, which the code recovers from.  A write to a file that fails is taken to
      leave no bytes in WriteTarget, and to be ignored in JobStore and Timeline, as the code
      ignores its result; the file of the audit log may keep part of a line
      (AuditSession). *)

From stdpp Require Export prelude gmap strings sorting list fin_maps.
From Stdlib Require Export ZArith Lia ZifyBool ZifyN ZifyNat.

(* ------------------------------------------------------------------ *)
(** ** Results: [Result<T, E>] *)

Inductive result (E A : Type) : Type :=
| Ok (a : A)
| Err (e : E).
Global Arguments Ok {E A} a.
Global Arguments Err {E A} e.

#[export] Instance result_ret E : MRet (result E) := fun _ a => Ok a.
#[export] Instance result_bind E : MBind (result E) :=
  fun _ _ f m => match m with Ok a => f a | Err e => Err e end.
#[export] Instance result_fmap E : FMap (result E) :=
  fun _ _ f m => match m with Ok a => Ok (f a) | Err e => Err e end.

#[export] Instance result_eq_dec E A `{EqDecision E, EqDecision A} :
  EqDecision (result E A).
Proof. solve_decision. Defined.

(** [opt.ok_or(e)] *)
Definition ok_or {E A} (o : option A) (e : E) : result E A :=
  match o with Some a => Ok a | None => Err e end.

(** [res.ok()] *)
Definition ok {E A} (r : result E A) : option A :=
  match r with Ok a => Some a | Err _ => None end.

(** [res.map_err(f)] *)
Definition map_err {E E' A} (f : E -> E') (r : result E A) : result E' A :=
  match r with Ok a => Ok a | Err e => Err (f e) end.

Definition is_ok {E A} (r : result E A) : bool :=
  match r with Ok _ => true | Err _ => false end.

(** [iter.map(f).collect::<Result<Vec<_>, _>>()] *)
Fixpoint mapR {E A B} (f : A -> result E B) (l : list A) : result E (list B) :=
  match l with
  | [] => Ok []
  | x :: l => y ← f x; ys ← mapR f l; Ok (y :: ys)
  end.

(** A [for] loop whose body can return early with an error. *)
Fixpoint foldR {E A S} (f : S -> A -> result E S) (s : S) (l : list A) : result E S :=
  match l with
  | [] => Ok s
  | x :: l => s' ← f s x; foldR f s' l
  end.

Section results.
Context {E : Type}.

Lemma bind_Ok_inv {A B} (m : result E A) (f : A -> result E B) b :
  m ≫= f = Ok b -> exists a, m = Ok a /\ f a = Ok b.
Proof. destruct m as [a|e]; simpl; [by eauto|done]. Qed.

Lemma bind_Err_inv {A B} (m : result E A) (f : A -> result E B) e :
  m ≫= f = Err e -> m = Err e \/ exists a, m = Ok a /\ f a = Err e.
Proof.
  destruct m as [a|e']; cbn; [by eauto|].
  intros H. injection H as ->. by left.
Qed.

Lemma ok_or_Ok {A} (o : option A) (e : E) a : ok_or o e = Ok a <-> o = Some a.
Proof. destruct o; simpl; split; congruence. Qed.

Lemma ok_or_Err {A} (o : option A) (e e' : E) :
  ok_or o e = Err e' <-> o = None /\ e' = e.
Proof. destruct o; simpl; split; [congruence|by intros [? _]|by intros [= ->]|by intros [_ ->]]. Qed.

Lemma mapR_Ok {A B} (f : A -> result E B) l l' :
  mapR f l = Ok l' <-> Forall2 (fun a b => f a = Ok b) l l'.
Proof.
  revert l'. induction l as [|a l IH]; intros l'; cbn.
  - split; [intros [= <-]; constructor|by inversion 1].
  - split.
    + intros (b & Hb & (bs & Hbs & [= <-])%bind_Ok_inv)%bind_Ok_inv.
      constructor; [done|by apply IH].
    + inversion 1 as [|? b ? bs Hb Hbs]; subst.
      rewrite Hb. cbn. apply IH in Hbs. by rewrite Hbs.
Qed.

Lemma mapR_total {A B} (f : A -> result E B) (g : A -> B) l :
  (forall a, a ∈ l -> f a = Ok (g a)) -> mapR f l = Ok (g <$> l).
Proof.
  intros Hf. induction l as [|a l IH]; [done|]. cbn.
  rewrite Hf by set_solver. cbn. rewrite IH; [done|set_solver].
Qed.

Lemma foldR_app {A S} (f : S -> A -> result E S) s l1 l2 :
  foldR f s (l1 ++ l2) = foldR f s l1 ≫= fun s' => foldR f s' l2.
Proof.
  revert s. induction l1 as [|a l1 IH]; intros s; [done|]. cbn.
  destruct (f s a) as [s'|e]; cbn; [apply IH|done].
Qed.

(** The loop rule: an invariant on the processed prefix and the state. *)
Lemma foldR_ind {A S} (P : list A -> S -> Prop) (f : S -> A -> result E S) s l s' :
  P [] s ->
  (forall pre a s1 s2, (pre ++ [a]) `prefix_of` l ->
     P pre s1 -> f s1 a = Ok s2 -> P (pre ++ [a]) s2) ->
  foldR f s l = Ok s' -> P l s'.
Proof.
  intros H0 Hstep.
  assert (forall pre post s1, l = pre ++ post -> P pre s1 ->
            foldR f s1 post = Ok s' -> P l s') as Hgen.
  { intros pre post. revert pre. induction post as [|a post IH]; intros pre s1 -> HP.
    - rewrite app_nil_r in *. cbn. by intros [= <-].
    - cbn. intros (s2 & Hf & Hrest)%bind_Ok_inv.
      eapply (IH (pre ++ [a]) s2); [by rewrite <-app_assoc| |done].
      eapply Hstep; [|done|done]. exists post. by rewrite <-app_assoc. }
  intros. by eapply (Hgen []).
Qed.
End results.

(** Induction over a list two elements at a time. *)
Lemma two_ind {A} (P : list A -> Prop) :
  P [] -> (forall a, P [a]) -> (forall a b l, P l -> P (a :: b :: l)) -> forall l, P l.
Proof.
  intros H0 H1 H2 l.
  enough (P l /\ forall a, P (a :: l)) by naive_solver.
  induction l as [|b l [IH1 IH2]]; auto.
Qed.

Lemma map_eq_Forall2 {A B} (f : A -> B) l1 l2 :
  map f l1 = map f l2 -> Forall2 (fun a b => f a = f b) l1 l2.
Proof.
  revert l2. induction l1 as [|a l1 IH]; intros [|b l2] H; try done.
  constructor; [by apply (f_equal head) in H; injection H|].
  apply IH. by apply (f_equal tail) in H.
Qed.

Lemma Forall2_impl_in {A B} (P Q : A -> B -> Prop) l1 l2 :
  Forall2 P l1 l2 -> (forall a b, a ∈ l1 -> b ∈ l2 -> P a b -> Q a b) -> Forall2 Q l1 l2.
Proof. induction 1; intros; constructor; set_solver. Qed.

Lemma filter_ext_in {A} (P Q : A -> Prop) `{!forall x, Decision (P x), !forall x, Decision (Q x)} (l : list A) :
  (forall x, x ∈ l -> P x <-> Q x) -> filter P l = filter Q l.
Proof.
  induction l as [|x l IH]; intros HPQ; [done|]. rewrite !filter_cons.
  pose proof (HPQ x ltac:(by left)) as Hx. rewrite IH by set_solver.
  destruct (decide (P x)), (decide (Q x)); tauto || done.
Qed.

Lemma NoDup_fst_filter {A B} (P : A * B -> Prop) `{!forall x, Decision (P x)} (l : list (A * B)) :
  NoDup l.*1 -> NoDup (filter P l).*1.
Proof.
  induction l as [|x l IH]; [done|]. rewrite fmap_cons, NoDup_cons. intros [Hx Hl].
  rewrite filter_cons. case_decide; [|by apply IH]. rewrite fmap_cons, NoDup_cons.
  split; [|by apply IH]. intros (y & Hy & Hin)%list_elem_of_fmap.
  apply list_elem_of_filter in Hin as [_ Hin]. apply Hx, list_elem_of_fmap. by exists y.
Qed.

Create HintDb audit.

(** Invert every successful (or failed) monadic bind among the hypotheses. *)
Ltac res_step :=
  match goal with
  | H : Ok _ = Ok _ |- _ => injection H as H; try subst
  | H : Err _ = Err _ |- _ => injection H as H; try subst
  | H : Ok _ = Err _ |- _ => discriminate H
  | H : Err _ = Ok _ |- _ => discriminate H
  | H : mbind _ _ = Ok _ |- _ =>
      let a := fresh "v" in let Ha := fresh "Hv" in
      apply bind_Ok_inv in H as (a & Ha & H)
  | H : ok_or _ _ = Ok _ |- _ => apply ok_or_Ok in H
  | H : mret _ = Ok _ |- _ => cbn in H
  end.
Ltac res_simpl := repeat (res_step; cbn in * ).

(* ------------------------------------------------------------------ *)
(** ** State and errors: methods that mutate and can fail

    A failing method keeps the mutations made before the failure, as [?] does. *)

Definition stateR (S E A : Type) : Type := S -> result E A * S.

#[export] Instance stateR_ret S E : MRet (stateR S E) := fun _ a s => (Ok a, s).
#[export] Instance stateR_bind S E : MBind (stateR S E) :=
  fun _ _ f m s =>
    match m s with
    | (Ok a, s') => f a s'
    | (Err e, s') => (Err e, s')
    end.

Definition get_state {S E} : stateR S E S := fun s => (Ok s, s).
Definition gets {S E A} (f : S -> A) : stateR S E A := fun s => (Ok (f s), s).
Definition modify {S E} (f : S -> S) : stateR S E unit := fun s => (Ok tt, f s).
(** [r?] for a result that does not touch the state *)
Definition liftR {S E A} (r : result E A) : stateR S E A := fun s => (r, s).
Definition throw {S E A} (e : E) : stateR S E A := fun s => (Err e, s).
(** [match m { Ok(a) => .., Err(e) => .. }]: the failure becomes a value. *)
Definition catch {S E A} (m : stateR S E A) : stateR S E (result E A) :=
  fun s => let '(r, s') := m s in (Ok r, s').

(** A [for] loop over a list. *)
Fixpoint for_each {S E A} (f : A -> stateR S E unit) (l : list A) : stateR S E unit :=
  match l with
  | [] => mret tt
  | x :: l => _ ← f x; for_each f l
  end.

(** [iter.map(f).collect::<Result<Vec<_>, _>>()] where [f] changes the state: each result in
    turn. *)
Fixpoint collect {S E A} (l : list (stateR S E A)) : stateR S E (list A) :=
  match l with
  | [] => mret []
  | m :: l => x ← m; xs ← collect l; mret (x :: xs)
  end.

Lemma stateR_bind_Ok {S E A B} (m : stateR S E A) (f : A -> stateR S E B) s b s'' :
  (m ≫= f) s = (Ok b, s'') <-> exists a s', m s = (Ok a, s') /\ f a s' = (Ok b, s'').
Proof.
  unfold mbind, stateR_bind. destruct (m s) as [[a|e] s'].
  - split; [by eauto|]. by intros (? & ? & [= <- <-] & ?).
  - split; [done|]. by intros (? & ? & ? & ?).
Qed.

(** A relation between the states before and after, whatever the method returns. *)
Definition keeps {S E A} (R : S -> S -> Prop) (m : stateR S E A) : Prop := forall s, R s (m s).2.

Section keeps.
Context {S E : Type} (R : S -> S -> Prop) {Rpre : PreOrder R}.

Lemma keeps_ret {A} (a : A) : keeps (E := E) R (mret a).
Proof. by intros s. Qed.
Lemma keeps_gets {A} (f : S -> A) : keeps (E := E) R (gets f).
Proof. by intros s. Qed.
Lemma keeps_liftR {A} (r : result E A) : keeps R (liftR r).
Proof. by intros s. Qed.
Lemma keeps_throw {A} (e : E) : keeps R (throw (A := A) e).
Proof. by intros s. Qed.
Lemma keeps_bind {A B} (m : stateR S E A) (f : A -> stateR S E B) :
  keeps R m -> (forall a, keeps R (f a)) -> keeps R (m ≫= f).
Proof.
  intros Hm Hf s. unfold mbind, stateR_bind. specialize (Hm s).
  destruct (m s) as [[a|e] s']; [|done]. etrans; [exact Hm|]. apply Hf.
Qed.
Lemma keeps_catch {A} (m : stateR S E A) : keeps R m -> keeps R (catch m).
Proof. intros Hm s. unfold catch. specialize (Hm s). by destruct (m s). Qed.
Lemma keeps_modify (f : S -> S) : (forall s, R s (f s)) -> keeps (E := E) R (modify f).
Proof. intros Hf s. apply Hf. Qed.
End keeps.
#[export] Hint Resolve keeps_ret keeps_gets keeps_liftR keeps_throw keeps_catch : audit.

(* ------------------------------------------------------------------ *)
(** ** Keys *)

(** Elements with distinct keys are equal when their keys are. *)
Lemma NoDup_map_inj {A B} (f : A -> B) (l : list A) x y :
  NoDup (map f l) -> x ∈ l -> y ∈ l -> f x = f y -> x = y.
Proof.
  induction l as [|z l IH]; cbn; [by intros _ ?%not_elem_of_nil|].
  intros [Hz Hl]%NoDup_cons [->|Hx]%elem_of_cons [->|Hy]%elem_of_cons Hf; [done|..|by apply IH].
  - destruct Hz. rewrite Hf. by apply (list_elem_of_fmap_2 f).
  - destruct Hz. rewrite <-Hf. by apply (list_elem_of_fmap_2 f).
Qed.

(** ** Groups: [map.entry(k).or_default().push(v)] *)

Definition push_at {A} (k : string) (v : A) (m : gmap string (list A)) : gmap string (list A) :=
  <[k := default [] (m !! k) ++ [v]]> m.

Lemma lookup_push_at {A} k k' (v : A) m :
  default [] (push_at k v m !! k') = default [] (m !! k') ++ (if decide (k = k') then [v] else []).
Proof.
  unfold push_at. destruct (decide (k = k')) as [<-|Hk].
  - by rewrite lookup_insert_eq.
  - by rewrite lookup_insert_ne, app_nil_r.
Qed.

(** A group holds, in order, the values pushed under its key. *)
Lemma lookup_foldl_push_at {A B} (key : B -> string) (val : B -> A) l m k :
  default [] (foldl (fun m x => push_at (key x) (val x) m) m l !! k) =
  default [] (m !! k) ++ map val (filter (fun x => key x = k) l).
Proof.
  revert m. induction l as [|x l IH]; intros m; cbn [foldl]; [by rewrite app_nil_r|].
  rewrite IH, lookup_push_at, <-app_assoc, filter_cons. by destruct (decide (key x = k)).
Qed.

(** ** Filters: [retain] *)

Section filters.
Context {A : Type} (P : A -> Prop) `{!forall x, Decision (P x)}.

Lemma list_filter_all (l : list A) : Forall P l -> filter P l = l.
Proof. induction 1; [done|]. rewrite filter_cons_True by done. by f_equal. Qed.

Lemma list_filter_none (l : list A) : Forall (fun x => ~ P x) l -> filter P l = [].
Proof. induction 1; [done|]. by rewrite filter_cons_False. Qed.

Lemma list_filter_comm (Q : A -> Prop) `{!forall x, Decision (Q x)} (l : list A) :
  filter P (filter Q l) = filter Q (filter P l).
Proof. rewrite !list_filter_filter. apply list_filter_iff. tauto. Qed.

Lemma length_filter_split (l : list A) : length l = length (filter P l) + length (filter (fun x => ~ P x) l).
Proof.
  induction l as [|x l IH]; [done|]. rewrite !filter_cons.
  destruct (decide (P x)), (decide (~ P x)); cbn; [done|lia|lia|done].
Qed.

Lemma list_filter_full (l : list A) : length l <= length (filter P l) -> filter P l = l.
Proof.
  induction l as [|x l IH]; [done|]. rewrite filter_cons. case_decide; cbn; intros Hl.
  - by rewrite IH by lia.
  - pose proof (length_filter P l). lia.
Qed.
End filters.

Lemma list_filter_ext {A} (P Q : A -> Prop) `{!forall x, Decision (P x), !forall x, Decision (Q x)} (l : list A) :
  (forall x, x ∈ l -> P x <-> Q x) -> filter P l = filter Q l.
Proof.
  induction l as [|x l IH]; intros Hl; [done|]. rewrite !filter_cons, IH by (intros; apply Hl; by right).
  specialize (Hl x (list_elem_of_here _ _)). destruct (decide (P x)), (decide (Q x)); tauto.
Qed.

Lemma StronglySorted_filter {A} (R : A -> A -> Prop) (P : A -> Prop) `{!forall x, Decision (P x)} (l : list A) :
  StronglySorted R l -> StronglySorted R (filter P l).
Proof.
  induction 1 as [|x l Hl IH Hx]; [constructor|]. rewrite filter_cons. case_decide; [|done].
  constructor; [done|]. rewrite Forall_forall in *. intros y [_ Hy]%list_elem_of_filter. by apply Hx.
Qed.

Lemma filter_map {A B} (f : A -> B) (P : B -> Prop) `{!forall y, Decision (P y)} (l : list A) :
  filter P (map f l) = map f (filter (fun x => P (f x)) l).
Proof. induction l as [|x l IH]; [done|]. cbn [map]. rewrite !filter_cons. case_decide; cbn [map]; by rewrite IH. Qed.

(** The positions of a list, with what is there. *)
Lemma omap_positions {A} (P : nat * A -> Prop) `{!forall x, Decision (P x)} (l : list A) :
  omap (fun i => l !! i) (map fst (filter P (imap pair l))) = map snd (filter P (imap pair l)).
Proof.
  assert (Forall (fun ie => l !! ie.1 = Some ie.2) (filter P (imap pair l))) as Hpos.
  { apply Forall_forall. intros [i e] [_ Hin]%list_elem_of_filter. cbn.
    apply elem_of_lookup_imap in Hin as (j & e' & [= -> ->] & Hj). done. }
  induction Hpos as [|[i e] k Hie _ IH]; [done|]. cbn [map omap list_omap fst snd] in *.
  rewrite Hie. cbn. by rewrite IH.
Qed.

Lemma map_snd_imap {A} (l : list A) : map snd (imap pair l) = l.
Proof.
  change (snd <$> imap pair l = l). rewrite fmap_imap.
  etrans; [exact (imap_const (fun x => x) l)|apply list_fmap_id].
Qed.

Lemma omap_seq_lookup {A} (l : list A) : omap (fun i => l !! i) (seq 0 (length l)) = l.
Proof.
  pose proof (omap_positions (fun _ => True) l) as Hp. rewrite !list_filter_all in Hp by by apply Forall_true.
  replace (map fst (imap pair l)) with (seq 0 (length l)) in Hp.
  - rewrite Hp. apply map_snd_imap.
  - change (seq 0 (length l) = fst <$> imap pair l). rewrite fmap_imap.
    etrans; [symmetry; apply list_fmap_id|]. exact (eq_sym (imap_seq_0 l (fun j => j))).
Qed.

(** ** Stable sorting: [slice::sort_by] *)

Section sort_by.
Context {A : Type} (le : A -> A -> bool).

Fixpoint insert_by (x : A) (l : list A) : list A :=
  match l with
  | [] => [x]
  | y :: l => if le x y then x :: y :: l else y :: insert_by x l
  end.

(** The stable sort of [l]: equal elements keep their order. *)
Definition sort_by (l : list A) : list A := foldr insert_by [] l.

Lemma insert_by_perm x l : insert_by x l ≡ₚ x :: l.
Proof.
  induction l as [|y l IH]; cbn; [done|].
  destruct (le x y); [done|]. rewrite IH. apply Permutation_swap.
Qed.

Lemma sort_by_cons x l : sort_by (x :: l) = insert_by x (sort_by l).
Proof. done. Qed.

Lemma sort_by_perm l : sort_by l ≡ₚ l.
Proof. induction l as [|x l IH]; [done|]. by rewrite sort_by_cons, insert_by_perm, IH. Qed.

Lemma length_sort_by l : length (sort_by l) = length l.
Proof. apply Permutation_length, sort_by_perm. Qed.

Lemma Forall_sort_by (P : A -> Prop) l : Forall P (sort_by l) <-> Forall P l.
Proof. by rewrite sort_by_perm. Qed.

Context (le_total : forall x y, le x y = true \/ le y x = true).
Context (le_trans : forall x y z, le x y = true -> le y z = true -> le x z = true).

Lemma insert_by_sorted x l :
  StronglySorted (fun a b => le a b = true) l ->
  StronglySorted (fun a b => le a b = true) (insert_by x l).
Proof.
  induction 1 as [|y l Hl IH Hy]; cbn; [repeat constructor|].
  destruct (le x y) eqn:Hxy.
  - constructor; [by constructor|]. constructor; [done|].
    eapply Forall_impl; [done|]. intros z. by apply le_trans.
  - constructor; [done|]. rewrite insert_by_perm. constructor; [|done].
    destruct (le_total x y); congruence.
Qed.

Lemma sort_by_sorted l : StronglySorted (fun a b => le a b = true) (sort_by l).
Proof. induction l as [|x l IH]; [constructor|]. by apply insert_by_sorted. Qed.

Lemma sort_by_id l : StronglySorted (fun a b => le a b = true) l -> sort_by l = l.
Proof.
  induction 1 as [|y l Hl IH Hy]; [done|]. rewrite sort_by_cons, IH.
  destruct l as [|z l]; [done|]. cbn. apply Forall_cons_1 in Hy as [-> _]. done.
Qed.
(** Sorting commutes with a filter. *)
Lemma insert_by_head x l : Forall (fun y => le x y = true) l -> insert_by x l = x :: l.
Proof. intros H. destruct l as [|y l]; [done|]. cbn. by apply Forall_cons in H as [-> _]. Qed.

Lemma filter_insert_by (P : A -> Prop) `{!forall x, Decision (P x)} x l :
  StronglySorted (fun a b => le a b = true) l ->
  filter P (insert_by x l) = if decide (P x) then insert_by x (filter P l) else filter P l.
Proof.
  induction 1 as [|y l Hl IH Hy]; [done|]. cbn [insert_by].
  destruct (le x y) eqn:Hxy.
  - rewrite (filter_cons P x). destruct (decide (P x)); [|done].
    rewrite insert_by_head; [done|]. apply (incl_Forall (l1 := y :: l)).
    + intros z Hz%list_elem_of_In%list_elem_of_filter. apply list_elem_of_In, Hz.
    + constructor; [done|]. eapply Forall_impl; [done|]. intros z. by apply le_trans.
  - rewrite !(filter_cons P y), IH. destruct (decide (P y)), (decide (P x)); cbn; by rewrite ?Hxy.
Qed.

Lemma sort_by_filter (P : A -> Prop) `{!forall x, Decision (P x)} l :
  sort_by (filter P l) = filter P (sort_by l).
Proof.
  induction l as [|x l IH]; [done|].
  rewrite sort_by_cons, filter_insert_by by apply sort_by_sorted.
  rewrite filter_cons. case_decide; [by rewrite sort_by_cons, IH|done].
Qed.
End sort_by.

(** Sorting commutes with a map that preserves the comparison. *)
Lemma sort_by_map {A B} (leA : A -> A -> bool) (leB : B -> B -> bool) (f : A -> B) l :
  (forall x y, leB (f x) (f y) = leA x y) ->
  sort_by leB (map f l) = map f (sort_by leA l).
Proof.
  intros Hle. induction l as [|x l IH]; [done|].
  cbn [map]. rewrite !sort_by_cons, IH. clear IH. generalize (sort_by leA l) as k. intros k.
  induction k as [|y k IH]; [done|]. cbn. rewrite Hle.
  destruct (leA x y); [done|]. cbn. by rewrite IH.
Qed.

(** Two sorted lists with the same elements are equal when the order separates them. *)
Lemma sorted_perm_unique {A} (R : A -> A -> Prop) (l1 l2 : list A) :
  (forall x y, x ∈ l1 -> y ∈ l1 -> R x y -> R y x -> x = y) ->
  StronglySorted R l1 -> StronglySorted R l2 -> l1 ≡ₚ l2 -> l1 = l2.
Proof.
  intros Hanti H1 H2 Hp.
  apply (StronglySorted_unique_strong R); try done.
  intros x y Hx Hy. apply Hanti; [done|]. by rewrite Hp.
Qed.

(** ** [sort()] and [dedup()] of strings *)

(** [Vec::dedup]: of a run of equal elements, the first is kept. *)
Fixpoint dedup (l : list string) : list string :=
  match l with
  | [] => []
  | x :: l =>
    match dedup l with
    | y :: l' => if bool_decide (x = y) then y :: l' else x :: y :: l'
    | [] => [x]
    end
  end.

Definition sort_dedup (l : list string) : list string := dedup (sort_by String.leb l).

Definition string_le (a b : string) : Prop := String.leb a b = true.
Lemma leb_total a b : String.leb a b = true \/ String.leb b a = true.
Proof. destruct (String.leb_total a b); auto. Qed.
Lemma leb_trans a b c : String.leb a b = true -> String.leb b c = true -> String.leb a c = true.
Proof. rewrite <-!Is_true_true. apply (transitivity (R := String.le)). Qed.
Lemma leb_antisym a b : String.leb a b = true -> String.leb b a = true -> a = b.
Proof. apply String.leb_antisym. Qed.

Lemma dedup_head x l : exists l', dedup (x :: l) = x :: l'.
Proof.
  cbn. destruct (dedup l) as [|y l']; [by exists []|].
  case_bool_decide as H; [subst; by exists l'|by eexists].
Qed.

Lemma elem_of_dedup x l : x ∈ dedup l <-> x ∈ l.
Proof.
  induction l as [|y l IH]; [done|]. rewrite elem_of_cons, <-IH. cbn.
  destruct (dedup l) as [|z l']; [set_solver|]. case_bool_decide; set_solver.
Qed.

Lemma dedup_sorted l : StronglySorted string_le l -> StronglySorted string_le (dedup l) /\ NoDup (dedup l).
Proof.
  induction 1 as [|x l Hl [IH1 IH2] Hx]; [split; constructor|].
  assert (Forall (string_le x) (dedup l)) as Hx'.
  { rewrite Forall_forall in *. intros y Hy. by apply Hx, elem_of_dedup. }
  cbn. destruct (dedup l) as [|y l']; [split; repeat constructor; set_solver|].
  case_bool_decide as Hxy; [done|]. split; [by constructor|]. constructor; [|done].
  apply Forall_cons_1 in Hx' as [Hxy' _]. intros [->|Hin]%elem_of_cons; [done|].
  apply StronglySorted_inv in IH1 as [_ Hy]. rewrite Forall_forall in Hy.
  apply Hxy, leb_antisym; [done|by apply Hy].
Qed.

Lemma dedup_sort_set l1 l2 :
  (forall x, x ∈ l1 <-> x ∈ l2) -> dedup (sort_by String.leb l1) = dedup (sort_by String.leb l2).
Proof.
  intros Hl.
  destruct (dedup_sorted (sort_by String.leb l1)) as [S1 N1];
    [apply sort_by_sorted; [apply leb_total|apply leb_trans]|].
  destruct (dedup_sorted (sort_by String.leb l2)) as [S2 N2];
    [apply sort_by_sorted; [apply leb_total|apply leb_trans]|].
  apply (sorted_perm_unique string_le); [|done|done|].
  - intros x y _ _. apply leb_antisym.
  - apply NoDup_Permutation; [done..|]. intros x. by rewrite !elem_of_dedup, !sort_by_perm.
Qed.

Lemma sort_dedup_spec l :
  StronglySorted string_le (sort_dedup l) /\ NoDup (sort_dedup l) /\ forall x, x ∈ sort_dedup l <-> x ∈ l.
Proof.
  destruct (dedup_sorted (sort_by String.leb l)) as [S N];
    [apply sort_by_sorted; [apply leb_total|apply leb_trans]|].
  split; [done|]. split; [done|]. intros x. unfold sort_dedup. by rewrite elem_of_dedup, sort_by_perm.
Qed.
