(* ===== verification/Bytes.v ===== *)
(** * Bytes, machine integers and strings

    Rust's [u8], [Vec<u8>], [String] and the [to_le_bytes]/[to_be_bytes] families,
    with the round trips and the injectivity facts the codecs need.  A Rust [String]
    is a Rocq [string] (its UTF-8 bytes); [as_bytes] is its byte list. *)

From Stdlib Require Export Strings.Byte.
From S2P Require Import Prelude.
Local Open Scope Z_scope.

#[export] Instance byte_eq_dec : EqDecision byte := Byte.byte_eq_dec.
#[export] Instance byte_countable : Countable byte :=
  inj_countable Byte.to_N Byte.of_N Byte.of_to_N.

(** ** Bytes as numbers *)

Definition Z_of_byte (b : byte) : Z := Z.of_N (Byte.to_N b).
(** [n as u8]: the low eight bits. *)
Definition byte_of_Z (z : Z) : byte :=
  default x00 (Byte.of_N (Z.to_N (z mod 256))).

Lemma Z_of_byte_range b : 0 <= Z_of_byte b < 256.
Proof. unfold Z_of_byte. pose proof (Byte.to_N_bounded b). lia. Qed.

Lemma Z_of_byte_of_Z z : Z_of_byte (byte_of_Z z) = z mod 256.
Proof.
  unfold byte_of_Z. pose proof (Z.mod_pos_bound z 256 ltac:(lia)) as Hz.
  destruct (Byte.of_N (Z.to_N (z mod 256))) as [b|] eqn:Hb; cbn.
  - apply Byte.to_of_N in Hb. unfold Z_of_byte. lia.
  - apply Byte.of_N_None_iff in Hb. lia.
Qed.

Lemma byte_of_Z_of_byte b : byte_of_Z (Z_of_byte b) = b.
Proof.
  unfold byte_of_Z. rewrite Z.mod_small by apply Z_of_byte_range.
  unfold Z_of_byte. by rewrite N2Z.id, Byte.of_to_N.
Qed.

#[export] Instance Z_of_byte_inj : Inj (=) (=) Z_of_byte.
Proof. intros a b H. rewrite <-(byte_of_Z_of_byte a), H. apply byte_of_Z_of_byte. Qed.

(** ** Fixed-width encodings: [n.to_le_bytes()], [n.to_be_bytes()] *)

Fixpoint le_bytes (n : nat) (z : Z) : list byte :=
  match n with
  | O => []
  | S n => byte_of_Z z :: le_bytes n (z / 256)
  end.
Definition be_bytes (n : nat) (z : Z) : list byte := reverse (le_bytes n z).

(** [uN::from_le_bytes], [uN::from_be_bytes] *)
Fixpoint of_le_bytes (l : list byte) : Z :=
  match l with
  | [] => 0
  | b :: l => Z_of_byte b + 256 * of_le_bytes l
  end.
Definition of_be_bytes (l : list byte) : Z := of_le_bytes (reverse l).

Lemma length_le_bytes n z : length (le_bytes n z) = n.
Proof. revert z. induction n as [|n IH]; intros z; cbn; [done|]. by rewrite IH. Qed.
Lemma length_be_bytes n z : length (be_bytes n z) = n.
Proof. unfold be_bytes. by rewrite length_reverse, length_le_bytes. Qed.

Lemma of_le_bytes_range l : 0 <= of_le_bytes l < 256 ^ Z.of_nat (length l).
Proof.
  induction l as [|b l IH]; cbn [of_le_bytes length]; [cbn; lia|].
  rewrite Nat2Z.inj_succ, Z.pow_succ_r by lia.
  pose proof (Z_of_byte_range b). lia.
Qed.

Lemma of_le_le_bytes n z : of_le_bytes (le_bytes n z) = z mod 256 ^ Z.of_nat n.
Proof.
  revert z. induction n as [|n IH]; intros z.
  - cbn. by rewrite Z.mod_1_r.
  - cbn [le_bytes of_le_bytes]. rewrite IH, Z_of_byte_of_Z.
    rewrite Nat2Z.inj_succ, Z.pow_succ_r by lia.
    rewrite Z.rem_mul_r by lia. done.
Qed.

Lemma le_bytes_inj n a b :
  le_bytes n a = le_bytes n b -> a mod 256 ^ Z.of_nat n = b mod 256 ^ Z.of_nat n.
Proof. intros H. by rewrite <-!of_le_le_bytes, H. Qed.

Lemma of_be_be_bytes n z : of_be_bytes (be_bytes n z) = z mod 256 ^ Z.of_nat n.
Proof. unfold of_be_bytes, be_bytes. by rewrite reverse_involutive, of_le_le_bytes. Qed.

Lemma be_bytes_inj n a b :
  be_bytes n a = be_bytes n b -> a mod 256 ^ Z.of_nat n = b mod 256 ^ Z.of_nat n.
Proof. intros H. by rewrite <-!of_be_be_bytes, H. Qed.

Lemma le_bytes_of l : le_bytes (length l) (of_le_bytes l) = l.
Proof.
  induction l as [|b l IH]; [done|]. cbn [length le_bytes of_le_bytes].
  pose proof (Z_of_byte_range b) as Hb. f_equal.
  - apply (inj Z_of_byte). rewrite Z_of_byte_of_Z, Z.mul_comm, Z.mod_add by lia.
    by apply Z.mod_small.
  - rewrite Z.mul_comm, Z.div_add, Z.div_small by lia. exact IH.
Qed.

Lemma be_bytes_of l : be_bytes (length l) (of_be_bytes l) = l.
Proof.
  unfold be_bytes, of_be_bytes. rewrite <-(length_reverse l), le_bytes_of.
  apply reverse_involutive.
Qed.

(** Unsigned and signed [w]-byte ranges. *)
Definition u_range (w : nat) (z : Z) : Prop := 0 <= z < 256 ^ Z.of_nat w.
Definition i_range (w : nat) (z : Z) : Prop :=
  - (256 ^ Z.of_nat w / 2) <= z < 256 ^ Z.of_nat w / 2.

Lemma le_bytes_inj_u n a b :
  u_range n a -> u_range n b -> le_bytes n a = le_bytes n b -> a = b.
Proof. unfold u_range. intros ?? H%le_bytes_inj. by rewrite !Z.mod_small in H. Qed.

Lemma be_bytes_inj_u n a b :
  u_range n a -> u_range n b -> be_bytes n a = be_bytes n b -> a = b.
Proof. unfold u_range. intros ?? H%be_bytes_inj. by rewrite !Z.mod_small in H. Qed.

Lemma le_bytes_inj_i n a b :
  i_range n a -> i_range n b -> le_bytes n a = le_bytes n b -> a = b.
Proof.
  unfold i_range. intros Ha Hb H%le_bytes_inj.
  set (m := 256 ^ Z.of_nat n) in *.
  assert (0 < m) by (unfold m; lia).
  pose proof (Z.div_mod a m ltac:(lia)). pose proof (Z.div_mod b m ltac:(lia)).
  assert (2 * (m / 2) <= m) by (apply Z.mul_div_le; lia).
  assert (a - b = m * (a / m - b / m)) as Hd by lia.
  assert (a / m - b / m = 0) by nia. lia.
Qed.

(** ** Strings *)

(** [s.as_bytes()] *)
Definition as_bytes (s : string) : list byte := String.list_byte_of_string s.
Definition of_bytes (l : list byte) : string := String.string_of_list_byte l.

Lemma of_bytes_as_bytes s : of_bytes (as_bytes s) = s.
Proof. apply String.string_of_list_byte_of_string. Qed.
Lemma as_bytes_of_bytes l : as_bytes (of_bytes l) = l.
Proof. apply String.list_byte_of_string_of_list_byte. Qed.

#[export] Instance as_bytes_inj : Inj (=) (=) as_bytes.
Proof. intros a b H. rewrite <-(of_bytes_as_bytes a), H. apply of_bytes_as_bytes. Qed.

Lemma string_app_assoc (a b c : string) : (a +:+ b) +:+ c = a +:+ b +:+ c.
Proof. induction a as [|x a IH]; [done|]. change (String.String x ((a +:+ b) +:+ c) = String.String x (a +:+ b +:+ c)). by rewrite IH. Qed.

Lemma as_bytes_app s t : as_bytes (s +:+ t) = as_bytes s ++ as_bytes t.
Proof.
  unfold as_bytes. induction s as [|c s IH]; [done|].
  change (String.list_byte_of_string (String c s +:+ t))
    with (Ascii.byte_of_ascii c :: String.list_byte_of_string (s +:+ t)).
  by rewrite IH.
Qed.

(** Two equal concatenations with equally long heads split. *)
Lemma app_inj_len {A} (l1 l2 k1 k2 : list A) :
  length l1 = length l2 -> l1 ++ k1 = l2 ++ k2 -> l1 = l2 /\ k1 = k2.
Proof. intros Hl H. by apply app_inj_1 in H. Qed.

(** ** UTF-8 validity: what [String::from_utf8] accepts

    The well-formed byte sequences of the Unicode standard (table 3-7), the
    ones Rust's [str] is allowed to hold. *)

Definition in_range (lo hi : Z) (b : byte) : bool :=
  (lo <=? Z_of_byte b) && (Z_of_byte b <=? hi).
Definition cont (b : byte) : bool := in_range 128 191 b.

Fixpoint utf8_valid (l : list byte) : bool :=
  match l with
  | [] => true
  | a :: l =>
    if in_range 0 127 a then utf8_valid l
    else match l with
    | [] => false
    | b :: l =>
      if in_range 194 223 a then cont b && utf8_valid l
      else match l with
      | [] => false
      | c :: l =>
        if in_range 224 239 a then
          in_range (if Z_of_byte a =? 224 then 160 else 128)
                   (if Z_of_byte a =? 237 then 159 else 191) b
          && cont c && utf8_valid l
        else match l with
        | [] => false
        | d :: l =>
          in_range 240 244 a
          && in_range (if Z_of_byte a =? 240 then 144 else 128)
                      (if Z_of_byte a =? 244 then 143 else 191) b
          && cont c && cont d && utf8_valid l
        end
      end
    end
  end.

(** [String::from_utf8(bytes)] *)
Definition from_utf8 (l : list byte) : option string :=
  if utf8_valid l then Some (of_bytes l) else None.

(** A Rust [String] holds valid UTF-8. *)
Definition rust_string (s : string) : Prop := utf8_valid (as_bytes s) = true.

Lemma utf8_valid_ascii l : Forall (fun b => in_range 0 127 b = true) l -> utf8_valid l = true.
Proof. induction 1 as [|b l Hb _ IH]; [done|]. cbn. by rewrite Hb. Qed.

Lemma in_range_ascii lo hi b :
  in_range 0 127 b = true -> 128 <= lo -> in_range lo hi b = false.
Proof. unfold in_range. lia. Qed.

(** An ASCII byte separates a string: it is never inside a longer character. *)
Lemma utf8_valid_split a b c :
  in_range 0 127 b = true -> utf8_valid (a ++ b :: c) = utf8_valid a && utf8_valid c.
Proof.
  intros Hb.
  assert (forall lo hi, 128 <= lo -> in_range lo hi b = false) as Hno
    by (intros; by apply in_range_ascii).
  assert (cont b = false) as Hcont by by apply Hno.
  remember (length a) as n eqn:Hn. revert a Hn.
  induction (lt_wf n) as [n _ IH]. intros a ->.
  destruct a as [|x a]; [cbn; by rewrite Hb|]. cbn [app utf8_valid].
  destruct (in_range 0 127 x); [eapply IH; [|done]; cbn; lia|].
  destruct a as [|y a]; cbn [app].
  - rewrite Hcont. destruct (in_range 194 223 x); [done|].
    destruct c as [|z c]; [done|]. rewrite Hno by (case_match; lia).
    destruct (in_range 224 239 x); [done|]. destruct c as [|u c]; [done|].
    rewrite Hno by (case_match; lia). by rewrite andb_false_r.
  - destruct (in_range 194 223 x).
    { rewrite <-andb_assoc. f_equal. eapply IH; [|done]; cbn; lia. }
    destruct a as [|z a]; cbn [app].
    + rewrite Hcont, andb_false_r. cbn. destruct (in_range 224 239 x); [done|].
      destruct c as [|u c]; [done|]. by rewrite !andb_false_r.
    + destruct (in_range 224 239 x).
      { rewrite <-!andb_assoc. do 2 f_equal. eapply IH; [|done]; cbn; lia. }
      destruct a as [|u a]; cbn [app].
      * by rewrite Hcont, !andb_false_r.
      * rewrite <-!andb_assoc. do 4 f_equal. eapply IH; [|done]; cbn; lia.
Qed.

Lemma from_utf8_as_bytes s : rust_string s -> from_utf8 (as_bytes s) = Some s.
Proof. unfold rust_string, from_utf8. intros ->. by rewrite of_bytes_as_bytes. Qed.

Lemma from_utf8_Some l s : from_utf8 l = Some s -> as_bytes s = l /\ rust_string s.
Proof.
  unfold from_utf8, rust_string. destruct (utf8_valid l) eqn:Hv; [|done].
  intros [= <-]. by rewrite as_bytes_of_bytes.
Qed.


#[global] Arguments le_bytes : simpl never.
#[global] Arguments be_bytes : simpl never.
#[global] Arguments as_bytes : simpl never.
