(* ===== verification/Text.v ===== *)
(** * Text: the [str] methods the log files are read with

    [lines], [trim] and [join] of Rust's standard library, on the UTF-8 bytes of a
    string. *)

From S2P Require Import Prelude.
From S2P Require Import Bytes.
Local Open Scope nat_scope.

(** ** [str::lines] *)

Definition NL : byte := x0a.
Definition CR : byte := x0d.

(** A line that ended with a newline also loses one carriage return before it. *)
Definition strip_cr (l : list byte) : list byte :=
  match last l with
  | Some b => if bool_decide (b = CR) then take (length l - 1) l else l
  | None => l
  end.

(** [current] is the line read so far. *)
Fixpoint lines_from (current l : list byte) : list (list byte) :=
  match l with
  | [] => match current with [] => [] | _ => [current] end
  | b :: l =>
    if bool_decide (b = NL) then strip_cr current :: lines_from [] l
    else lines_from (current ++ [b]) l
  end.

Definition lines (s : string) : list string := map of_bytes (lines_from [] (as_bytes s)).

(** ** [str::trim] *)

(** The UTF-8 encodings of the characters with the Unicode property [White_Space]. *)
Definition white_space : list (list byte) :=
  [[x09]; [x0a]; [x0b]; [x0c]; [x0d]; [x20]; [xc2; x85]; [xc2; xa0]; [xe1; x9a; x80];
   [xe2; x80; x80]; [xe2; x80; x81]; [xe2; x80; x82]; [xe2; x80; x83]; [xe2; x80; x84];
   [xe2; x80; x85]; [xe2; x80; x86]; [xe2; x80; x87]; [xe2; x80; x88]; [xe2; x80; x89];
   [xe2; x80; x8a]; [xe2; x80; xa8]; [xe2; x80; xa9]; [xe2; x80; xaf]; [xe2; x81; x9f];
   [xe3; x80; x80]].

Fixpoint starts_with (p l : list byte) : bool :=
  match p, l with
  | [], _ => true
  | a :: p, b :: l => bool_decide (a = b) && starts_with p l
  | _, _ => false
  end.

(** Each step removes at least one byte, so the length is enough fuel. *)
Fixpoint strip (patterns : list (list byte)) (fuel : nat) (l : list byte) : list byte :=
  match fuel with
  | O => l
  | S fuel =>
    match List.find (fun p => starts_with p l) patterns with
    | Some p => strip patterns fuel (drop (length p) l)
    | None => l
    end
  end.

Definition trim_start (l : list byte) : list byte := strip white_space (length l) l.
Definition trim_end (l : list byte) : list byte :=
  reverse (strip (map reverse white_space) (length l) (reverse l)).
Definition trim (s : string) : string := of_bytes (trim_end (trim_start (as_bytes s))).

(** ** [lines.join("\n")] *)

Fixpoint join (sep : string) (l : list string) : string :=
  match l with
  | [] => ""
  | [s] => s
  | s :: l => s +:+ sep +:+ join sep l
  end.

(** ["\n"] and the double quote *)
Definition newline : string := of_bytes [NL].
Definition quote : string := of_bytes [x22].

(** [b as char]: the character of the same number, in UTF-8. *)
Definition byte_char (b : byte) : list byte :=
  let n := Byte.to_N b in
  if bool_decide (n < 128)%N then [b]
  else [default x00 (Byte.of_N (192 + n / 64)); default x00 (Byte.of_N (128 + n mod 64))].

(** [eq_ignore_ascii_case] *)
Definition ascii_lower (b : byte) : Z :=
  let z := Z.of_N (Byte.to_N b) in if bool_decide (65 <= z <= 90)%Z then (z + 32)%Z else z.
Definition eq_ignore_ascii_case (a b : list byte) : bool :=
  bool_decide (map ascii_lower a = map ascii_lower b).

(** The segments of a dotted path; [split('.')]; [splitn(2, '.')] at every level takes one of them. *)
Fixpoint segments (path : string) : list string :=
  match path with
  | EmptyString => [""%string]
  | String c path =>
    if bool_decide (String c "" = ".")%string then ""%string :: segments path
    else match segments path with
         | x :: l => String c x :: l
         | [] => [String c ""]
         end
  end.

(** [str::parse] of an integer: an optional sign and at least one digit. *)
Fixpoint parse_digits (acc : Z) (l : list byte) : option Z :=
  match l with
  | [] => Some acc
  | b :: l => let d := (Z.of_N (Byte.to_N b) - 48)%Z in
              if bool_decide (0 <= d <= 9)%Z then parse_digits (10 * acc + d) l else None
  end.
Definition parse_integer (s : string) : option Z :=
  match as_bytes s with
  | [] => None
  | x2d :: (_ :: _ as l) => Z.opp <$> parse_digits 0 l
  | x2b :: (_ :: _ as l) => parse_digits 0 l
  | l => parse_digits 0 l
  end.
Definition in_i32 (n : Z) : bool := bool_decide (- 2 ^ 31 <= n < 2 ^ 31)%Z.
Definition in_i64 (n : Z) : bool := bool_decide (- 2 ^ 63 <= n < 2 ^ 63)%Z.
Definition parse_i32 (s : string) : option Z := n ← parse_integer s; if in_i32 n then Some n else None.
Definition parse_i64 (s : string) : option Z := n ← parse_integer s; if in_i64 n then Some n else None.

(** ** Lines written by [writeln!] *)

(** Text that [writeln!] puts on one line and [trim] leaves alone. *)
Definition single_line (s : string) : Prop :=
  NL ∉ as_bytes s /\ CR ∉ as_bytes s /\ s <> "" /\ trim s = s.

(** The file that a sequence of [writeln!] leaves. *)
Definition file_of (ls : list string) : string :=
  of_bytes (concat (map (fun s => as_bytes s ++ [NL]) ls)).

Lemma strip_cr_id l : CR ∉ l -> strip_cr l = l.
Proof.
  intros H. unfold strip_cr. destruct (last l) as [b|] eqn:Hb; [|done].
  rewrite bool_decide_eq_false_2; [done|]. intros ->. apply H.
  apply last_Some in Hb as [l' ->]. set_solver.
Qed.

Lemma lines_from_line current l rest :
  NL ∉ l -> lines_from current (l ++ [NL] ++ rest) = strip_cr (current ++ l) :: lines_from [] rest.
Proof.
  revert current. induction l as [|b l IH]; intros current Hl.
  - cbn [app lines_from]. by rewrite bool_decide_eq_true_2, app_nil_r.
  - cbn [app lines_from]. rewrite bool_decide_eq_false_2 by set_solver.
    rewrite IH by set_solver. by rewrite <-app_assoc.
Qed.

(** Reading a written file gives the lines written. *)
Lemma lines_file_of ls : Forall single_line ls -> lines (file_of ls) = ls.
Proof.
  unfold lines, file_of. rewrite as_bytes_of_bytes.
  induction 1 as [|s ls (Hnl & Hcr & _ & _) _ IH]; [done|].
  cbn [map concat]. rewrite <-app_assoc, lines_from_line by done.
  cbn [app map]. rewrite strip_cr_id by done. by rewrite IH, of_bytes_as_bytes.
Qed.

Lemma file_of_snoc ls s : file_of (ls ++ [s]) = file_of ls +:+ s +:+ newline.
Proof.
  unfold file_of. rewrite map_app, concat_app. cbn [map concat]. rewrite app_nil_r.
  rewrite <-(of_bytes_as_bytes (_ +:+ _)). f_equal.
  by rewrite !as_bytes_app, as_bytes_of_bytes.
Qed.

(** ** Text stays valid UTF-8 *)

Lemma strip_cr_valid l : utf8_valid l = true -> utf8_valid (strip_cr l) = true.
Proof.
  intros Hl. unfold strip_cr. destruct (last l) as [b|] eqn:Hb; [|done].
  case_bool_decide as Hcr; [|done]. subst b. apply last_Some in Hb as [l' ->].
  rewrite length_app. cbn. rewrite Nat.add_sub, take_app_length.
  rewrite utf8_valid_split in Hl by done. by apply andb_true_iff in Hl as [-> _].
Qed.

Lemma lines_from_valid current l :
  utf8_valid (current ++ l) = true ->
  Forall (fun x => utf8_valid x = true) (lines_from current l).
Proof.
  revert current. induction l as [|b l IH]; intros current Hv; cbn.
  - rewrite app_nil_r in Hv. destruct current; by repeat constructor.
  - case_bool_decide as Hb.
    + subst b. rewrite utf8_valid_split in Hv by done. apply andb_true_iff in Hv as [Hc Hl].
      constructor; [by apply strip_cr_valid|by apply IH].
    + apply IH. by rewrite <-app_assoc.
Qed.

Lemma lines_rust_string s : rust_string s -> Forall rust_string (lines s).
Proof.
  intros Hs. unfold lines. apply Forall_map.
  eapply Forall_impl; [by apply (lines_from_valid [])|]. intros l Hl.
  unfold rust_string. cbn. by rewrite as_bytes_of_bytes.
Qed.

Lemma rust_string_app_newline s t :
  rust_string s -> rust_string t -> rust_string (s +:+ newline +:+ t).
Proof.
  unfold rust_string. intros Hs Ht. rewrite !as_bytes_app. unfold newline.
  rewrite as_bytes_of_bytes. cbn [app]. rewrite utf8_valid_split by done. by rewrite Hs, Ht.
Qed.

Lemma join_newline_file_of ls : ls <> [] -> join newline ls +:+ newline = file_of ls.
Proof.
  induction ls as [|s ls IH]; [done|]. intros _. destruct ls as [|s' ls].
  - exact (eq_sym (file_of_snoc [] s)).
  - change (join newline (s :: s' :: ls)) with (s +:+ newline +:+ join newline (s' :: ls)).
    rewrite !string_app_assoc, IH by done. unfold file_of at 2. cbn [map concat].
    rewrite <-app_assoc. rewrite <-(of_bytes_as_bytes (s +:+ _)). f_equal.
    rewrite !as_bytes_app. unfold newline, file_of. by rewrite !as_bytes_of_bytes.
Qed.

Lemma file_of_rust_string ls : Forall rust_string ls -> rust_string (file_of ls).
Proof.
  unfold rust_string, file_of. rewrite as_bytes_of_bytes.
  induction 1 as [|s ls Hs _ IH]; [done|]. cbn [map concat]. rewrite <-app_assoc. cbn [app].
  rewrite utf8_valid_split by done. by rewrite Hs, IH.
Qed.

(** A partial line after complete ones is one more line. *)
Lemma lines_file_of_partial ls s :
  Forall single_line ls -> NL ∉ as_bytes s -> s <> "" ->
  lines (file_of ls +:+ s) = ls ++ [s].
Proof.
  intros Hls Hnl Hne. unfold lines. rewrite as_bytes_app. unfold file_of. rewrite as_bytes_of_bytes.
  induction Hls as [|x ls (Hx & Hcr & _ & _) _ IH]; cbn [map concat app].
  - assert (forall cur l, NL ∉ l -> cur ++ l <> [] -> lines_from cur l = [cur ++ l]) as Hp.
    { intros cur l. revert cur. induction l as [|b l IHl]; intros cur Hl Hc; cbn.
      - rewrite app_nil_r in *. by destruct cur.
      - rewrite bool_decide_eq_false_2 by set_solver. rewrite IHl; [by rewrite <-app_assoc|set_solver|].
        by rewrite <-app_assoc. }
    rewrite Hp; [change ([of_bytes (as_bytes s)] = [s]); by rewrite of_bytes_as_bytes|done|].
    cbn. intros Hs. apply Hne. by rewrite <-(of_bytes_as_bytes s), Hs.
  - rewrite <-!app_assoc, lines_from_line by done. cbn [app map].
    rewrite strip_cr_id by done. rewrite of_bytes_as_bytes. f_equal. exact IH.
Qed.

(** Text without a line break. *)
Definition one_line (s : string) : Prop := NL ∉ as_bytes s /\ CR ∉ as_bytes s /\ s <> "".

Lemma lines_join ls : Forall one_line ls -> lines (join newline ls) = ls.
Proof.
  induction 1 as [|s ls (Hnl & Hcr & Hne) Hls IH]; [done|]. destruct ls as [|s' ls].
  - exact (lines_file_of_partial [] s (Forall_nil_2 _) Hnl Hne).
  - change (join newline (s :: s' :: ls)) with (s +:+ newline +:+ join newline (s' :: ls)).
    unfold lines in *. rewrite !as_bytes_app. unfold newline at 1. rewrite as_bytes_of_bytes.
    rewrite lines_from_line by done. cbn [map app]. rewrite IH, strip_cr_id by done.
    by rewrite of_bytes_as_bytes.
Qed.

(** A file of records, one printed on each line, reads back. *)
Lemma reload_lines {A} (print : A -> string) (parse : string -> option A) (l : list A) :
  (forall x, parse (print x) = Some x) -> (forall x, one_line (print x)) ->
  omap parse (lines (join newline (map print l))) = l.
Proof.
  intros Hrt Hol. rewrite lines_join by (apply Forall_map, Forall_true; exact Hol).
  induction l as [|x l IH]; [done|]. cbn. by rewrite Hrt, IH.
Qed.
