(* ===== verification/Interfaces.v ===== *)
(** * Interfaces to the libraries the audit stack calls

    Each class is the contract of one crate the code under src/ uses but does not
    contain: [ark_bn254::Fr], [light_poseidon], [sha2], [hmac], [hex], [base64],
    [chrono].  The laws are the crates' documented behaviour and nothing more: in
    particular no hash is assumed injective or collision free.  The module
    [Concrete] at the end gives one instance of each class, so that every theorem
    proved against an interface can be evaluated. *)

From S2P Require Import Prelude.
From S2P Require Import Bytes.
From S2P Require Import Text.
Local Open Scope Z_scope.

(** ** [ark_bn254::Fr]: the BN254 scalar field *)

(** The order of the BN254 scalar field, as documented by [ark-bn254]. *)
Definition fr_modulus : Z :=
  21888242871839275222246405745257275088548364400416034343698204186575808495617.

Class PrimeField (F : Type) := {
  #[global] fr_eq_dec :: EqDecision F;
  (** [into_bigint()]: the canonical representative. *)
  into_bigint : F -> Z;
  (** The residue class of an integer ([Fr::from], reduction included). *)
  fr_of_Z : Z -> F;
  into_bigint_range x : 0 <= into_bigint x < fr_modulus;
  into_bigint_of_Z z : into_bigint (fr_of_Z z) = z mod fr_modulus;
  fr_of_Z_into_bigint x : fr_of_Z (into_bigint x) = x;
}.

Section field.
Context {F : Type} `{!PrimeField F}.

(** [Fr::ZERO] *)
Definition fr_zero : F := fr_of_Z 0.
(** [Fr::from_be_bytes_mod_order] *)
Definition from_be_bytes_mod_order (l : list byte) : F := fr_of_Z (of_be_bytes l).
(** [into_bigint().to_bytes_be()]: four 64-bit limbs, 32 bytes. *)
Definition to_bytes_be (x : F) : list byte := be_bytes 32 (into_bigint x).

Lemma length_to_bytes_be x : length (to_bytes_be x) = 32%nat.
Proof. apply length_be_bytes. Qed.

Lemma from_be_to_bytes_be x : from_be_bytes_mod_order (to_bytes_be x) = x.
Proof.
  unfold from_be_bytes_mod_order, to_bytes_be. rewrite of_be_be_bytes.
  rewrite Z.mod_small; [apply fr_of_Z_into_bigint|].
  pose proof (into_bigint_range x). unfold fr_modulus in *.
  change (256 ^ Z.of_nat 32) with (2 ^ 256). lia.
Qed.

#[export] Instance to_bytes_be_inj : Inj (=) (=) to_bytes_be.
Proof. intros x y H. rewrite <-(from_be_to_bytes_be x), H. apply from_be_to_bytes_be. Qed.

Lemma fr_of_Z_eq a b : fr_of_Z a = fr_of_Z b <-> a mod fr_modulus = b mod fr_modulus.
Proof.
  rewrite <-!into_bigint_of_Z. split; [by intros ->|].
  intros H. by rewrite <-(fr_of_Z_into_bigint (fr_of_Z a)), H, fr_of_Z_into_bigint.
Qed.
End field.

#[global] Arguments from_be_bytes_mod_order : simpl never.
#[global] Arguments to_bytes_be : simpl never.
#[global] Arguments fr_zero : simpl never.

(** ** [light_poseidon]

    [Poseidon::<Fr>::new_circom(n)] and [hash] fail only for an unsupported width or
    a number of inputs different from [n]; the code uses [n = 2] with two inputs and
    [n = 7] with seven, so both are total functions here. *)
Class Poseidon (F : Type) := {
  poseidon2 : F -> F -> F;
  poseidon_7 : F -> F -> F -> F -> F -> F -> F -> F;
}.

(** ** [sha2::Sha256] and [hmac::Hmac<Sha256>] *)
Class Sha256 := {
  sha256 : list byte -> list byte;
  length_sha256 l : length (sha256 l) = 32%nat;
}.
Class HmacSha256 := {
  hmac_sha256 : list byte -> list byte -> list byte;
  length_hmac_sha256 k l : length (hmac_sha256 k l) = 32%nat;
}.

(** ** [hex] and [base64] *)
Class Hex := {
  hex_encode : list byte -> string;
  hex_decode : string -> option (list byte);
  hex_decode_encode l : hex_decode (hex_encode l) = Some l;
  (** digits in lower case *)
  hex_encode_lower l :
    Forall (fun b => in_range 48 57 b || in_range 97 102 b = true) (as_bytes (hex_encode l));
  (** two digits a byte *)
  length_hex_encode l : length (as_bytes (hex_encode l)) = (2 * length l)%nat;
}.
Class Base64 := {
  b64_encode : list byte -> string;
  b64_decode : string -> option (list byte);
  b64_decode_encode l : b64_decode (b64_encode l) = Some l;
}.

Lemma hex_encode_ascii `{Hex} l : Forall (fun b => in_range 0 127 b = true) (as_bytes (hex_encode l)).
Proof.
  eapply Forall_impl; [apply hex_encode_lower|]. intros b [Hb|Hb]%orb_true_iff; unfold in_range in *; lia.
Qed.

Lemma hex_encode_rust_string `{Hex} l : rust_string (hex_encode l).
Proof. apply utf8_valid_ascii, hex_encode_ascii. Qed.

#[export] Instance hex_encode_inj `{Hex} : Inj (=) (=) hex_encode.
Proof.
  intros a b Hab. assert (Some a = Some b) as [= ->]; [|done].
  by rewrite <-!hex_decode_encode, Hab.
Qed.

(** ** [chrono]

    An instant is its Unix time in nanoseconds; [timestamp()] is the whole seconds. *)
Class Chrono := {
  to_rfc3339 : Z -> string;
  (** [DateTime::parse_from_rfc3339(s).timestamp()] *)
  parse_rfc3339_secs : string -> option Z;
  parse_to_rfc3339 t : parse_rfc3339_secs (to_rfc3339 t) = Some (t / 1000000000);
}.

(** ** Concrete instances *)
Module Concrete.
#[local] Obligation Tactic := idtac.

Record Fp := MkFp { fp_val : Z; fp_ok : (0 <=? fp_val) && (fp_val <? fr_modulus) = true }.

Lemma Fp_eq (x y : Fp) : fp_val x = fp_val y -> x = y.
Proof.
  destruct x as [x Hx], y as [y Hy]; cbn. intros ->. f_equal. apply (proof_irrel Hx Hy).
Qed.

Lemma fp_mod_ok z : (0 <=? z mod fr_modulus) && (z mod fr_modulus <? fr_modulus) = true.
Proof. pose proof (Z.mod_pos_bound z fr_modulus ltac:(done)). apply andb_true_iff. lia. Qed.

Definition Fp_of_Z (z : Z) : Fp := MkFp (z mod fr_modulus) (fp_mod_ok z).

#[export] Instance Fp_eq_dec : EqDecision Fp.
Proof.
  intros x y. destruct (decide (fp_val x = fp_val y)) as [H|H].
  - left. by apply Fp_eq.
  - right. by intros ->.
Defined.

#[export] Program Instance Fp_field : PrimeField Fp :=
  {| into_bigint := fp_val; fr_of_Z := Fp_of_Z |}.
Next Obligation. intros [x Hx]. cbn. apply andb_true_iff in Hx. lia. Qed.
Next Obligation. done. Qed.
Next Obligation.
  intros [x Hx]. apply Fp_eq. cbn. apply Z.mod_small. apply andb_true_iff in Hx. lia.
Qed.

#[export] Instance Fp_poseidon : Poseidon Fp :=
  {| poseidon2 a b := Fp_of_Z (Z.land (29 * fp_val a + 5 * fp_val b + 7) (2 ^ 32 - 1));
     poseidon_7 a b c d e f g :=
       Fp_of_Z (Z.land (fp_val a + 2 * fp_val b + 3 * fp_val c + 5 * fp_val d
                + 7 * fp_val e + 11 * fp_val f + 13 * fp_val g) (2 ^ 32 - 1)) |}.

Definition mix (l : list byte) : Z :=
  foldl (fun acc b => Z.land (acc * 1009 + Z_of_byte b + 1) (2 ^ 32 - 1)) 0 l.

#[export] Program Instance mix_sha256 : Sha256 :=
  {| sha256 l := be_bytes 32 (mix l) |}.
Next Obligation. intros. apply length_be_bytes. Qed.
#[export] Program Instance mix_hmac : HmacSha256 :=
  {| hmac_sha256 k l := be_bytes 32 (mix (k ++ l)) |}.
Next Obligation. intros. apply length_be_bytes. Qed.

(** Lower-case hexadecimal. *)
Definition hex_digits : list byte := as_bytes "0123456789abcdef".
Definition nibble (z : Z) : byte := nth (Z.to_nat z) hex_digits x30.
Definition nibble_value (b : byte) : option Z :=
  let z := Z_of_byte b in
  if (48 <=? z) && (z <=? 57) then Some (z - 48)
  else if (97 <=? z) && (z <=? 102) then Some (z - 87)
  else if (65 <=? z) && (z <=? 70) then Some (z - 55) else None.
Definition hex_byte (b : byte) : list byte :=
  [nibble (Z_of_byte b / 16); nibble (Z_of_byte b mod 16)].
Definition to_hex (l : list byte) : list byte := concat (map hex_byte l).
Fixpoint of_hex (l : list byte) : option (list byte) :=
  match l with
  | [] => Some []
  | a :: b :: l =>
    x ← nibble_value a; y ← nibble_value b; r ← of_hex l; Some (byte_of_Z (16 * x + y) :: r)
  | _ => None
  end.

Lemma hex_byte_all b :
  nibble_value (nibble (Z_of_byte b / 16)) = Some (Z_of_byte b / 16) /\
  nibble_value (nibble (Z_of_byte b mod 16)) = Some (Z_of_byte b mod 16) /\
  Forall (fun b => in_range 48 57 b || in_range 97 102 b = true) (hex_byte b).
Proof. destruct b; vm_compute; repeat constructor. Qed.

Lemma of_to_hex l : of_hex (to_hex l) = Some l.
Proof.
  induction l as [|b l IH]; [done|]. unfold to_hex in *.
  destruct (hex_byte_all b) as (H1 & H2 & _). cbn [map concat hex_byte app of_hex].
  rewrite H1. cbn. rewrite H2. cbn. rewrite IH. cbn. do 2 f_equal.
  rewrite <-(byte_of_Z_of_byte b) at 3. f_equal.
  pose proof (Z.div_mod (Z_of_byte b) 16 ltac:(lia)). lia.
Qed.

#[export] Program Instance plain_hex : Hex :=
  {| hex_encode l := of_bytes (to_hex l); hex_decode s := of_hex (as_bytes s) |}.
Next Obligation. intros l. cbv beta. by rewrite as_bytes_of_bytes, of_to_hex. Qed.
Next Obligation.
  intros l. cbv beta. rewrite as_bytes_of_bytes. unfold to_hex.
  induction l as [|b l IH]; [constructor|]. cbn [map concat].
  apply Forall_app_2; [apply hex_byte_all|done].
Qed.
Next Obligation.
  intros l. cbv beta. rewrite as_bytes_of_bytes. unfold to_hex.
  induction l as [|b l IH]; [done|]. cbn [map concat]. rewrite length_app, IH. cbn. lia.
Qed.
#[export] Program Instance plain_base64 : Base64 :=
  {| b64_encode := of_bytes; b64_decode s := Some (as_bytes s) |}.
Next Obligation. intros l. cbv beta. by rewrite as_bytes_of_bytes. Qed.

(** An instant is printed as the bits of its (positive) code. *)
Fixpoint pos_bits (p : positive) : list byte :=
  match p with xH => [] | xO p => x30 :: pos_bits p | xI p => x31 :: pos_bits p end.
Fixpoint bits_pos (l : list byte) : positive :=
  match l with
  | [] => xH
  | x30 :: l => xO (bits_pos l)
  | _ :: l => xI (bits_pos l)
  end.
Lemma bits_pos_bits p : bits_pos (pos_bits p) = p.
Proof. induction p as [p IH|p IH|]; cbn; by rewrite ?IH. Qed.

#[export] Program Instance plain_chrono : Chrono :=
  {| to_rfc3339 t := of_bytes (pos_bits (encode t));
     parse_rfc3339_secs s :=
       (fun t => t / 1000000000) <$> decode (bits_pos (as_bytes s)) |}.
Next Obligation. intros t. cbv beta. by rewrite as_bytes_of_bytes, bits_pos_bits, decode_encode. Qed.

(** Any record printed on one line: the bits of its code. *)
Definition plain_print {A} `{Countable A} (x : A) : string := of_bytes (x30 :: pos_bits (encode x)).
Definition plain_parse {A} `{Countable A} (s : string) : option A := decode (bits_pos (drop 1 (as_bytes s))).

Lemma plain_round_trip {A} `{Countable A} (x : A) : plain_parse (plain_print x) = Some x.
Proof.
  unfold plain_parse, plain_print. rewrite as_bytes_of_bytes.
  change (decode (bits_pos (pos_bits (encode x))) = Some x). by rewrite bits_pos_bits, decode_encode.
Qed.

Lemma pos_bits_digits p : Forall (fun b => b = x30 \/ b = x31) (pos_bits p).
Proof. induction p as [p IH|p IH|]; cbn; constructor; auto. Qed.

Lemma plain_one_line {A} `{Countable A} (x : A) : one_line (plain_print x).
Proof.
  unfold one_line, plain_print. rewrite as_bytes_of_bytes.
  pose proof (pos_bits_digits (encode x)) as Hd. rewrite Forall_forall in Hd.
  split_and!; [| |discriminate]; by intros [[=]|[[=]|[=]]%Hd]%elem_of_cons.
Qed.
End Concrete.
