(* ===== verification/PoseidonTree.v ===== *)
(** * The Poseidon Merkle tree (zk-audit/src/merkle.rs)

    The sparse audit tree: leaves are (index, value) pairs, subtrees without leaves
    are looked up in the precomputed zero hashes.  [subtree] and [node] are the
    reference definitions, the hash of the complete binary tree; the theorems show
    that the optimised code computes it, that every proof it generates verifies,
    and that a verifying proof is binding up to a collision among the very pairs
    that were hashed. *)

From S2P Require Import Prelude.
From S2P Require Import Bytes.
From S2P Require Import Interfaces.
Local Open Scope N_scope.

(** zk-audit/src/error.rs; the payload is the fixed part of the message. *)
Inductive ZkAuditError :=
| MerkleTree (msg : string)
| WitnessGeneration (msg : string).

Definition DEFAULT_HEIGHT : nat := 20.

Section tree.
Context {F : Type} `{!PrimeField F, !Poseidon F}.

Record AuditMerkleTree := {
  height : nat;
  (** (index, value) pairs, in insertion order *)
  leaves : list (N * F);
  zero_hashes : list F;
}.

Record InclusionProof := {
  leaf : F;
  leaf_index : N;
  path_elements : list F;
  path_indices : list N;
  proof_root : F;
}.

(** ** Construction *)

(** [zero_hashes[h] = Poseidon(zero_hashes[h-1], zero_hashes[h-1])] for [h] in
    [1..=height], over a vector initialised with zeroes. *)
Definition compute_zero_hashes (height : nat) : list F :=
  foldl (fun zh h => <[h := poseidon2 (nth (h - 1) zh fr_zero) (nth (h - 1) zh fr_zero)]> zh)
        (replicate (height + 1) fr_zero) (seq 1 height).

Definition with_height (height : nat) : result ZkAuditError AuditMerkleTree :=
  let zero_hashes := compute_zero_hashes height in
  Ok {| height := height; leaves := []; zero_hashes := zero_hashes |}.

Definition new : result ZkAuditError AuditMerkleTree := with_height DEFAULT_HEIGHT.

Definition leaf_count (t : AuditMerkleTree) : N := N.of_nat (length (leaves t)).

Definition insert_at (t : AuditMerkleTree) (index : N) (value : F) : AuditMerkleTree :=
  {| height := height t; leaves := leaves t ++ [(index, value)];
     zero_hashes := zero_hashes t |}.

Definition insert (t : AuditMerkleTree) (value : F) : N * AuditMerkleTree :=
  let index := leaf_count t in
  (index, insert_at t index value).

(** ** Hashing *)

(** The [HashMap] both [root] and [prove_inclusion] build: a later pair with the
    same index replaces an earlier one. *)
Definition leaf_map_of (l : list (N * F)) : gmap N F :=
  foldl (fun m p => <[p.1 := p.2]> m) ∅ l.

(** [leaf_map.keys().any(|&k| k >= range_start && k < range_end)] *)
Definition has_nonzero (m : gmap N F) (range_start range_end : N) : bool :=
  existsb (fun k => (range_start <=? k) && (k <? range_end)) (map_to_list m).*1.

Fixpoint compute_subtree_hash (m : gmap N F) (leaf_idx : N) (level : nat)
    (zero_hashes : list F) : F :=
  match level with
  | O => default fr_zero (m !! leaf_idx)
  | S level' =>
    let range_start := leaf_idx in
    let range_end := leaf_idx + N.shiftl 1 (N.of_nat level) in
    if negb (has_nonzero m range_start range_end) then nth level zero_hashes fr_zero
    else
      let left_ := compute_subtree_hash m leaf_idx level' zero_hashes in
      let right_ := compute_subtree_hash m (leaf_idx + N.shiftl 1 (N.of_nat level'))
                                        level' zero_hashes in
      poseidon2 left_ right_
  end.

Definition root (t : AuditMerkleTree) : result ZkAuditError F :=
  if bool_decide (leaves t = []) then Ok (nth (height t) (zero_hashes t) fr_zero)
  else Ok (compute_subtree_hash (leaf_map_of (leaves t)) 0 (height t) (zero_hashes t)).

(** The loop [for level in 0..self.height] of [prove_inclusion], from [level] on
    with [n] levels left: the siblings, the direction bits and the final hash. *)
Fixpoint prove_levels (zh : list F) (m : gmap N F) (n level : nat) (idx : N)
    (current_hash : F) : list F * list N * F :=
  match n with
  | O => ([], [], current_hash)
  | S n =>
    let is_left := idx mod 2 =? 0 in
    let sibling_idx := if is_left then idx + 1 else idx - 1 in
    let sibling_hash :=
      if (level =? 0)%nat then default fr_zero (m !! sibling_idx)
      else compute_subtree_hash m (N.shiftl sibling_idx (N.of_nat level)) level zh in
    let '(left_, right_) :=
      if is_left then (current_hash, sibling_hash) else (sibling_hash, current_hash) in
    let '(elems, dirs, rt) :=
      prove_levels zh m n (S level) (idx / 2) (poseidon2 left_ right_) in
    (sibling_hash :: elems, (if is_left then 0 else 1) :: dirs, rt)
  end.

Definition prove_inclusion (t : AuditMerkleTree) (leaf_index : N)
    : result ZkAuditError InclusionProof :=
  let leaf_map := leaf_map_of (leaves t) in
  leaf ← ok_or (leaf_map !! leaf_index) (MerkleTree "no leaf at index");
  let '(elems, dirs, rt) :=
    prove_levels (zero_hashes t) leaf_map (height t) 0 leaf_index leaf in
  Ok {| leaf := leaf; leaf_index := leaf_index; path_elements := elems;
        path_indices := dirs; proof_root := rt |}.

(** ** [InclusionProof::verify] *)

(** The children of the parent of [current] on the side [dir] selects. *)
Definition children (current sibling : F) (dir : N) : result ZkAuditError (F * F) :=
  match dir with
  | 0 => Ok (current, sibling)
  | 1 => Ok (sibling, current)
  | _ => Err (MerkleTree "malformed proof: path index must be 0 or 1")
  end.

Fixpoint verify_path (current : F) (path : list (F * N)) : result ZkAuditError F :=
  match path with
  | [] => Ok current
  | (sibling, dir) :: path =>
    '(left_, right_) ← children current sibling dir;
    verify_path (poseidon2 left_ right_) path
  end.

Definition verify (p : InclusionProof) : result ZkAuditError bool :=
  if negb (length (path_elements p) =? length (path_indices p))%nat then
    Err (MerkleTree "malformed proof: path elements and path indices differ in number")
  else
    current ← verify_path (leaf p) (zip (path_elements p) (path_indices p));
    Ok (bool_decide (current = proof_root p)).

(** ** Reference definitions *)

(** The hash of the complete subtree of height [level] whose first leaf is [idx]. *)
Fixpoint subtree (m : gmap N F) (idx : N) (level : nat) : F :=
  match level with
  | O => default fr_zero (m !! idx)
  | S level => poseidon2 (subtree m idx level) (subtree m (idx + 2 ^ N.of_nat level) level)
  end.

(** The [i]-th node (from the left) of level [level]. *)
Definition node (m : gmap N F) (level : nat) (i : N) : F :=
  subtree m (i * 2 ^ N.of_nat level) level.

Fixpoint zero_hash (h : nat) : F :=
  match h with O => fr_zero | S h => poseidon2 (zero_hash h) (zero_hash h) end.

(** The pairs a verification hashes, bottom to top. *)
Fixpoint transcript (current : F) (path : list (F * N)) : list (F * F) :=
  match path with
  | [] => []
  | (sibling, dir) :: path =>
    match children current sibling dir with
    | Ok lr => lr :: transcript (poseidon2 lr.1 lr.2) path
    | Err _ => []
    end
  end.

(** Two different pairs with the same hash. *)
Definition collide (x y : F * F) : Prop := x <> y /\ poseidon2 x.1 x.2 = poseidon2 y.1 y.2.

(** A tree built by the code: its zero hashes are those of its height. *)
Definition tree_wf (t : AuditMerkleTree) : Prop :=
  zero_hashes t = compute_zero_hashes (height t).

(** The leaves were appended by [insert] alone. *)
Definition tree_dense (t : AuditMerkleTree) : Prop :=
  (leaves t).*1 = N.of_nat <$> seq 0 (length (leaves t)).

(** ** Shared lemmas *)

Lemma compute_zero_hashes_prefix h k :
  (k <= h)%nat ->
  let zh := foldl (fun zh h => <[h := poseidon2 (nth (h - 1) zh fr_zero)
                                                (nth (h - 1) zh fr_zero)]> zh)
                  (replicate (h + 1) fr_zero) (seq 1 k) in
  length zh = (h + 1)%nat /\ forall i, (i <= k)%nat -> nth i zh fr_zero = zero_hash i.
Proof.
  induction k as [|k IH]; intros Hk; cbn zeta.
  - cbn. split; [by rewrite length_replicate|].
    intros i Hi. replace i with 0%nat by lia. by rewrite (Nat.add_comm h 1).
  - rewrite seq_S, foldl_app. cbn [foldl]. cbn zeta in IH.
    destruct IH as [Hlen IH]; [lia|].
    set (zh := foldl _ _ _) in *.
    replace (1 + k - 1)%nat with k by lia. split; [by rewrite length_insert|].
    intros i Hi. rewrite nth_lookup, list_lookup_insert by lia.
    case_decide as Hi'.
    + destruct Hi' as [<- _]. cbn. by rewrite IH by lia.
    + rewrite <-nth_lookup. apply IH. lia.
Qed.

Lemma nth_compute_zero_hashes h i :
  (i <= h)%nat -> nth i (compute_zero_hashes h) fr_zero = zero_hash i.
Proof. apply (compute_zero_hashes_prefix h h). lia. Qed.

Lemma has_nonzero_true m a b :
  has_nonzero m a b = true <-> exists k, is_Some (m !! k) /\ a <= k < b.
Proof.
  unfold has_nonzero. rewrite existsb_exists. split.
  - intros (k & Hk%list_elem_of_In & Hr).
    apply list_elem_of_fmap in Hk as ([k' v] & -> & Hk%elem_of_map_to_list).
    exists k'. apply andb_true_iff in Hr. change ((k', v).1) with k' in Hr.
    split; [by eauto|lia].
  - intros (k & [v Hk] & Hr). exists k. split.
    + apply list_elem_of_In, list_elem_of_fmap. exists (k, v).
      split; [done|]. by apply elem_of_map_to_list.
    + apply andb_true_iff. lia.
Qed.

Lemma shiftl_1 n : N.shiftl 1 n = 2 ^ n.
Proof. by rewrite N.shiftl_mul_pow2, N.mul_1_l. Qed.

Lemma pow2_S l : 2 ^ N.of_nat (S l) = 2 * 2 ^ N.of_nat l.
Proof. by rewrite Nat2N.inj_succ, N.pow_succ_r'. Qed.

Lemma pow2_pos l : 0 < 2 ^ N.of_nat l.
Proof. apply N.neq_0_lt_0, N.pow_nonzero. done. Qed.

(** A subtree depends only on the leaves in its range. *)
Lemma subtree_ext m1 m2 idx1 idx2 l :
  (forall k, k < 2 ^ N.of_nat l -> default fr_zero (m1 !! (idx1 + k))
                                 = default fr_zero (m2 !! (idx2 + k))) ->
  subtree m1 idx1 l = subtree m2 idx2 l.
Proof.
  revert idx1 idx2. induction l as [|l IH]; intros idx1 idx2 H; cbn.
  - specialize (H 0). rewrite !N.add_0_r in H. apply H. done.
  - rewrite pow2_S in H. f_equal; apply IH; intros k Hk.
    + apply H. lia.
    + rewrite <-!N.add_assoc. apply H. lia.
Qed.

Lemma subtree_zero idx l : subtree ∅ idx l = zero_hash l.
Proof.
  revert idx. induction l as [|l IH]; intros idx; cbn; [done|]. by rewrite !IH.
Qed.

Lemma subtree_no_leaf m idx l :
  (forall k, idx <= k < idx + 2 ^ N.of_nat l -> m !! k = None) ->
  subtree m idx l = zero_hash l.
Proof.
  intros H. rewrite <-(subtree_zero idx). apply subtree_ext. intros k Hk.
  rewrite H by lia. done.
Qed.

(** The optimised recursion computes the complete tree. *)
Lemma compute_subtree_hash_subtree m h idx l :
  (l <= h)%nat ->
  compute_subtree_hash m idx l (compute_zero_hashes h) = subtree m idx l.
Proof.
  revert idx. induction l as [|l IH]; intros idx Hl; [done|].
  cbn [compute_subtree_hash]. rewrite !shiftl_1.
  destruct (has_nonzero m idx (idx + 2 ^ N.of_nat (S l))) eqn:Hz; cbn [negb].
  - rewrite !IH by lia. done.
  - rewrite nth_compute_zero_hashes by done. symmetry. apply subtree_no_leaf.
    intros k Hk. apply eq_None_not_Some. intros Hs.
    enough (has_nonzero m idx (idx + 2 ^ N.of_nat (S l)) = true) by congruence.
    apply has_nonzero_true. eauto.
Qed.

Lemma node_S m l i :
  node m (S l) i = poseidon2 (node m l (2 * i)) (node m l (2 * i + 1)).
Proof.
  unfold node. rewrite pow2_S. cbn [subtree].
  f_equal; f_equal; lia.
Qed.

Lemma leaf_map_of_app l i v :
  leaf_map_of (l ++ [(i, v)]) = <[i := v]> (leaf_map_of l).
Proof. unfold leaf_map_of. by rewrite foldl_app. Qed.

Lemma leaf_map_of_None l i : i ∉ l.*1 -> leaf_map_of l !! i = None.
Proof.
  induction l as [|[j v] l IH] using rev_ind; [done|].
  rewrite fmap_app. cbn. intros Hi. rewrite leaf_map_of_app.
  apply not_elem_of_app in Hi as [Hi Hj]. rewrite not_elem_of_cons in Hj.
  rewrite lookup_insert_ne by (intros ->; by destruct Hj). by apply IH.
Qed.

Lemma leaf_map_of_Some l i v :
  NoDup l.*1 -> (i, v) ∈ l -> leaf_map_of l !! i = Some v.
Proof.
  induction l as [|[j w] l IH] using rev_ind; [set_solver|].
  rewrite fmap_app. cbn. intros (Hnd & Hdis & _)%NoDup_app Hin.
  rewrite leaf_map_of_app. apply elem_of_app in Hin as [Hin|Hin].
  - rewrite lookup_insert_ne; [by apply IH|]. intros ->.
    eapply Hdis; [|by left]. apply list_elem_of_fmap. by exists (i, v).
  - apply list_elem_of_singleton in Hin as [= -> ->]. by rewrite lookup_insert_eq.
Qed.

Lemma node_0 m i : node m 0 i = default fr_zero (m !! i).
Proof. unfold node. cbn. by rewrite N.mul_1_r. Qed.

Lemma compute_subtree_hash_node m h l i :
  (l <= h)%nat ->
  (if (l =? 0)%nat then default fr_zero (m !! i)
   else compute_subtree_hash m (N.shiftl i (N.of_nat l)) l (compute_zero_hashes h))
  = node m l i.
Proof.
  intros Hl. destruct l as [|l]; cbn [Nat.eqb]; [by rewrite node_0|].
  rewrite compute_subtree_hash_subtree by done. by rewrite N.shiftl_mul_pow2.
Qed.

(** The parent of node [i] hashes [i] and its sibling, in the order of [i]'s parity. *)
Lemma node_parent m l i :
  node m (S l) (i / 2) =
  if i mod 2 =? 0 then poseidon2 (node m l i) (node m l (i + 1))
  else poseidon2 (node m l (i - 1)) (node m l i).
Proof.
  rewrite node_S. pose proof (N.div_mod i 2 ltac:(done)) as Hi.
  pose proof (N.mod_lt i 2 ltac:(done)).
  destruct (i mod 2 =? 0) eqn:He; do 2 f_equal; lia.
Qed.

(** The leaf position the direction bits of a path spell. *)
Fixpoint path_position (dirs : list N) : N :=
  match dirs with [] => 0 | d :: dirs => d + 2 * path_position dirs end.

Lemma prove_levels_spec m h n level idx cur es ds rt :
  (level + n <= h)%nat ->
  cur = node m level idx ->
  prove_levels (compute_zero_hashes h) m n level idx cur = (es, ds, rt) ->
  length es = n /\ length ds = n /\
  rt = node m (level + n) (idx / 2 ^ N.of_nat n) /\
  verify_path cur (zip es ds) = Ok rt /\
  path_position ds = idx mod 2 ^ N.of_nat n.
Proof.
  revert level idx cur es ds rt.
  induction n as [|n IH]; intros level idx cur es ds rt Hh -> Hp.
  - injection Hp as <- <- <-. rewrite Nat.add_0_r, N.div_1_r, N.mod_1_r. done.
  - cbn [prove_levels] in Hp. rewrite compute_subtree_hash_node in Hp by lia.
    pose proof (node_parent m level idx) as Hpar.
    destruct (idx mod 2 =? 0) eqn:He; rewrite <-Hpar in Hp.
    all: destruct (prove_levels (compute_zero_hashes h) m n (S level) (idx / 2)
                     (node m (S level) (idx / 2))) as [[es' ds'] rt'] eqn:Hrec.
    all: apply IH in Hrec as (<- & Hds & -> & Hv & Hpos); [|lia|done].
    all: rewrite Nat.add_succ_r, <-Nat.add_succ_l, pow2_S.
    all: rewrite N.Div0.mod_mul_r, <-Hpos, <-N.Div0.div_div.
    all: injection Hp as <- <- <-; split_and!; [by cbn|by cbn; rewrite Hds|done| |].
    all: cbn [zip zip_with verify_path children path_position].
    all: first [unfold mbind, result_bind; cbv beta iota; rewrite <-Hpar; exact Hv
               |pose proof (N.mod_lt idx 2 ltac:(done)); lia].
Qed.

(** The leaf a tree holds at an index ([Fr::ZERO] where none was inserted). *)
Definition leaf_at (t : AuditMerkleTree) (i : N) : F :=
  default fr_zero (leaf_map_of (leaves t) !! i).

(** The root as the hash of the complete tree over the leaves. *)
Definition ideal_root (t : AuditMerkleTree) : F :=
  subtree (leaf_map_of (leaves t)) 0 (height t).

Lemma ideal_root_node t : ideal_root t = node (leaf_map_of (leaves t)) (height t) 0.
Proof. done. Qed.

Lemma prove_inclusion_inv t i p :
  tree_wf t -> prove_inclusion t i = Ok p ->
  let m := leaf_map_of (leaves t) in
  m !! i = Some (leaf p) /\ leaf_index p = i /\
  length (path_elements p) = height t /\ length (path_indices p) = height t /\
  proof_root p = node m (height t) (i / 2 ^ N.of_nat (height t)) /\
  verify p = Ok true /\
  path_position (path_indices p) = i mod 2 ^ N.of_nat (height t).
Proof.
  intros Hwf. unfold prove_inclusion. rewrite Hwf.
  set (m := leaf_map_of (leaves t)). cbn zeta.
  intros (lf & Hlf%ok_or_Ok & Hp)%bind_Ok_inv.
  destruct (prove_levels _ _ _ _ _ _) as [[es ds] rt] eqn:Hl.
  injection Hp as <-. cbn.
  apply prove_levels_spec in Hl as (Hes & Hds & -> & Hv & Hpos); [|lia|].
  - split_and!; try done. unfold verify. cbn. rewrite Hes, Hds, Nat.eqb_refl. cbn.
    rewrite Hv. cbn. by rewrite bool_decide_true.
  - rewrite node_0, Hlf. done.
Qed.

Lemma root_ideal t : tree_wf t -> root t = Ok (ideal_root t).
Proof.
  intros Hwf. unfold root, ideal_root. rewrite Hwf. case_bool_decide as He.
  - rewrite He, nth_compute_zero_hashes by done. by rewrite subtree_zero.
  - by rewrite compute_subtree_hash_subtree.
Qed.

(** A pair of [l] collides with the children of a node of the tree over [m]. *)
Definition collides_with_tree (m : gmap N F) (l : list (F * F)) : Prop :=
  exists x lvl j, x ∈ l /\ collide x (node m lvl (2 * j), node m lvl (2 * j + 1)).

(** The children of some node of the two trees collide. *)
Definition trees_collide (m1 m2 : gmap N F) : Prop :=
  exists lvl j, collide (node m1 lvl (2 * j), node m1 lvl (2 * j + 1))
                        (node m2 lvl (2 * j), node m2 lvl (2 * j + 1)).

Lemma collide_dec (x y : F * F) :
  poseidon2 x.1 x.2 = poseidon2 y.1 y.2 -> x = y \/ collide x y.
Proof. intros H. destruct (decide (x = y)); [by left|by right]. Qed.

Lemma verify_path_sound m level path cur top :
  verify_path cur path = Ok (node m (level + length path) top) ->
  cur = node m level (top * 2 ^ N.of_nat (length path) + path_position path.*2) \/
  collides_with_tree m (transcript cur path).
Proof.
  revert level cur. induction path as [|[sib d] path IH]; intros level cur.
  - cbn. rewrite Nat.add_0_r, N.mul_1_r, N.add_0_r. intros [= ->]. by left.
  - cbn [verify_path length transcript fmap list_fmap path_position].
    rewrite pow2_S, Nat.add_succ_r, <-Nat.add_succ_l.
    intros ([l r] & Hc & Hv)%bind_Ok_inv. rewrite Hc. cbn [fst snd].
    apply IH in Hv as [Hpar|(x & lvl & j & Hx & Hcol)].
    + rewrite node_S in Hpar.
      set (j := top * 2 ^ N.of_nat (length path) + path_position path.*2) in *.
      apply (collide_dec (l, r) (_, _)) in Hpar as [[= -> ->]|Hcol].
      * left. destruct d as [|[d|d|]]; try discriminate Hc.
        all: injection Hc; intros; subst; f_equal; cbn [snd]; lia.
      * right. exists (l, r), level, j. split; [by left|done].
    + right. exists x, lvl, j. split; [by right|done].
Qed.

Lemma node_binding m1 m2 l i :
  node m1 l i = node m2 l i ->
  (forall k, i * 2 ^ N.of_nat l <= k < (i + 1) * 2 ^ N.of_nat l ->
     default fr_zero (m1 !! k) = default fr_zero (m2 !! k)) \/ trees_collide m1 m2.
Proof.
  revert i. induction l as [|l IH]; intros i H.
  - left. intros k Hk. rewrite !node_0 in H. cbn in Hk. by replace k with i by lia.
  - rewrite !node_S in H. apply (collide_dec (_, _) (_, _)) in H as [[= Hl Hr]|Hc].
    + apply IH in Hl as [Hl|?]; [|by right]. apply IH in Hr as [Hr|?]; [|by right].
      left. intros k. rewrite pow2_S. intros Hk.
      destruct (decide (k < (2 * i + 1) * 2 ^ N.of_nat l)); [apply Hl|apply Hr]; lia.
    + right. by exists l, i.
Qed.

(** ** Theorems *)

(** C12: The root the code computes with its sparse, zero-hash-cached
    recursion is the root of the complete binary tree of the configured height
    whose absent leaves are [Fr::ZERO]. *)
Theorem root_is_complete_tree_root t :
  tree_wf t ->
  root t = Ok (subtree (leaf_map_of (leaves t)) 0 (height t)).
Proof. apply root_ideal. Qed.

(** Every proof the tree generates has one sibling per level, verifies, and (for a
    position within capacity) ends in the tree's own root and spells that position. *)
Theorem prove_inclusion_complete t i :
  tree_wf t -> i < 2 ^ N.of_nat (height t) -> is_Some (leaf_map_of (leaves t) !! i) ->
  exists p, prove_inclusion t i = Ok p /\ verify p = Ok true /\
    leaf_map_of (leaves t) !! i = Some (leaf p) /\
    length (path_elements p) = height t /\
    path_position (path_indices p) = i /\
    root t = Ok (proof_root p).
Proof.
  intros Hwf Hi [v Hv].
  assert (exists p, prove_inclusion t i = Ok p) as [p Hp].
  { unfold prove_inclusion. cbn zeta. rewrite Hv. cbn.
    destruct (prove_levels _ _ _ _ _ _) as [[es ds] rt]. eauto. }
  exists p. split; [done|].
  apply prove_inclusion_inv in Hp as (Hlf & _ & Hes & Hds & Hrt & Hver & Hpos); [|done].
  rewrite N.div_small in Hrt by done. rewrite N.mod_small in Hpos by done.
  split_and!; try done. rewrite Hrt. by apply root_ideal.
Qed.

(** C5: Soundness of verification against an anchored root, for proofs of any depth the tree
    has: a proof with [n] siblings that verifies and ends in the tree's root opens the node
    the tree really holds [n] levels under its root, at the position the direction bits
    spell, or else one of the pairs its verification hashed collides with the children of a
    node of the tree.  So a proof of full depth proves the leaf at that position; [verify]
    itself does not look at the depth, and a shorter proof proves an inner node only. *)
Theorem verify_inclusion_sound t p :
  tree_wf t -> root t = Ok (proof_root p) ->
  (length (path_elements p) <= height t)%nat -> verify p = Ok true ->
  let position := path_position (path_indices p) in
  let level := (height t - length (path_elements p))%nat in
  (leaf p = node (leaf_map_of (leaves t)) level position /\
   (length (path_elements p) = height t -> leaf p = leaf_at t position)) \/
  collides_with_tree (leaf_map_of (leaves t))
    (transcript (leaf p) (zip (path_elements p) (path_indices p))).
Proof.
  intros Hwf Hroot Hlen Hv position level. revert Hv. unfold verify.
  destruct (length (path_elements p) =? length (path_indices p))%nat eqn:He; [|done].
  apply Nat.eqb_eq in He. cbn [negb].
  intros (cur & Hcur & [= Hb])%bind_Ok_inv. apply bool_decide_eq_true in Hb as ->.
  rewrite root_ideal in Hroot by done. injection Hroot as Hroot.
  rewrite <-Hroot, ideal_root_node in Hcur.
  assert (height t = level + length (zip (path_elements p) (path_indices p)))%nat as Hz.
  { rewrite length_zip. unfold level. lia. }
  rewrite Hz in Hcur. apply verify_path_sound in Hcur as [Hlf|?]; [|by right].
  rewrite snd_zip, N.mul_0_l in Hlf by lia. left. split; [done|]. intros Hfull.
  rewrite Hlf. unfold level. by rewrite Hfull, Nat.sub_diag, node_0.
Qed.

(** Without siblings the root itself passes for a leaf. *)
Theorem root_verifies_as_leaf r i :
  verify {| leaf := r; leaf_index := i; path_elements := []; path_indices := []; proof_root := r |} = Ok true.
Proof. unfold verify. cbn. by rewrite bool_decide_true. Qed.

(** The root binds every leaf within capacity: two trees of the same height with the
    same root hold the same leaf at every position, or two corresponding nodes have
    different children with the same hash. *)
Theorem root_binds_leaves t1 t2 r :
  tree_wf t1 -> tree_wf t2 -> height t1 = height t2 ->
  root t1 = Ok r -> root t2 = Ok r ->
  (forall i, i < 2 ^ N.of_nat (height t1) -> leaf_at t1 i = leaf_at t2 i) \/
  trees_collide (leaf_map_of (leaves t1)) (leaf_map_of (leaves t2)).
Proof.
  intros Hw1 Hw2 Hh. rewrite !root_ideal, !ideal_root_node by done.
  intros [= H1] [= H2]. rewrite <-H1, <-Hh in H2.
  apply node_binding in H2 as [H|(l & j & Hc & Heq)].
  - left. intros i Hi. unfold leaf_at. symmetry. apply H. lia.
  - right. exists l, j. split; [congruence|done].
Qed.

(** [verify] fails (rather than answering) exactly on a malformed proof: a path whose
    two halves differ in length, or a direction other than 0 and 1. *)
Theorem verify_errors_iff_malformed p :
  is_ok (verify p) = false <->
  length (path_elements p) <> length (path_indices p) \/
  exists d, d ∈ path_indices p /\ 1 < d.
Proof.
  unfold verify. destruct (Nat.eqb_spec (length (path_elements p)) (length (path_indices p)))
    as [He|He]; cbn [negb]; [|cbn; by intuition].
  transitivity (exists d, d ∈ path_indices p /\ 1 < d); [|by intuition].
  generalize (leaf p). revert He. generalize (path_elements p) as es.
  induction (path_indices p) as [|d ds IH]; intros [|e es] He cur; try done.
  - cbn. split; [done|]. intros (d & Hd & _). by apply not_elem_of_nil in Hd.
  - injection He as He. cbn [zip zip_with verify_path].
    destruct (decide (1 < d)) as [Hd|Hd].
    + replace (children cur e d)
        with (@Err ZkAuditError (F * F) (MerkleTree "malformed proof: path index must be 0 or 1")).
      2:{ destruct d as [|[?|?|]]; try done; lia. }
      cbn. split; [|done]. intros _. exists d. split; [by left|done].
    + assert (exists lr, children cur e d = Ok lr) as [[l r] ->].
      { destruct d as [|[?|?|]]; cbn; eauto; lia. }
      cbn [mbind result_bind]. rewrite IH by done. split.
      * intros (d' & Hd' & ?). exists d'. split; [by right|done].
      * intros (d' & [->|Hd']%elem_of_cons & ?); [lia|by exists d'].
Qed.

(** [insert] is append-only: the new leaf goes to the next index, every earlier leaf
    stays where it was, and the dense shape of the tree is kept. *)
Theorem insert_appends t v :
  tree_dense t ->
  let '(i, t') := insert t v in
  i = leaf_count t /\ leaf_count t' = leaf_count t + 1 /\ height t' = height t /\
  tree_dense t' /\ leaf_at t' i = v /\
  (forall j, j <> i -> leaf_at t' j = leaf_at t j).
Proof.
  intros Hd. unfold insert, leaf_count, leaf_at, tree_dense in *. cbn.
  rewrite leaf_map_of_app, length_app. cbn. split_and!; try done; [lia| | |].
  - rewrite fmap_app, Hd, seq_app, fmap_app. by cbn.
  - by rewrite lookup_insert_eq.
  - intros j Hj. by rewrite lookup_insert_ne.
Qed.

(** A tree of height [h] commits to [2^h] positions only: inserting at or past that
    capacity is accepted and leaves the root unchanged. *)
Theorem root_ignores_leaf_past_capacity t i v :
  tree_wf t -> 2 ^ N.of_nat (height t) <= i ->
  root (insert_at t i v) = root t.
Proof.
  intros Hwf Hi. rewrite !root_ideal by done. unfold ideal_root. cbn.
  do 1 f_equal. apply subtree_ext. intros k Hk.
  rewrite leaf_map_of_app, lookup_insert_ne; [done|lia].
Qed.
End tree.

Arguments AuditMerkleTree F : clear implicits.
Arguments InclusionProof F : clear implicits.

(** ** Witnesses *)
Module TreeExample.
Import Concrete.
Definition fp (z : Z) : Fp := Fp_of_Z z.
Definition t0 : AuditMerkleTree Fp :=
  {| height := 3; leaves := []; zero_hashes := compute_zero_hashes 3 |}.
(** Three leaves, appended. *)
Definition t3 : AuditMerkleTree Fp :=
  (insert (insert (insert t0 (fp 11)).2 (fp 22)).2 (fp 33)).2.
Definition p1 : InclusionProof Fp :=
  match prove_inclusion t3 1 with
  | Ok p => p
  | Err _ => {| leaf := fp 0; leaf_index := 0; path_elements := []; path_indices := [];
                proof_root := fp 0 |}
  end.

Lemma t3_wf : tree_wf t3.
Proof. done. Qed.
End TreeExample.

Section tree_witnesses.
Import Concrete TreeExample.

Lemma root_is_complete_tree_root_witness :
  tree_wf t3 /\ root t3 = Ok (subtree (leaf_map_of (leaves t3)) 0 3).
Proof. split; [reflexivity|]. apply (root_is_complete_tree_root t3). reflexivity. Defined.

Lemma prove_inclusion_complete_witness :
  exists p, prove_inclusion t3 1 = Ok p /\ verify p = Ok true /\
    leaf_map_of (leaves t3) !! 1 = Some (leaf p) /\
    length (path_elements p) = 3%nat /\ path_position (path_indices p) = 1 /\
    root t3 = Ok (proof_root p).
Proof.
  apply (prove_inclusion_complete t3 1); [reflexivity|done|].
  vm_compute. eexists. reflexivity.
Defined.

Lemma verify_inclusion_sound_witness :
  (leaf p1 = node (leaf_map_of (leaves t3)) 0 (path_position (path_indices p1)) /\
   (length (path_elements p1) = height t3 -> leaf p1 = leaf_at t3 (path_position (path_indices p1)))) \/
  collides_with_tree (leaf_map_of (leaves t3))
    (transcript (leaf p1) (zip (path_elements p1) (path_indices p1))).
Proof.
  apply (verify_inclusion_sound t3 p1); [reflexivity| |apply (bool_decide_unpack _)|].
  all: vm_compute; reflexivity.
Defined.

Lemma root_binds_leaves_witness :
  (forall i, i < 2 ^ N.of_nat 3 -> leaf_at t3 i = leaf_at (insert_at t3 9 (fp 5)) i) \/
  trees_collide (leaf_map_of (leaves t3)) (leaf_map_of (leaves (insert_at t3 9 (fp 5)))).
Proof.
  eapply (root_binds_leaves t3 (insert_at t3 9 (fp 5))); reflexivity.
Defined.

Lemma insert_appends_witness :
  let '(i, t') := insert t3 (fp 44) in
  i = leaf_count t3 /\ leaf_count t' = leaf_count t3 + 1 /\ height t' = height t3 /\
  tree_dense t' /\ leaf_at t' i = fp 44 /\
  (forall j, j <> i -> leaf_at t' j = leaf_at t3 j).
Proof. apply (insert_appends t3 (fp 44)). reflexivity. Defined.

Lemma root_ignores_leaf_past_capacity_witness :
  root (insert_at t3 8 (fp 99)) = root t3.
Proof. apply (root_ignores_leaf_past_capacity t3 8); [reflexivity|done]. Defined.
End tree_witnesses.
