(* ===== verification/AuditError.v ===== *)
(** * Errors of the audit service (audit-service/src/error.rs)

    The messages of the code are formatted from values; the model keeps their constant
    part, which identifies the failing check. *)

From S2P Require Import Prelude.
From S2P Require Import PoseidonTree.
Local Open Scope string_scope.

Inductive AuditError :=
| Io (msg : string)
| NotFound (msg : string)
| Validation (msg : string)
| Internal (msg : string)
| Mongo (msg : string)
| Credential (msg : string)
| Timeout (msg : string)
| ZkAudit (msg : string).

#[export] Instance AuditError_eq_dec : EqDecision AuditError.
Proof. solve_decision. Defined.

Abbreviation AuditResult := (result AuditError).

(** [impl From<zk_audit::ZkAuditError> for AuditError] *)
Definition from_zk (err : ZkAuditError) : AuditError :=
  match err with
  | MerkleTree msg => ZkAudit ("merkle tree error: " ++ msg)
  | WitnessGeneration msg => ZkAudit ("witness generation failed: " ++ msg)
  end.
