(* ===== verification/OplogCanon.v ===== *)
(** * Canonical oplog encoding (audit-service/src/audit/oplog_canon.rs)

    [write_canonical_bson] turns a BSON value into tagged bytes, sorting document
    fields by key and pinning NaN.  The abstract specification is [norm], the normal
    form of a value (fields sorted, one NaN, the string-like types merged): the
    encoding is a function of the normal form and determines it. *)

From S2P Require Import Prelude.
From S2P Require Import Bytes.
From S2P Require Import Interfaces.
Local Open Scope Z_scope.

(** ** The [bson::Bson] enum

    Machine integers are [Z]; a [Double] is its 64 bits; fixed-size arrays are byte
    lists; a [Document] is its insertion-ordered field list. *)
Unset Elimination Schemes.
Inductive Bson :=
| Null
| Boolean (b : bool)
| Int32 (n : Z)
| Int64 (n : Z)
| Double (bits : Z)
| BString (s : string)
| ObjectId (oid : list byte)
| DateTime (ms : Z)
| Timestamp (time increment : Z)
| Binary (subtype : byte) (bytes : list byte)
| RegularExpression (pattern options : string)
| Array (l : list Bson)
| Document (d : list (string * Bson))
| Decimal128 (bytes : list byte)
| JavaScriptCode (s : string)
| Symbol (s : string)
| JavaScriptCodeWithScope (code : string) (scope : list (string * Bson))
| Undefined
| MaxKey
| MinKey
| DbPointer (namespace : string) (id : list byte).
Set Elimination Schemes.

(** Structural induction through the nested lists. *)
Section bson_ind.
Context (P : Bson -> Prop).
Context (HNull : P Null) (HBoolean : forall b, P (Boolean b))
  (HInt32 : forall n, P (Int32 n)) (HInt64 : forall n, P (Int64 n))
  (HDouble : forall n, P (Double n)) (HString : forall s, P (BString s))
  (HObjectId : forall o, P (ObjectId o)) (HDateTime : forall n, P (DateTime n))
  (HTimestamp : forall t i, P (Timestamp t i)) (HBinary : forall t b, P (Binary t b))
  (HRegex : forall p o, P (RegularExpression p o))
  (HArray : forall l, Forall P l -> P (Array l))
  (HDocument : forall d, Forall (fun kv => P kv.2) d -> P (Document d))
  (HDecimal : forall b, P (Decimal128 b)) (HJs : forall s, P (JavaScriptCode s))
  (HSymbol : forall s, P (Symbol s))
  (HJsw : forall c s, P (JavaScriptCodeWithScope c s))
  (HUndefined : P Undefined) (HMax : P MaxKey) (HMin : P MinKey)
  (HDbPointer : forall n i, P (DbPointer n i)).

Fixpoint Bson_nested_ind (v : Bson) : P v :=
  match v with
  | Null => HNull | Boolean b => HBoolean b | Int32 n => HInt32 n | Int64 n => HInt64 n
  | Double n => HDouble n | BString s => HString s | ObjectId o => HObjectId o
  | DateTime n => HDateTime n | Timestamp t i => HTimestamp t i
  | Binary t b => HBinary t b | RegularExpression p o => HRegex p o
  | Array l =>
    HArray l ((fix go l : Forall P l := match l with
                           | [] => Forall_nil_2 _
                           | v :: l => Forall_cons_2 _ v l (Bson_nested_ind v) (go l)
                           end) l)
  | Document d =>
    HDocument d ((fix go d : Forall (fun kv => P kv.2) d := match d with
                              | [] => Forall_nil_2 _
                              | (k, v) :: d =>
                                Forall_cons_2 (fun kv => P kv.2) (k, v) d
                                  (Bson_nested_ind v) (go d)
                              end) d)
  | Decimal128 b => HDecimal b | JavaScriptCode s => HJs s | Symbol s => HSymbol s
  | JavaScriptCodeWithScope c s => HJsw c s
  | Undefined => HUndefined | MaxKey => HMax | MinKey => HMin
  | DbPointer n i => HDbPointer n i
  end.
End bson_ind.

(** [impl Display for Bson], used by the fallback arm (code of the [bson] crate). *)
Class BsonDisplay := { bson_to_string : Bson -> string }.

(** ** Encoding *)

Definition TAG_NULL : byte := x01.
Definition TAG_BOOL : byte := x02.
Definition TAG_INT32 : byte := x03.
Definition TAG_INT64 : byte := x04.
Definition TAG_DOUBLE : byte := x05.
Definition TAG_STRING : byte := x06.
Definition TAG_OBJECT_ID : byte := x07.
Definition TAG_DATE_TIME : byte := x08.
Definition TAG_TIMESTAMP : byte := x09.
Definition TAG_BINARY : byte := x0a.
Definition TAG_REGEX : byte := x0b.
Definition TAG_ARRAY : byte := x0c.
Definition TAG_DOCUMENT : byte := x0d.
Definition TAG_DECIMAL128 : byte := x0e.

Definition CANONICAL_FIELDS : list string := ["ns"; "o"; "o2"; "op"; "t"; "ts"; "ui"; "v"]%string.

Definition CANONICAL_NAN_BITS : Z := 9221120237041090560. (* 0x7ff8000000000000 *)

(** [f64::is_nan] on the bits: all exponent bits set and a non-zero fraction. *)
Definition is_nan (bits : Z) : bool :=
  (Z.land (Z.shiftr bits 52) 2047 =? 2047) && negb (Z.land bits (2 ^ 52 - 1) =? 0).

Definition canonical_bits (bits : Z) : Z :=
  if is_nan bits then CANONICAL_NAN_BITS else bits.

(** [(bytes.len() as u32).to_le_bytes()] *)
Definition len_u32 {A} (l : list A) : list byte := le_bytes 4 (Z.of_nat (length l)).

(** [buf.extend(len); buf.extend(bytes)] *)
Definition lp (l : list byte) : list byte := len_u32 l ++ l.

(** [a.0.cmp(&b.0)] on the keys: byte-lexicographic order. *)
Definition key_le {A} (a b : string * A) : bool := String.leb a.1 b.1.

Definition enc_pair (kv : string * list byte) : list byte := lp (as_bytes kv.1) ++ kv.2.

Section canon.
Context {display : BsonDisplay}.

(** The bytes [write_canonical_bson] appends to the buffer. *)
Fixpoint write_canonical_bson (value : Bson) : list byte :=
  match value with
  | Null => [TAG_NULL]
  | Boolean b => [TAG_BOOL; if b then x01 else x00]
  | Int32 n => TAG_INT32 :: le_bytes 4 n
  | Int64 n => TAG_INT64 :: le_bytes 8 n
  | Double bits => TAG_DOUBLE :: le_bytes 8 (canonical_bits bits)
  | BString s => TAG_STRING :: lp (as_bytes s)
  | ObjectId oid => TAG_OBJECT_ID :: oid
  | DateTime ms => TAG_DATE_TIME :: le_bytes 8 ms
  | Timestamp time increment => TAG_TIMESTAMP :: le_bytes 4 time ++ le_bytes 4 increment
  | Binary subtype bytes => TAG_BINARY :: subtype :: lp bytes
  | RegularExpression pattern options =>
    TAG_REGEX :: lp (as_bytes pattern) ++ lp (as_bytes options)
  | Array arr => TAG_ARRAY :: len_u32 arr ++ concat (map write_canonical_bson arr)
  | Document doc =>
    let pairs := map (fun '(k, v) => (k, write_canonical_bson v)) doc in
    TAG_DOCUMENT :: len_u32 pairs ++ concat (map enc_pair (sort_by key_le pairs))
  | Decimal128 d => TAG_DECIMAL128 :: d
  | JavaScriptCode s | Symbol s => TAG_STRING :: lp (as_bytes s)
  | JavaScriptCodeWithScope code _ => TAG_STRING :: lp (as_bytes code)
  | other => TAG_STRING :: lp (as_bytes (bson_to_string other))
  end.

Definition canonicalize_bson (value : Bson) : list byte := write_canonical_bson value.

(** [entry.get(field)]; the keys of a [bson::Document] are distinct. *)
Fixpoint doc_get (entry : list (string * Bson)) (field : string) : option Bson :=
  match entry with
  | [] => None
  | (k, v) :: entry => if decide (k = field) then Some v else doc_get entry field
  end.

(** [entry.contains_key(field)] *)
Definition contains_key (entry : list (string * Bson)) (field : string) : bool :=
  match doc_get entry field with Some _ => true | None => false end.

Definition canonicalize_oplog_entry (entry : list (string * Bson)) : list byte :=
  let present_fields := List.filter (contains_key entry) CANONICAL_FIELDS in
  len_u32 present_fields ++
  concat (map (fun field => lp (as_bytes field) ++
                 match doc_get entry field with
                 | Some value => write_canonical_bson value
                 | None => []  (* unreachable: [expect("field exists")] *)
                 end) present_fields).

Definition hash_oplog_entry `{!Sha256} (entry : list (string * Bson)) : list byte :=
  sha256 (canonicalize_oplog_entry entry).

(** ** Specification: the normal form of a value *)

Fixpoint norm (value : Bson) : Bson :=
  match value with
  | Double bits => Double (canonical_bits bits)
  | Array l => Array (map norm l)
  | Document d => Document (sort_by key_le (map (fun '(k, v) => (k, norm v)) d))
  | JavaScriptCode s | Symbol s => BString s
  | JavaScriptCodeWithScope code _ => BString code
  | Undefined | MaxKey | MinKey | DbPointer _ _ => BString (bson_to_string value)
  | value => value
  end.

Definition str_ok (s : string) : Prop := u_range 4 (Z.of_nat (length (as_bytes s))).

(** What the Rust types guarantee (integer widths, array lengths, distinct keys), and
    lengths below [2^32], which the [as u32] casts need. *)
Fixpoint bson_ok (value : Bson) : Prop :=
  match value with
  | Null | Boolean _ => True
  | Int32 n => i_range 4 n
  | Int64 n | DateTime n => i_range 8 n
  | Double n => u_range 8 n
  | BString s | JavaScriptCode s | Symbol s | JavaScriptCodeWithScope s _ => str_ok s
  | ObjectId o => length o = 12%nat
  | Timestamp t i => u_range 4 t /\ u_range 4 i
  | Binary _ b => u_range 4 (Z.of_nat (length b))
  | RegularExpression p o => str_ok p /\ str_ok o
  | Array l => u_range 4 (Z.of_nat (length l)) /\ fold_right and True (map bson_ok l)
  | Document d =>
    u_range 4 (Z.of_nat (length d)) /\ NoDup (map fst d) /\
    fold_right and True (map (fun '(k, v) => str_ok k /\ bson_ok v) d)
  | Decimal128 b => length b = 16%nat
  | other => str_ok (bson_to_string other)
  end.

Definition entry_ok (entry : list (string * Bson)) : Prop :=
  forall f v, doc_get entry f = Some v -> bson_ok v.

(** ** Lemmas *)

Lemma lp_inj a b r1 r2 :
  u_range 4 (Z.of_nat (length a)) -> u_range 4 (Z.of_nat (length b)) ->
  lp a ++ r1 = lp b ++ r2 -> a = b /\ r1 = r2.
Proof.
  intros Ha Hb. unfold lp, len_u32. rewrite <-!app_assoc. intros H.
  apply app_inj_len in H as [Hl Hr]; [|by rewrite !length_le_bytes].
  apply le_bytes_inj_u in Hl; [|done|done]. apply app_inj_len in Hr; [done|lia].
Qed.

Lemma le_app_inj n a b r1 r2 :
  le_bytes n a ++ r1 = le_bytes n b ++ r2 -> le_bytes n a = le_bytes n b /\ r1 = r2.
Proof. intros H. apply app_inj_len in H; [done|]. by rewrite !length_le_bytes. Qed.

Lemma str_lp_inj s1 s2 r1 r2 :
  str_ok s1 -> str_ok s2 ->
  lp (as_bytes s1) ++ r1 = lp (as_bytes s2) ++ r2 -> s1 = s2 /\ r1 = r2.
Proof. intros H1 H2 [Hs ->]%lp_inj; [|done..]. by apply (inj as_bytes) in Hs as ->. Qed.

Lemma key_le_total {A} (a b : string * A) : key_le a b = true \/ key_le b a = true.
Proof. apply String.leb_total. Qed.
Lemma key_le_trans {A} (a b c : string * A) :
  key_le a b = true -> key_le b c = true -> key_le a c = true.
Proof.
  unfold key_le. rewrite <-!Is_true_true. apply (transitivity (R:=String.le)).
Qed.

Lemma canonical_bits_idemp bits : canonical_bits (canonical_bits bits) = canonical_bits bits.
Proof. unfold canonical_bits at 2 3. destruct (is_nan bits) eqn:Hn; [done|].
  unfold canonical_bits. by rewrite Hn. Qed.

(** Encoding and normalising a field list commute with sorting it. *)
Lemma sort_fields {A B} (f : A -> B) (d : list (string * A)) :
  sort_by key_le (map (fun '(k, v) => (k, f v)) d)
  = map (fun '(k, v) => (k, f v)) (sort_by key_le d).
Proof. apply sort_by_map. by intros [] []. Qed.

Lemma sort_fields_idemp {A} (d : list (string * A)) :
  sort_by key_le (sort_by key_le d) = sort_by key_le d.
Proof. apply sort_by_id, sort_by_sorted; [apply key_le_total|apply key_le_trans]. Qed.

Lemma write_norm v : write_canonical_bson (norm v) = write_canonical_bson v.
Proof.
  induction v using Bson_nested_ind; try done; cbn.
  - by rewrite canonical_bits_idemp.
  - unfold len_u32. rewrite length_map, map_map. do 3 f_equal.
    by apply map_ext_Forall.
  - unfold len_u32. rewrite !length_map, length_sort_by, length_map. do 2 f_equal.
    rewrite (sort_fields _ (sort_by _ _)), sort_fields_idemp, <-sort_fields, map_map.
    do 3 f_equal. apply map_ext_Forall.
    eapply Forall_impl; [done|]. intros [k v] Hv. cbn in *. by rewrite Hv.
Qed.

Lemma concat_map_inj {A B} (ok : A -> Prop) (f : A -> list byte) (n : A -> B) l1 l2 r1 r2 :
  Forall (fun a => forall b r1 r2, ok b -> f a ++ r1 = f b ++ r2 -> n a = n b /\ r1 = r2) l1 ->
  Forall ok l2 -> length l1 = length l2 ->
  concat (map f l1) ++ r1 = concat (map f l2) ++ r2 -> map n l1 = map n l2 /\ r1 = r2.
Proof.
  intros H1. revert l2. induction H1 as [|a l1 Ha _ IH]; intros [|b l2] H2 Hlen H; try done.
  cbn in *. apply Forall_cons in H2 as [Hb H2]. rewrite <-!app_assoc in H.
  apply Ha in H as [-> H']; [|done]. apply IH in H' as [-> ->]; [done|done|lia].
Qed.

Lemma Forall_fold_right {A} (P : A -> Prop) l : fold_right and True (map P l) <-> Forall P l.
Proof.
  induction l as [|a l IH]; cbn; [done|]. by rewrite Forall_cons, IH.
Qed.

(** The induction step for the fields of a document. *)
Lemma fields_inj (d1 d2 : list (string * Bson)) r1 r2 :
  Forall (fun kv => forall v2 r1 r2, bson_ok kv.2 -> bson_ok v2 ->
    write_canonical_bson kv.2 ++ r1 = write_canonical_bson v2 ++ r2 ->
    norm kv.2 = norm v2 /\ r1 = r2) d1 ->
  Forall (fun '(k, v) => str_ok k /\ bson_ok v) d1 ->
  Forall (fun '(k, v) => str_ok k /\ bson_ok v) d2 ->
  length d1 = length d2 ->
  let enc := fun '(k, v) => enc_pair (k, write_canonical_bson v) in
  concat (map enc d1) ++ r1 = concat (map enc d2) ++ r2 ->
  map (fun '(k, v) => (k, norm v)) d1 = map (fun '(k, v) => (k, norm v)) d2 /\ r1 = r2.
Proof.
  intros HP H1 H2 Hlen enc H. eapply concat_map_inj; [|exact H2|done|exact H].
  rewrite Forall_forall in HP. apply Forall_forall. intros [k1 v1] Hin [k2 v2] s1 s2 [Hk2 Hv2].
  rewrite Forall_forall in H1. specialize (HP _ Hin). cbn [snd] in HP.
  destruct (H1 _ Hin) as [Hk1 Hv1].
  unfold enc, enc_pair. cbn. rewrite <-!app_assoc. intros He.
  apply str_lp_inj in He as [-> He]; [|done|done]. apply HP in He as [-> ->]; done.
Qed.

Lemma write_inj v1 v2 r1 r2 :
  bson_ok v1 -> bson_ok v2 ->
  write_canonical_bson v1 ++ r1 = write_canonical_bson v2 ++ r2 ->
  norm v1 = norm v2 /\ r1 = r2.
Proof.
  revert v2 r1 r2. induction v1 using Bson_nested_ind; intros v2 r1 r2 Hok1 Hok2 Heq;
    destruct v2; cbn [write_canonical_bson] in Heq; try discriminate Heq;
    apply (f_equal tail) in Heq; cbn [app tail] in Heq.
  all: cbn [bson_ok] in Hok1, Hok2.
  (* the eight string-like types, in every combination *)
  all: try (apply str_lp_inj in Heq as [Hs ->]; [|done|done]; cbn; by first [done|rewrite Hs]).
  all: cbn [norm].
  - done.
  - injection Heq as Hb ->. by destruct b, b0.
  - apply le_app_inj in Heq as [->%le_bytes_inj_i ->]; done.
  - apply le_app_inj in Heq as [->%le_bytes_inj_i ->]; done.
  - apply le_app_inj in Heq as [H ->]. split; [|done]. f_equal.
    apply (le_bytes_inj_u 8); [| |done].
    all: unfold canonical_bits; case_match; [done|done].
  - apply app_inj_len in Heq as [-> ->]; [done|congruence].
  - apply le_app_inj in Heq as [->%le_bytes_inj_i ->]; done.
  - rewrite <-!app_assoc in Heq. destruct Hok1, Hok2.
    apply le_app_inj in Heq as [->%le_bytes_inj_u Heq]; [|done|done].
    apply le_app_inj in Heq as [->%le_bytes_inj_u ->]; done.
  - assert (subtype = t) as -> by by injection Heq.
    apply (f_equal tail), lp_inj in Heq as [-> ->]; done.
  - rewrite <-!app_assoc in Heq. destruct Hok1, Hok2.
    apply str_lp_inj in Heq as [-> Heq]; [|done|done].
    apply str_lp_inj in Heq as [-> ->]; done.
  - rewrite <-!app_assoc in Heq. destruct Hok1 as [Hl1 Ho1], Hok2 as [Hl2 Ho2].
    rewrite Forall_fold_right in Ho1, Ho2.
    apply le_app_inj in Heq as [Hlen%le_bytes_inj_u Heq]; [|done|done].
    eapply concat_map_inj in Heq as [-> ->]; [done| |exact Ho2|lia].
    rewrite Forall_forall in H, Ho1 |- *. intros a Ha b s1 s2 Hb. by apply H; [|apply Ho1|].
  - destruct Hok1 as (Hl1 & _ & Ho1), Hok2 as (Hl2 & _ & Ho2).
    rewrite Forall_fold_right in Ho1, Ho2. unfold len_u32 in Heq.
    rewrite !length_map, <-!app_assoc, !sort_fields, !map_map in Heq.
    apply le_app_inj in Heq as [Hlen%le_bytes_inj_u Heq]; [|done|done].
    rewrite !sort_fields.
    assert (Hm : forall l, map (fun x => enc_pair (let '(k, v) := x in
                    (k, write_canonical_bson v))) l
                  = map (fun '(k, v) => enc_pair (k, write_canonical_bson v)) l)
      by (intros; apply map_ext; by intros []).
    rewrite !Hm in Heq. apply fields_inj in Heq as [-> ->]; [done| | | |].
    + by apply Forall_sort_by.
    + by apply Forall_sort_by.
    + by apply Forall_sort_by.
    + rewrite !length_sort_by. lia.
  - apply app_inj_len in Heq as [-> ->]; [done|congruence].
Qed.

(** ** Entries *)

(** The canonical projection: the present fields with their values. *)
Definition projection (entry : list (string * Bson)) : list (string * Bson) :=
  omap (fun f => (f,.) <$> doc_get entry f) CANONICAL_FIELDS.

Definition norm_fields (d : list (string * Bson)) : list (string * Bson) :=
  map (fun '(k, v) => (k, norm v)) d.

Lemma canonicalize_oplog_entry_projection entry :
  canonicalize_oplog_entry entry =
  len_u32 (projection entry) ++
  concat (map (fun '(k, v) => enc_pair (k, write_canonical_bson v)) (projection entry)).
Proof.
  unfold canonicalize_oplog_entry, projection, len_u32, contains_key. cbn zeta.
  f_equal; [do 2 f_equal|f_equal].
  - induction CANONICAL_FIELDS as [|f fs IH]; [done|]. cbn.
    destruct (doc_get entry f); cbn; by rewrite IH.
  - induction CANONICAL_FIELDS as [|f fs IH]; [done|]. cbn.
    destruct (doc_get entry f) eqn:Hf; cbn; [|done]. by rewrite Hf, IH.
Qed.

Lemma norm_fields_write d :
  map (fun '(k, v) => enc_pair (k, write_canonical_bson v)) (norm_fields d)
  = map (fun '(k, v) => enc_pair (k, write_canonical_bson v)) d.
Proof.
  unfold norm_fields. rewrite map_map. apply map_ext. intros [k v]. by rewrite write_norm.
Qed.

Lemma elem_of_norm_projection entry f x :
  f ∈ CANONICAL_FIELDS ->
  (f, x) ∈ norm_fields (projection entry) <-> norm <$> doc_get entry f = Some x.
Proof.
  intros Hf. unfold norm_fields, projection. rewrite list_elem_of_fmap. split.
  - intros ([k v] & [= -> ->] & Hin).
    apply list_elem_of_omap in Hin as (f & _ & Hg).
    destruct (doc_get entry f) eqn:Hd; [|done]. injection Hg as -> ->. by rewrite Hd.
  - intros Hn. apply fmap_Some in Hn as (v & Hv & ->). exists (f, v). split; [done|].
    apply list_elem_of_omap. exists f. by rewrite Hv.
Qed.

Lemma norm_projection_ext e1 e2 :
  (forall f, f ∈ CANONICAL_FIELDS -> norm <$> doc_get e1 f = norm <$> doc_get e2 f) ->
  norm_fields (projection e1) = norm_fields (projection e2).
Proof.
  unfold norm_fields, projection. induction CANONICAL_FIELDS as [|f fs IH]; intros H; [done|].
  pose proof (H f (list_elem_of_here _ _)) as Hf.
  assert (map (fun '(k, v) => (k, norm v)) (omap (fun f => (f,.) <$> doc_get e1 f) fs)
        = map (fun '(k, v) => (k, norm v)) (omap (fun f => (f,.) <$> doc_get e2 f) fs)) as Hr.
  { apply IH. intros g Hg. apply H. by right. }
  cbn. destruct (doc_get e1 f), (doc_get e2 f); cbn in *; try done.
  injection Hf as ->. by rewrite Hr.
Qed.

Lemma projection_ok entry :
  entry_ok entry -> Forall (fun '(k, v) => str_ok k /\ bson_ok v) (projection entry).
Proof.
  intros Hok. apply Forall_forall. intros [k v] Hin.
  apply list_elem_of_omap in Hin as (f & Hf & Hg).
  destruct (doc_get entry f) eqn:Hd; [|done]. injection Hg as -> ->.
  split; [|by eapply Hok].
  repeat (apply elem_of_cons in Hf as [->|Hf]; [by vm_compute|]). by apply elem_of_nil in Hf.
Qed.

Lemma length_projection entry : u_range 4 (Z.of_nat (length (projection entry))).
Proof.
  assert (length (projection entry) <= 8)%nat as Hl.
  { unfold projection. change 8%nat with (length CANONICAL_FIELDS).
    induction CANONICAL_FIELDS as [|f fs IH]; [done|]. cbn.
    destruct (doc_get entry f); cbn; lia. }
  unfold u_range. change (256 ^ Z.of_nat 4) with 4294967296. lia.
Qed.

Lemma entry_bytes_norm e1 e2 :
  entry_ok e1 -> entry_ok e2 ->
  canonicalize_oplog_entry e1 = canonicalize_oplog_entry e2 ->
  norm_fields (projection e1) = norm_fields (projection e2).
Proof.
  intros H1 H2. rewrite !canonicalize_oplog_entry_projection. intros Heq.
  apply le_app_inj in Heq as [Hlen%le_bytes_inj_u Heq]; [|apply length_projection..].
  apply (f_equal (fun l => l ++ [])) in Heq.
  eapply fields_inj in Heq as [Heq _]; [exact Heq| | | |lia].
  - apply Forall_forall. intros [k v] _ v2 r1 r2. apply write_inj.
  - by apply projection_ok.
  - by apply projection_ok.
Qed.

Lemma entry_bytes_fields e1 e2 f :
  entry_ok e1 -> entry_ok e2 ->
  canonicalize_oplog_entry e1 = canonicalize_oplog_entry e2 ->
  f ∈ CANONICAL_FIELDS -> norm <$> doc_get e1 f = norm <$> doc_get e2 f.
Proof.
  intros H1 H2 Heq%entry_bytes_norm Hf; [|done..].
  apply option_eq. intros x. rewrite <-!elem_of_norm_projection by done. by rewrite Heq.
Qed.

(** ** Theorems *)

(** Canonical bytes are exactly the normal form of a value: two BSON values have the
    same canonical bytes if and only if they agree up to field order, the choice of NaN
    and the string-like types the encoding merges (JavaScript code, symbols, and the
    types printed with [Display]).  In particular the encoding is deterministic and,
    on normal forms, injective. *)
Theorem canonicalize_bson_eq_iff_norm v1 v2 :
  bson_ok v1 -> bson_ok v2 ->
  canonicalize_bson v1 = canonicalize_bson v2 <-> norm v1 = norm v2.
Proof.
  intros H1 H2. unfold canonicalize_bson. split.
  - intros Heq. by apply (write_inj v1 v2 [] []); [..|rewrite Heq].
  - intros Hn. by rewrite <-write_norm, Hn, write_norm.
Qed.

(** The order of a document's fields does not matter: permuting the fields of a document
    leaves its canonical bytes unchanged. *)
Theorem canonicalize_field_order d1 d2 :
  NoDup (map fst d1) -> d1 ≡ₚ d2 ->
  canonicalize_bson (Document d1) = canonicalize_bson (Document d2).
Proof.
  intros Hnd Hp. unfold canonicalize_bson. cbn. unfold len_u32.
  rewrite !length_map, (Permutation_length Hp). do 2 f_equal. rewrite !sort_fields.
  do 3 f_equal. apply (sorted_perm_unique (fun a b => key_le a b = true)).
  - intros [k1 v1] [k2 v2] Hx Hy Hle1 Hle2. rewrite sort_by_perm in Hx, Hy.
    assert (k1 = k2) as <- by by apply String.leb_antisym.
    apply list_elem_of_lookup in Hx as [i Hi], Hy as [j Hj].
    assert (i = j) as ->; [|congruence].
    eapply (NoDup_lookup (map fst d1)); [done| |].
    + change (map fst d1) with (fst <$> d1). by rewrite list_lookup_fmap, Hi.
    + change (map fst d1) with (fst <$> d1). by rewrite list_lookup_fmap, Hj.
  - apply sort_by_sorted; [apply key_le_total|apply key_le_trans].
  - apply sort_by_sorted; [apply key_le_total|apply key_le_trans].
  - by rewrite !sort_by_perm.
Qed.

(** C13: The canonical bytes of an oplog entry determine, and are determined by, the normal
    forms of its eight canonical fields: an absent field differs from every present
    one, and fields outside the projection do not matter. *)
Theorem canonicalize_oplog_entry_eq_iff e1 e2 :
  entry_ok e1 -> entry_ok e2 ->
  canonicalize_oplog_entry e1 = canonicalize_oplog_entry e2 <->
  (forall f, f ∈ CANONICAL_FIELDS -> norm <$> doc_get e1 f = norm <$> doc_get e2 f).
Proof.
  intros H1 H2. split.
  - intros Heq f. by apply entry_bytes_fields.
  - intros Hn%norm_projection_ext. rewrite !canonicalize_oplog_entry_projection.
    rewrite <-(norm_fields_write (projection e1)), <-(norm_fields_write (projection e2)), Hn.
    apply (f_equal length) in Hn. unfold norm_fields in Hn. rewrite !length_map in Hn.
    unfold len_u32. by rewrite Hn.
Qed.
End canon.

(** ** Witnesses *)
Module OplogExample.
#[export] Instance plain_display : BsonDisplay := {| bson_to_string _ := "other"%string |}.
Definition o1 : list (string * Bson) := [("z", Int32 1); ("a", Double (2 ^ 63 - 1))]%string.
Definition o2 : list (string * Bson) := [("a", Double CANONICAL_NAN_BITS); ("z", Int32 1)]%string.
Definition e1 : list (string * Bson) :=
  [("ts", Timestamp 1000 1); ("op", BString "i"); ("ns", BString "db.coll");
   ("o", Document o1); ("v", Int32 2); ("wall", DateTime 7)]%string.
Definition e2 : list (string * Bson) :=
  [("v", Int32 2); ("ns", BString "db.coll"); ("o", Document o2);
   ("op", BString "i"); ("ts", Timestamp 1000 1)]%string.

Ltac ok_tac :=
  repeat match goal with
  | |- _ /\ _ => split
  | |- NoDup _ => apply (bool_decide_unpack _); vm_compute; exact I
  | |- True => exact I
  | |- bson_ok (Document _) => cbn [bson_ok]; unfold o1, o2; cbn [bson_ok fold_right map fst snd]
  | |- u_range _ _ => split; by vm_compute
  | |- i_range _ _ => split; by vm_compute
  | |- str_ok _ => split; by vm_compute
  | |- bson_ok _ => progress cbn [bson_ok fold_right map fst snd o1 o2]
  end.

Lemma e1_ok : entry_ok e1.
Proof.
  intros f v. unfold e1, doc_get.
  repeat case_decide; intros [= <-]; ok_tac.
Qed.
Lemma e2_ok : entry_ok e2.
Proof.
  intros f v. unfold e2, doc_get.
  repeat case_decide; intros [= <-]; ok_tac.
Qed.
End OplogExample.

Section oplog_witnesses.
Import OplogExample.

Lemma canonicalize_bson_eq_iff_norm_witness :
  canonicalize_bson (Document o1) = canonicalize_bson (Document o2)
  <-> norm (Document o1) = norm (Document o2).
Proof. apply canonicalize_bson_eq_iff_norm; ok_tac. Defined.

Lemma canonicalize_field_order_witness :
  canonicalize_bson (Document o1) = canonicalize_bson (Document (reverse o1)).
Proof.
  apply (canonicalize_field_order o1 (reverse o1)); [ok_tac|].
  symmetry. apply reverse_Permutation.
Defined.

Lemma canonicalize_oplog_entry_eq_iff_witness :
  canonicalize_oplog_entry e1 = canonicalize_oplog_entry e2 <->
  (forall f, f ∈ CANONICAL_FIELDS -> norm <$> doc_get e1 f = norm <$> doc_get e2 f).
Proof. apply (canonicalize_oplog_entry_eq_iff e1 e2 e1_ok e2_ok). Defined.

Example same_entry_different_order :
  canonicalize_oplog_entry e1 = canonicalize_oplog_entry e2.
Proof. vm_compute. reflexivity. Qed.
End oplog_witnesses.
