(* ===== verification/OplogTree.v ===== *)
(** * The oplog Merkle tree and ranges (audit-service/src/audit/oplog.rs)

    A SHA-256 binary Merkle tree over the canonical hashes of oplog entries, kept
    level by level, an odd last node being paired with itself; inclusion proofs and
    their verification; packed timestamps; the clamped computation of a range. *)

From S2P Require Import Prelude.
From S2P Require Import Bytes.
From S2P Require Import Interfaces.
From S2P Require Import AuditError.
From S2P Require Import OplogCanon.
Local Open Scope nat_scope.

(** ** Timestamps *)

Record OplogTimestamp := { time : Z; increment : Z }.  (* two u32 *)

#[export] Instance OplogTimestamp_eq_dec : EqDecision OplogTimestamp.
Proof. solve_decision. Defined.

Definition ts_zero : OplogTimestamp := {| time := 0; increment := 0 |}.
Definition ts_ok (ts : OplogTimestamp) : Prop := u_range 4 (time ts) /\ u_range 4 (increment ts).

(** [((self.time as u64) << 32) | (self.increment as u64)] *)
Definition pack_u64 (ts : OplogTimestamp) : Z :=
  Z.lor (Z.shiftl (time ts) 32) (increment ts).
(** [(packed >> 32) as u32], [(packed & 0xFFFFFFFF) as u32] *)
Definition unpack_u64 (packed : Z) : OplogTimestamp :=
  {| time := Z.shiftr packed 32 mod 2 ^ 32;
     increment := Z.land packed 4294967295 mod 2 ^ 32 |}.

(** The derived [PartialOrd]: [time] first, then [increment]. *)
Definition ts_ltb (a b : OplogTimestamp) : bool :=
  (time a <? time b)%Z || ((time a =? time b)%Z && (increment a <? increment b)%Z).

(** ** The tree *)

Section tree.
Context {Sha : Sha256}.

(** [[u8; 32]] *)
Abbreviation hash := (list byte).

Record OplogMerkleTree := {
  leaves : list hash;
  nodes : list (list hash);
  tree_root : hash;
}.

(** [hasher.update(left); hasher.update(right); hasher.finalize()] *)
Definition hash_pair (left_ right_ : hash) : hash := sha256 (left_ ++ right_).

(** The body of the outer loop: the parents of one level. *)
Fixpoint next_level (current : list hash) : list hash :=
  match current with
  | [] => []
  | [left_] => [hash_pair left_ left_]
  | left_ :: right_ :: rest => hash_pair left_ right_ :: next_level rest
  end.

(** [while current.len() > 1]: the levels above [current] and the last one.  The
    length at least halves (rounding up), so [length current] iterations suffice. *)
Fixpoint build_levels (fuel : nat) (current : list hash) : list (list hash) * list hash :=
  match fuel with
  | O => ([], current)
  | S fuel =>
    if length current <=? 1 then ([], current)
    else let next := next_level current in
         let '(up, top) := build_levels fuel next in (next :: up, top)
  end.

(** [b"empty_oplog_tree"] *)
Definition empty_oplog_tree : list byte := as_bytes "empty_oplog_tree".

Definition from_leaves (leaves : list hash) : OplogMerkleTree :=
  match leaves with
  | [] => {| leaves := []; nodes := []; tree_root := sha256 empty_oplog_tree |}
  | _ =>
    let '(up, current) := build_levels (length leaves) leaves in
    {| leaves := leaves; nodes := leaves :: up; tree_root := nth 0 current [] |}
  end.

Definition leaf_count (t : OplogMerkleTree) : nat := length (leaves t).

(** [idx ^ 1] *)
Definition sibling (idx : nat) : nat := if Nat.even idx then idx + 1 else idx - 1.

Fixpoint prove_levels (levels : list (list hash)) (idx : nat) : list hash :=
  match levels with
  | [] => []
  | level_nodes :: levels =>
    let sibling_idx := sibling idx in
    (if sibling_idx <? length level_nodes then nth sibling_idx level_nodes []
     else nth idx level_nodes []) :: prove_levels levels (idx / 2)
  end.

(** The loop visits every level but the last one. *)
Definition prove_inclusion (t : OplogMerkleTree) (leaf_index : nat) : option (list hash) :=
  if length (leaves t) <=? leaf_index then None
  else if bool_decide (nodes t = []) then Some []
  else Some (prove_levels (take (length (nodes t) - 1) (nodes t)) leaf_index).

Fixpoint fold_proof (current : hash) (idx : nat) (proof : list hash) : hash :=
  match proof with
  | [] => current
  | s :: proof =>
    fold_proof (if Nat.even idx then hash_pair current s else hash_pair s current)
               (idx / 2) proof
  end.

Definition verify_inclusion (leaf : hash) (leaf_index : nat) (proof : list hash)
    (root : hash) : bool :=
  bool_decide (fold_proof leaf leaf_index proof = root).

(** ** From entries to ranges *)

Context {display : BsonDisplay}.

Abbreviation entry := (list (string * Bson)).

Definition build_oplog_tree (entries : list entry) : OplogMerkleTree :=
  from_leaves (map hash_oplog_entry entries).

Definition compute_oplog_root_hex `{!Hex} (entries : list entry) : string :=
  hex_encode (tree_root (build_oplog_tree entries)).

(** [get_majority_commit_ts], given the reply to the [hello] command. *)
Definition get_majority_commit_ts (result_ : entry) : result AuditError OplogTimestamp :=
  let ts_of (d : option Bson) : option OplogTimestamp :=
    match d with
    | Some (Document op_time) =>
      match doc_get op_time "ts" with
      | Some (Timestamp t i) => Some {| time := t; increment := i |}
      | _ => None
      end
    | _ => None
    end in
  match ts_of (doc_get result_ "lastCommittedOpTime") with
  | Some ts => Ok ts
  | None =>
    let last_write :=
      match doc_get result_ "lastWrite" with
      | Some (Document last_write) => ts_of (doc_get last_write "majorityOpTime")
      | _ => None
      end in
    match last_write with
    | Some ts => Ok ts
    | None => Err (Validation "lastCommittedOpTime not found")
    end
  end.

Record OplogRange := {
  epoch_number : Z;
  start_ts : OplogTimestamp;
  end_ts : OplogTimestamp;
  entry_count : Z;
  oplog_merkle_root_hex : string;
  majority_commit_ts : OplogTimestamp;
}.

(** [compute_oplog_range_hash], over the server's answers: the reply to [hello] and
    [read_oplog_range], which asks the server for the entries of a half-open range. *)
Definition compute_oplog_range_hash `{!Hex}
    (hello : result AuditError entry)
    (read_oplog_range : OplogTimestamp -> OplogTimestamp -> result AuditError (list entry))
    (epoch_number : Z) (start_ts end_ts : OplogTimestamp) : result AuditError OplogRange :=
  reply ← hello;
  majority_ts ← get_majority_commit_ts reply;
  let safe_end_ts := if ts_ltb majority_ts end_ts then majority_ts else end_ts in
  entries ← read_oplog_range start_ts safe_end_ts;
  let tree := from_leaves (map hash_oplog_entry entries) in
  Ok {| epoch_number := epoch_number; start_ts := start_ts; end_ts := safe_end_ts;
        entry_count := Z.of_nat (length entries);
        oplog_merkle_root_hex := hex_encode (tree_root tree);
        majority_commit_ts := majority_ts |}.
End tree.

(** ** Specification *)

Section spec.
Context {Sha : Sha256}.

(** The pairs of siblings one level hashes. *)
Fixpoint pairs (l : list (list byte)) : list (list byte * list byte) :=
  match l with
  | [] => []
  | [a] => [(a, a)]
  | a :: b :: rest => (a, b) :: pairs rest
  end.

(** Every byte string hashed while the levels above [l] are built. *)
Fixpoint level_preimages (fuel : nat) (l : list (list byte)) : list (list byte) :=
  match fuel with
  | O => []
  | S fuel => if length l <=? 1 then []
              else map (fun p => p.1 ++ p.2) (pairs l) ++ level_preimages fuel (next_level l)
  end.
Definition tree_preimages (l : list (list byte)) : list (list byte) :=
  level_preimages (length l) l.

(** The byte strings a verification hashes. *)
Fixpoint proof_preimages (current : list byte) (idx : nat) (proof : list (list byte)) :
    list (list byte) :=
  match proof with
  | [] => []
  | s :: proof =>
    let m := if Nat.even idx then current ++ s else s ++ current in
    m :: proof_preimages (sha256 m) (idx / 2) proof
  end.

(** A collision of SHA-256 between a byte string of [l1] and one of [l2]. *)
Definition sha_collision (l1 l2 : list (list byte)) : Prop :=
  exists x y, x ∈ l1 /\ y ∈ l2 /\ x <> y /\ sha256 x = sha256 y.

Definition hashes (l : list (list byte)) : Prop := Forall (fun h => length h = 32) l.

(** The number of levels above the leaves. *)
Definition depth (l : list (list byte)) : nat := length (build_levels (length l) l).1.
End spec.

(** ** Lemmas *)

Section lemmas.
Context {Sha : Sha256}.
Implicit Types l : list (list byte).

Lemma next_level_pairs l : next_level l = map (fun p => sha256 (p.1 ++ p.2)) (pairs l).
Proof. induction l as [| |a b l IH] using two_ind; cbn; [done..|]. by rewrite IH. Qed.

Lemma length_next_level l : length (next_level l) = (length l + 1) / 2.
Proof.
  induction l as [|a|a b l IH] using two_ind; cbn [next_level length]; [done..|].
  rewrite IH. replace (S (S (length l)) + 1) with (length l + 1 + 1 * 2) by lia.
  rewrite Nat.div_add by lia. lia.
Qed.

Lemma next_level_shrinks l : 2 <= length l -> 1 <= length (next_level l) < length l.
Proof.
  intros. rewrite length_next_level. split.
  - apply Nat.div_le_lower_bound; lia.
  - apply Nat.Div0.div_lt_upper_bound; lia.
Qed.

Lemma hashes_next_level l : hashes (next_level l).
Proof. rewrite next_level_pairs. apply Forall_map, Forall_forall. intros. apply length_sha256. Qed.

(** The sibling the prover reads at a level. *)
Definition sibling_of l idx : list byte :=
  if sibling idx <? length l then nth (sibling idx) l [] else nth idx l [].

Lemma lookup_pairs l idx x :
  l !! idx = Some x ->
  pairs l !! (idx / 2) =
    Some (if Nat.even idx then (x, sibling_of l idx) else (sibling_of l idx, x)).
Proof.
  unfold sibling_of. revert idx.
  induction l as [|a|a b l IH] using two_ind; intros idx Hx; [done| |].
  - destruct idx; [|done]. cbn in *. by injection Hx as ->.
  - destruct idx as [|[|idx]]; [by cbn in *; injection Hx as ->..|].
    cbn in Hx. specialize (IH idx Hx).
    replace (S (S idx) / 2) with (S (idx / 2)).
    2:{ replace (S (S idx)) with (idx + 1 * 2) by lia. rewrite Nat.div_add by lia. lia. }
    assert (sibling (S (S idx)) = S (S (sibling idx))) as ->.
    { unfold sibling. cbn [Nat.even]. destruct (Nat.even idx) eqn:?; [lia|].
      destruct idx; [done|lia]. }
    cbn [pairs length nth Nat.even lookup list_lookup].
    destruct (sibling idx <? length l) eqn:Hs.
    + rewrite (proj2 (Nat.ltb_lt _ _)) by (apply Nat.ltb_lt in Hs; lia). exact IH.
    + rewrite (proj2 (Nat.ltb_ge _ _)) by (apply Nat.ltb_ge in Hs; lia). exact IH.
Qed.

(** What the parent of [x] hashes. *)
Definition parent_preimage l idx (x : list byte) : list byte :=
  if Nat.even idx then x ++ sibling_of l idx else sibling_of l idx ++ x.

Lemma lookup_next_level l idx x :
  l !! idx = Some x -> next_level l !! (idx / 2) = Some (sha256 (parent_preimage l idx x)).
Proof.
  intros Hx%lookup_pairs. rewrite next_level_pairs, list_lookup_fmap, Hx.
  unfold parent_preimage. by destruct (Nat.even idx).
Qed.

Lemma parent_preimage_elem l idx x :
  l !! idx = Some x -> parent_preimage l idx x ∈ map (fun p => p.1 ++ p.2) (pairs l).
Proof.
  intros Hx%lookup_pairs%list_elem_of_lookup_2. apply list_elem_of_fmap.
  eexists; split; [|done]. unfold parent_preimage. by destruct (Nat.even idx).
Qed.

Lemma build_levels_S fuel l :
  build_levels (S fuel) l =
    if length l <=? 1 then ([], l)
    else (next_level l :: (build_levels fuel (next_level l)).1,
          (build_levels fuel (next_level l)).2).
Proof. cbn [build_levels]. case_match; [done|]. by destruct (build_levels _ _). Qed.

(** The fuel is enough: the loop ends with a single node. *)
Lemma build_levels_top fuel l :
  1 <= length l <= fuel -> length (build_levels fuel l).2 = 1.
Proof.
  revert l. induction fuel as [|fuel IH]; intros l Hl; [lia|].
  rewrite build_levels_S. destruct (length l <=? 1) eqn:Hle; cbn [snd]; [lia|].
  apply IH. pose proof (next_level_shrinks l). lia.
Qed.

(** More fuel changes nothing. *)
Lemma build_levels_fuel fuel fuel' l :
  1 <= length l <= fuel -> fuel <= fuel' -> build_levels fuel' l = build_levels fuel l.
Proof.
  revert fuel' l. induction fuel as [|fuel IH]; intros [|fuel'] l Hl Hf; try lia.
  rewrite !build_levels_S. destruct (length l <=? 1) eqn:Hle; [done|].
  pose proof (next_level_shrinks l). rewrite (IH fuel') by lia. done.
Qed.

(** Two levels of the same length with the same number of levels above. *)
Lemma depth_length fuel l1 l2 :
  length l1 = length l2 ->
  length (build_levels fuel l1).1 = length (build_levels fuel l2).1.
Proof.
  revert l1 l2. induction fuel as [|fuel IH]; intros l1 l2 Hl; [done|].
  rewrite !build_levels_S, Hl. case_match; [done|]. cbn [fst length]. f_equal. apply IH.
  by rewrite !length_next_level, Hl.
Qed.

Lemma pairs_inj l1 l2 : length l1 = length l2 -> pairs l1 = pairs l2 -> l1 = l2.
Proof.
  revert l2. induction l1 as [|a|a b l1 IH] using two_ind; intros [|c [|d l2]] Hl; try done.
  - by intros [= ->].
  - cbn. intros [= -> -> H]. do 2 f_equal. apply IH; [cbn in Hl; lia|done].
Qed.

Lemma pairs_elem l p : p ∈ pairs l -> p.1 ∈ l /\ p.2 ∈ l.
Proof. induction l as [|a|a b l IH] using two_ind; cbn; set_solver. Qed.

Lemma length_pairs l1 l2 :
  length l1 = length l2 -> length (pairs l1) = length (pairs l2).
Proof.
  intros H. pose proof (length_next_level l1) as H1. pose proof (length_next_level l2) as H2.
  rewrite next_level_pairs, length_map in H1, H2. by rewrite H1, H2, H.
Qed.

(** Lists with the same hashes are equal, or two of their elements collide. *)
Lemma map_sha_inj m1 m2 :
  map sha256 m1 = map sha256 m2 -> m1 = m2 \/ sha_collision m1 m2.
Proof.
  revert m2. induction m1 as [|x m1 IH]; intros [|y m2]; try done; [by left|].
  cbn. intros [= Hxy Hm]. destruct (decide (x = y)) as [->|Hne].
  - destruct (IH _ Hm) as [->|(u & v & ? & ? & ? & ?)]; [by left|right].
    exists u, v. set_solver.
  - right. exists x, y. set_solver.
Qed.

Lemma sha_collision_mono m1 m2 m1' m2' :
  m1 ⊆ m1' -> m2 ⊆ m2' -> sha_collision m1 m2 -> sha_collision m1' m2'.
Proof. intros H1 H2 (x & y & ? & ? & ?). exists x, y. set_solver. Qed.

Lemma level_binding l1 l2 :
  length l1 = length l2 -> hashes l1 -> hashes l2 -> next_level l1 = next_level l2 ->
  l1 = l2 \/ sha_collision (map (fun p => p.1 ++ p.2) (pairs l1))
                           (map (fun p => p.1 ++ p.2) (pairs l2)).
Proof.
  intros Hl Hh1 Hh2 Heq. rewrite !next_level_pairs in Heq.
  rewrite <-!(map_map (fun p => p.1 ++ p.2) sha256) in Heq.
  apply map_sha_inj in Heq as [Heq|?]; [left|by right].
  apply pairs_inj; [done|].
  assert (forall l p, hashes l -> p ∈ pairs l -> length p.1 = 32) as Hp.
  { intros l p Hh [H1 _]%pairs_elem. exact (proj1 (Forall_forall _ _) Hh _ H1). }
  pose proof (fun p => Hp l1 p Hh1) as Hp1. pose proof (fun p => Hp l2 p Hh2) as Hp2.
  clear -Heq Hp1 Hp2. revert Heq Hp1 Hp2. generalize (pairs l1) (pairs l2).
  induction l as [|[a b] l IH]; intros [|[c d] l'] Heq Hp1 Hp2; try done.
  injection Heq as Hab Hl. apply app_inj_1 in Hab as [-> ->].
  - f_equal. apply IH; [done|set_solver..].
  - transitivity 32; [apply (Hp1 (a, b))|symmetry; apply (Hp2 (c, d))]; set_solver.
Qed.

Lemma build_levels_binding fuel l1 l2 :
  length l1 = length l2 -> 1 <= length l1 <= fuel -> hashes l1 -> hashes l2 ->
  (build_levels fuel l1).2 = (build_levels fuel l2).2 ->
  l1 = l2 \/ sha_collision (level_preimages fuel l1) (level_preimages fuel l2).
Proof.
  revert l1 l2. induction fuel as [|fuel IH]; intros l1 l2 Hl Hf Hh1 Hh2; [lia|].
  rewrite !build_levels_S. cbn [level_preimages]. rewrite <-Hl.
  destruct (length l1 <=? 1) eqn:Hle; cbn [snd]; [by left|]. intros Htop.
  pose proof (next_level_shrinks l1).
  apply IH in Htop as [Hn|Hc]; try apply hashes_next_level; try lia.
  - apply level_binding in Hn as [->|Hc]; [by left| |done..].
    right. eapply sha_collision_mono; [| |done]; set_solver.
  - right. eapply sha_collision_mono; [| |done]; set_solver.
  - by rewrite !length_next_level, Hl.
Qed.

(** Folding the prover's siblings from the leaf reaches the top. *)
Lemma fold_levels_complete fuel l idx x :
  1 <= length l <= fuel -> l !! idx = Some x ->
  let '(up, top) := build_levels fuel l in
  fold_proof x idx (prove_levels (take (length up) (l :: up)) idx) = nth 0 top [].
Proof.
  revert l idx x. induction fuel as [|fuel IH]; intros l idx x Hl Hx; [lia|].
  rewrite build_levels_S. destruct (length l <=? 1) eqn:Hle.
  - apply Nat.leb_le in Hle. pose proof (lookup_lt_Some _ _ _ Hx).
    destruct l as [|a [|]]; cbn in *; try lia. destruct idx; [by injection Hx|lia].
  - pose proof (next_level_shrinks l). apply lookup_next_level in Hx.
    specialize (IH (next_level l) _ _ ltac:(lia) Hx).
    destruct (build_levels fuel (next_level l)) as [up top].
    cbn [fst snd length take prove_levels fold_proof]. rewrite <-IH. f_equal.
    unfold parent_preimage, sibling_of, hash_pair. by destruct (Nat.even idx).
Qed.

(** A proof of the right length that reaches the top starts at the leaf, or its
    hashing collides with the hashing of the tree. *)
Lemma fold_levels_sound fuel l idx x proof :
  1 <= length l <= fuel -> idx < length l -> hashes l -> length x = 32 ->
  hashes proof -> length proof = length (build_levels fuel l).1 ->
  fold_proof x idx proof = nth 0 (build_levels fuel l).2 [] ->
  l !! idx = Some x \/ sha_collision (proof_preimages x idx proof) (level_preimages fuel l).
Proof.
  revert l idx x proof. induction fuel as [|fuel IH]; intros l idx x proof Hl Hi Hh Hx Hp; [lia|].
  rewrite build_levels_S. cbn [level_preimages]. destruct (length l <=? 1) eqn:Hle.
  - apply Nat.leb_le in Hle. intros ->%nil_length_inv.
    destruct l as [|a [|]], idx; cbn in *; try lia. intros ->. by left.
  - pose proof (next_level_shrinks l) as Hn. cbn [fst snd length].
    destruct proof as [|s proof]; [done|]. apply Forall_cons_1 in Hp as [Hs Hp].
    intros Hlen Hfold. destruct (lookup_lt_is_Some_2 l idx Hi) as [y Hy].
    pose proof (lookup_next_level _ _ _ Hy) as Hpar.
    set (m := if Nat.even idx then x ++ s else s ++ x).
    assert (fold_proof (sha256 m) (idx / 2) proof = nth 0 (build_levels fuel (next_level l)).2 [])
      as Hf by (rewrite <-Hfold; unfold m, hash_pair; cbn; by destruct (Nat.even idx)).
    apply IH in Hf as [Hf|Hc];
      [|right; eapply sha_collision_mono; [| |done]; set_solver|lia| | | | |by injection Hlen].
    2: by eapply lookup_lt_Some. 2: apply hashes_next_level. 2: apply length_sha256. 2: done.
    rewrite Hpar in Hf. injection Hf as Hf.
    destruct (decide (m = parent_preimage l idx y)) as [Hm|Hm].
    + left. rewrite Hy. f_equal. pose proof (proj1 (Forall_forall _ _) Hh) as Hh'.
      pose proof (Hh' y (list_elem_of_lookup_2 _ _ _ Hy)).
      unfold m, parent_preimage in Hm. destruct (Nat.even idx).
      * apply app_inj_1 in Hm as [-> _]; [done|congruence].
      * apply app_inj_2 in Hm as [_ ->]; [done|congruence].
    + right. exists m, (parent_preimage l idx y).
      pose proof (parent_preimage_elem _ _ _ Hy). cbn [proof_preimages].
      fold m. split; [set_solver|]. split; [set_solver|]. done.
Qed.

Lemma from_leaves_cons l :
  l <> [] ->
  from_leaves l = {| leaves := l; nodes := l :: (build_levels (length l) l).1;
                     tree_root := nth 0 (build_levels (length l) l).2 [] |}.
Proof. destruct l; [done|]. unfold from_leaves. by destruct (build_levels _ _). Qed.

Lemma tree_root_eq_top l1 l2 :
  l1 <> [] -> length l1 = length l2 ->
  tree_root (from_leaves l1) = tree_root (from_leaves l2) ->
  (build_levels (length l1) l1).2 = (build_levels (length l1) l2).2.
Proof.
  intros Hne Hl. assert (l2 <> []) by (intros ->; by destruct l1).
  rewrite !from_leaves_cons by done. cbn [tree_root]. rewrite <-Hl.
  assert (1 <= length l1) by (destruct l1; [done|cbn; lia]).
  pose proof (build_levels_top (length l1) l1). pose proof (build_levels_top (length l1) l2).
  destruct (build_levels _ l1).2 as [|? []], (build_levels _ l2).2 as [|? []]; cbn in *;
    try lia. congruence.
Qed.
End lemmas.

(** ** Properties *)

Section properties.
Context {Sha : Sha256} {display : BsonDisplay}.

Definition entry := list (string * Bson).

(** Every byte string hashed to obtain the root of a range of entries. *)
Definition range_preimages (entries : list entry) : list (list byte) :=
  map canonicalize_oplog_entry entries ++ tree_preimages (map hash_oplog_entry entries).

(** Two entries record the same write. *)
Definition same_write (e1 e2 : entry) : Prop :=
  forall f, f ∈ CANONICAL_FIELDS -> norm <$> doc_get e1 f = norm <$> doc_get e2 f.

Lemma hashes_entries (entries : list entry) : hashes (map hash_oplog_entry entries).
Proof. apply Forall_map, Forall_forall. intros. apply length_sha256. Qed.

(** Completeness of oplog inclusion proofs: for every index below the number of
    leaves the prover answers, and the verifier accepts the answer for the leaf at
    that index under the root of the tree. *)
Theorem oplog_prove_inclusion_complete (l : list (list byte)) i x :
  l !! i = Some x ->
  exists proof, prove_inclusion (from_leaves l) i = Some proof /\
                length proof = depth l /\
                verify_inclusion x i proof (tree_root (from_leaves l)) = true.
Proof.
  intros Hx. pose proof (lookup_lt_Some _ _ _ Hx) as Hi.
  assert (l <> []) as Hne by (by intros ->).
  unfold prove_inclusion, verify_inclusion, depth. rewrite from_leaves_cons by done.
  cbn [leaves nodes tree_root length]. rewrite (proj2 (Nat.leb_gt _ _)) by done.
  rewrite bool_decide_eq_false_2 by done. eexists; split; [done|].
  pose proof (fold_levels_complete (length l) l i x ltac:(lia) Hx) as Hc.
  destruct (build_levels (length l) l) as [up top]. cbn [fst snd].
  replace (S (length up) - 1) with (length up) by lia. split.
  - assert (forall ls k, length (prove_levels ls k) = length ls) as ->.
    { induction ls; intros k; cbn; auto. }
    rewrite length_take. cbn. lia.
  - by apply bool_decide_eq_true_2.
Qed.

(** Soundness of oplog inclusion proofs: a proof of the tree's depth that the
    verifier accepts is a proof of the leaf at that index, unless the verification
    and the construction of the tree exhibit a SHA-256 collision. *)
Theorem oplog_verify_inclusion_sound (l : list (list byte)) i x proof :
  i < length l -> hashes l -> length x = 32 -> hashes proof -> length proof = depth l ->
  verify_inclusion x i proof (tree_root (from_leaves l)) = true ->
  l !! i = Some x \/ sha_collision (proof_preimages x i proof) (tree_preimages l).
Proof.
  intros Hi Hh Hx Hp Hlen Hv. apply bool_decide_eq_true in Hv.
  assert (l <> []) as Hne by (intros ->; cbn in Hi; lia).
  rewrite from_leaves_cons in Hv by done.
  apply fold_levels_sound; [lia|done..].
Qed.

(** An oplog commitment (root and entry count) determines the committed writes:
    two ranges with the same count and the same root record the same writes in the
    same order, unless hashing them exhibits a SHA-256 collision. *)
Theorem oplog_root_binds_entries (es1 es2 : list entry) :
  length es1 = length es2 -> Forall entry_ok es1 -> Forall entry_ok es2 ->
  tree_root (build_oplog_tree es1) = tree_root (build_oplog_tree es2) ->
  Forall2 same_write es1 es2 \/ sha_collision (range_preimages es1) (range_preimages es2).
Proof.
  intros Hl Hok1 Hok2 Hroot. unfold build_oplog_tree in Hroot.
  destruct (decide (es1 = [])) as [->|Hne]; [left; by destruct es2|].
  assert (length (map hash_oplog_entry es1) = length (map hash_oplog_entry es2)) as Hlm
    by by rewrite !length_map.
  apply tree_root_eq_top in Hroot; [|by destruct es1|done].
  apply build_levels_binding in Hroot as [Heq|Hc]; try apply hashes_entries; try done.
  - unfold hash_oplog_entry in Heq.
    rewrite <-!(map_map canonicalize_oplog_entry sha256) in Heq.
    apply map_sha_inj in Heq as [Heq|Hc]; [left|right].
    + apply map_eq_Forall2 in Heq. eapply Forall2_impl_in; [exact Heq|].
      intros e1 e2 H1 H2 He f. apply entry_bytes_fields; [..|done].
      * exact (proj1 (Forall_forall _ _) Hok1 _ H1).
      * exact (proj1 (Forall_forall _ _) Hok2 _ H2).
    + eapply sha_collision_mono; [| |done]; unfold range_preimages; set_solver.
  - right. unfold range_preimages, tree_preimages. rewrite <-Hlm.
    eapply sha_collision_mono; [| |done]; set_solver.
  - rewrite length_map. destruct es1; [done|cbn; lia].
Qed.

(** The root alone does not determine the number of entries: repeating the last
    leaf of an odd number of leaves (three or more) keeps the root, which is why the
    commitment carries the entry count as well. *)
Theorem oplog_root_needs_count (l : list (list byte)) x :
  Nat.odd (length l + 1) = true -> 2 <= length l ->
  tree_root (from_leaves (l ++ [x])) = tree_root (from_leaves (l ++ [x; x])).
Proof.
  intros Hodd Hlen.
  assert (next_level (l ++ [x]) = next_level (l ++ [x; x])) as Hn.
  { clear Hlen. induction l as [|a|a b l IH] using two_ind; cbn; [done|by cbn in Hodd|].
    f_equal. apply IH. by cbn [length Nat.add] in Hodd; rewrite Nat.odd_succ_succ in Hodd. }
  rewrite !from_leaves_cons by (by destruct l). cbn [tree_root].
  rewrite !length_app. cbn [length]. rewrite !(Nat.add_comm (length l)). cbn [Nat.add].
  rewrite (build_levels_S (length l)), (build_levels_S (S (length l))), !length_app.
  cbn [length]. rewrite !(proj2 (Nat.leb_gt _ _)) by lia. cbn [snd].
  pose proof (next_level_shrinks (l ++ [x])) as Hs. rewrite length_app in Hs. cbn in Hs.
  rewrite (build_levels_fuel (length l) (S (length l))), Hn; [done| |lia].
  rewrite Hn in Hs. lia.
Qed.

(** Packing a timestamp into one [u64] loses nothing and preserves the order. *)
Theorem pack_u64_faithful a b :
  ts_ok a -> ts_ok b ->
  u_range 8 (pack_u64 a) /\ unpack_u64 (pack_u64 a) = a /\
  (ts_ltb a b = true <-> (pack_u64 a < pack_u64 b)%Z).
Proof.
  destruct a as [t i], b as [t' i']. unfold ts_ok, u_range, pack_u64, unpack_u64, ts_ltb.
  cbn [time increment]. change (256 ^ Z.of_nat 4)%Z with (2 ^ 32)%Z. intros [Ht Hi] [Ht' Hi'].
  assert (forall u j, (0 <= j < 2 ^ 32)%Z ->
            Z.lor (Z.shiftl u 32) j = (u * 2 ^ 32 + j)%Z) as Hlor.
  { intros u j Hj. rewrite Z.shiftl_mul_pow2 by lia. rewrite <-Z.add_lor_land.
    assert (Z.land (u * 2 ^ 32) j = 0%Z) as ->; [|lia].
    apply Z.bits_inj'. intros n Hn. rewrite Z.land_spec, Z.bits_0.
    destruct (decide (n < 32)%Z).
    - by rewrite Z.mul_pow2_bits_low by lia.
    - rewrite (Z.bits_above_log2 j n); [by rewrite andb_false_r|lia|].
      destruct (decide (j = 0%Z)) as [->|]; [cbn; lia|]. apply Z.log2_lt_pow2; [lia|].
      eapply Z.lt_le_trans; [apply Hj|]. apply Z.pow_le_mono_r; lia. }
  rewrite !Hlor by done. change (256 ^ Z.of_nat 8)%Z with (2 ^ 64)%Z.
  split; [lia|]. split; [|lia].
  f_equal.
  - rewrite Z.shiftr_div_pow2 by lia. rewrite Z.div_add_l, Z.div_small, Z.add_0_r by lia.
    apply Z.mod_small; lia.
  - change 4294967295%Z with (Z.ones 32). rewrite Z.land_ones by lia.
    rewrite Z.mod_mod by lia. rewrite Z.add_comm, Z.mod_add by lia. apply Z.mod_small; lia.
Qed.

Context {Hexs : Hex}.

(** The range an epoch commits never reaches past the majority-committed point,
    is the requested one when that point allows it, and carries the root and the
    number of exactly the entries read for it. *)
Theorem compute_oplog_range_hash_clamped hello read n start_ end_ r :
  compute_oplog_range_hash hello read n start_ end_ = Ok r ->
  ts_ltb (majority_commit_ts r) (end_ts r) = false /\
  ts_ltb end_ (end_ts r) = false /\
  (end_ts r = end_ \/ end_ts r = majority_commit_ts r) /\
  exists reply entries,
    hello = Ok reply /\ get_majority_commit_ts reply = Ok (majority_commit_ts r) /\
    read start_ (end_ts r) = Ok entries /\
    entry_count r = Z.of_nat (length entries) /\
    oplog_merkle_root_hex r = hex_encode (tree_root (build_oplog_tree entries)) /\
    start_ts r = start_ /\ epoch_number r = n.
Proof.
  unfold compute_oplog_range_hash.
  intros (reply & -> & (m & Hm & (es & Hes & H)%bind_Ok_inv)%bind_Ok_inv)%bind_Ok_inv.
  injection H as <-. cbn [majority_commit_ts end_ts entry_count oplog_merkle_root_hex
    start_ts epoch_number].
  assert (forall a, ts_ltb a a = false) as Hirr
    by (intros [? ?]; unfold ts_ltb; cbn; lia).
  destruct (ts_ltb m end_) eqn:Hlt; rewrite ?Hirr;
    (split; [done|]; split; [|split; [tauto|by exists reply, es]]).
  - destruct m, end_; unfold ts_ltb in *; cbn in *; lia.
  - done.
Qed.

(** Without a majority-committed point in the server's answer (a standalone
    server), or when the server cannot be asked, no range is computed. *)
Theorem compute_oplog_range_hash_needs_majority hello read n start_ end_ :
  (forall reply ts, hello = Ok reply -> get_majority_commit_ts reply <> Ok ts) ->
  is_ok (compute_oplog_range_hash hello read n start_ end_) = false.
Proof.
  intros H. unfold compute_oplog_range_hash. destruct hello as [reply|]; [|done]. cbn.
  destruct (get_majority_commit_ts reply) as [ts|] eqn:Hg; [|done]. by destruct (H reply ts).
Qed.
End properties.

(** ** Witnesses *)

Module OplogTreeExample.
Export OplogExample.
#[export] Existing Instance Concrete.mix_sha256.
#[export] Existing Instance Concrete.plain_hex.

Definition h (n : Z) : list byte := be_bytes 32 n.
Definition l3 : list (list byte) := [h 1; h 2; h 3].
Definition hello_reply : list (string * Bson) :=
  [("lastWrite", Document [("majorityOpTime", Document [("ts", Timestamp 900 5)])])]%string.
Definition server (_ _ : OplogTimestamp) : result AuditError (list (list (string * Bson))) :=
  Ok [e1; e2].
Definition ts (t i : Z) : OplogTimestamp := {| time := t; increment := i |}.
Definition the_range : OplogRange :=
  {| epoch_number := 4; start_ts := ts 800 0; end_ts := ts 900 5; entry_count := 2;
     oplog_merkle_root_hex := hex_encode (tree_root (build_oplog_tree [e1; e2]));
     majority_commit_ts := ts 900 5 |}.
End OplogTreeExample.

Section tree_witnesses.
Import OplogTreeExample.

Lemma oplog_prove_inclusion_complete_witness :
  exists proof, prove_inclusion (from_leaves l3) 2 = Some proof /\
                length proof = depth l3 /\
                verify_inclusion (h 3) 2 proof (tree_root (from_leaves l3)) = true.
Proof. apply (oplog_prove_inclusion_complete l3 2 (h 3)). reflexivity. Defined.

Lemma oplog_verify_inclusion_sound_witness :
  let proof := [h 3; hash_pair (h 1) (h 2)] in
  l3 !! 2 = Some (h 3) \/ sha_collision (proof_preimages (h 3) 2 proof) (tree_preimages l3).
Proof.
  cbv zeta. apply oplog_verify_inclusion_sound.
  - vm_compute. lia.
  - repeat constructor.
  - reflexivity.
  - repeat constructor.
  - reflexivity.
  - vm_compute. reflexivity.
Defined.

Lemma oplog_root_binds_entries_witness :
  Forall2 same_write [e1; e2; e1] [e2; e1; e2] \/
  sha_collision (range_preimages [e1; e2; e1]) (range_preimages [e2; e1; e2]).
Proof.
  apply oplog_root_binds_entries.
  - reflexivity.
  - constructor; [exact e1_ok|]. constructor; [exact e2_ok|]. constructor; [exact e1_ok|constructor].
  - constructor; [exact e2_ok|]. constructor; [exact e1_ok|]. constructor; [exact e2_ok|constructor].
  - vm_compute. reflexivity.
Defined.

Lemma oplog_root_needs_count_witness :
  tree_root (from_leaves [h 1; h 2; h 3]) = tree_root (from_leaves [h 1; h 2; h 3; h 3]).
Proof. apply (oplog_root_needs_count [h 1; h 2] (h 3)); vm_compute; [reflexivity|lia]. Defined.

Lemma pack_u64_faithful_witness :
  u_range 8 (pack_u64 (ts 900 7)) /\ unpack_u64 (pack_u64 (ts 900 7)) = ts 900 7 /\
  (ts_ltb (ts 900 7) (ts 901 0) = true <-> (pack_u64 (ts 900 7) < pack_u64 (ts 901 0))%Z).
Proof. apply pack_u64_faithful; split; split; by vm_compute. Defined.

Lemma compute_oplog_range_hash_clamped_witness :
  ts_ltb (ts 900 5) (end_ts the_range) = false /\
  ts_ltb (ts 1000 0) (end_ts the_range) = false.
Proof.
  destruct (compute_oplog_range_hash_clamped (Ok hello_reply) server 4 (ts 800 0) (ts 1000 0)
              the_range) as (H1 & H2 & _).
  - vm_compute. reflexivity.
  - split; [exact H1|exact H2].
Defined.

Lemma compute_oplog_range_hash_needs_majority_witness :
  is_ok (compute_oplog_range_hash (Ok [("ok", Int32 1)]%string) server 4 ts_zero ts_zero) = false.
Proof.
  apply compute_oplog_range_hash_needs_majority. intros reply ts0 [= <-]. vm_compute. discriminate.
Defined.
End tree_witnesses.
