(* ===== verification/CanonicalPayload.v ===== *)
(** * Canonical payloads and keyed leaves (audit-service/src/audit/crypto.rs)

    The length-prefixed encoding of an audit event's fields, its decoder, the payload
    builders of each operation, and the HMAC leaf of v2 events.  The age encryption of
    the same file only calls the [age] crate and is not modelled. *)

From S2P Require Import Prelude.
From S2P Require Import Bytes.
From S2P Require Import Interfaces.
From S2P Require Import AuditError.
Local Open Scope nat_scope.

(** [serde_json::to_string] of a pair of strings, a two-element JSON array, and the
    parser of the same crate that reads it back. *)
Class SerdePair := {
  pair_to_string : string -> string -> option string;
  pair_from_str : string -> option (string * string);
  pair_from_to_string a b s :
    pair_to_string a b = Some s -> pair_from_str s = Some (a, b);
}.

(** ** Encoding *)

(** [(data.len() as u32).to_be_bytes()] then the data: the cast wraps. *)
Definition push_length_prefixed (buf data : list byte) : list byte :=
  buf ++ be_bytes 4 (Z.of_nat (length data) mod 2 ^ 32) ++ data.

Definition canonical_payload_bytes (operation database collection data : string) : list byte :=
  let buf := [] in
  let buf := push_length_prefixed buf (as_bytes operation) in
  let buf := push_length_prefixed buf (as_bytes database) in
  let buf := push_length_prefixed buf (as_bytes collection) in
  push_length_prefixed buf (as_bytes data).

(** The cursor is the bytes left to read. *)
Definition read_exact (cursor : list byte) (n : nat) (msg : string) :
    result AuditError (list byte * list byte) :=
  if length cursor <? n then Err (Validation msg) else Ok (take n cursor, drop n cursor).

Definition read_length_prefixed (cursor : list byte) : result AuditError (string * list byte) :=
  '(len_buf, cursor) ← read_exact cursor 4 "canonical payload read length";
  let len := Z.to_nat (of_be_bytes len_buf) in
  '(data, cursor) ← read_exact cursor len "canonical payload read data";
  s ← ok_or (from_utf8 data) (Validation "canonical payload utf-8");
  Ok (s, cursor).

Definition decode_canonical_payload (bytes : list byte) :
    result AuditError (string * string * string * string) :=
  let cursor := bytes in
  '(op, cursor) ← read_length_prefixed cursor;
  '(db, cursor) ← read_length_prefixed cursor;
  '(col, cursor) ← read_length_prefixed cursor;
  '(data, cursor) ← read_length_prefixed cursor;
  if negb (length bytes - length cursor =? length bytes) then
    Err (Validation "canonical payload has trailing bytes after decode")
  else Ok (op, db, col, data).

(** ** Payload builders *)

Section builders.
Context `{SP : SerdePair}.
Local Open Scope string_scope.

Definition build_insert_payload (database collection document_json : string) : list byte :=
  canonical_payload_bytes "insert" database collection document_json.

Definition build_update_payload (database collection filter_json update_json : string) :
    list byte :=
  let data := default ("[" +:+ filter_json +:+ "," +:+ update_json +:+ "]")
                      (pair_to_string filter_json update_json) in
  canonical_payload_bytes "update" database collection data.

Definition build_delete_payload (database collection filter_json : string) : list byte :=
  canonical_payload_bytes "delete" database collection filter_json.

Definition build_drop_collection_payload (database collection : string) : list byte :=
  canonical_payload_bytes "drop_collection" database collection "".

Definition build_drop_database_payload (database : string) : list byte :=
  canonical_payload_bytes "drop_database" database "" "".

Definition build_rename_payload (database collection new_name : string) : list byte :=
  canonical_payload_bytes "rename" database collection new_name.

Definition build_create_index_payload (database collection keys_json options_json : string) :
    list byte :=
  let data := default ("[" +:+ keys_json +:+ "," +:+ options_json +:+ "]")
                      (pair_to_string keys_json options_json) in
  canonical_payload_bytes "create_index" database collection data.

Definition build_drop_index_payload (database collection index_name : string) : list byte :=
  canonical_payload_bytes "drop_index" database collection index_name.
End builders.

(** ** The HMAC leaf *)

(** The truncation every leaf derivation shares: 31 bytes and the low nibble of the last. *)
Definition truncate_hash (hash : list byte) : list byte :=
  take 31 hash ++ [byte_of_Z (Z.land (Z_of_byte (nth 31 hash x00)) 15)].

Definition hmac_leaf {F} `{!PrimeField F, !HmacSha256} (key canonical_payload : list byte) : F :=
  let hash := hmac_sha256 key canonical_payload in
  from_be_bytes_mod_order (truncate_hash hash).

#[global] Arguments push_length_prefixed : simpl never.
#[global] Arguments read_length_prefixed : simpl never.

(** ** Lemmas *)

(** A field the encoder does not truncate: a Rust string of less than 4 GiB. *)
Definition field_ok (s : string) : Prop :=
  rust_string s /\ (Z.of_nat (length (as_bytes s)) < 2 ^ 32)%Z.

Lemma canonical_payload_bytes_app op db col data :
  canonical_payload_bytes op db col data =
    push_length_prefixed [] (as_bytes op) ++ push_length_prefixed [] (as_bytes db) ++
    push_length_prefixed [] (as_bytes col) ++ push_length_prefixed [] (as_bytes data).
Proof. unfold canonical_payload_bytes, push_length_prefixed. by rewrite !app_nil_l, <-!app_assoc. Qed.

Lemma read_exact_app l rest n msg : n = length l -> read_exact (l ++ rest) n msg = Ok (l, rest).
Proof.
  intros ->. unfold read_exact. rewrite length_app.
  rewrite (proj2 (Nat.ltb_ge _ _)) by lia. by rewrite take_app_length, drop_app_length.
Qed.

Lemma read_exact_Ok cursor n msg l rest :
  read_exact cursor n msg = Ok (l, rest) -> cursor = l ++ rest /\ length l = n.
Proof.
  unfold read_exact. destruct (length cursor <? n) eqn:Hlt; [done|]. apply Nat.ltb_ge in Hlt.
  intros [= <- <-]. rewrite take_drop, length_take. split; [done|lia].
Qed.

Lemma read_push s rest :
  field_ok s -> read_length_prefixed (push_length_prefixed [] (as_bytes s) ++ rest) = Ok (s, rest).
Proof.
  intros [Hs Hlen]. unfold read_length_prefixed, push_length_prefixed.
  rewrite app_nil_l, <-app_assoc. rewrite read_exact_app by by rewrite length_be_bytes.
  cbn. rewrite read_exact_app.
  - cbn. by rewrite from_utf8_as_bytes.
  - rewrite of_be_be_bytes, !Z.mod_small; lia.
Qed.

Lemma read_length_prefixed_Ok cursor s rest :
  read_length_prefixed cursor = Ok (s, rest) ->
  cursor = push_length_prefixed [] (as_bytes s) ++ rest /\ field_ok s.
Proof.
  unfold read_length_prefixed.
  intros ([len_buf c] & Hlen & Hrest)%bind_Ok_inv. cbn in Hrest.
  apply bind_Ok_inv in Hrest as ([data c'] & Hdata & Hrest). cbn in Hrest.
  apply bind_Ok_inv in Hrest as (s' & Hs & [= -> ->]).
  apply ok_or_Ok, from_utf8_Some in Hs as [<- Hutf].
  apply read_exact_Ok in Hlen as [-> Hl4], Hdata as [-> Hld].
  pose proof (of_le_bytes_range (reverse len_buf)) as Hr. rewrite length_reverse, Hl4 in Hr.
  change (of_le_bytes (reverse len_buf)) with (of_be_bytes len_buf) in Hr.
  assert (Z.of_nat (length (as_bytes s)) = of_be_bytes len_buf) as Hz by lia.
  split; [|split; [done|change (2 ^ 32)%Z with (256 ^ Z.of_nat 4)%Z; lia]].
  unfold push_length_prefixed. rewrite app_nil_l, <-app_assoc. f_equal.
  rewrite Hz. rewrite Z.mod_small by (change (2 ^ 32)%Z with (256 ^ Z.of_nat 4)%Z; lia).
  by rewrite <-Hl4, be_bytes_of.
Qed.

Lemma decode_encode_payload op db col data :
  field_ok op -> field_ok db -> field_ok col -> field_ok data ->
  decode_canonical_payload (canonical_payload_bytes op db col data) = Ok (op, db, col, data).
Proof.
  intros. unfold decode_canonical_payload.
  set (bytes := canonical_payload_bytes op db col data).
  assert (read_length_prefixed bytes = Ok (op, push_length_prefixed [] (as_bytes db) ++
    push_length_prefixed [] (as_bytes col) ++ push_length_prefixed [] (as_bytes data) ++ []))
    as -> by (unfold bytes; rewrite canonical_payload_bytes_app, app_nil_r; by apply read_push).
  cbn. rewrite read_push by done. cbn. rewrite read_push by done.
  cbn. rewrite read_push by done. cbn. by rewrite Nat.sub_0_r, Nat.eqb_refl.
Qed.

Lemma canonical_payload_bytes_inj op db col data op' db' col' data' :
  field_ok op -> field_ok db -> field_ok col -> field_ok data ->
  field_ok op' -> field_ok db' -> field_ok col' -> field_ok data' ->
  canonical_payload_bytes op db col data = canonical_payload_bytes op' db' col' data' ->
  (op, db, col, data) = (op', db', col', data').
Proof.
  intros H1 H2 H3 H4 H1' H2' H3' H4' Heq.
  pose proof (decode_encode_payload _ _ _ _ H1 H2 H3 H4) as Hd.
  rewrite Heq, decode_encode_payload in Hd by done. by injection Hd as -> -> -> ->.
Qed.

(** ** Properties *)

(** The canonical payload encoding is unambiguous, and its decoder accepts exactly
    the encodings: a byte string decodes to four fields if and only if it is their
    encoding and each field is a UTF-8 string of less than 2^32 bytes.  Truncated
    payloads, trailing bytes and malformed UTF-8 are therefore all rejected. *)
Theorem decode_canonical_payload_iff bytes op db col data :
  decode_canonical_payload bytes = Ok (op, db, col, data) <->
  bytes = canonical_payload_bytes op db col data /\
  field_ok op /\ field_ok db /\ field_ok col /\ field_ok data.
Proof.
  split; [|by intros (-> & ? & ? & ? & ?); apply decode_encode_payload].
  unfold decode_canonical_payload.
  intros ([op' c1] & H1 & Hrest)%bind_Ok_inv. cbn in Hrest.
  apply bind_Ok_inv in Hrest as ([db' c2] & H2 & Hrest). cbn in Hrest.
  apply bind_Ok_inv in Hrest as ([col' c3] & H3 & Hrest). cbn in Hrest.
  apply bind_Ok_inv in Hrest as ([data' c4] & H4 & Hrest). cbn in Hrest.
  apply read_length_prefixed_Ok in H1 as [-> ?], H2 as [-> ?], H3 as [-> ?], H4 as [-> ?].
  case_match eqn:Hlen; [done|]. injection Hrest as -> -> -> ->.
  apply negb_false_iff, Nat.eqb_eq in Hlen. split; [|done].
  rewrite canonical_payload_bytes_app. destruct c4; [by rewrite app_nil_r|].
  rewrite !length_app in Hlen. cbn in Hlen. lia.
Qed.

Section update.
Context `{SP : SerdePair}.
Local Open Scope string_scope.

(** The packed data field of an update keeps the filter and the update apart: two
    updates with the same canonical payload have the same database, collection, filter
    and update document. *)
Theorem build_update_payload_inj db col f u db' col' f' u' d d' :
  pair_to_string f u = Some d -> pair_to_string f' u' = Some d' ->
  Forall field_ok [db; col; d; db'; col'; d'] ->
  build_update_payload db col f u = build_update_payload db' col' f' u' ->
  (db, col, f, u) = (db', col', f', u').
Proof.
  unfold build_update_payload. intros Hd Hd' Hok. rewrite Hd, Hd'. cbn [default].
  repeat (apply Forall_cons_1 in Hok as [? Hok]).
  assert (field_ok "update") by (split; by vm_compute).
  intros [= -> -> ->]%canonical_payload_bytes_inj; [|done..].
  apply pair_from_to_string in Hd, Hd'. rewrite Hd in Hd'. by injection Hd' as -> ->.
Qed.
End update.

(** The truncation shared by the leaf derivations does not make a hash a canonical
    field element: two different truncated hashes, one of them the modulus itself, are
    reduced to the same element. *)
Theorem truncated_hash_reduced {F} {PF : PrimeField F} :
  exists h1 h2, length h1 = 32 /\ length h2 = 32 /\
    truncate_hash h1 <> truncate_hash h2 /\
    ~ (of_be_bytes (truncate_hash h2) < fr_modulus)%Z /\
    from_be_bytes_mod_order (F := F) (truncate_hash h1) =
    from_be_bytes_mod_order (truncate_hash h2).
Proof.
  exists (be_bytes 32 0), (be_bytes 32 fr_modulus).
  split_and!; [done..| | |].
  - intros H. apply (f_equal of_be_bytes) in H. vm_compute in H. discriminate.
  - intros H. vm_compute in H. discriminate.
  - apply fr_of_Z_eq. vm_compute. reflexivity.
Qed.
(** ** Witnesses *)

Module PayloadExample.
(** A pair is printed as the length of the first string in unary and the two strings. *)
Definition print_pair (a b : string) : string :=
  of_bytes (List.repeat x00 (length (as_bytes a)) ++ [x01] ++ as_bytes a ++ as_bytes b).
Fixpoint read_pair (l : list byte) (k : nat) : option (string * string) :=
  match l with
  | x00 :: l => read_pair l (S k)
  | x01 :: l => Some (of_bytes (take k l), of_bytes (drop k l))
  | _ => None
  end.

Lemma read_pair_repeat n k l :
  read_pair (List.repeat x00 n ++ [x01] ++ l) k
  = Some (of_bytes (take (n + k) l), of_bytes (drop (n + k) l)).
Proof.
  revert k. induction n as [|n IH]; intros k; [done|].
  change (read_pair (List.repeat x00 n ++ [x01] ++ l) (S k) =
          Some (of_bytes (take (S n + k) l), of_bytes (drop (S n + k) l))).
  by rewrite IH, Nat.add_succ_r.
Qed.

Lemma read_print_pair a b s :
  Some (print_pair a b) = Some s -> read_pair (as_bytes s) 0 = Some (a, b).
Proof.
  intros Hs. assert (s = print_pair a b) as -> by congruence. unfold print_pair.
  rewrite as_bytes_of_bytes, read_pair_repeat, Nat.add_0_r, take_app_length, drop_app_length.
  by rewrite !of_bytes_as_bytes.
Qed.

#[export] Instance plain_pair : SerdePair :=
  {| pair_to_string a b := Some (print_pair a b); pair_from_str s := read_pair (as_bytes s) 0;
     pair_from_to_string := read_print_pair |}.
End PayloadExample.

Lemma build_update_payload_inj_witness :
  (("db", "col", "{}", "{x}") = ("db", "col", "{}", "{x}") :> string * string * string * string)%string.
Proof.
  eapply (build_update_payload_inj (SP := PayloadExample.plain_pair)); [reflexivity..| |reflexivity].
  repeat constructor.
Defined.
