(* ===== verification/Commitment.v ===== *)
(** * The v3 leaf: a keyed Poseidon commitment (zk-audit/src/commitment.rs)

    The seven field elements of an event, their derivation from the event and the
    domain leaf key, and the commitment with its opening. *)

From S2P Require Import Prelude.
From S2P Require Import Bytes.
From S2P Require Import Interfaces.
From S2P Require Import PoseidonTree.
From S2P Require Import CanonicalPayload.
Local Open Scope Z_scope.

Definition COMMITMENT_ARITY : nat := 7.
Definition SALT_DOMAIN_PREFIX : byte := x03.

Section commitment.
Context {F : Type} {PF : PrimeField F} {Pos : Poseidon F} {Sha : Sha256} {Hm : HmacSha256}.

Record LeafOpening := {
  o_key : F; op_h : F; db_h : F; coll_h : F; ts : Z; doc_h : F; salt : F;
}.

(** The fixed-size array is a list of [COMMITMENT_ARITY] elements. *)
Definition to_inputs (o : LeafOpening) : list F :=
  [o_key o; op_h o; db_h o; coll_h o; fr_of_Z (ts o); doc_h o; salt o].

Definition bytes_to_field (bytes : list byte) : F :=
  let hash := sha256 bytes in
  from_be_bytes_mod_order (truncate_hash hash).

Definition str_to_field (s : string) : F := bytes_to_field (as_bytes s).

Definition key_to_field (key : list byte) : F := from_be_bytes_mod_order key.

Definition derive_salt (key canonical_payload : list byte) : F :=
  let out := hmac_sha256 key ([SALT_DOMAIN_PREFIX] ++ canonical_payload) in
  from_be_bytes_mod_order (truncate_hash out).

Definition poseidon7 (inputs : list F) : result ZkAuditError F :=
  match inputs with
  | [a; b; c; d; e; f; g] => Ok (poseidon_7 a b c d e f g)
  | _ => Err (MerkleTree "Poseidon hash failed")
  end.

Definition poseidon_leaf_v3 (key : list byte) (operation database collection : string)
    (ts : Z) (canonical_payload : list byte) : result ZkAuditError (F * LeafOpening) :=
  let opening :=
    {| o_key := key_to_field key; op_h := str_to_field operation;
       db_h := str_to_field database; coll_h := str_to_field collection;
       ts := ts; doc_h := bytes_to_field canonical_payload;
       salt := derive_salt key canonical_payload |} in
  leaf ← poseidon7 (to_inputs opening);
  Ok (leaf, opening).

(** ** Specification *)

(** Two different byte strings that the hash-to-field map sends to one element. *)
Definition field_collision (a b : list byte) : Prop :=
  a <> b /\ bytes_to_field a = bytes_to_field b.

(** Two different input vectors with the same Poseidon hash. *)
Definition poseidon7_collision (x y : list F) : Prop :=
  x <> y /\ poseidon7 x = poseidon7 y.

Lemma bytes_to_field_eq a b : bytes_to_field a = bytes_to_field b -> a = b \/ field_collision a b.
Proof. intros H. destruct (decide (a = b)); [by left|by right]. Qed.

Lemma poseidon_leaf_v3_eq key op db col t payload :
  poseidon_leaf_v3 key op db col t payload =
    Ok (poseidon_7 (key_to_field key) (str_to_field op) (str_to_field db) (str_to_field col)
          (fr_of_Z t) (bytes_to_field payload) (derive_salt key payload),
        {| o_key := key_to_field key; op_h := str_to_field op; db_h := str_to_field db;
           coll_h := str_to_field col; ts := t; doc_h := bytes_to_field payload;
           salt := derive_salt key payload |}).
Proof. done. Qed.

Lemma fr_of_u64_inj a b : u_range 8 a -> u_range 8 b -> fr_of_Z a = fr_of_Z b -> a = b.
Proof.
  unfold u_range. intros Ha Hb [=H]%fr_of_Z_eq.
  assert (256 ^ Z.of_nat 8 < fr_modulus) by by vm_compute.
  by rewrite !Z.mod_small in H by lia.
Qed.

(** C29: the v3 leaf binds the event: two events with the same leaf have the same
    timestamp, operation, database, collection and canonical payload, unless their
    openings are a collision of Poseidon or one of these fields is a collision of the
    hash-to-field map. *)
Theorem leaf_v3_binds key1 op1 db1 col1 t1 p1 key2 op2 db2 col2 t2 p2 leaf o1 o2 :
  u_range 8 t1 -> u_range 8 t2 ->
  poseidon_leaf_v3 key1 op1 db1 col1 t1 p1 = Ok (leaf, o1) ->
  poseidon_leaf_v3 key2 op2 db2 col2 t2 p2 = Ok (leaf, o2) ->
  (t1 = t2 /\ op1 = op2 /\ db1 = db2 /\ col1 = col2 /\ p1 = p2) \/
  poseidon7_collision (to_inputs o1) (to_inputs o2) \/
  field_collision (as_bytes op1) (as_bytes op2) \/
  field_collision (as_bytes db1) (as_bytes db2) \/
  field_collision (as_bytes col1) (as_bytes col2) \/
  field_collision p1 p2.
Proof.
  intros Ht1 Ht2 H1 H2. rewrite !poseidon_leaf_v3_eq in H1, H2.
  injection H1 as Hl1 <-. injection H2 as Hl2 <-.
  match goal with |- _ \/ poseidon7_collision ?x ?y \/ _ => destruct (decide (x = y)) as [Heq|Hne] end.
  2:{ right. left. split; [done|]. unfold poseidon7, to_inputs. cbn. congruence. }
  unfold to_inputs in Heq. cbn in Heq. injection Heq as _ Hop Hdb Hcol Ht Hp _.
  apply fr_of_u64_inj in Ht; [|done..].
  apply bytes_to_field_eq in Hop as [Hop|?]; [|tauto].
  apply bytes_to_field_eq in Hdb as [Hdb|?]; [|tauto].
  apply bytes_to_field_eq in Hcol as [Hcol|?]; [|tauto].
  apply bytes_to_field_eq in Hp as [Hp|?]; [|tauto].
  left. split; [done|].
  rewrite <-(of_bytes_as_bytes op1), <-(of_bytes_as_bytes db1), <-(of_bytes_as_bytes col1).
  rewrite Hop, Hdb, Hcol, !of_bytes_as_bytes. done.
Qed.

(** The derived opening is exactly what opens the leaf, for every event. *)
Theorem leaf_v3_opens key op db col t p :
  exists leaf o, poseidon_leaf_v3 key op db col t p = Ok (leaf, o) /\
    poseidon7 (to_inputs o) = Ok leaf /\ length (to_inputs o) = COMMITMENT_ARITY /\
    ts o = t /\ doc_h o = bytes_to_field p /\ op_h o = str_to_field op.
Proof. eexists _, _. split; [apply poseidon_leaf_v3_eq|]. done. Qed.

End commitment.

Arguments LeafOpening : clear implicits.

Section commitment_witnesses.
Import Concrete.

Lemma leaf_v3_binds_witness :
  let key := be_bytes 32 7 in
  exists leaf o,
    poseidon_leaf_v3 key "insert" "db" "col" 1700000000 (as_bytes "p") = Ok (leaf, o) /\
    ((1700000000 = 1700000000 /\ "insert" = "insert" /\ "db" = "db" /\ "col" = "col" /\
      as_bytes "p" = as_bytes "p")%string \/
     poseidon7_collision (to_inputs o) (to_inputs o) \/
     field_collision (as_bytes "insert") (as_bytes "insert") \/
     field_collision (as_bytes "db") (as_bytes "db") \/
     field_collision (as_bytes "col") (as_bytes "col") \/
     field_collision (as_bytes "p") (as_bytes "p")).
Proof.
  cbv zeta. eexists _, _. split; [reflexivity|].
  eapply leaf_v3_binds; [split; by vm_compute|split; by vm_compute| |]; reflexivity.
Defined.
End commitment_witnesses.
