(* ===== verification/SledStore.v ===== *)
(** * The embedded tree store (audit-service/src/audit/sled_store.rs)

    The persistent leaves, their count and the last root, the resume tokens, the IPFS
    identifiers and the raw entries other managers keep, all in one [sled] database. *)

From S2P Require Import Prelude.
From S2P Require Import Bytes.
From S2P Require Import Interfaces.
From S2P Require Import PoseidonTree.
From S2P Require Import AuditError.
Local Open Scope Z_scope.

(** ** [sled::Db]

    An ordered map from byte strings to byte strings.  Any call can fail; one that
    succeeds does what the map operation does.  [healthy] describes a database whose
    calls succeed. *)
Class SledDb (Db : Type) := {
  contents : Db -> gmap (list byte) (list byte);
  healthy : Db -> Prop;
  (** a database created by [sled::open] *)
  sled_new : Db;
  sled_get : list byte -> Db -> result string (option (list byte));
  sled_insert : list byte -> list byte -> Db -> result string Db;
  sled_remove : list byte -> Db -> result string Db;
  sled_clear : Db -> result string Db;
  sled_flush : Db -> result string Db;
  (** the entries whose key starts with a prefix *)
  sled_scan : list byte -> Db -> result string (list (list byte * list byte));
  sled_get_Ok k db v : sled_get k db = Ok v -> v = contents db !! k;
  sled_insert_Ok k v db db' :
    sled_insert k v db = Ok db' -> contents db' = <[k := v]> (contents db);
  sled_remove_Ok k db db' : sled_remove k db = Ok db' -> contents db' = delete k (contents db);
  sled_clear_Ok db db' : sled_clear db = Ok db' -> contents db' = ∅;
  sled_flush_Ok db db' : sled_flush db = Ok db' -> contents db' = contents db;
  sled_scan_Ok p db l k v :
    sled_scan p db = Ok l -> ((k, v) ∈ l <-> contents db !! k = Some v /\ p `prefix_of` k);
  (** a scan yields each entry once *)
  sled_scan_NoDup p db l : sled_scan p db = Ok l -> NoDup l.*1;
  contents_new : contents sled_new = ∅;
  healthy_new : healthy sled_new;
  healthy_get k db : healthy db -> is_ok (sled_get k db) = true;
  healthy_insert k v db :
    healthy db -> exists db', sled_insert k v db = Ok db' /\ healthy db';
  healthy_flush db : healthy db -> exists db', sled_flush db = Ok db' /\ healthy db';
  healthy_clear db : healthy db -> exists db', sled_clear db = Ok db' /\ healthy db';
  healthy_scan p db : healthy db -> exists l, sled_scan p db = Ok l;
}.

(** ** [String::from_utf8_lossy] *)

(** The length of the well-formed sequence at the head of [l], or of the maximal
    ill-formed part that is replaced. *)
Definition utf8_step (l : list byte) : bool * nat :=
  match l with
  | [] => (true, 0%nat)
  | a :: l =>
    let b := nth 0 l x00 in let c := nth 1 l x00 in let d := nth 2 l x00 in
    if in_range 0 127 a then (true, 1%nat)
    else if in_range 194 223 a then (if cont b then (true, 2%nat) else (false, 1%nat))
    else if in_range 224 239 a then
      if in_range (if Z_of_byte a =? 224 then 160 else 128)
                  (if Z_of_byte a =? 237 then 159 else 191) b
      then (if cont c then (true, 3%nat) else (false, 2%nat)) else (false, 1%nat)
    else if in_range 240 244 a then
      if in_range (if Z_of_byte a =? 240 then 144 else 128)
                  (if Z_of_byte a =? 244 then 143 else 191) b
      then (if cont c then (if cont d then (true, 4%nat) else (false, 3%nat))
            else (false, 2%nat))
      else (false, 1%nat)
    else (false, 1%nat)
  end.

(** U+FFFD *)
Definition replacement_character : list byte := [xef; xbf; xbd].

(** Each step consumes at least one byte, so the length is enough fuel. *)
Fixpoint lossy (fuel : nat) (l : list byte) : list byte :=
  match fuel, l with
  | S fuel, _ :: _ =>
    let '(valid, n) := utf8_step l in
    (if valid then take n l else replacement_character) ++ lossy fuel (drop n l)
  | _, _ => []
  end.

Definition from_utf8_lossy (l : list byte) : string :=
  default (of_bytes (lossy (length l) l)) (from_utf8 l).

(** ** Keys *)

Definition META_LEAF_COUNT : list byte := as_bytes "meta:leaf_count".
Definition META_ROOT_HEX : list byte := as_bytes "meta:root_hex".
Definition LEAF_PREFIX : list byte := as_bytes "leaf:".
Definition RESUME_TOKEN_PREFIX : list byte := as_bytes "resume_token:".
Definition IPFS_CID_PREFIX : list byte := as_bytes "ipfs_cid:".

Definition leaf_key (index : Z) : list byte := LEAF_PREFIX ++ be_bytes 8 index.
Definition resume_token_key (connection_id : string) : list byte :=
  RESUME_TOKEN_PREFIX ++ as_bytes connection_id.
Definition ipfs_cid_key (epoch_number : Z) : list byte :=
  IPFS_CID_PREFIX ++ be_bytes 8 epoch_number.

(** ** The store *)

Section store.
Context {F : Type} {PF : PrimeField F} {Pos : Poseidon F} {Hexs : Hex}.
Context {Db : Type} {SD : SledDb Db}.

Definition store (A : Type) : Type := stateR Db AuditError A.

(** [self.db.op(..).map_err(|e| AuditError::Validation(msg))?] *)
Definition db_op (op : Db -> result string Db) (msg : string) : store unit :=
  fun db => match op db with Ok db' => (Ok tt, db') | Err _ => (Err (Validation msg), db) end.
Definition db_read {A} (op : Db -> result string A) (msg : string) : store A :=
  fun db => (map_err (fun _ => Validation msg) (op db), db).

(** [bytes.as_ref().try_into()] to [[u8; 8]], then [u64::from_be_bytes] *)
Definition u64_of_bytes (bytes : list byte) : result AuditError Z :=
  if (length bytes =? 8)%nat then Ok (of_be_bytes bytes)
  else Err (Validation "leaf_count is not 8 bytes").

Definition save_leaf (index : Z) (leaf root : F) : store unit :=
  let leaf_bytes := to_bytes_be leaf in
  let key := leaf_key index in
  _ ← db_op (sled_insert key leaf_bytes) "sled insert leaf";
  let leaf_count := (index + 1) mod 2 ^ 64 in
  _ ← db_op (sled_insert META_LEAF_COUNT (be_bytes 8 leaf_count)) "sled insert leaf_count";
  let root_hex := hex_encode (to_bytes_be root) in
  _ ← db_op (sled_insert META_ROOT_HEX (as_bytes root_hex)) "sled insert root_hex";
  db_op sled_flush "sled flush".

(** The loop [for i in 0..leaf_count]. *)
Fixpoint load_leaves (n : nat) (i : Z) (tree : AuditMerkleTree F) :
    store (AuditMerkleTree F) :=
  match n with
  | O => mret tree
  | S n =>
    leaf_bytes ← db_read (sled_get (leaf_key i)) "sled get leaf";
    leaf_bytes ← liftR (ok_or leaf_bytes (Validation "missing leaf in sled store"));
    let leaf := from_be_bytes_mod_order leaf_bytes in
    load_leaves n (i + 1) (insert tree leaf).2
  end.

Definition load_tree : store (option (AuditMerkleTree F * string)) :=
  leaf_count_bytes ← db_read (sled_get META_LEAF_COUNT) "sled get leaf_count";
  match leaf_count_bytes with
  | None => mret None
  | Some bytes =>
    leaf_count ← liftR (u64_of_bytes bytes);
    root ← db_read (sled_get META_ROOT_HEX) "sled get root_hex";
    let root_hex := default EmptyString (from_utf8_lossy <$> root) in
    tree ← liftR (map_err from_zk (with_height 20));
    tree ← load_leaves (Z.to_nat leaf_count) 0 tree;
    mret (Some (tree, root_hex))
  end.

Definition leaf_count : store Z :=
  bytes ← db_read (sled_get META_LEAF_COUNT) "sled get leaf_count";
  match bytes with Some v => liftR (u64_of_bytes v) | None => mret 0 end.

Definition clear : store unit := db_op sled_clear "sled clear".

Definition save_resume_token (connection_id token_json : string) : store unit :=
  let key := resume_token_key connection_id in
  _ ← db_op (sled_insert key (as_bytes token_json)) "sled insert resume_token";
  db_op sled_flush "sled flush resume_token".

Definition load_resume_token (connection_id : string) : store (option string) :=
  let key := resume_token_key connection_id in
  val ← db_read (sled_get key) "sled get resume_token";
  mret (from_utf8_lossy <$> val).

Definition clear_resume_token (connection_id : string) : store unit :=
  db_op (sled_remove (resume_token_key connection_id)) "sled remove resume_token".

Definition save_ipfs_cid (epoch_number : Z) (cid : string) : store unit :=
  let key := ipfs_cid_key epoch_number in
  _ ← db_op (sled_insert key (as_bytes cid)) "sled insert ipfs_cid";
  db_op sled_flush "sled flush ipfs_cid".

Definition load_ipfs_cid (epoch_number : Z) : store (option string) :=
  val ← db_read (sled_get (ipfs_cid_key epoch_number)) "sled get ipfs_cid";
  mret (from_utf8_lossy <$> val).

Definition insert_raw (key value : list byte) : store unit :=
  _ ← db_op (sled_insert key value) "sled insert raw";
  db_op sled_flush "sled flush".

Definition get_raw (key : list byte) : store (option (list byte)) :=
  db_read (sled_get key) "sled get raw".

Definition remove_raw (key : list byte) : store unit :=
  _ ← db_op (sled_remove key) "sled remove raw";
  db_op sled_flush "sled flush".

(** [scan_prefix::<T>], given [serde_json::from_slice::<T>]. *)
Definition scan_prefix {T} (from_slice : list byte -> option T) (prefix : list byte) :
    store (list T) :=
  items ← db_read (sled_scan prefix) "sled scan";
  liftR (mapR (fun kv => ok_or (from_slice kv.2) (Internal "deserialize scan result")) items).
End store.

#[global] Arguments db_op : simpl never.
#[global] Arguments db_read : simpl never.
#[global] Arguments leaf_key : simpl never.

(** ** Specification *)

Section spec.
Context {F : Type} {PF : PrimeField F} {Pos : Poseidon F} {Hexs : Hex}.
Context {Db : Type} {SD : SledDb Db}.

(** The tree the leaves [ls] make, inserted in order. *)
Definition indexed (ls : list F) : list (N * F) := imap (fun i v => (N.of_nat i, v)) ls.
Definition tree_of (ls : list F) : AuditMerkleTree F :=
  {| height := 20; leaves := indexed ls; zero_hashes := compute_zero_hashes 20 |}.

Lemma length_indexed ls : length (indexed ls) = length ls.
Proof. apply length_imap. Qed.

Lemma insert_tree_of ls v : insert (tree_of ls) v = (N.of_nat (length ls), tree_of (ls ++ [v])).
Proof.
  unfold insert, insert_at, PoseidonTree.leaf_count, tree_of. cbn [height leaves zero_hashes].
  rewrite length_indexed. do 2 f_equal. unfold indexed. rewrite imap_app. f_equal.
  unfold imap. by rewrite Nat.add_0_r.
Qed.

(** The database holds exactly the leaves [ls], and [root_hex] as the last root. *)
Definition stores (db : Db) (ls : list F) (root_hex : string) : Prop :=
  contents db !! META_LEAF_COUNT = Some (be_bytes 8 (Z.of_nat (length ls))) /\
  contents db !! META_ROOT_HEX = Some (as_bytes root_hex) /\
  (forall i v, ls !! i = Some v -> contents db !! leaf_key (Z.of_nat i) = Some (to_bytes_be v)).

(** No other part of the store uses the keys of the tree. *)
Definition tree_key (k : list byte) : Prop :=
  k = META_LEAF_COUNT \/ k = META_ROOT_HEX \/ LEAF_PREFIX `prefix_of` k.

Lemma db_op_Ok op msg (db db' : Db) u :
  db_op op msg db = (Ok u, db') <-> op db = Ok db'.
Proof. unfold db_op. destruct u. destruct (op db); split; congruence. Qed.

Lemma db_read_Ok {A} (op : Db -> result string A) msg db db' v :
  db_read op msg db = (Ok v, db') <-> op db = Ok v /\ db' = db.
Proof. unfold db_read. destruct (op db); cbn; split; [|intros [? ?]| |intros [? ?]]; naive_solver. Qed.

Lemma leaf_key_inj i j : u_range 8 i -> u_range 8 j -> leaf_key i = leaf_key j -> i = j.
Proof. intros Hi Hj Hk. apply app_inv_head in Hk. by apply be_bytes_inj_u in Hk. Qed.

Lemma head_keys :
  head META_LEAF_COUNT = Some x6d /\ head META_ROOT_HEX = Some x6d /\
  (forall i, head (leaf_key i) = Some x6c) /\ (forall k, head (LEAF_PREFIX ++ k) = Some x6c) /\
  (forall c, head (resume_token_key c) = Some x72) /\
  (forall n, head (ipfs_cid_key n) = Some x69).
Proof. split_and!; intros; reflexivity. Qed.

Lemma tree_key_head k : tree_key k -> head k = Some x6d \/ head k = Some x6c.
Proof.
  destruct head_keys as (Hc & Hr & _ & Hl & _).
  intros [->|[->|[k' ->]]]; rewrite ?Hc, ?Hr, ?Hl; tauto.
Qed.

Lemma tree_keys_distinct :
  META_LEAF_COUNT <> META_ROOT_HEX /\
  (forall i, leaf_key i <> META_LEAF_COUNT) /\ (forall i, leaf_key i <> META_ROOT_HEX).
Proof.
  destruct head_keys as (Hc & Hr & Hl & _). split_and!.
  - apply (bool_decide_unpack _). vm_compute. exact I.
  - intros i H%(f_equal head). rewrite Hl, Hc in H. discriminate.
  - intros i H%(f_equal head). rewrite Hl, Hr in H. discriminate.
Qed.

Lemma resume_token_key_not_tree c : ~ tree_key (resume_token_key c).
Proof.
  intros H%tree_key_head. destruct head_keys as (_ & _ & _ & _ & Hk & _).
  rewrite Hk in H. by destruct H.
Qed.
Lemma ipfs_cid_key_not_tree n : ~ tree_key (ipfs_cid_key n).
Proof.
  intros H%tree_key_head. destruct head_keys as (_ & _ & _ & _ & _ & Hk).
  rewrite Hk in H. by destruct H.
Qed.

(** Writing elsewhere keeps the tree. *)
Lemma stores_frame db db' ls r :
  (forall k, tree_key k -> contents db' !! k = contents db !! k) ->
  stores db ls r -> stores db' ls r.
Proof.
  intros Hk (Hc & Hr & Hl). unfold stores, tree_key in *.
  split_and!; [rewrite Hk; tauto..|].
  intros i v Hi. rewrite Hk; [by apply Hl|]. right. right. by exists (be_bytes 8 (Z.of_nat i)).
Qed.

Lemma stores_insert db db' k v ls r :
  ~ tree_key k -> contents db' = <[k := v]> (contents db) -> stores db ls r -> stores db' ls r.
Proof.
  intros Hk Hc. apply stores_frame. intros k' Hk'. rewrite Hc.
  apply lookup_insert_ne. by intros <-.
Qed.

Lemma save_leaf_stores db db' ls r leaf root :
  (ls = [] \/ stores db ls r) -> (Z.of_nat (length ls) < 2 ^ 64 - 1) ->
  save_leaf (Z.of_nat (length ls)) leaf root db = (Ok tt, db') ->
  stores db' (ls ++ [leaf]) (hex_encode (to_bytes_be root)).
Proof.
  intros Hdb Hlen Hsave. unfold save_leaf in Hsave.
  apply stateR_bind_Ok in Hsave as ([] & db1 & H1%db_op_Ok%sled_insert_Ok & Hsave).
  apply stateR_bind_Ok in Hsave as ([] & db2 & H2%db_op_Ok%sled_insert_Ok & Hsave).
  apply stateR_bind_Ok in Hsave as ([] & db3 & H3%db_op_Ok%sled_insert_Ok & Hsave).
  apply db_op_Ok, sled_flush_Ok in Hsave.
  destruct tree_keys_distinct as (Hne & Hlc & Hlr). unfold stores. rewrite length_app. cbn.
  rewrite Hsave, H3, H2, H1. split_and!.
  - rewrite lookup_insert_ne, lookup_insert_eq by done. do 2 f_equal.
    rewrite Z.mod_small; lia.
  - by rewrite lookup_insert_eq.
  - intros i v Hi. rewrite (lookup_insert_ne _ META_ROOT_HEX) by apply not_eq_sym, Hlr.
    rewrite (lookup_insert_ne _ META_LEAF_COUNT) by apply not_eq_sym, Hlc.
    apply lookup_app_Some in Hi as [Hi|[Hge Hi]].
    + rewrite lookup_insert_ne.
      * destruct Hdb as [->|(_ & _ & Hl)]; [done|by apply Hl].
      * apply lookup_lt_Some in Hi. intros Heq%leaf_key_inj; [lia|unfold u_range..];
          change (256 ^ Z.of_nat 8) with (2 ^ 64); lia.
    + apply list_lookup_singleton_Some in Hi as [Hi ->].
      replace i with (length ls) by lia. by rewrite lookup_insert_eq.
Qed.

Lemma load_leaves_healthy db ls r n i :
  stores db ls r -> healthy db -> (i + n)%nat = length ls ->
  load_leaves n (Z.of_nat i) (tree_of (take i ls)) db = (Ok (tree_of ls), db).
Proof.
  intros Hst Hh. revert i. induction n as [|n IH]; intros i Hn.
  - cbn. by rewrite take_ge by lia.
  - cbn [load_leaves]. pose proof (healthy_get (leaf_key (Z.of_nat i)) db Hh) as Hg.
    destruct (sled_get (leaf_key (Z.of_nat i)) db) as [o|] eqn:Ho; [|done].
    destruct (lookup_lt_is_Some_2 ls i ltac:(lia)) as [v Hv].
    pose proof (sled_get_Ok _ _ _ Ho) as Hc. destruct Hst as (Hc' & Hr & Hl) eqn:HSt.
    rewrite (Hl _ _ Hv) in Hc. subst o.
    unfold mbind, stateR_bind, db_read. rewrite Ho. cbn [map_err liftR ok_or].
    rewrite from_be_to_bytes_be, insert_tree_of, <-take_S_r by done. cbn [snd].
    replace (Z.of_nat i + 1) with (Z.of_nat (S i)) by lia. apply IH. lia.
Qed.

Lemma from_utf8_lossy_valid s : rust_string s -> from_utf8_lossy (as_bytes s) = s.
Proof. intros Hs. unfold from_utf8_lossy. by rewrite from_utf8_as_bytes. Qed.

Lemma u64_of_count (ls : list F) :
  Z.of_nat (length ls) < 2 ^ 64 ->
  u64_of_bytes (be_bytes 8 (Z.of_nat (length ls))) = Ok (Z.of_nat (length ls)).
Proof.
  intros Hl. unfold u64_of_bytes. rewrite length_be_bytes. cbn [Nat.eqb].
  rewrite of_be_be_bytes, Z.mod_small; [done|]. change (256 ^ Z.of_nat 8) with (2 ^ 64). lia.
Qed.

(** A read that must agree with the contents. *)
Lemma db_read_get k msg (db : Db) :
  healthy db -> db_read (sled_get k) msg db = (Ok (contents db !! k), db).
Proof.
  intros Hh. pose proof (healthy_get k db Hh) as Hg. unfold db_read.
  destruct (sled_get k db) as [o|] eqn:Ho; [|done]. cbn.
  by rewrite (sled_get_Ok _ _ _ Ho).
Qed.

Lemma load_tree_stores db ls r :
  stores db ls r -> healthy db -> rust_string r -> Z.of_nat (length ls) < 2 ^ 64 ->
  load_tree db = (Ok (Some (tree_of ls, r)), db).
Proof.
  intros Hst Hh Hr Hlen. pose proof Hst as (Hc & Hroot & _). unfold load_tree.
  unfold mbind at 1, stateR_bind at 1. rewrite db_read_get, Hc by done.
  unfold mbind at 1, stateR_bind at 1, liftR at 1. rewrite u64_of_count by done.
  unfold mbind at 1, stateR_bind at 1. rewrite db_read_get, Hroot by done.
  unfold mbind at 1, stateR_bind at 1, liftR, with_height, map_err.
  unfold mbind at 1, stateR_bind at 1. rewrite Nat2Z.id.
  change (load_leaves (length ls) 0 _ db)
    with (load_leaves (length ls) (Z.of_nat 0) (tree_of (take 0 ls)) db).
  rewrite (load_leaves_healthy db ls r (length ls) 0 Hst Hh) by done.
  cbn [fmap option_fmap option_map default]. by rewrite from_utf8_lossy_valid.
Qed.

Lemma db_insert_healthy k v msg (db : Db) :
  healthy db -> exists db', db_op (sled_insert k v) msg db = (Ok tt, db') /\ healthy db' /\
                            contents db' = <[k := v]> (contents db).
Proof.
  intros (db' & Hi & Hh)%(healthy_insert k v). exists db'. split_and!; [|done|].
  - by apply db_op_Ok.
  - by apply sled_insert_Ok.
Qed.

Lemma save_leaf_total i leaf root (db : Db) :
  healthy db -> exists db', save_leaf i leaf root db = (Ok tt, db') /\ healthy db'.
Proof.
  intros Hh. unfold save_leaf, mbind, stateR_bind.
  destruct (db_insert_healthy (leaf_key i) (to_bytes_be leaf) "sled insert leaf" db Hh)
    as (db1 & -> & Hh1 & _).
  destruct (db_insert_healthy META_LEAF_COUNT (be_bytes 8 ((i + 1) mod 2 ^ 64))
              "sled insert leaf_count" db1 Hh1) as (db2 & -> & Hh2 & _).
  destruct (db_insert_healthy META_ROOT_HEX (as_bytes (hex_encode (to_bytes_be root)))
              "sled insert root_hex" db2 Hh2) as (db3 & -> & Hh3 & _).
  destruct (healthy_flush db3 Hh3) as (db4 & Hf & Hh4). exists db4. split; [|done].
  by apply db_op_Ok.
Qed.

(** The leaves and roots one writer saves, in order, from position [i]. *)
Fixpoint save_all (i : nat) (l : list (F * F)) : store (Db := Db) unit :=
  match l with
  | [] => mret tt
  | (leaf, root) :: l => _ ← save_leaf (Z.of_nat i) leaf root; save_all (S i) l
  end.

Lemma save_all_stores l ls r db :
  healthy db -> (ls = [] \/ stores db ls r) -> l <> [] ->
  Z.of_nat (length ls + length l) < 2 ^ 64 ->
  exists db', save_all (length ls) l db = (Ok tt, db') /\ healthy db' /\
    stores db' (ls ++ l.*1) (hex_encode (to_bytes_be (default fr_zero (last l.*2)))).
Proof.
  revert ls r db. induction l as [|[leaf root] l IH]; intros ls r db Hh Hst Hne Hlen; [done|].
  cbn [length] in Hlen.
  destruct (save_leaf_total (Z.of_nat (length ls)) leaf root db Hh) as (db1 & Hs & Hh1).
  pose proof (save_leaf_stores _ _ _ _ _ _ Hst ltac:(lia) Hs) as Hst1.
  cbn [save_all]. unfold mbind, stateR_bind. rewrite Hs.
  destruct (decide (l = [])) as [->|Hl].
  - exists db1. by split_and!.
  - destruct (IH (ls ++ [leaf]) _ db1 Hh1 (or_intror Hst1) Hl) as (db' & Ha & Hh' & Hst').
    { rewrite length_app. cbn. lia. }
    exists db'. rewrite length_app, Nat.add_1_r in Ha. split_and!; [done..|].
    rewrite <-app_assoc in Hst'. cbn [fmap list_fmap fst snd app] in *.
    by destruct l as [|[? ?] ?].
Qed.

(** What the tree store saves it loads: after saving one leaf after the other into
    a working database, whatever it held before, loading succeeds and gives exactly
    the tree of those leaves and the last root. *)
Theorem sled_save_load (l : list (F * F)) (db : Db) :
  healthy db -> l <> [] -> Z.of_nat (length l) < 2 ^ 64 ->
  exists db', save_all 0 l db = (Ok tt, db') /\
    load_tree db' = (Ok (Some (tree_of l.*1,
                               hex_encode (to_bytes_be (default fr_zero (last l.*2))))), db') /\
    leaf_count db' = (Ok (Z.of_nat (length l)), db').
Proof.
  intros Hh Hne Hlen.
  destruct (save_all_stores l [] EmptyString db Hh (or_introl eq_refl) Hne Hlen)
    as (db' & Hs & Hh' & Hst). exists db'. split; [done|].
  assert (length l.*1 = length l) as Hl by apply length_fmap. split.
  - apply load_tree_stores; [done..|apply hex_encode_rust_string|by rewrite Hl].
  - destruct Hst as (Hc & _ & _). unfold leaf_count, mbind, stateR_bind.
    rewrite db_read_get, Hc by done. unfold liftR. cbn [app] in *.
    rewrite u64_of_count by by rewrite Hl. by rewrite Hl.
Qed.

(** The parts of the store do not interfere: saving a resume token or an IPFS
    identifier leaves the stored tree as it was, and a saved token is read back for its
    own connection. *)
Theorem sled_tokens_frame (db db' : Db) ls r conn token :
  stores db ls r -> rust_string token ->
  save_resume_token conn token db = (Ok tt, db') ->
  stores db' ls r /\
  (forall v, load_resume_token conn db' = (Ok v, db') -> v = Some token) /\
  (forall n cid db2, save_ipfs_cid n cid db' = (Ok tt, db2) -> stores db2 ls r /\
     contents db2 !! resume_token_key conn = contents db' !! resume_token_key conn).
Proof.
  intros Hst Htok Hs. unfold save_resume_token in Hs.
  apply stateR_bind_Ok in Hs as ([] & db1 & H1%db_op_Ok%sled_insert_Ok & Hf).
  apply db_op_Ok, sled_flush_Ok in Hf. rewrite H1 in Hf.
  assert (stores db' ls r) as Hst'
    by (eapply stores_insert; [apply resume_token_key_not_tree|exact Hf|exact Hst]).
  split_and!; [done| |].
  - intros v Hv. unfold load_resume_token in Hv.
    apply stateR_bind_Ok in Hv as (o & db2 & [Ho%sled_get_Ok ->]%db_read_Ok & Hv).
    rewrite Hf, lookup_insert_eq in Ho. subst o. injection Hv as <-.
    by rewrite (from_utf8_lossy_valid token Htok).
  - intros n cid db2 Hn. unfold save_ipfs_cid in Hn.
    apply stateR_bind_Ok in Hn as ([] & db3 & H3%db_op_Ok%sled_insert_Ok & Hf').
    apply db_op_Ok, sled_flush_Ok in Hf'. rewrite H3 in Hf'. split.
    + eapply stores_insert; [apply ipfs_cid_key_not_tree|exact Hf'|exact Hst'].
    + rewrite Hf'. apply lookup_insert_ne. intros Heq%(f_equal head).
      destruct head_keys as (_ & _ & _ & _ & Hr & Hi). rewrite Hr, Hi in Heq. discriminate.
Qed.
End spec.

(** ** A concrete database *)

Module MemoryDb.
#[local] Obligation Tactic := idtac.

(** A map that answers, or fails every call when [broken]. *)
Record mem := { entries : gmap (list byte) (list byte); broken : bool }.

Definition guard {A} (db : mem) (a : A) : result string A :=
  if broken db then Err "io"%string else Ok a.
Definition set_entries (db : mem) (m : gmap (list byte) (list byte)) : mem :=
  {| entries := m; broken := broken db |}.

Fixpoint is_prefix (p k : list byte) : bool :=
  match p, k with
  | [], _ => true
  | a :: p, b :: k => bool_decide (a = b) && is_prefix p k
  | _, _ => false
  end.
Lemma is_prefix_spec p k : is_prefix p k = true <-> p `prefix_of` k.
Proof.
  revert k. induction p as [|a p IH]; intros k; cbn.
  - split; [intros; apply prefix_nil|done].
  - destruct k as [|b k]; [split; [done|by intros ?%prefix_nil_not]|].
    rewrite andb_true_iff, bool_decide_eq_true, IH. split.
    + intros [-> ?]. by apply prefix_cons.
    + intros H. split; [by apply prefix_cons_inv_1 in H|by apply prefix_cons_inv_2 in H].
Qed.

#[export] Program Instance mem_db : SledDb mem := {|
  contents := entries;
  healthy db := broken db = false;
  sled_new := {| entries := ∅; broken := false |};
  sled_get k db := guard db (entries db !! k);
  sled_insert k v db := guard db (set_entries db (<[k := v]> (entries db)));
  sled_remove k db := guard db (set_entries db (delete k (entries db)));
  sled_clear db := guard db (set_entries db ∅);
  sled_flush db := guard db db;
  sled_scan p db := guard db (filter (fun kv => is_prefix p kv.1 = true) (map_to_list (entries db)));
|}.
Next Obligation. intros k [m [|]] v [= <-]; done. Qed.
Next Obligation. intros k v [m [|]] db' [= <-]; done. Qed.
Next Obligation. intros k [m [|]] db' [= <-]; done. Qed.
Next Obligation. intros [m [|]] db' [= <-]; done. Qed.
Next Obligation. intros [m [|]] db' [= <-]; done. Qed.
Next Obligation.
  intros p [m [|]] l k v [= <-]. rewrite list_elem_of_filter, elem_of_map_to_list.
  cbn. rewrite is_prefix_spec. tauto.
Qed.
Next Obligation.
  intros p [m [|]] l [= <-]. apply NoDup_fst_filter, NoDup_fst_map_to_list.
Qed.
Next Obligation. done. Qed.
Next Obligation. done. Qed.
Next Obligation. by intros k [m b] H; cbn in *; subst. Qed.
Next Obligation. intros k v [m b] H; cbn in *; subst. by eexists. Qed.
Next Obligation. intros [m b] H; cbn in *; subst. by eexists. Qed.
Next Obligation. intros [m b] H; cbn in *; subst. by eexists. Qed.
Next Obligation. intros p [m b] H; cbn in *; subst. by eexists. Qed.

Definition empty_db : mem := {| entries := ∅; broken := false |}.
End MemoryDb.

Section sled_witnesses.
Import Concrete MemoryDb.

Definition two_leaves : list (Fp * Fp) :=
  [(Fp_of_Z 5, Fp_of_Z 50); (Fp_of_Z 6, Fp_of_Z 60)].

Lemma sled_save_load_witness :
  exists db', save_all 0 two_leaves empty_db = (Ok tt, db') /\
    load_tree db' = (Ok (Some (tree_of two_leaves.*1, hex_encode (to_bytes_be (Fp_of_Z 60)))), db')
    /\ leaf_count db' = (Ok 2, db').
Proof. apply (sled_save_load two_leaves empty_db); [reflexivity|discriminate|by vm_compute]. Defined.

Definition stored_db : mem := (save_all 0 two_leaves empty_db).2.

Lemma sled_tokens_frame_witness :
  exists db', save_resume_token "c1" "tok" stored_db = (Ok tt, db') /\
    stores db' two_leaves.*1 (hex_encode (to_bytes_be (Fp_of_Z 60))).
Proof.
  eexists. split; [reflexivity|].
  refine (proj1 (sled_tokens_frame stored_db _ two_leaves.*1
                   (hex_encode (to_bytes_be (Fp_of_Z 60))) "c1" "tok" _ _ eq_refl)).
  - split; [vm_compute; reflexivity|]. split; [vm_compute; reflexivity|].
    intros [|[|i]] v Hv; cbn in Hv; [injection Hv as <-; vm_compute; reflexivity..|discriminate].
  - vm_compute. reflexivity.
Defined.
End sled_witnesses.
