(* ===== verification/Strkey.v ===== *)
(** * Stellar string keys (audit-service/src/audit/stellar_native.rs, auditd/mod.rs)

    Accounts, secret keys and contracts are named by text: a version byte, 32 bytes and a
    CRC16 checksum, in base 32.  The buffers of the code are [u32] and the checksum is a
    [u16]: every shift drops the bits beyond the width.  The theorems: a printed key is
    read back, and a key in which one character was mistyped is never accepted. *)

From S2P Require Import Prelude.
From S2P Require Import Bytes.
From S2P Require Import Text.
From S2P Require Import Interfaces.
From S2P Require Import AuditError.
From S2P Require Import SledStore.
Local Open Scope Z_scope.

(** ** Characters of a string: [s.chars()] *)

(** Each step takes at least one byte, so the length is enough fuel. *)
Fixpoint split_chars (fuel : nat) (l : list byte) : list (list byte) :=
  match fuel, l with
  | S fuel, _ :: _ => let n := (utf8_step l).2 in take n l :: split_chars fuel (drop n l)
  | _, _ => []
  end.

(** The number of a character, from its UTF-8 bytes. *)
Definition code_point (c : list byte) : Z :=
  match map Z_of_byte c with
  | [a] => a
  | [a; b] => (a - 192) * 64 + (b - 128)
  | [a; b; c] => (a - 224) * 4096 + (b - 128) * 64 + (c - 128)
  | [a; b; c; d] => (a - 240) * 262144 + (b - 128) * 4096 + (c - 128) * 64 + (d - 128)
  | _ => 0
  end.

Definition chars (s : string) : list Z :=
  map code_point (split_chars (length (as_bytes s)) (as_bytes s)).

(** ** Base 32 (RFC 4648, no padding) *)

Definition ALPHABET : list byte := as_bytes "ABCDEFGHIJKLMNOPQRSTUVWXYZ234567".
Definition digit (index : Z) : byte := nth (Z.to_nat index) ALPHABET x00.

(** [x << k] on a [u32] and on a [u16] *)
Definition shl32 (x k : Z) : Z := Z.land (Z.shiftl x k) (Z.ones 32).
Definition shl16 (x k : Z) : Z := Z.land (Z.shiftl x k) (Z.ones 16).

(** [while bits_left >= 5]; at most twelve bits are buffered, so it runs twice at most. *)
Fixpoint drain (fuel : nat) (buffer bits_left : Z) : list byte * Z :=
  match fuel with
  | O => ([], bits_left)
  | S fuel =>
    if 5 <=? bits_left then
      let bits_left := bits_left - 5 in
      let index := Z.land (Z.shiftr buffer bits_left) 31 in
      let '(result, bits_left) := drain fuel buffer bits_left in
      (digit index :: result, bits_left)
    else ([], bits_left)
  end.

Definition encode_byte (st : list byte * Z * Z) (b : byte) : list byte * Z * Z :=
  let '(result, buffer, bits_left) := st in
  let buffer := Z.lor (shl32 buffer 8) (Z_of_byte b) in
  let '(out, bits_left) := drain 2 buffer (bits_left + 8) in
  (result ++ out, buffer, bits_left).

Definition base32_encode (data : list byte) : string :=
  let '(result, buffer, bits_left) := foldl encode_byte ([], 0, 0) data in
  of_bytes (result ++ if 0 <? bits_left
                      then [digit (Z.land (shl32 buffer (5 - bits_left)) 31)] else []).

(** [byte.to_ascii_uppercase()] *)
Definition to_ascii_uppercase (b : byte) : byte :=
  let z := Z_of_byte b in if (97 <=? z) && (z <=? 122) then byte_of_Z (z - 32) else b.
Definition position (b : byte) : option Z :=
  (fun r => Z.of_nat r.1) <$> list_find (fun c => c = to_ascii_uppercase b) ALPHABET.

Fixpoint decode_chars (result : list byte) (buffer bits_left : Z) (l : list Z) : option (list byte) :=
  match l with
  | [] => Some result
  | ch :: l =>
    let byte := byte_of_Z ch in  (* [ch as u8] *)
    index ← position byte;
    let buffer := Z.lor (shl32 buffer 5) index in
    let bits_left := bits_left + 5 in
    if 8 <=? bits_left then
      let bits_left := bits_left - 8 in
      let byte_val := byte_of_Z (Z.land (Z.shiftr buffer bits_left) 255) in
      decode_chars (result ++ [byte_val]) buffer bits_left l
    else decode_chars result buffer bits_left l
  end.

Definition base32_decode (s : string) : option (list byte) := decode_chars [] 0 0 (chars s).

(** ** The checksum *)

Definition crc_step (crc : Z) : Z :=
  if Z.testbit crc 15 then Z.lxor (shl16 crc 1) 0x1021 else shl16 crc 1.

Definition crc_byte (crc : Z) (b : byte) : Z :=
  Nat.iter 8 crc_step (Z.lxor crc (Z.shiftl (Z_of_byte b) 8)).

(** CRC16-XModem: polynomial 0x1021, initial value 0 *)
Definition crc16_xmodem (data : list byte) : Z := foldl crc_byte 0 data.

(** [[(crc & 0xff) as u8, (crc >> 8) as u8]] *)
Definition crc_le (crc : Z) : list byte :=
  [byte_of_Z (Z.land crc 0xff); byte_of_Z (Z.shiftr crc 8)].

(** ** String keys *)

Definition encode_strkey (version : Z) (payload : list byte) : string :=
  let data := byte_of_Z version :: payload in
  let checksum := crc16_xmodem data in
  base32_encode (data ++ crc_le checksum).

(** ED25519 public key, ED25519 secret key, contract *)
Definition encode_account_id (public_key : list byte) : string := encode_strkey (6 * 2 ^ 3) public_key.
Definition encode_secret_key (secret : list byte) : string := encode_strkey (18 * 2 ^ 3) secret.
Definition encode_contract_id (contract_id : list byte) : string := encode_strkey (2 * 2 ^ 3) contract_id.

(** The checks the three decoders make on the decoded bytes, in their order. *)
Definition strkey_version (decoded : list byte) : Z := Z_of_byte (nth 0 decoded x00).
Definition checksum_ok (decoded : list byte) : bool :=
  bool_decide (drop 33 decoded = crc_le (crc16_xmodem (take 33 decoded))).
Definition strkey_bytes (decoded : list byte) : list byte := take 32 (drop 1 decoded).

Definition decode_strkey (first : string) (version : Z) (s : string) : option (list byte) :=
  if negb (starts_with (as_bytes first) (as_bytes s)) then None
  else
    decoded ← base32_decode s;
    if negb (length decoded =? 35)%nat then None
    else if negb (strkey_version decoded =? version) then None
    else if negb (checksum_ok decoded) then None
    else Some (strkey_bytes decoded).

Definition decode_account_id_strkey (s : string) : option (list byte) := decode_strkey "G" (6 * 2 ^ 3) s.
Definition decode_secret_key_strkey (s : string) : option (list byte) := decode_strkey "S" (18 * 2 ^ 3) s.

(** A contract is named by its string key or in hexadecimal. *)
Definition decode_contract_id `{!Hex} (contract_id : string) : AuditResult (list byte) :=
  if starts_with (as_bytes "C") (as_bytes contract_id) then
    decoded ← ok_or (base32_decode contract_id) (Validation "invalid contract ID strkey");
    if negb (length decoded =? 35)%nat
    then Err (Validation "invalid contract ID strkey length: expected 35 bytes")
    else if negb (strkey_version decoded =? 2 * 2 ^ 3)
    then Err (Validation "invalid contract ID version byte")
    else if negb (checksum_ok decoded) then Err (Validation "contract ID checksum mismatch")
    else Ok (strkey_bytes decoded)
  else
    bytes ← ok_or (hex_decode contract_id) (Validation "invalid contract ID hex");
    if (length bytes =? 32)%nat then Ok bytes
    else Err (Validation "contract ID must be 32 bytes").

(** ** Bits, most significant first *)

Fixpoint bits (k : nat) (z : Z) : list bool :=
  match k with O => [] | S k => Z.testbit z (Z.of_nat k) :: bits k z end.

Lemma length_bits k z : length (bits k z) = k.
Proof. induction k as [|k IH]; cbn; congruence. Qed.

Lemma bits_ext k a b :
  (forall i, 0 <= i < Z.of_nat k -> Z.testbit a i = Z.testbit b i) -> bits k a = bits k b.
Proof.
  induction k as [|k IH]; intros H; [done|]. cbn. f_equal; [apply H; lia|].
  apply IH. intros i Hi. apply H. lia.
Qed.

Lemma bits_inj k a b :
  0 <= a < 2 ^ Z.of_nat k -> 0 <= b < 2 ^ Z.of_nat k -> bits k a = bits k b -> a = b.
Proof.
  intros Ha Hb Heq. apply Z.bits_inj'. intros i Hi.
  destruct (decide (i < Z.of_nat k)) as [Hk|Hk].
  - clear Ha Hb. induction k as [|k IH]; [lia|]. cbn in Heq. injection Heq as H0 H1.
    destruct (decide (i = Z.of_nat k)) as [->|Hne]; [done|]. apply IH; [done|lia].
  - assert (forall x, 0 <= x < 2 ^ Z.of_nat k -> Z.testbit x i = false) as Hhigh.
    { intros x Hx. rewrite <-(Z.mod_small x (2 ^ Z.of_nat k)) by done.
      apply Z.mod_pow2_bits_high. lia. }
    by rewrite !Hhigh.
Qed.

Lemma bits_split j k z : bits (j + k) z = bits j (Z.shiftr z (Z.of_nat k)) ++ bits k z.
Proof.
  induction j as [|j IH]; [done|]. cbn. f_equal; [|done].
  rewrite Z.shiftr_spec by lia. f_equal. lia.
Qed.

Lemma bits_low k n z : (k <= n)%nat -> bits k (Z.land z (Z.ones (Z.of_nat n))) = bits k z.
Proof.
  intros Hk. apply bits_ext. intros i Hi.
  rewrite Z.land_spec, Z.testbit_ones_nonneg by lia.
  replace (i <? Z.of_nat n) with true by lia. apply andb_true_r.
Qed.

Lemma testbit_small x k i : 0 <= x < 2 ^ k -> 0 <= k <= i -> Z.testbit x i = false.
Proof. intros Hx Hi. rewrite <-(Z.mod_small x (2 ^ k)) by done. apply Z.mod_pow2_bits_high. lia. Qed.

(** Shifting [k] bits in. *)
Lemma bits_shift_in j (k : nat) b x :
  0 <= x < 2 ^ Z.of_nat k -> (j + k <= 32)%nat ->
  bits (j + k) (Z.lor (shl32 b (Z.of_nat k)) x) = bits j b ++ bits k x.
Proof.
  intros Hx Hle. rewrite bits_split. f_equal; apply bits_ext; intros i Hi.
  - unfold shl32. rewrite Z.shiftr_spec, Z.lor_spec, Z.land_spec, Z.shiftl_spec by lia.
    rewrite Z.testbit_ones_nonneg by lia. replace (i + Z.of_nat k <? 32) with true by lia.
    rewrite (testbit_small x (Z.of_nat k) (i + Z.of_nat k)) by first [done|lia].
    rewrite andb_true_r, orb_false_r. f_equal. lia.
  - unfold shl32. rewrite Z.lor_spec, Z.land_spec, Z.shiftl_spec_low by lia. done.
Qed.

Lemma bits_mod k n z : (k <= n)%nat -> bits k (z mod 2 ^ Z.of_nat n) = bits k z.
Proof. intros Hk. rewrite <-Z.land_ones by lia. by apply bits_low. Qed.

Definition bits_of_bytes (l : list byte) : list bool := concat (map (fun b => bits 8 (Z_of_byte b)) l).
Definition bits_of_syms (l : list Z) : list bool := concat (map (bits 5) l).

Lemma bits_of_bytes_app a b : bits_of_bytes (a ++ b) = bits_of_bytes a ++ bits_of_bytes b.
Proof. unfold bits_of_bytes. by rewrite map_app, concat_app. Qed.
Lemma bits_of_syms_app a b : bits_of_syms (a ++ b) = bits_of_syms a ++ bits_of_syms b.
Proof. unfold bits_of_syms. by rewrite map_app, concat_app. Qed.
Lemma length_bits_of_bytes l : length (bits_of_bytes l) = (8 * length l)%nat.
Proof.
  induction l as [|b l IH]; [done|]. change (b :: l) with ([b] ++ l).
  rewrite bits_of_bytes_app, !length_app, IH. cbn. lia.
Qed.
Lemma length_bits_of_syms l : length (bits_of_syms l) = (5 * length l)%nat.
Proof.
  induction l as [|b l IH]; [done|]. change (b :: l) with ([b] ++ l).
  rewrite bits_of_syms_app, !length_app, IH. cbn. lia.
Qed.

Lemma bits_of_bytes_inj a b : bits_of_bytes a = bits_of_bytes b -> a = b.
Proof.
  revert b. induction a as [|x a IH]; intros [|y b] H; try done.
  change (bits 8 (Z_of_byte x) ++ bits_of_bytes a = bits 8 (Z_of_byte y) ++ bits_of_bytes b) in H.
  apply app_inj_1 in H as [H1 H2]; [|by rewrite !length_bits].
  f_equal; [|by apply IH]. apply (inj Z_of_byte).
  apply (bits_inj 8); [apply Z_of_byte_range..|done].
Qed.

(** ** The encoder and the decoder over bits *)

Lemma drain_spec (bl : nat) buffer :
  (bl <= 12)%nat ->
  exists syms (bl' : nat),
    drain 2 buffer (Z.of_nat bl) = (map digit syms, Z.of_nat bl') /\ (bl' < 5)%nat /\
    Forall (fun s => 0 <= s < 32) syms /\ bits bl buffer = bits_of_syms syms ++ bits bl' buffer.
Proof.
  assert (forall x, 0 <= Z.land x 31 < 32) as Hrange.
  { intros x. change 31 with (Z.ones 5). rewrite Z.land_ones by lia. apply Z.mod_pos_bound. lia. }
  assert (forall (k : nat), bits (5 + k) buffer =
    bits 5 (Z.land (Z.shiftr buffer (Z.of_nat k)) 31) ++ bits k buffer) as Hcut.
  { intros k. rewrite bits_split. f_equal. symmetry. apply (bits_low 5 5). lia. }
  intros Hbl. destruct (decide (bl < 5)%nat) as [H5|H5].
  - exists [], bl. cbn. replace (5 <=? Z.of_nat bl) with false by lia. done.
  - destruct (decide (bl < 10)%nat) as [H10|H10].
    + exists [Z.land (Z.shiftr buffer (Z.of_nat (bl - 5))) 31], (bl - 5)%nat. cbn.
      replace (5 <=? Z.of_nat bl) with true by lia.
      replace (Z.of_nat bl - 5) with (Z.of_nat (bl - 5)) by lia.
      replace (5 <=? Z.of_nat (bl - 5)) with false by lia.
      split; [done|]. split; [lia|]. split; [repeat (apply Forall_cons_2; [apply Hrange|]); apply Forall_nil_2|].
      replace bl with (5 + (bl - 5))%nat at 1 by lia. by rewrite Hcut.
    + exists [Z.land (Z.shiftr buffer (Z.of_nat (bl - 5))) 31;
              Z.land (Z.shiftr buffer (Z.of_nat (bl - 10))) 31], (bl - 10)%nat. cbn.
      replace (5 <=? Z.of_nat bl) with true by lia.
      replace (Z.of_nat bl - 5) with (Z.of_nat (bl - 5)) by lia.
      replace (5 <=? Z.of_nat (bl - 5)) with true by lia.
      replace (Z.of_nat (bl - 5) - 5) with (Z.of_nat (bl - 10)) by lia.
      split; [done|]. split; [lia|]. split; [repeat (apply Forall_cons_2; [apply Hrange|]); apply Forall_nil_2|].
      replace bl with (5 + (5 + (bl - 10)))%nat at 1 by lia.
      rewrite Hcut. replace (5 + (bl - 10))%nat with (bl - 5)%nat at 1 by lia.
      by rewrite Hcut.
Qed.

Lemma encode_bytes_spec data :
  exists syms buffer (bl : nat),
    foldl encode_byte ([], 0, 0) data = (map digit syms, buffer, Z.of_nat bl) /\ (bl < 5)%nat /\
    Forall (fun s => 0 <= s < 32) syms /\ bits_of_bytes data = bits_of_syms syms ++ bits bl buffer.
Proof.
  induction data as [|b data IH] using rev_ind.
  - exists [], 0, 0%nat. split_and!; [done|lia|constructor|done].
  - destruct IH as (syms & buffer & bl & Hf & Hbl & Hs & Hb).
    set (buffer' := Z.lor (shl32 buffer 8) (Z_of_byte b)).
    destruct (drain_spec (bl + 8) buffer') as (syms' & bl' & Hd & Hbl' & Hs' & Hb'); [lia|].
    exists (syms ++ syms'), buffer', bl'. rewrite foldl_app, Hf. cbn [foldl encode_byte].
    replace (Z.of_nat bl + 8) with (Z.of_nat (bl + 8)) by lia. fold buffer'. rewrite Hd, map_app.
    split_and!; [done|done|by apply Forall_app_2|].
    rewrite bits_of_bytes_app, Hb, bits_of_syms_app, <-!app_assoc, <-Hb'. f_equal.
    unfold buffer'. rewrite (bits_shift_in bl 8); [|apply Z_of_byte_range|lia].
    unfold bits_of_bytes. cbn. by rewrite ?app_nil_r.
Qed.

Lemma base32_encode_spec data :
  exists syms (pad : nat),
    base32_encode data = of_bytes (map digit syms) /\ (pad < 5)%nat /\
    Forall (fun s => 0 <= s < 32) syms /\ bits_of_syms syms = bits_of_bytes data ++ replicate pad false.
Proof.
  destruct (encode_bytes_spec data) as (syms & buffer & bl & Hf & Hbl & Hs & Hb).
  unfold base32_encode. rewrite Hf. destruct (decide (bl = 0)%nat) as [->|H0].
  - exists syms, 0%nat. cbn. rewrite !app_nil_r. cbn in Hb. rewrite app_nil_r in Hb.
    split_and!; [done|lia|done|done].
  - exists (syms ++ [Z.land (shl32 buffer (5 - Z.of_nat bl)) 31]), (5 - bl)%nat.
    replace (0 <? Z.of_nat bl) with true by lia. rewrite map_app.
    split_and!; [done|lia| |].
    + apply Forall_app_2; [done|]. constructor; [|done]. change 31 with (Z.ones 5).
      rewrite Z.land_ones by lia. apply Z.mod_pos_bound. lia.
    + rewrite bits_of_syms_app, Hb, <-app_assoc. f_equal. unfold bits_of_syms. cbn [map concat].
      rewrite app_nil_r, (bits_low 5 5) by lia.
      replace (5 - Z.of_nat bl) with (Z.of_nat (5 - bl)) by lia.
      replace (shl32 buffer (Z.of_nat (5 - bl))) with (Z.lor (shl32 buffer (Z.of_nat (5 - bl))) 0)
        by apply Z.lor_0_r.
      replace (bits 5) with (bits (bl + (5 - bl))) by (f_equal; lia).
      rewrite bits_shift_in; [|lia|lia]. f_equal.
      generalize (5 - bl)%nat. intros n. induction n as [|n IH]; [done|]. cbn. by rewrite Z.bits_0, IH.
Qed.

Lemma position_digit s : 0 <= s < 32 -> position (digit s) = Some s.
Proof.
  intros Hs. assert (s ∈ map Z.of_nat (seq 0 32)) as Hin.
  { apply list_elem_of_fmap. exists (Z.to_nat s). split; [lia|]. apply elem_of_seq. lia. }
  revert Hin. cbn. rewrite !elem_of_cons, elem_of_nil.
  intuition subst; vm_compute; reflexivity.
Qed.

Lemma position_range b s : position b = Some s -> 0 <= s < 32.
Proof. destruct b; vm_compute; intros; simplify_eq; done. Qed.

Lemma decode_chars_spec l result buffer (bl : nat) :
  (bl < 8)%nat ->
  match mapM (fun ch => position (byte_of_Z ch)) l with
  | None => decode_chars result buffer (Z.of_nat bl) l = None
  | Some syms => exists out rest,
      decode_chars result buffer (Z.of_nat bl) l = Some (result ++ out) /\ (length rest < 8)%nat /\
      bits_of_bytes out ++ rest = bits bl buffer ++ bits_of_syms syms
  end.
Proof.
  revert result buffer bl. induction l as [|ch l IH]; intros result buffer bl Hbl.
  - cbn. exists [], (bits bl buffer). rewrite !app_nil_r, length_bits. done.
  - cbn [mapM decode_chars]. destruct (position (byte_of_Z ch)) as [s|] eqn:Hp; [|done].
    cbn [mbind option_bind]. apply position_range in Hp.
    set (buffer' := Z.lor (shl32 buffer 5) s).
    assert (bits (bl + 5) buffer' = bits bl buffer ++ bits 5 s) as Hbits
      by (apply (bits_shift_in bl 5); [done|lia]).
    replace (Z.of_nat bl + 5) with (Z.of_nat (bl + 5)) by lia.
    destruct (decide (bl + 5 < 8)%nat) as [H8|H8].
    + replace (8 <=? Z.of_nat (bl + 5)) with false by lia.
      specialize (IH result buffer' (bl + 5)%nat H8).
      destruct (mapM _ l) as [syms|]; [|done].
      destruct IH as (out & rest & Hd & Hr & Hb). exists out, rest. split_and!; [done|done|].
      rewrite Hb, Hbits, <-app_assoc. done.
    + replace (8 <=? Z.of_nat (bl + 5)) with true by lia.
      replace (Z.of_nat (bl + 5) - 8) with (Z.of_nat (bl - 3)) by lia.
      set (b := byte_of_Z (Z.land (Z.shiftr buffer' (Z.of_nat (bl - 3))) 255)).
      assert (bits (bl + 5) buffer' = bits_of_bytes [b] ++ bits (bl - 3) buffer') as Hcut.
      { replace (bl + 5)%nat with (8 + (bl - 3))%nat by lia. rewrite bits_split. f_equal.
        unfold bits_of_bytes. cbn [map concat]. rewrite app_nil_r. unfold b.
        rewrite Z_of_byte_of_Z. rewrite (bits_mod 8 8) by lia. symmetry. apply (bits_low 8 8). lia. }
      specialize (IH (result ++ [b]) buffer' (bl - 3)%nat ltac:(lia)).
      destruct (mapM _ l) as [syms|]; [|done].
      destruct IH as (out & rest & Hd & Hr & Hb). exists (b :: out), rest.
      split_and!; [by rewrite Hd, <-app_assoc|done|].
      change (b :: out) with ([b] ++ out).
      rewrite bits_of_bytes_app, <-app_assoc, Hb, app_assoc, <-Hcut, Hbits, <-app_assoc. done.
Qed.

Definition is_ascii (b : byte) : Prop := Z_of_byte b < 128.

Lemma chars_ascii l : Forall is_ascii l -> chars (of_bytes l) = map Z_of_byte l.
Proof.
  intros Hl. unfold chars. rewrite as_bytes_of_bytes.
  assert (forall n, (length l <= n)%nat -> split_chars n l = map (fun b => [b]) l) as Hs.
  { induction Hl as [|b l Hb Hl IH]; intros [|n] Hn; try done; cbn in Hn; [lia|].
    assert (in_range 0 127 b = true) as Hr.
    { unfold in_range. unfold is_ascii in Hb. pose proof (Z_of_byte_range b). lia. }
    cbn [split_chars]. unfold utf8_step. rewrite Hr. cbn. rewrite take_0, drop_0. f_equal. apply IH. lia. }
  rewrite Hs by done. rewrite map_map. done.
Qed.

Lemma digit_ascii s : is_ascii (digit s).
Proof.
  unfold digit. assert (Forall is_ascii ALPHABET) as Ha by by repeat constructor.
  destruct (nth_in_or_default (Z.to_nat s) ALPHABET x00) as [Hin| ->]; [|done].
  rewrite List.Forall_forall in Ha. by apply Ha.
Qed.

Lemma digits_ascii syms : Forall is_ascii (map digit syms).
Proof. apply Forall_fmap, Forall_true. intros s. apply digit_ascii. Qed.

Lemma decode_ascii l :
  Forall is_ascii l ->
  match mapM position l with
  | None => base32_decode (of_bytes l) = None
  | Some syms => exists out rest, base32_decode (of_bytes l) = Some out /\ (length rest < 8)%nat /\
      bits_of_bytes out ++ rest = bits_of_syms syms
  end.
Proof.
  intros Hl. unfold base32_decode. rewrite chars_ascii by done.
  pose proof (decode_chars_spec (map Z_of_byte l) [] 0 0 ltac:(lia)) as H.
  replace (mapM (fun ch => position (byte_of_Z ch)) (map Z_of_byte l)) with (mapM position l) in H.
  - destruct (mapM position l) as [syms|]; [|done].
    destruct H as (out & rest & Hd & Hr & Hb). by exists out, rest.
  - clear. induction l as [|b l IH]; [done|]. cbn. by rewrite byte_of_Z_of_byte, <-IH.
Qed.

Lemma mapM_position_digits syms : Forall (fun s => 0 <= s < 32) syms -> mapM position (map digit syms) = Some syms.
Proof.
  induction 1 as [|s syms Hs _ IH]; [done|]. cbn. rewrite position_digit by done. cbn. by rewrite IH.
Qed.

Lemma decode_encode_bytes data : base32_decode (base32_encode data) = Some data.
Proof.
  destruct (base32_encode_spec data) as (syms & pad & -> & Hpad & Hs & Hb).
  pose proof (decode_ascii (map digit syms) (digits_ascii syms)) as H.
  rewrite mapM_position_digits in H by done. destruct H as (out & rest & -> & Hr & Ho).
  rewrite Hb in Ho. pose proof (f_equal length Ho) as Hlen.
  rewrite !length_app, !length_bits_of_bytes, length_replicate in Hlen.
  apply app_inj_1 in Ho as [Ho _]; [|rewrite !length_bits_of_bytes; lia].
  f_equal. by apply bits_of_bytes_inj.
Qed.

(** ** The checksum over bits *)

Definition crc_bit (s : Z) (b : bool) : Z :=
  if xorb (Z.testbit s 15) b then Z.lxor (shl16 s 1) 0x1021 else shl16 s 1.

Lemma shl16_lxor a b k : 0 <= k -> shl16 (Z.lxor a b) k = Z.lxor (shl16 a k) (shl16 b k).
Proof.
  intros Hk. unfold shl16. apply Z.bits_inj'. intros i Hi.
  rewrite Z.lxor_spec, !Z.land_spec, !Z.shiftl_spec, Z.lxor_spec by lia.
  by destruct (Z.testbit (Z.ones 16) i); rewrite ?andb_true_r, ?andb_false_r.
Qed.

Lemma crc_bit_linear s t b c :
  crc_bit (Z.lxor s t) (xorb b c) = Z.lxor (crc_bit s b) (crc_bit t c).
Proof.
  unfold crc_bit. rewrite shl16_lxor, Z.lxor_spec by lia.
  set (p := 0x1021). generalize (shl16 s 1) (shl16 t 1). intros x y.
  replace (xorb (xorb (Z.testbit s 15) (Z.testbit t 15)) (xorb b c))
    with (xorb (xorb (Z.testbit s 15) b) (xorb (Z.testbit t 15) c))
    by (by destruct (Z.testbit s 15), (Z.testbit t 15), b, c).
  destruct (xorb (Z.testbit s 15) b), (xorb (Z.testbit t 15) c); cbn [xorb].
  - rewrite (Z.lxor_comm y p), Z.lxor_assoc, <-(Z.lxor_assoc p p y), Z.lxor_nilpotent.
    by rewrite Z.lxor_0_l.
  - rewrite !Z.lxor_assoc. f_equal. apply Z.lxor_comm.
  - by rewrite Z.lxor_assoc.
  - done.
Qed.

Lemma crc_step_shifted (k : nat) s x :
  (k < 16)%nat ->
  crc_step (Z.lxor s (Z.shiftl x (16 - Z.of_nat (S k)))) =
  Z.lxor (crc_bit s (Z.testbit x (Z.of_nat k))) (Z.shiftl (x mod 2 ^ Z.of_nat k) (16 - Z.of_nat k)).
Proof.
  intros Hk. unfold crc_step, crc_bit. rewrite shl16_lxor by lia.
  rewrite Z.lxor_spec, Z.shiftl_spec by lia.
  replace (15 - (16 - Z.of_nat (S k))) with (Z.of_nat k) by lia.
  assert (shl16 (Z.shiftl x (16 - Z.of_nat (S k))) 1 =
          Z.shiftl (x mod 2 ^ Z.of_nat k) (16 - Z.of_nat k)) as ->.
  { unfold shl16. apply Z.bits_inj'. intros i Hi.
    rewrite Z.land_spec, (Z.shiftl_spec _ 1 i), (Z.shiftl_spec (x mod _) _ i), Z.testbit_ones_nonneg by lia.
    destruct (decide (i - 1 < 0)) as [Hneg|Hneg].
    - rewrite (Z.testbit_neg_r _ (i - 1)), (Z.testbit_neg_r _ (i - (16 - Z.of_nat k))) by lia. done.
    - rewrite Z.shiftl_spec by lia. replace (i - 1 - (16 - Z.of_nat (S k))) with (i - (16 - Z.of_nat k)) by lia.
      destruct (decide (i < 16)) as [Hi16|Hi16].
      + replace (i <? 16) with true by lia. rewrite andb_true_r.
        destruct (decide (i - (16 - Z.of_nat k) < 0)); [by rewrite !Z.testbit_neg_r by lia|].
        by rewrite Z.mod_pow2_bits_low by lia.
      + replace (i <? 16) with false by lia. rewrite andb_false_r.
        by rewrite Z.mod_pow2_bits_high by lia. }
  destruct (xorb (Z.testbit s 15) (Z.testbit x (Z.of_nat k))); [|done].
  rewrite !Z.lxor_assoc. f_equal. apply Z.lxor_comm.
Qed.

Lemma crc_shifts k s x :
  (k <= 16)%nat -> 0 <= x < 2 ^ Z.of_nat k ->
  Nat.iter k crc_step (Z.lxor s (Z.shiftl x (16 - Z.of_nat k))) = foldl crc_bit s (bits k x).
Proof.
  revert s x. induction k as [|k IH]; intros s x Hk Hx.
  - cbn in *. assert (x = 0) as -> by lia. by rewrite Z.shiftl_0_l, Z.lxor_0_r.
  - rewrite Nat.iter_succ_r, crc_step_shifted by lia. rewrite IH by (lia || apply Z.mod_pos_bound; lia).
    cbn [bits foldl]. by rewrite bits_mod.
Qed.

Lemma crc16_bits data : crc16_xmodem data = foldl crc_bit 0 (bits_of_bytes data).
Proof.
  unfold crc16_xmodem. generalize 0. induction data as [|b data IH]; intros s; [done|].
  change (bits_of_bytes (b :: data)) with (bits 8 (Z_of_byte b) ++ bits_of_bytes data).
  rewrite foldl_app. cbn [foldl]. rewrite IH. f_equal.
  apply (crc_shifts 8); [lia|apply Z_of_byte_range].
Qed.

Lemma crc_difference s t l l' :
  length l = length l' ->
  foldl crc_bit (Z.lxor s t) (zip_with xorb l l') = Z.lxor (foldl crc_bit s l) (foldl crc_bit t l').
Proof.
  revert s t l'. induction l as [|b l IH]; intros s t [|b' l'] Hlen; try done.
  cbn. rewrite crc_bit_linear. apply IH. by injection Hlen.
Qed.

Lemma crc_zeros n : foldl crc_bit 0 (replicate n false) = 0.
Proof. induction n as [|n IH]; [done|]. exact IH. Qed.

Lemma crc_bit_range s b : 0 <= crc_bit s b < 2 ^ 16.
Proof.
  assert (forall z, Z.land z (Z.ones 16) = z -> 0 <= z < 2 ^ 16) as Hland.
  { intros z <-. rewrite Z.land_ones by lia. apply Z.mod_pos_bound. lia. }
  apply Hland, Z.bits_inj'. intros i Hi. rewrite Z.land_spec. unfold crc_bit, shl16.
  destruct (xorb _ _); rewrite ?Z.lxor_spec, !Z.land_spec, ?Z.shiftl_spec by lia;
    rewrite Z.testbit_ones_nonneg by lia; destruct (Z.ltb_spec i 16);
    rewrite ?andb_true_r, ?andb_false_r; try done.
  by rewrite (testbit_small 0x1021 16) by lia.
Qed.

Lemma crc_range l s : 0 <= s < 2 ^ 16 -> 0 <= foldl crc_bit s l < 2 ^ 16.
Proof. revert s. induction l as [|b l IH]; intros s Hs; [done|]. cbn [foldl]. apply IH, crc_bit_range. Qed.

(** Zero bits never bring a checksum back to zero. *)
Lemma crc_bit_zero s : 0 <= s < 2 ^ 16 -> crc_bit s false = 0 -> s = 0.
Proof.
  intros Hs H. apply Z.bits_inj'. intros i Hi. rewrite Z.bits_0.
  unfold crc_bit in H. destruct (Z.testbit s 15) eqn:Htop; cbn in H.
  - apply (f_equal (fun z => Z.testbit z 0)) in H. unfold shl16 in H.
    rewrite Z.lxor_spec, Z.land_spec, Z.shiftl_spec_low in H by lia. done.
  - destruct (decide (16 <= i)); [by apply (testbit_small s 16)|].
    destruct (decide (i = 15)) as [->|]; [done|].
    apply (f_equal (fun z => Z.testbit z (i + 1))) in H. unfold shl16 in H.
    rewrite Z.land_spec, Z.shiftl_spec, Z.testbit_ones_nonneg, Z.bits_0 in H by lia.
    replace (i + 1 - 1) with i in H by lia. replace (i + 1 <? 16) with true in H by lia.
    by rewrite andb_true_r in H.
Qed.

Lemma crc_zeros_nonzero n s : 0 <= s < 2 ^ 16 -> foldl crc_bit s (replicate n false) = 0 -> s = 0.
Proof.
  revert s. induction n as [|n IH]; intros s Hs; [done|]. cbn [replicate foldl]. intros H.
  apply IH in H; [|apply crc_bit_range]. by apply crc_bit_zero.
Qed.

(** ** The checksum of a string key *)

Definition le_bits (c : Z) : list bool := bits 8 c ++ bits 8 (Z.shiftr c 8).

Lemma crc_le_bits c : bits_of_bytes (crc_le c) = le_bits c.
Proof.
  unfold bits_of_bytes, crc_le, le_bits. cbn [map concat]. rewrite app_nil_r, !Z_of_byte_of_Z.
  rewrite !(bits_mod 8 8) by lia. f_equal. apply (bits_low 8 8). lia.
Qed.

Lemma bits_lxor k a b : bits k (Z.lxor a b) = zip_with xorb (bits k a) (bits k b).
Proof. induction k as [|k IH]; [done|]. cbn. by rewrite Z.lxor_spec, IH. Qed.

Lemma le_bits_lxor a b : le_bits (Z.lxor a b) = zip_with xorb (le_bits a) (le_bits b).
Proof.
  unfold le_bits. rewrite Z.shiftr_lxor, !bits_lxor. rewrite zip_with_app; [done|].
  by rewrite !length_bits.
Qed.

Lemma le_bits_zero c : 0 <= c < 2 ^ 16 -> le_bits c = replicate 16 false -> c = 0.
Proof.
  intros Hc H. unfold le_bits in H. apply (app_inj_1 _ (replicate 8 false)) in H as [H1 H2]; [|done].
  assert (bits 16 c = bits 16 0) as Heq.
  { change 16%nat with (8 + 8)%nat. rewrite !bits_split. change (Z.of_nat 8) with 8. by rewrite H1, H2. }
  apply (bits_inj 16) in Heq; [done|done|lia].
Qed.

Lemma zip_xorb_same l : zip_with xorb l l = replicate (length l) false.
Proof. induction l as [|b l IH]; [done|]. cbn. by rewrite xorb_nilpotent, IH. Qed.

(** What two lists of symbols that differ in one place differ by. *)
Definition burst (i : nat) (w : list bool) : list bool :=
  replicate (5 * i) false ++ w ++ replicate (5 * (55 - i)) false.

Lemma symbols_burst syms i s :
  length syms = 56%nat -> (i < 56)%nat ->
  zip_with xorb (bits_of_syms syms) (bits_of_syms (<[i := s]> syms)) =
  burst i (bits 5 (Z.lxor (nth i syms 0) s)).
Proof.
  intros Hlen Hi. destruct (lookup_lt_is_Some_2 syms i) as [x Hx]; [lia|].
  rewrite insert_take_drop by lia. rewrite <-(take_drop_middle syms i x Hx) at 1.
  rewrite (nth_lookup_Some _ _ _ _ Hx), bits_lxor.
  rewrite !bits_of_syms_app. change (x :: drop (S i) syms) with ([x] ++ drop (S i) syms).
  change (s :: drop (S i) syms) with ([s] ++ drop (S i) syms). rewrite !bits_of_syms_app.
  assert (forall y, bits_of_syms [y] = bits 5 y) as Hone by (intros; apply app_nil_r).
  rewrite !Hone. unfold burst. rewrite zip_with_app by done. rewrite zip_with_app by by rewrite !length_bits.
  rewrite !zip_xorb_same, !length_bits_of_syms, length_take, length_drop, Hlen.
  replace (5 * i `min` 56)%nat with (5 * i)%nat by lia. by replace (56 - S i)%nat with (55 - i)%nat by lia.
Qed.

Lemma short_burst_crc w : length w = 5%nat -> existsb id w = true -> foldl crc_bit 0 w <> 0.
Proof.
  destruct w as [|[] [|[] [|[] [|[] [|[] []]]]]]; try discriminate; intros _ _; vm_compute; discriminate.
Qed.

(** No burst is the difference of two keys whose checksums are both right. *)
Lemma burst_detected i w :
  (i < 56)%nat -> length w = 5%nat -> existsb id w = true ->
  drop 264 (burst i w) <> le_bits (foldl crc_bit 0 (take 264 (burst i w))).
Proof.
  intros Hi Hw Hnz. unfold burst. destruct (decide (i <= 51)%nat) as [Hlow|Hlow].
  - assert (take 264 (replicate (5 * i) false ++ w ++ replicate (5 * (55 - i)) false) =
            replicate (5 * i) false ++ w ++ replicate (259 - 5 * i) false) as ->.
    { rewrite take_app_ge, take_app_ge by (rewrite ?length_replicate, ?Hw; lia).
      rewrite !length_replicate, Hw. do 2 f_equal. rewrite take_replicate. f_equal. lia. }
    assert (drop 264 (replicate (5 * i) false ++ w ++ replicate (5 * (55 - i)) false) = replicate 16 false) as ->.
    { rewrite drop_app_ge, drop_app_ge by (rewrite ?length_replicate, ?Hw; lia).
      rewrite !length_replicate, Hw, drop_replicate. f_equal. lia. }
    rewrite !foldl_app, crc_zeros. intros H. symmetry in H.
    apply le_bits_zero in H; [|apply crc_range, crc_range; lia].
    apply crc_zeros_nonzero in H; [|apply crc_range; lia]. by apply (short_burst_crc w).
  - destruct (decide (i = 52)%nat) as [->|Hne].
    + assert (take 264 (replicate (5 * 52) false ++ w ++ replicate (5 * (55 - 52)) false) =
              replicate 260 false ++ take 4 w) as ->.
      { rewrite take_app_ge, take_app_le by (rewrite ?length_replicate, ?Hw; lia). by rewrite length_replicate. }
      assert (drop 264 (replicate (5 * 52) false ++ w ++ replicate (5 * (55 - 52)) false) =
              drop 4 w ++ replicate 15 false) as ->.
      { rewrite drop_app_ge, drop_app_le by (rewrite ?length_replicate, ?Hw; lia). by rewrite length_replicate. }
      rewrite foldl_app, crc_zeros.
      destruct w as [|[] [|[] [|[] [|[] [|[] []]]]]]; try discriminate; vm_compute; discriminate.
    + rewrite take_app_le by (rewrite length_replicate; lia). rewrite take_replicate, crc_zeros.
      rewrite drop_app_le by (rewrite length_replicate; lia). rewrite drop_replicate.
      intros H. apply (f_equal (existsb id)) in H. rewrite !existsb_app, Hnz in H.
      rewrite orb_true_r in H. discriminate.
Qed.

Lemma crc_le_length c : length (crc_le c) = 2%nat.
Proof. done. Qed.

Lemma strkey_data version payload :
  length payload = 32%nat ->
  let data := byte_of_Z version :: payload ++ crc_le (crc16_xmodem (byte_of_Z version :: payload)) in
  encode_strkey version payload = base32_encode data /\ length data = 35%nat /\
  checksum_ok data = true /\ strkey_version data = version mod 256 /\ strkey_bytes data = payload.
Proof.
  intros Hp data. unfold checksum_ok, strkey_version, strkey_bytes.
  assert (take 33 data = byte_of_Z version :: payload) as Ht.
  { unfold data. cbn [take]. f_equal. by rewrite <-Hp, take_app_length. }
  assert (drop 33 data = crc_le (crc16_xmodem (byte_of_Z version :: payload))) as Hd.
  { unfold data. cbn [drop]. by rewrite <-Hp, drop_app_length. }
  split_and!; [done| | | |].
  - unfold data. cbn [length]. rewrite length_app, Hp. done.
  - rewrite Ht, Hd. by apply bool_decide_eq_true_2.
  - unfold data. cbn [nth]. apply Z_of_byte_of_Z.
  - unfold data. cbn [drop]. by rewrite drop_0, <-Hp, take_app_length.
Qed.

Lemma encode_decode_strkey first version payload :
  length payload = 32%nat -> 0 <= version < 256 ->
  starts_with (as_bytes first) (as_bytes (encode_strkey version payload)) = true ->
  decode_strkey first version (encode_strkey version payload) = Some payload.
Proof.
  intros Hp Hv Hs. destruct (strkey_data version payload Hp) as (He & Hl & Hc & Hver & Hb).
  unfold decode_strkey. rewrite Hs, He, decode_encode_bytes. cbn [mbind option_bind].
  rewrite Hl, Hver, Hc, Z.mod_small, Z.eqb_refl by done. cbn [Nat.eqb negb]. by rewrite Hb.
Qed.

(** The 56 symbols of a key. *)
Lemma strkey_symbols version payload :
  length payload = 32%nat ->
  let data := byte_of_Z version :: payload ++ crc_le (crc16_xmodem (byte_of_Z version :: payload)) in
  exists syms, encode_strkey version payload = of_bytes (map digit syms) /\ length syms = 56%nat /\
    Forall (fun s => 0 <= s < 32) syms /\ bits_of_syms syms = bits_of_bytes data.
Proof.
  intros Hp data. destruct (strkey_data version payload Hp) as (He & Hl & _). fold data in He, Hl.
  destruct (base32_encode_spec data) as (syms & pad & Hs & Hpad & Hr & Hb).
  pose proof (f_equal length Hb) as Hlen.
  rewrite length_app, length_bits_of_syms, length_bits_of_bytes, length_replicate, Hl in Hlen.
  assert (pad = 0)%nat as -> by lia. rewrite app_nil_r in Hb.
  exists syms. rewrite He. split_and!; [done|lia|done|done].
Qed.

Lemma first_char version payload k :
  length payload = 32%nat -> 0 <= k < 32 -> version = k * 8 ->
  exists rest, encode_strkey version payload = of_bytes (digit k :: rest).
Proof.
  intros Hp Hk ->. destruct (strkey_symbols (k * 8) payload Hp) as (syms & He & Hl & Hr & Hb).
  destruct syms as [|s syms]; [done|]. exists (map digit syms). rewrite He. cbn. do 3 f_equal.
  apply Forall_cons in Hr as [Hs _]. apply (bits_inj 5); [done|done|].
  change (bits_of_syms (s :: syms)) with (bits 5 s ++ bits_of_syms syms) in Hb.
  unfold bits_of_bytes in Hb. cbn [map concat] in Hb. rewrite Z_of_byte_of_Z, Z.mod_small in Hb by lia.
  change (bits 8) with (bits (5 + 3)) in Hb at 1. rewrite bits_split, <-app_assoc in Hb.
  apply app_inj_1 in Hb as [Hb _]; [|by rewrite !length_bits]. rewrite Hb. f_equal.
  rewrite Z.shiftr_div_pow2 by lia. change (2 ^ Z.of_nat 3) with 8. by rewrite Z.div_mul.
Qed.

(** ** The theorems *)

Lemma decoded_unique data out rest tail :
  bits_of_bytes out ++ rest = bits_of_bytes data ++ tail ->
  (length rest < 8)%nat -> (length tail < 8)%nat -> out = data.
Proof.
  intros H Hr Ht. pose proof (f_equal length H) as Hlen.
  rewrite !length_app, !length_bits_of_bytes in Hlen.
  apply app_inj_1 in H as [H _]; [by apply bits_of_bytes_inj|]. rewrite !length_bits_of_bytes. lia.
Qed.

Lemma position_key syms i : (i < length syms)%nat -> Forall (fun s => 0 <= s < 32) syms ->
  position (nth i (map digit syms) x00) = Some (nth i syms 0).
Proof.
  intros Hi Hr. rewrite (nth_indep _ x00 (digit 0)) by by rewrite length_map.
  rewrite map_nth. apply position_digit. rewrite List.Forall_forall in Hr. by apply Hr, nth_In.
Qed.

Lemma mapM_insert_position l i c syms :
  mapM position l = Some syms -> (i < length l)%nat ->
  mapM position (<[i := c]> l) = (fun s => <[i := s]> syms) <$> position c.
Proof.
  revert i syms. induction l as [|b l IH]; intros i syms Hm Hi; [cbn in Hi; lia|].
  cbn in Hm. destruct (position b) as [s|] eqn:Hb; [|done]. cbn in Hm.
  destruct (mapM position l) as [syms'|] eqn:Hl; [|done]. injection Hm as <-.
  destruct i as [|i].
  - cbn. destruct (position c); [|done]. cbn. by rewrite Hl.
  - change (<[S i := c]> (b :: l)) with (b :: <[i := c]> l). cbn [mapM]. rewrite Hb.
    cbn [mbind option_bind]. rewrite (IH i syms') by (done || cbn in Hi; lia). by destruct (position c).
Qed.

Lemma nonzero_bits5 a b : 0 <= a < 32 -> 0 <= b < 32 -> a <> b -> existsb id (bits 5 (Z.lxor a b)) = true.
Proof.
  intros Ha Hb Hne. destruct (existsb id (bits 5 (Z.lxor a b))) eqn:He; [done|]. exfalso. apply Hne.
  apply (bits_inj 5); [done|done|]. apply bits_ext. intros i Hi.
  assert (Z.testbit (Z.lxor a b) i = false) as Hx.
  { revert He. cbn. unfold id. intros He.
    assert (i = 0 \/ i = 1 \/ i = 2 \/ i = 3 \/ i = 4) as Hcases by lia.
    repeat apply orb_false_iff in He as [? He]. intuition subst; done. }
  rewrite Z.lxor_spec in Hx. by destruct (Z.testbit a i), (Z.testbit b i).
Qed.

(** A key with one symbol replaced by another does not pass the checksum. *)
Lemma mistyped_symbol version payload syms i s out rest :
  length payload = 32%nat ->
  let data := byte_of_Z version :: payload ++ crc_le (crc16_xmodem (byte_of_Z version :: payload)) in
  length syms = 56%nat -> Forall (fun s => 0 <= s < 32) syms ->
  bits_of_syms syms = bits_of_bytes data -> (i < 56)%nat -> 0 <= s < 32 -> nth i syms 0 <> s ->
  bits_of_bytes out ++ rest = bits_of_syms (<[i := s]> syms) -> (length rest < 8)%nat ->
  checksum_ok out = false.
Proof.
  intros Hp data Hlen Hr Hb Hi Hs Hne Hout Hrest.
  destruct (strkey_data version payload Hp) as (_ & Hl & Hok & _ & _). fold data in Hl, Hok.
  pose proof (f_equal length Hout) as Hlo.
  rewrite length_app, length_bits_of_bytes, length_bits_of_syms, length_insert, Hlen in Hlo.
  assert (rest = []) as -> by (destruct rest; [done|cbn in Hlo, Hrest; lia]).
  rewrite app_nil_r in Hout. cbn [length] in Hlo.
  apply not_true_iff_false. intros Hok'. unfold checksum_ok in Hok, Hok'.
  apply bool_decide_eq_true in Hok, Hok'.
  assert (forall l, length l = 35%nat ->
    drop 33 l = crc_le (crc16_xmodem (take 33 l)) ->
    drop 264 (bits_of_bytes l) = le_bits (foldl crc_bit 0 (take 264 (bits_of_bytes l)))) as Hbits.
  { clear. intros l Hl Hc. rewrite <-(take_drop 33 l), Hc at 1. rewrite bits_of_bytes_app.
    rewrite drop_app_length' by (rewrite length_bits_of_bytes, length_take; lia).
    rewrite crc_le_bits, crc16_bits. f_equal. f_equal.
    rewrite <-(take_drop 33 l) at 2. rewrite bits_of_bytes_app.
    rewrite take_app_length'; [done|]. rewrite length_bits_of_bytes, length_take. lia. }
  apply Hbits in Hok; [|done]. apply Hbits in Hok'; [|lia].
  pose proof (symbols_burst syms i s Hlen Hi) as Hburst. rewrite Hb, <-Hout in Hburst.
  assert (0 <= nth i syms 0 < 32) as Hn.
  { rewrite List.Forall_forall in Hr. apply Hr, nth_In. lia. }
  apply (burst_detected i (bits 5 (Z.lxor (nth i syms 0) s)));
    [done|apply length_bits|by apply nonzero_bits5|].
  assert (length (bits_of_bytes data) = length (bits_of_bytes out)) as Hsame
    by (rewrite !length_bits_of_bytes; lia).
  rewrite <-Hburst, zip_with_drop, Hok, Hok', zip_with_take.
  rewrite (crc_difference 0 0) by (rewrite !length_take; lia). by rewrite le_bits_lxor.
Qed.

Lemma mistyped_strkey first version payload version' i c :
  length payload = 32%nat -> (i < 56)%nat -> is_ascii c ->
  let key := as_bytes (encode_strkey version payload) in
  position c <> position (nth i key x00) ->
  match base32_decode (of_bytes (<[i := c]> key)) with
  | Some out => checksum_ok out = false
  | None => True
  end /\ decode_strkey first version' (of_bytes (<[i := c]> key)) = None.
Proof.
  intros Hp Hi Hc key Hne.
  assert (match base32_decode (of_bytes (<[i := c]> key)) with
          | Some out => checksum_ok out = false | None => True end) as H.
  { destruct (strkey_symbols version payload Hp) as (syms & He & Hl & Hr & Hb).
    unfold key in *. rewrite He, as_bytes_of_bytes in *.
    rewrite (position_key syms i) in Hne by (done || lia).
    assert (Forall is_ascii (<[i := c]> (map digit syms))) as Hascii.
    { apply Forall_insert; [apply digits_ascii|done]. }
    pose proof (decode_ascii _ Hascii) as Hd.
    rewrite (mapM_insert_position _ i c syms) in Hd
      by first [by apply mapM_position_digits|rewrite length_map; lia].
    destruct (position c) as [s|] eqn:Hs; cbn in Hd; [|by rewrite Hd].
    destruct Hd as (out & rest & -> & Hrest & Hout).
    eapply (mistyped_symbol version payload syms i s); try done; [by eapply position_range|congruence]. }
  split; [done|]. unfold decode_strkey. destruct (negb (starts_with _ _)); [done|].
  destruct (base32_decode _) as [out|]; [|done]. cbn [mbind option_bind]. rewrite H.
  by repeat case_match.
Qed.

Lemma contract_id_cases `{!Hex} s :
  starts_with (as_bytes "C") (as_bytes s) = true ->
  ok (decode_contract_id s) = decode_strkey "C" (2 * 2 ^ 3) s.
Proof.
  intros Hs. unfold decode_contract_id, decode_strkey. rewrite Hs. cbn [negb].
  destruct (base32_decode s) as [out|]; [|done]. cbn [ok_or mbind result_bind option_bind].
  destruct (negb (length out =? 35)%nat); [done|]. destruct (negb (strkey_version out =? _)); [done|].
  by destruct (negb (checksum_ok out)).
Qed.

(** Lower-case hexadecimal never begins as a string key does. *)
Lemma contract_id_hex `{!Hex} bytes :
  length bytes = 32%nat -> decode_contract_id (hex_encode bytes) = Ok bytes.
Proof.
  intros Hl. unfold decode_contract_id.
  assert (starts_with (as_bytes "C") (as_bytes (hex_encode bytes)) = false) as ->.
  { pose proof (hex_encode_lower bytes) as Hd. destruct (as_bytes (hex_encode bytes)) as [|b l]; [done|].
    apply Forall_cons_1 in Hd as [Hb _]. by destruct b. }
  rewrite hex_decode_encode. cbn. by rewrite Hl.
Qed.

(** C39: a printed string key is read back: an account, a secret key and a contract
    identifier of 32 bytes; and so is a contract identifier printed in hexadecimal, in
    lower case. *)
Theorem strkey_round_trip `{!Hex} bytes :
  length bytes = 32%nat ->
  decode_account_id_strkey (encode_account_id bytes) = Some bytes /\
  decode_secret_key_strkey (encode_secret_key bytes) = Some bytes /\
  decode_contract_id (encode_contract_id bytes) = Ok bytes /\
  decode_contract_id (hex_encode bytes) = Ok bytes.
Proof.
  intros Hp.
  assert (forall first k, 0 <= k < 32 -> starts_with (as_bytes first) (digit k :: nil) = true ->
    length (as_bytes first) = 1%nat ->
    starts_with (as_bytes first) (as_bytes (encode_strkey (k * 8) bytes)) = true) as Hstart.
  { intros first k Hk Hd Hf. destruct (first_char (k * 8) bytes k Hp Hk eq_refl) as [rest ->].
    rewrite as_bytes_of_bytes. destruct (as_bytes first) as [|a [|]]; try done. }
  split_and!.
  - apply encode_decode_strkey; [done|done|]. by apply (Hstart "G"%string 6).
  - apply encode_decode_strkey; [done|done|]. by apply (Hstart "S"%string 18).
  - assert (starts_with (as_bytes "C") (as_bytes (encode_contract_id bytes)) = true) as Hs
      by by apply (Hstart "C"%string 2).
    pose proof (contract_id_cases _ Hs) as Hc. unfold encode_contract_id in *.
    rewrite encode_decode_strkey in Hc by done.
    by destruct (decode_contract_id _); [injection Hc as ->|].
  - by apply contract_id_hex.
Qed.

(** C17: mistyping one character of a string key is always noticed: replacing any one of the
    56 characters by an ASCII character that does not stand for the same symbol makes
    every decoder reject the key (a contract identifier is also read in hexadecimal, when
    its first character is changed). *)
Theorem mistyped_key_rejected `{!Hex} bytes i c :
  length bytes = 32%nat -> (i < 56)%nat -> is_ascii c ->
  let retyped key := of_bytes (<[i := c]> (as_bytes key)) in
  let other key := position c <> position (nth i (as_bytes key) x00) in
  (other (encode_account_id bytes) -> decode_account_id_strkey (retyped (encode_account_id bytes)) = None) /\
  (other (encode_secret_key bytes) -> decode_secret_key_strkey (retyped (encode_secret_key bytes)) = None) /\
  (other (encode_contract_id bytes) -> (0 < i)%nat ->
   is_ok (decode_contract_id (retyped (encode_contract_id bytes))) = false).
Proof.
  intros Hp Hi Hc retyped other. split_and!; [intros Hne; by apply mistyped_strkey..|].
  intros Hne H0. destruct (first_char (2 * 8) bytes 2 Hp ltac:(lia) eq_refl) as [rest Hrest].
  pose proof (mistyped_strkey "C" (2 * 2 ^ 3) bytes (2 * 2 ^ 3) i c Hp Hi Hc Hne) as [_ Hd].
  assert (starts_with (as_bytes "C") (as_bytes (retyped (encode_contract_id bytes))) = true) as Hs.
  { unfold retyped, encode_contract_id. change (2 * 2 ^ 3) with (2 * 8).
    rewrite Hrest, !as_bytes_of_bytes. by destruct i; [lia|]. }
  pose proof (contract_id_cases _ Hs) as Heq. fold (encode_contract_id bytes) in Hd.
  unfold retyped in *. rewrite Hd in Heq. by destruct (decode_contract_id _).
Qed.

(** The decoders accept text that is not a string key: with one more character behind it,
    every key still decodes to the same bytes. *)
Theorem longer_key_accepted bytes s :
  length bytes = 32%nat -> 0 <= s < 32 ->
  decode_account_id_strkey (of_bytes (as_bytes (encode_account_id bytes) ++ [digit s])) = Some bytes.
Proof.
  intros Hp Hs. unfold encode_account_id.
  destruct (strkey_data (6 * 2 ^ 3) bytes Hp) as (_ & Hl & Hok & Hver & Hbytes).
  destruct (strkey_symbols (6 * 2 ^ 3) bytes Hp) as (syms & He & Hlen & Hr & Hb).
  destruct (first_char (6 * 2 ^ 3) bytes 6 Hp ltac:(lia) eq_refl) as [rest Hrest].
  set (data := byte_of_Z (6 * 2 ^ 3) :: _) in *.
  unfold decode_account_id_strkey, decode_strkey.
  rewrite Hrest, !as_bytes_of_bytes. cbn [starts_with app]. 
  change (bool_decide _) with true. cbn [andb negb].
  assert (base32_decode (of_bytes (digit 6 :: rest ++ [digit s])) = Some data) as ->.
  { change (digit 6 :: rest ++ [digit s]) with ((digit 6 :: rest) ++ [digit s]).
    rewrite He in Hrest. apply (f_equal as_bytes) in Hrest. rewrite !as_bytes_of_bytes in Hrest.
    rewrite <-Hrest. change [digit s] with (map digit [s]). rewrite <-map_app.
    pose proof (decode_ascii _ (digits_ascii (syms ++ [s]))) as H.
    rewrite mapM_position_digits in H by (apply Forall_app_2; [done|by constructor]).
    destruct H as (out & rest' & -> & Hr' & Hout). f_equal.
    rewrite bits_of_syms_app, Hb in Hout. by eapply (decoded_unique data out rest'); [done|done|cbn; lia]. }
  cbn [mbind option_bind]. by rewrite Hl, Hver, Hok, Hbytes.
Qed.

(** A contract identifier in upper-case hexadecimal whose first digit is C is always
    refused, since the first letter alone selects the string-key format. *)
Theorem upper_case_hex_contract_rejected `{!Hex} s :
  Forall is_ascii (as_bytes s) -> length (as_bytes s) = 64%nat ->
  starts_with (as_bytes "C") (as_bytes s) = true -> is_ok (decode_contract_id s) = false.
Proof.
  intros Ha Hl Hs. pose proof (contract_id_cases s Hs) as Hc. unfold decode_strkey in Hc.
  rewrite Hs in Hc. cbn [negb] in Hc. pose proof (decode_ascii (as_bytes s) Ha) as Hd.
  rewrite of_bytes_as_bytes in Hd. destruct (mapM position (as_bytes s)) as [syms|] eqn:Hm.
  - destruct Hd as (out & rest & Hd & Hr & Hout). rewrite Hd in Hc. cbn [mbind option_bind] in Hc.
    apply (f_equal length) in Hout. apply length_mapM in Hm || apply mapM_length in Hm.
    rewrite length_app, length_bits_of_bytes, length_bits_of_syms, <-Hm, Hl in Hout.
    replace (length out =? 35)%nat with false in Hc by lia. cbn in Hc. by destruct (decode_contract_id s).
  - rewrite Hd in Hc. by destruct (decode_contract_id s).
Qed.

(** [ch as u8] keeps the low byte of a character: the letter U+0141 is read as an A. *)
Theorem wide_letter_read_as_ascii :
  base32_decode (of_bytes [xc5; x81; x41]) = base32_decode "AA" /\
  base32_decode "aa" = base32_decode "AA".
Proof. split; vm_compute; reflexivity. Qed.

(** ** The theorems at the key of 32 zero bytes *)

Definition zero_key : list byte := replicate 32 x00.

Example zero_account : encode_account_id zero_key = "GAAAAAAAAAAAAAAAAAAAAAAAAAAAAAAAAAAAAAAAAAAAAAAAAAAAAWHF"%string.
Proof. vm_compute. reflexivity. Qed.

Lemma strkey_round_trip_witness :
  decode_account_id_strkey (encode_account_id zero_key) = Some zero_key /\
  decode_secret_key_strkey (encode_secret_key zero_key) = Some zero_key /\
  decode_contract_id (H := Concrete.plain_hex) (encode_contract_id zero_key) = Ok zero_key /\
  decode_contract_id (H := Concrete.plain_hex) (@hex_encode Concrete.plain_hex zero_key) = Ok zero_key.
Proof. apply (strkey_round_trip (H := Concrete.plain_hex) zero_key). reflexivity. Defined.

(** The second letter typed as B. *)
Lemma mistyped_key_rejected_witness :
  decode_account_id_strkey (of_bytes (<[1%nat := x42]> (as_bytes (encode_account_id zero_key)))) = None.
Proof.
  apply (mistyped_key_rejected (H := Concrete.plain_hex) zero_key 1 x42); [reflexivity|lia|reflexivity|].
  vm_compute. discriminate.
Defined.

Lemma longer_key_accepted_witness :
  decode_account_id_strkey (of_bytes (as_bytes (encode_account_id zero_key) ++ [digit 7])) = Some zero_key.
Proof. apply (longer_key_accepted zero_key 7); [reflexivity|lia]. Defined.

Lemma upper_case_hex_contract_rejected_witness :
  is_ok (decode_contract_id (H := Concrete.plain_hex) (of_bytes (replicate 64 x43))) = false.
Proof.
  apply (upper_case_hex_contract_rejected (H := Concrete.plain_hex));
    [rewrite as_bytes_of_bytes; by apply Forall_replicate|by rewrite as_bytes_of_bytes|reflexivity].
Defined.
