(* ===== verification/SorobanValues.v ===== *)
(** * Values of the Soroban host (audit-service/src/audit/stellar_native.rs)

    How the arguments of a contract call are built and how the values a call returns are
    read.  [ScVal] mirrors the constructors of [stellar_xdr::curr::ScVal] the code names;
    any other one is [SvOther].  The readers keep one variable per field and go through
    the entries of a map once: [field] is such a variable.  The theorems: the readers give
    back what the contract stored, in whatever order the entries of the map arrive. *)

From S2P Require Import Prelude.
From S2P Require Import Bytes.
From S2P Require Import Text.
From S2P Require Import Interfaces.
From S2P Require Import AuditError.
From S2P Require Import SledStore.
From S2P Require Import Strkey.
Local Open Scope N_scope.

(** ** Values *)

Inductive ScAddress :=
| Account (public_key : list byte)
| OtherAddress.

Inductive ScVal :=
| SvVoid
| SvBool (b : bool)
| SvU32 (n : N)
| SvU64 (n : N)
| SvBytes (l : list byte)
| SvString (l : list byte)
| SvSymbol (l : list byte)
| SvVec (l : option (list ScVal))
| SvMap (m : option (list (ScVal * ScVal)))
| SvAddress (a : ScAddress)
| SvOther.

(** [v.try_into()] for a vector of bounded length *)
Definition bounded {A} (max : N) (error : string) (l : list A) : AuditResult (list A) :=
  if N.of_nat (length l) <=? max then Ok l else Err (Validation error).
Definition u32_max : N := 2 ^ 32 - 1.

(** A symbol has at most 32 bytes. *)
Definition sc_symbol (s : string) : AuditResult ScVal :=
  SvSymbol <$> bounded 32 "invalid symbol" (as_bytes s).

Definition symbol_bytes (val : ScVal) : list byte :=
  match val with SvSymbol s => s | _ => [] end.

(** The order of the keys: bytes, lexicographically. *)
Definition bytes_leb (a b : list byte) : bool := String.leb (of_bytes a) (of_bytes b).
Definition key_leb (a b : ScVal * ScVal) : bool := bytes_leb (symbol_bytes a.1) (symbol_bytes b.1).

Definition build_sorted_scmap (pairs : list (ScVal * ScVal)) : AuditResult ScVal :=
  (fun entries => SvMap (Some entries)) <$> bounded u32_max "too many map entries" (sort_by key_leb pairs).

Section hex.
Context {Hx : Hex}.

Definition hex_to_scbytes (label hex_str : string) : AuditResult ScVal :=
  bytes ← ok_or (hex_decode hex_str) (Validation ("invalid " +:+ label +:+ " hex"));
  SvBytes <$> bounded u32_max ("invalid " +:+ label +:+ " bytes") bytes.

Definition build_proof_scval (a_hex b_hex c_hex : string) : AuditResult ScVal :=
  ka ← sc_symbol "a"; a ← hex_to_scbytes "proof.a" a_hex;
  kb ← sc_symbol "b"; b ← hex_to_scbytes "proof.b" b_hex;
  kc ← sc_symbol "c"; c ← hex_to_scbytes "proof.c" c_hex;
  build_sorted_scmap [(ka, a); (kb, b); (kc, c)].

Definition build_verifying_key_scval (alpha_hex beta_hex gamma_hex delta_hex : string)
    (ic_hex : list string) : AuditResult ScVal :=
  ic_vals ← mapR (hex_to_scbytes "vk.ic") ic_hex;
  ic_vec ← bounded u32_max "too many ic entries" ic_vals;
  ka ← sc_symbol "alpha"; a ← hex_to_scbytes "vk.alpha" alpha_hex;
  kb ← sc_symbol "beta"; b ← hex_to_scbytes "vk.beta" beta_hex;
  kg ← sc_symbol "gamma"; g ← hex_to_scbytes "vk.gamma" gamma_hex;
  kd ← sc_symbol "delta"; d ← hex_to_scbytes "vk.delta" delta_hex;
  ki ← sc_symbol "ic";
  build_sorted_scmap [(ka, a); (kb, b); (kg, g); (kd, d); (ki, SvVec (Some ic_vec))].

Definition build_verify_inclusion_args (root_hex leaf_hex proof_a_hex proof_b_hex proof_c_hex : string)
  : AuditResult (list ScVal) :=
  root ← hex_to_scbytes "root" root_hex;
  leaf ← hex_to_scbytes "leaf" leaf_hex;
  proof ← build_proof_scval proof_a_hex proof_b_hex proof_c_hex;
  mret [root; leaf; proof].

Record DisclosureClaim := {
  op_pred_hex : string; coll_pred_hex : string; dc_ts_min : N; dc_ts_max : N;
  dc_check_op : bool; dc_check_coll : bool; dc_check_ts : bool;
}.

Definition build_disclosure_args (root_hex leaf_hex : string) (claim : DisclosureClaim)
    (proof_a_hex proof_b_hex proof_c_hex : string) : AuditResult (list ScVal) :=
  root ← hex_to_scbytes "root" root_hex;
  leaf ← hex_to_scbytes "leaf" leaf_hex;
  op_pred ← hex_to_scbytes "op_pred" (op_pred_hex claim);
  coll_pred ← hex_to_scbytes "coll_pred" (coll_pred_hex claim);
  proof ← build_proof_scval proof_a_hex proof_b_hex proof_c_hex;
  mret [root; leaf; op_pred; coll_pred; SvU64 (dc_ts_min claim); SvU64 (dc_ts_max claim);
        SvBool (dc_check_op claim); SvBool (dc_check_coll claim); SvBool (dc_check_ts claim); proof].

(** ** Reading *)

(** [let mut x = init; for entry in map { match name { name => if let K(v) = val { x = v } } }] *)
Definition field {A} (name : string) (proj : ScVal -> option A) (init : A)
    (entries : list (ScVal * ScVal)) : A :=
  foldl (fun x '(key, val) =>
    match key with
    | SvSymbol s => if bool_decide (from_utf8_lossy s = name) then default x (proj val) else x
    | _ => x
    end) init entries.

Definition as_bool (v : ScVal) : option bool := match v with SvBool b => Some b | _ => None end.
Definition as_u32 (v : ScVal) : option N := match v with SvU32 n => Some n | _ => None end.
Definition as_u64 (v : ScVal) : option N := match v with SvU64 n => Some n | _ => None end.
Definition as_hex (v : ScVal) : option string :=
  match v with SvBytes l => Some (hex_encode l) | _ => None end.
Definition as_text (v : ScVal) : option string :=
  match v with SvString l => Some (from_utf8_lossy l) | _ => None end.
Definition as_account (v : ScVal) : option string :=
  match v with SvAddress (Account bytes) => Some (encode_account_id bytes) | _ => None end.

(** An [Option<T>] or a [Result<T, _>] whose [T] is a struct: void, a vector that holds
    the map, or the map itself. *)
Definition inner_map (v : ScVal) : option (list (ScVal * ScVal)) :=
  match v with
  | SvVec (Some (SvMap m :: _)) => m
  | SvMap m => m
  | _ => None
  end.

Record OnChainOplogCommitment := {
  oc_sequence : N; oc_oplog_root_hex : string; oc_oplog_start_ts : N; oc_oplog_end_ts : N;
  oc_oplog_entry_count : N;
}.

Definition read_oplog_commitment (sequence : N) (v : ScVal) : option OnChainOplogCommitment :=
  map ← inner_map v;
  let oplog_root_hex := field "oplog_root" as_hex "" map in
  let oplog_start_ts := field "oplog_start_ts" as_u64 0 map in
  let oplog_end_ts := field "oplog_end_ts" as_u64 0 map in
  let oplog_entry_count := field "oplog_entry_count" as_u64 0 map in
  if bool_decide (oplog_root_hex = ""%string) then None
  else Some (Build_OnChainOplogCommitment sequence oplog_root_hex oplog_start_ts oplog_end_ts
               oplog_entry_count).

Record OnChainRoot := {
  or_sequence : N; or_root_hex : string; or_timestamp : N; or_metadata : string;
}.

Definition read_root_map (map : list (ScVal * ScVal)) : option OnChainRoot :=
  let sequence := field "sequence" as_u64 0 map in
  let root_hex := field "root" as_hex "" map in
  let timestamp := field "timestamp" as_u64 0 map in
  let metadata := field "metadata" as_text "" map in
  if bool_decide (root_hex = ""%string) then None
  else Some (Build_OnChainRoot sequence root_hex timestamp metadata).

Definition read_root (v : ScVal) : option OnChainRoot := map ← inner_map v; read_root_map map.

(** The maps of a vector; anything else in it is skipped. *)
Definition maps_of (v : ScVal) : list (list (ScVal * ScVal)) :=
  match v with
  | SvVec (Some l) => omap (fun e => match e with SvMap (Some m) => Some m | _ => None end) l
  | _ => []
  end.

Definition read_root_history (v : ScVal) : list OnChainRoot := omap read_root_map (maps_of v).

(** Every [attester] entry that is an account is pushed. *)
Definition read_attesters (v : ScVal) : list string :=
  concat (map (omap (fun '(key, val) =>
    match key with
    | SvSymbol s => if bool_decide (from_utf8_lossy s = "attester"%string) then as_account val else None
    | _ => None
    end)) (maps_of v)).

Record OnChainDisclosureRecord := {
  odr_record_id : N; odr_verifier : string; odr_root_hex : string; odr_leaf_hex : string;
  odr_claim : DisclosureClaim; odr_timestamp : N;
}.

Definition read_disclosure_record (map : list (ScVal * ScVal)) : option OnChainDisclosureRecord :=
  let record :=
    {| odr_record_id := field "record_id" as_u64 0 map;
       odr_verifier := field "verifier" as_account "" map;
       odr_root_hex := field "root" as_hex "" map;
       odr_leaf_hex := field "leaf" as_hex "" map;
       odr_claim := {| op_pred_hex := field "op_pred" as_hex "" map;
                       coll_pred_hex := field "coll_pred" as_hex "" map;
                       dc_ts_min := field "ts_min" as_u64 0 map;
                       dc_ts_max := field "ts_max" as_u64 0 map;
                       dc_check_op := field "check_op" as_bool false map;
                       dc_check_coll := field "check_coll" as_bool false map;
                       dc_check_ts := field "check_ts" as_bool false map |};
       odr_timestamp := field "timestamp" as_u64 0 map |} in
  if odr_record_id record =? 0 then None else Some record.

Definition read_disclosure_records (v : ScVal) : list OnChainDisclosureRecord :=
  omap read_disclosure_record (maps_of v).

Record OnChainAttestationVerification := {
  oav_sequence : N; oav_oplog_root_hex : string; oav_attestation_count : N;
  oav_authorized_count : N; oav_threshold : N; oav_all_match : bool; oav_verdict : string;
}.

Definition read_attestation_verification (sequence : N) (v : ScVal)
  : AuditResult OnChainAttestationVerification :=
  match v with
  | SvMap (Some map) =>
    Ok {| oav_sequence := field "sequence" as_u64 sequence map;
          oav_oplog_root_hex := field "oplog_root" as_hex "" map;
          oav_attestation_count := field "attestation_count" as_u32 0 map;
          oav_authorized_count := field "authorized_count" as_u32 0 map;
          oav_threshold := field "threshold" as_u32 1 map;
          oav_all_match := field "all_match" as_bool false map;
          oav_verdict := field "verdict" as_text "" map |}
  | _ => Err (Validation "verify_attestation did not return a struct")
  end.

(** [get_admin]: the address, or a vector that starts with it. *)
Definition read_admin (v : ScVal) : option string :=
  match v with
  | SvVec (Some (inner :: _)) => as_account inner
  | SvAddress _ => as_account v
  | _ => None
  end.

(** The boolean of [verify_inclusion_native]: inside a vector only. *)
Definition read_verified_submitted (v : ScVal) : bool :=
  match v with SvVec (Some (SvBool b :: _)) => b | _ => false end.

(** The boolean of the read-only checks: bare, or inside a vector. *)
Definition read_verified_readonly (v : ScVal) : bool :=
  match v with
  | SvBool b => b
  | SvVec (Some (SvBool true :: _)) => true
  | _ => false
  end.

Definition read_sequence (v : ScVal) : N := match v with SvU64 seq => seq | _ => 0 end.
Definition read_record_id (v : ScVal) : N :=
  match v with SvU64 v => v | SvVec (Some (SvU64 v :: _)) => v | _ => 0 end.
Definition read_threshold (v : ScVal) : N := match v with SvU32 v => v | _ => 1 end.
End hex.
