(* ===== verification/StellarNative.v ===== *)
(** * Transactions on the Stellar network (audit-service/src/audit/stellar_native.rs)

    A contract call is built, simulated, completed with what the simulation returned,
    signed, sent and waited for; a submission rejected with [txBAD_SEQ] is tried again
    with a fresh sequence number.  The network behind the RPC endpoint is a parameter
    whose state may change in every request; the state of a program also records the
    envelopes it sent and the replies.  [wait_for_transaction] polls: its fuel is the number of polls, and
    running out of it is the outcome [Polling], which the program cannot observe.  The
    lock per account is held during the whole operation and the pauses take no time here.
    Machine integers wrap as in a release build. *)

From stdpp Require Import pretty.
From S2P Require Import Prelude.
From S2P Require Import Bytes.
From S2P Require Import Text.
From S2P Require Import Interfaces.
From S2P Require Import AuditError.
From S2P Require Import SledStore.
From S2P Require Import Strkey.
From S2P Require Import SorobanValues.
Local Open Scope Z_scope.

(** ** Text *)

(** [s.contains(needle)] *)
Definition str_contains (needle s : string) : bool :=
  existsb (fun k => starts_with (as_bytes needle) (drop k (as_bytes s))) (seq 0 (S (length (as_bytes s)))).

(** [err.to_string()] *)
Definition error_text (err : AuditError) : string :=
  match err with
  | Io msg => "io error: " +:+ msg
  | NotFound msg => "not found: " +:+ msg
  | Validation msg => "validation error: " +:+ msg
  | Internal msg => "internal error: " +:+ msg
  | Mongo msg => "mongo error: " +:+ msg
  | Credential msg => "credential error: " +:+ msg
  | Timeout msg => "timeout: " +:+ msg
  | ZkAudit msg => "zk audit error: " +:+ msg
  end.

(** ** Keys *)

(** [ed25519_dalek::SigningKey] *)
Class Signer := {
  public_key_of : list byte -> list byte;
  sign : list byte -> list byte -> list byte;
  length_public_key k : length (public_key_of k) = 32%nat;
  length_signature k m : length (sign k m) = 64%nat;
}.

Record StellarKeypair := { signing_key : list byte; verifying_key : list byte }.

Definition from_secret_bytes `{!Signer} (secret : list byte) : StellarKeypair :=
  {| signing_key := secret; verifying_key := public_key_of secret |}.
Definition public_bytes (kp : StellarKeypair) : list byte := verifying_key kp.
Definition account_id (kp : StellarKeypair) : string := encode_account_id (public_bytes kp).
Definition secret_key_str (kp : StellarKeypair) : string := encode_secret_key (signing_key kp).

(** [load_keypair_from_secret_key] (auditd/mod.rs) *)
Definition load_keypair_from_secret_key `{!Signer} (secret_key : string) : result string StellarKeypair :=
  secret_bytes ← ok_or (decode_secret_key_strkey secret_key)
    ("invalid Stellar secret key (expected S... strkey, got " +:+
     pretty (length (as_bytes secret_key)) +:+ " chars)")%string;
  mret (from_secret_bytes secret_bytes).

(** ** Transactions *)

(** [stellar_xdr]: the encodings of the values the program exchanges *)
Class StellarXdr := {
  SorobanData : Type;
  SorobanAuth : Type;
  ScVal_from_xdr : list byte -> option ScVal;
  soroban_data_from_xdr : list byte -> option SorobanData;
  auth_from_xdr : list byte -> option SorobanAuth;
  (** [LedgerEntryData]: the sequence number of an account, or other data *)
  ledger_entry_from_xdr : list byte -> option (option Z);
}.

Record ContractIdPreimage := { deployer : list byte; salt : list byte }.

Inductive HostFunction :=
| InvokeContract (contract : list byte) (function_name : list byte) (args : list ScVal)
| UploadContractWasm (wasm : list byte)
| CreateContract (preimage : ContractIdPreimage) (wasm_hash : list byte).

(** What a request to the RPC endpoint comes back with; [Parsed] is a [JsonRpcResponse]. *)
Inductive http (A : Type) :=
| SendFailed (e : string)
| StatusError (status text : string)
| Unreadable (e : string)
| Malformed (e body : string)
| Parsed (result_ : option A) (error : option (Z * string)).
#[global] Arguments SendFailed {A}.
#[global] Arguments StatusError {A}.
#[global] Arguments Unreadable {A}.
#[global] Arguments Malformed {A}.
#[global] Arguments Parsed {A}.

Section network.
Context {Hx : Hex} {B64 : Base64} {Sha : Sha256} {Sg : Signer} {Xdr : StellarXdr}.

Record Transaction := {
  source_account : list byte;
  fee : Z;  (* u32 *)
  seq_num : Z;  (* i64 *)
  host_function : HostFunction;
  tx_auth : list SorobanAuth;
  ext : option SorobanData;
}.

Record DecoratedSignature := { hint : list byte; tx_signature : list byte }.
Record TransactionEnvelope := { env_tx : Transaction; env_signatures : list DecoratedSignature }.

(** The XDR of a [TransactionSignaturePayload] and of a contract identifier's preimage. *)
Class PayloadXdr := {
  payload_xdr : list byte -> Transaction -> list byte;
  contract_id_preimage_xdr : list byte -> ContractIdPreimage -> list byte;
}.
Context {Pay : PayloadXdr}.

Definition i64_wrap (z : Z) : Z := (z + 2 ^ 63) mod 2 ^ 64 - 2 ^ 63.

Definition build_host_function_transaction (source_public_key : list byte) (sequence : Z)
    (host_function : HostFunction) (fee : Z) : Transaction :=
  {| source_account := source_public_key; fee := fee; seq_num := i64_wrap (sequence + 1);
     host_function := host_function; tx_auth := []; ext := None |}.

Definition build_invoke_transaction (source_public_key : list byte) (sequence : Z)
    (contract_id function_name : string) (args : list ScVal) (fee : Z) : AuditResult Transaction :=
  contract_arr ← decode_contract_id contract_id;
  symbol ← bounded 32 "invalid function name" (as_bytes function_name);
  args_vecm ← bounded u32_max "too many args" args;
  mret (build_host_function_transaction source_public_key sequence
          (InvokeContract contract_arr symbol args_vecm) fee).

(** ** Requests *)

Record SimulationResultEntry := { auth : list string; xdr : string }.
Record SimulationResult := {
  transaction_data : option string;
  transaction_data_owned : option string;
  min_resource_fee : option Z;
  results : list SimulationResultEntry;
  sim_error : option string;
}.
Record SendResult := { send_status : string; send_hash : string; error_result_xdr : option string }.
Record GetTransactionResult := { tx_status : string; result_xdr : option string }.

Class SorobanRpc := {
  Net : Type;
  (** [getLedgerEntries] of an account: the XDR of each entry *)
  post_ledger_entries : list byte -> Net -> http (list string) * Net;
  post_simulate : Transaction -> Net -> http SimulationResult * Net;
  post_send : TransactionEnvelope -> Net -> http SendResult * Net;
  post_get_transaction : string -> Net -> http GetTransactionResult * Net;
}.
Context {Rpc : SorobanRpc}.

(** [sent] is the record of the envelopes sent and of the replies to them. *)
Record NetWorld := { net : Net; sent : list (TransactionEnvelope * http SendResult) }.

Inductive net_failure := Raised (e : AuditError) | Panicked (msg : string) | Polling.
Definition netM (A : Type) : Type := stateR NetWorld net_failure A.

Definition raise {A} (e : AuditError) : netM A := throw (Raised e).
(** [r?] *)
Definition try {A} (r : AuditResult A) : netM A :=
  match r with Ok a => mret a | Err e => raise e end.
(** [match m { Ok(a) => .., Err(e) => .. }] *)
Definition catch_error {A} (m : netM A) : netM (AuditResult A) := fun w =>
  match m w with
  | (Ok a, w') => (Ok (Ok a), w')
  | (Err (Raised e), w') => (Ok (Err e), w')
  | (Err other, w') => (Err other, w')
  end.
Definition request {A} (f : Net -> A * Net) : netM A := fun w =>
  let '(a, n) := f (net w) in (Ok a, {| net := n; sent := sent w |}).

(** [&body[..body.len().min(2000)]] panics when the cut is inside a character. *)
Definition cut_ok (body : string) : bool :=
  match as_bytes body !! 2000%nat with Some b => negb (cont b) | None => true end.

Definition rpc_result {A} (method : string) (response : http A) : netM A :=
  match response with
  | SendFailed e => raise (Validation ("RPC request failed: " +:+ e))
  | StatusError status text =>
    raise (Validation ("RPC returned error: " +:+ status +:+ " " +:+ text))
  | Unreadable e => raise (Validation ("failed to read RPC response body: " +:+ e))
  | Malformed e body =>
    if cut_ok body then raise (Validation ("failed to parse RPC response: " +:+ e))
    else throw (Panicked "byte index 2000 is not a char boundary")
  | Parsed _ (Some (code, message)) =>
    raise (Validation (method +:+ " error: code " +:+ pretty code +:+ " message " +:+ message))
  | Parsed None None => raise (Validation (method +:+ " returned no result"))
  | Parsed (Some r) None => mret r
  end.

Definition get_account_sequence_from_rpc (public_key : list byte) : netM Z :=
  response ← request (post_ledger_entries public_key);
  entries ← rpc_result "getLedgerEntries" response;
  match entries with
  | [] => raise (Validation "signing account not found on Soroban RPC ledger")
  | entry :: _ =>
    entry_xdr ← try (ok_or (b64_decode entry) (Validation "base64 decode account ledger entry"));
    ledger_entry ← try (ok_or (ledger_entry_from_xdr entry_xdr)
                          (Validation "decode account ledger entry"));
    match ledger_entry with
    | Some seq_num => mret seq_num
    | None => raise (Validation "RPC account ledger entry returned non-account data")
    end
  end.

(** ** Simulation *)

Definition CONTRACT_FUNCTION_NOT_FOUND_MESSAGE : string :=
  "Contract function not found on-chain. The deployed contract may be outdated, redeploy the Soroban contract and update the contract ID in settings.".

Definition is_contract_function_not_found_error (error : AuditError) : bool :=
  let msg := error_text error in
  str_contains CONTRACT_FUNCTION_NOT_FOUND_MESSAGE msg
  || (str_contains "MissingValue" msg && str_contains "WasmVm" msg).

Definition simulation_message (sim_err : string) : string :=
  if str_contains "MissingValue" sim_err && str_contains "WasmVm" sim_err
  then CONTRACT_FUNCTION_NOT_FOUND_MESSAGE
  else if str_contains "InvalidAction" sim_err || str_contains "not authorized" sim_err
  then "Contract call not authorized: " +:+ sim_err
  else "Contract invocation failed: " +:+ sim_err.

Definition simulate_transaction (tx : Transaction) : netM SimulationResult :=
  response ← request (post_simulate tx);
  sim ← rpc_result "simulateTransaction" response;
  match sim_error sim with
  | Some sim_err => raise (Validation (simulation_message sim_err))
  | None =>
    match transaction_data sim with
    | None => raise (Validation "Contract call returned no data.")
    | Some data =>
      mret {| transaction_data := None; transaction_data_owned := Some data;
              min_resource_fee := min_resource_fee sim; results := results sim;
              sim_error := None |}
    end
  end.

(** [sim.transaction_data()]; [expect] panics. *)
Definition sim_transaction_data (sim : SimulationResult) : netM string :=
  match transaction_data_owned sim, transaction_data sim with
  | Some data, _ | None, Some data => mret data
  | None, None => throw (Panicked "transaction_data validated by simulate_transaction")
  end.

Definition saturate (z : Z) : Z := Z.max (- 2 ^ 63) (Z.min z (2 ^ 63 - 1)).

Definition max_fee_stroops (sim : SimulationResult) : Z :=
  let required := i64_wrap (default 0 (min_resource_fee sim) + 100) in
  Z.max 100 (Z.min (Z.quot (saturate (required * 110)) 100) (2 ^ 32 - 1)).

Definition decode_auth (auth_b64 : string) : AuditResult SorobanAuth :=
  auth_xdr ← ok_or (b64_decode auth_b64) (Validation "base64 decode auth");
  ok_or (auth_from_xdr auth_xdr) (Validation "decode auth").

Definition attach_soroban_data_and_auth (tx : Transaction) (sim : SimulationResult) : netM Transaction :=
  data ← sim_transaction_data sim;
  soroban_data_xdr ← try (ok_or (b64_decode data) (Validation "base64 decode transactionData"));
  soroban_data ← try (ok_or (soroban_data_from_xdr soroban_data_xdr)
                        (Validation "decode SorobanTransactionData"));
  let fee_ :=
    match min_resource_fee sim with
    | Some min_fee => i64_wrap (i64_wrap (fee tx + min_fee) + 1) mod 2 ^ 32  (* [as u32] *)
    | None => max_fee_stroops sim
    end in
  auth_ ← match results sim with
          | first :: _ =>
            if (length (auth first) =? 0)%nat then mret (tx_auth tx)
            else
              auth_entries ← try (mapR decode_auth (auth first));
              try (bounded u32_max "too many auth entries" auth_entries)
          | [] => mret (tx_auth tx)
          end;
  mret {| source_account := source_account tx; fee := fee_; seq_num := seq_num tx;
          host_function := host_function tx; tx_auth := auth_; ext := Some soroban_data |}.

(** ** Signing *)

(** [hint] is the last four bytes of the public key. *)
Definition sign_transaction (tx : Transaction) (key : list byte) (network_passphrase : string)
  : DecoratedSignature :=
  let network_id := sha256 (as_bytes network_passphrase) in
  let hash := sha256 (payload_xdr network_id tx) in
  {| hint := take 4 (drop 28 (public_key_of key)); tx_signature := sign key hash |}.

(** ** Submission *)

(** [i32::from_be_bytes] *)
Definition i32_from_be_bytes (l : list byte) : Z :=
  let z := of_be_bytes l in if z <? 2 ^ 31 then z else z - 2 ^ 32.

Definition decode_tx_result_code (error_result_xdr_b64 : string) : option Z :=
  bytes ← b64_decode error_result_xdr_b64;
  if (length bytes <? 12)%nat then None
  else Some (i32_from_be_bytes (take 4 (drop 8 bytes))).

Definition tx_result_code_name (code : Z) : string :=
  match code with
  | 0 => "txSUCCESS" | -1 => "txFAILED" | -2 => "txTOO_EARLY" | -3 => "txTOO_LATE"
  | -4 => "txMISSING_OPERATION" | -5 => "txBAD_SEQ" | -6 => "txBAD_AUTH"
  | -7 => "txINSUFFICIENT_BALANCE" | -8 => "txNO_ACCOUNT" | -9 => "txINSUFFICIENT_FEE"
  | -10 => "txBAD_AUTH_EXTRA" | -11 => "txINTERNAL_ERROR" | -12 => "txNOT_SUPPORTED"
  | -13 => "txFEE_BUMP_INNER_FAILED" | -14 => "txBAD_SPONSORSHIP"
  | -15 => "txBAD_MIN_SEQ_AGE_OR_GAP" | -16 => "txMALFORMED" | -17 => "txSOROBAN_INVALID"
  | _ => "unknown"
  end%string.

Definition invoke_result_name (ihf : Z) : string * string :=
  match ihf with
  | 0 => ("INVOKE_HOST_FUNCTION_SUCCESS", "")
  | -1 => ("INVOKE_HOST_FUNCTION_MALFORMED", "")
  | -2 => ("INVOKE_HOST_FUNCTION_TRAPPED", " — the contract rejected the call")
  | -3 => ("INVOKE_HOST_FUNCTION_RESOURCE_LIMIT_EXCEEDED", "")
  | -4 => ("INVOKE_HOST_FUNCTION_ENTRY_ARCHIVED", "")
  | -5 => ("INVOKE_HOST_FUNCTION_INSUFFICIENT_REFUNDABLE_FEE", "")
  | _ => ("unknown InvokeHostFunction result", "")
  end%string.

Definition describe_failed_result_xdr (b64 : string) : string :=
  match b64_decode b64 with
  | None => "undecodable result XDR (" +:+ b64 +:+ ")"
  | Some bytes =>
    let tx_code := decode_tx_result_code b64 in
    let tx_name := default "unknown"%string (tx_result_code_name <$> tx_code) in
    let raw := tx_name +:+ " (raw " +:+ b64 +:+ ")" in
    if bool_decide (tx_code = Some (-1)) && (28 <=? length bytes)%nat then
      if i32_from_be_bytes (take 4 (drop 20 bytes)) =? 24 then
        let '(name, hint) := invoke_result_name (i32_from_be_bytes (take 4 (drop 24 bytes))) in
        tx_name +:+ " / " +:+ name +:+ hint
      else raw
    else raw
  end.

Definition is_bad_seq_error (err : AuditError) : bool := str_contains "txBAD_SEQ" (error_text err).

(** What the reply to [sendTransaction] means. *)
Definition send_outcome (response : http SendResult) : netM string :=
  send_result ← rpc_result "sendTransaction" response;
  if bool_decide (send_status send_result = "ERROR"%string) then
    let xdr := default ""%string (error_result_xdr send_result) in
    let code := decode_tx_result_code xdr in
    let name := default "unknown"%string (tx_result_code_name <$> code) in
    let code_str := default "?"%string (pretty <$> code) in
    raise (Validation ("transaction rejected: " +:+ name +:+ " (" +:+ code_str +:+ "): " +:+ xdr))
  else mret (send_hash send_result).

Definition send_transaction (envelope : TransactionEnvelope) : netM string :=
  response ← request (post_send envelope);
  _ ← modify (fun w => {| net := net w; sent := sent w ++ [(envelope, response)] |});
  send_outcome response.

(** [attempt] counts the polls made; the check on it is skipped after a reply with an
    error status. *)
Fixpoint wait_for_transaction (fuel : nat) (attempt : Z) (tx_hash : string) : netM GetTransactionResult :=
  match fuel with
  | O => throw Polling
  | S fuel =>
    let attempt := attempt + 1 in
    response ← request (post_get_transaction tx_hash);
    let again :=
      if 15 <? attempt
      then raise (Validation ("transaction " +:+ tx_hash +:+ " timed out waiting for confirmation"))
      else wait_for_transaction fuel attempt tx_hash in
    match response with
    | SendFailed e => raise (Validation ("RPC getTransaction failed: " +:+ e))
    | StatusError _ _ => wait_for_transaction fuel attempt tx_hash  (* [continue] *)
    | Parsed (Some tx_res) _ =>
      if bool_decide (tx_status tx_res = "SUCCESS"%string) || bool_decide (tx_status tx_res = "FAILED"%string)
      then mret tx_res else again
    | _ => again
    end
  end.

Definition MAX_BAD_SEQ_RETRIES : nat := 5.

(** The loop of [submit_invoke_with_retry] and [submit_host_function_with_retry], which
    differ in how the transaction is built for a sequence number. *)
Fixpoint submit_loop (polls retries : nat) (keypair : StellarKeypair) (network_passphrase : string)
    (build : Z -> AuditResult Transaction) : netM (string * SimulationResult) :=
  sequence ← get_account_sequence_from_rpc (public_bytes keypair);
  tx ← try (build sequence);
  sim_result ← simulate_transaction tx;
  signed_tx ← attach_soroban_data_and_auth tx sim_result;
  let decorated_sig := sign_transaction signed_tx (signing_key keypair) network_passphrase in
  let envelope := {| env_tx := signed_tx; env_signatures := [decorated_sig] |} in
  sending ← catch_error (send_transaction envelope);
  match sending with
  | Ok tx_hash =>
    confirmed ← wait_for_transaction polls 0 tx_hash;
    if bool_decide (tx_status confirmed = "FAILED"%string) then
      let detail := default "no result XDR returned"%string
                      (describe_failed_result_xdr <$> result_xdr confirmed) in
      raise (Validation ("transaction " +:+ tx_hash +:+ " failed on-chain: " +:+ detail))
    else mret (tx_hash, sim_result)
  | Err e =>
    match retries with
    | S retries => if is_bad_seq_error e then submit_loop polls retries keypair network_passphrase build
                   else raise e
    | O => raise e
    end
  end.

Definition submit_invoke_with_retry (polls : nat) (keypair : StellarKeypair)
    (network_passphrase contract_id function_name : string) (args : list ScVal) (base_fee : Z)
  : netM (string * SimulationResult) :=
  submit_loop polls MAX_BAD_SEQ_RETRIES keypair network_passphrase (fun sequence =>
    build_invoke_transaction (public_bytes keypair) sequence contract_id function_name args base_fee).

Definition submit_host_function_with_retry (polls : nat) (keypair : StellarKeypair)
    (network_passphrase : string) (host_function : HostFunction) (base_fee : Z)
  : netM (string * SimulationResult) :=
  submit_loop polls MAX_BAD_SEQ_RETRIES keypair network_passphrase (fun sequence =>
    Ok (build_host_function_transaction (public_bytes keypair) sequence host_function base_fee)).

(** ** The calls of the contract *)

(** The value a simulation returned: none, or its first result decoded. *)
Definition return_value (what : string) (sim_result : SimulationResult) : netM (option ScVal) :=
  match results sim_result with
  | [] => mret None
  | first :: _ =>
    return_val_xdr ← try (ok_or (b64_decode (xdr first)) (Validation ("base64 decode " +:+ what)));
    return_val ← try (ok_or (ScVal_from_xdr return_val_xdr) (Validation ("decode " +:+ what)));
    mret (Some return_val)
  end.

(** A read-only simulation: sequence number 0 and no signature. *)
Definition simulate_call (source_keypair : StellarKeypair) (contract_id function_name : string)
    (args : list ScVal) (what : string) : netM (option ScVal) :=
  tx ← try (build_invoke_transaction (public_bytes source_keypair) 0 contract_id function_name args 100);
  sim_result ← simulate_transaction tx;
  return_value what sim_result.

Record CommitResult := { cr_sequence : N; cr_tx_hash : string; cr_root_hex : string }.

Definition sv_string (text : string) : AuditResult ScVal :=
  SvString <$> bounded u32_max "invalid metadata" (as_bytes text).
Definition sv_account (kp : StellarKeypair) : ScVal := SvAddress (Account (public_bytes kp)).

Definition on_chain_sequence (sim_result : SimulationResult) : netM N :=
  v ← return_value "return value" sim_result;
  mret (default 0%N (read_sequence <$> v)).

Definition commit_root_native (polls : nat) (root_hex metadata : string) (keypair : StellarKeypair)
    (contract_id network_passphrase : string) : netM CommitResult :=
  root ← try (hex_to_scbytes "root" root_hex);
  metadata ← try (sv_string metadata);
  '(tx_hash, sim_result) ← submit_invoke_with_retry polls keypair network_passphrase contract_id
    "commit_root" [root; metadata] 100;
  sequence ← on_chain_sequence sim_result;
  mret {| cr_sequence := sequence; cr_tx_hash := tx_hash; cr_root_hex := root_hex |}.

Definition commit_root_with_oplog_native (polls : nat) (root_hex oplog_root_hex : string)
    (oplog_start_ts oplog_end_ts oplog_entry_count : N) (metadata : string) (keypair : StellarKeypair)
    (contract_id network_passphrase : string) : netM CommitResult :=
  root ← try (hex_to_scbytes "root" root_hex);
  oplog_root ← try (hex_to_scbytes "oplog root" oplog_root_hex);
  metadata ← try (sv_string metadata);
  '(tx_hash, sim_result) ← submit_invoke_with_retry polls keypair network_passphrase contract_id
    "commit_root_with_oplog"
    [root; oplog_root; SvU64 oplog_start_ts; SvU64 oplog_end_ts; SvU64 oplog_entry_count; metadata] 100;
  sequence ← on_chain_sequence sim_result;
  mret {| cr_sequence := sequence; cr_tx_hash := tx_hash; cr_root_hex := root_hex |}.

Definition attest_oplog_native (polls : nat) (attester_keypair : StellarKeypair) (sequence : N)
    (signature_hex contract_id network_passphrase : string) : netM unit :=
  signature ← try (hex_to_scbytes "signature" signature_hex);
  _ ← submit_invoke_with_retry polls attester_keypair network_passphrase contract_id
    "attest_oplog" [sv_account attester_keypair; SvU64 sequence; signature] 100;
  mret tt.

Record VerifyInclusionResult := { vi_tx_hash : string; vi_verified : bool }.

Definition verify_inclusion_native (polls : nat)
    (root_hex leaf_hex proof_a_hex proof_b_hex proof_c_hex : string) (keypair : StellarKeypair)
    (contract_id network_passphrase : string) : netM VerifyInclusionResult :=
  args ← try (build_verify_inclusion_args root_hex leaf_hex proof_a_hex proof_b_hex proof_c_hex);
  '(tx_hash, sim_result) ← submit_invoke_with_retry polls keypair network_passphrase contract_id
    "verify_inclusion" args 100;
  v ← return_value "return value" sim_result;
  mret {| vi_tx_hash := tx_hash; vi_verified := default false (read_verified_submitted <$> v) |}.

Definition classify_verify_error (msg : string) : string :=
  if str_contains "#7" msg then
    "root not committed on-chain — the proof's root was never anchored by the contract"
  else if str_contains "#8" msg then
    "pairing check failed — the proof is invalid for this (root, leaf) pair"
  else if str_contains "#4" msg then
    "invalid proof encoding — point bytes have the wrong length or format"
  else if str_contains "#9" msg then "contract not initialized — no verifying key is pinned"
  else if str_contains "#5" msg then "malformed verifying key pinned on-chain"
  else if str_contains "#18" msg then
    "no disclosure verifying key registered on this contract — the operator must run register_disclosure_vk"
  else "verification failed: " +:+ msg.

Record ReadonlyVerifyResult := { rv_verified : bool; rv_reason : option string }.

(** The common part of the two read-only verifications: a refusal by the contract is a
    result, a failure to reach it an error.  The key of the probe is fresh. *)
Definition verify_readonly (probe_kp : StellarKeypair) (contract_id function_name : string)
    (args : list ScVal) : netM ReadonlyVerifyResult :=
  tx ← try (build_invoke_transaction (public_bytes probe_kp) 0 contract_id function_name args 100);
  sim ← catch_error (simulate_transaction tx);
  match sim with
  | Err e =>
    let msg := error_text e in
    if str_contains "Error(Contract" msg || str_contains "simulateTransaction error" msg
    then mret {| rv_verified := false; rv_reason := Some (classify_verify_error msg) |}
    else raise e
  | Ok sim_result =>
    v ← return_value "return value" sim_result;
    let verified := default false (read_verified_readonly <$> v) in
    mret {| rv_verified := verified;
            rv_reason := if verified then None
                         else Some "simulation returned no boolean verification result" |}
  end.

Definition verify_inclusion_readonly_native (probe_kp : StellarKeypair)
    (root_hex leaf_hex proof_a_hex proof_b_hex proof_c_hex contract_id : string)
  : netM ReadonlyVerifyResult :=
  args ← try (build_verify_inclusion_args root_hex leaf_hex proof_a_hex proof_b_hex proof_c_hex);
  verify_readonly probe_kp contract_id "verify_inclusion" args.

Definition verify_disclosure_readonly_native (probe_kp : StellarKeypair) (root_hex leaf_hex : string)
    (claim : DisclosureClaim) (proof_a_hex proof_b_hex proof_c_hex contract_id : string)
  : netM ReadonlyVerifyResult :=
  args ← try (build_disclosure_args root_hex leaf_hex claim proof_a_hex proof_b_hex proof_c_hex);
  verify_readonly probe_kp contract_id "verify_disclosure" args.

Definition get_admin_native (source_keypair : StellarKeypair) (contract_id : string)
  : netM (option string) :=
  v ← simulate_call source_keypair contract_id "get_admin" [] "return value";
  mret (v ← v; read_admin v).

Definition get_oplog_commitment_native (sequence : N) (source_keypair : StellarKeypair)
    (contract_id : string) : netM (option OnChainOplogCommitment) :=
  v ← simulate_call source_keypair contract_id "get_oplog_commitment" [SvU64 sequence] "return value";
  mret (v ← v; read_oplog_commitment sequence v).

Definition get_current_root_native (source_keypair : StellarKeypair) (contract_id : string)
  : netM (option OnChainRoot) :=
  v ← simulate_call source_keypair contract_id "get_current_root" [] "return value";
  mret (v ← v; read_root v).

Definition get_root_history_native (source_keypair : StellarKeypair) (contract_id : string) (limit : N)
  : netM (list OnChainRoot) :=
  v ← simulate_call source_keypair contract_id "get_root_history" [SvU32 limit] "root_history return";
  mret (default [] (read_root_history <$> v)).

Definition get_oplog_attestations_native (source_keypair : StellarKeypair) (contract_id : string)
    (sequence : N) : netM (list string) :=
  v ← simulate_call source_keypair contract_id "get_oplog_attestations" [SvU64 sequence] "attestations";
  mret (default [] (read_attesters <$> v)).

Definition get_disclosure_records_native (probe_kp : StellarKeypair) (contract_id : string) (limit : N)
  : netM (list OnChainDisclosureRecord) :=
  v ← simulate_call probe_kp contract_id "get_disclosure_records" [SvU32 limit] "records return";
  mret (default [] (read_disclosure_records <$> v)).

Definition get_threshold_native (source_keypair : StellarKeypair) (contract_id : string) : netM N :=
  v ← simulate_call source_keypair contract_id "get_threshold" [] "return value";
  mret (default 1%N (read_threshold <$> v)).

Definition verify_attestation_native (source_keypair : StellarKeypair) (contract_id : string)
    (sequence : N) : netM OnChainAttestationVerification :=
  v ← simulate_call source_keypair contract_id "verify_attestation" [SvU64 sequence] "return value";
  match v with
  | None => raise (Validation "verify_attestation returned no result")
  | Some return_val => try (read_attestation_verification sequence return_val)
  end.

(** ** Setting a contract up *)

Definition initialize_contract_native (polls : nat) (contract_id : string) (admin_keypair : StellarKeypair)
    (vk_alpha_hex vk_beta_hex vk_gamma_hex vk_delta_hex : string) (vk_ic_hex : list string)
    (network_passphrase : string) : netM unit :=
  vk ← try (build_verifying_key_scval vk_alpha_hex vk_beta_hex vk_gamma_hex vk_delta_hex vk_ic_hex);
  _ ← submit_invoke_with_retry polls admin_keypair network_passphrase contract_id
    "initialize" [sv_account admin_keypair; vk] 100;
  mret tt.

Definition register_disclosure_vk_native (polls : nat) (contract_id : string)
    (admin_keypair : StellarKeypair)
    (vk_alpha_hex vk_beta_hex vk_gamma_hex vk_delta_hex : string) (vk_ic_hex : list string)
    (network_passphrase : string) : netM unit :=
  vk ← try (build_verifying_key_scval vk_alpha_hex vk_beta_hex vk_gamma_hex vk_delta_hex vk_ic_hex);
  _ ← submit_invoke_with_retry polls admin_keypair network_passphrase contract_id
    "register_disclosure_vk" [vk] 100;
  mret tt.

Record RecordedVerifyResult := { rec_tx_hash : string; rec_record_id : N; rec_verifier : string }.

Definition verify_and_record_disclosure_native (polls : nat) (root_hex leaf_hex : string)
    (claim : DisclosureClaim) (proof_a_hex proof_b_hex proof_c_hex : string)
    (verifier_keypair : StellarKeypair) (contract_id network_passphrase : string)
  : netM RecordedVerifyResult :=
  args ← try (build_disclosure_args root_hex leaf_hex claim proof_a_hex proof_b_hex proof_c_hex);
  '(tx_hash, sim_result) ← submit_invoke_with_retry polls verifier_keypair network_passphrase contract_id
    "verify_and_record_disclosure" (sv_account verifier_keypair :: args) 100;
  v ← return_value "return value" sim_result;
  mret {| rec_tx_hash := tx_hash; rec_record_id := default 0%N (read_record_id <$> v);
          rec_verifier := account_id verifier_keypair |}.

Definition attester_scval (attester_address : string) : AuditResult ScVal :=
  attester_pubkey_bytes ← ok_or (decode_account_id_strkey attester_address)
    (Validation ("invalid attester Stellar address (expected G... strkey): " +:+ attester_address));
  mret (SvAddress (Account attester_pubkey_bytes)).

Definition authorize_attester_native (polls : nat) (contract_id : string) (admin_keypair : StellarKeypair)
    (attester_address attester_ed25519_pubkey_hex network_passphrase : string) : netM unit :=
  attester_addr_scval ← try (attester_scval attester_address);
  pubkey_scval ← try (hex_to_scbytes "ed25519 pubkey" attester_ed25519_pubkey_hex);
  _ ← submit_invoke_with_retry polls admin_keypair network_passphrase contract_id
    "authorize_attester" [attester_addr_scval; pubkey_scval] 100;
  mret tt.

Definition revoke_attester_native (polls : nat) (contract_id : string) (admin_keypair : StellarKeypair)
    (attester_address network_passphrase : string) : netM unit :=
  attester_addr_scval ← try (attester_scval attester_address);
  _ ← submit_invoke_with_retry polls admin_keypair network_passphrase contract_id
    "revoke_attester" [attester_addr_scval] 100;
  mret tt.

Definition set_threshold_native (polls : nat) (contract_id : string) (admin_keypair : StellarKeypair)
    (threshold : N) (network_passphrase : string) : netM unit :=
  if (threshold <? 1)%N then raise (Validation "attestation threshold must be at least 1")
  else
    _ ← submit_invoke_with_retry polls admin_keypair network_passphrase contract_id
      "set_threshold" [SvU32 threshold] 100;
    mret tt.

Record DeployedContract := {
  dc_contract_id : string; wasm_hash_hex : string; upload_tx_hash : string; create_tx_hash : string;
}.

Definition derive_contract_id (network_passphrase : string) (preimage : ContractIdPreimage) : list byte :=
  let network_id := sha256 (as_bytes network_passphrase) in
  sha256 (contract_id_preimage_xdr network_id preimage).

(** [salt] is what the random generator returns. *)
Definition deploy_contract_native (polls : nat) (salt : list byte) (wasm_bytes : list byte)
    (deployer_keypair : StellarKeypair) (network_passphrase : string) : netM DeployedContract :=
  if (length wasm_bytes =? 0)%nat then raise (Validation "contract WASM resource is empty")
  else
    let wasm_hash := sha256 wasm_bytes in
    wasm ← try (bounded u32_max "invalid contract WASM bytes" wasm_bytes);
    '(upload_tx_hash, _) ← submit_host_function_with_retry polls deployer_keypair network_passphrase
      (UploadContractWasm wasm) 100;
    let contract_id_preimage := {| deployer := public_bytes deployer_keypair; salt := salt |} in
    let contract_id_bytes := derive_contract_id network_passphrase contract_id_preimage in
    '(create_tx_hash, _) ← submit_host_function_with_retry polls deployer_keypair network_passphrase
      (CreateContract contract_id_preimage wasm_hash) 100;
    mret {| dc_contract_id := encode_contract_id contract_id_bytes;
            wasm_hash_hex := hex_encode wasm_hash;
            upload_tx_hash := upload_tx_hash; create_tx_hash := create_tx_hash |}.
End network.
