(* ===== verification/AuditLog.v ===== *)
(** * The audit log (audit-service/src/audit/mod.rs)

    The log's state, the disk it persists to, and every operation on them: recording,
    replay and verification at startup, legal holds, pruning, the per-domain trees,
    disclosure openings and reset.  Each mutex-protected field is a field of the state
    and each method one atomic operation.  Lock poisoning is recovered from in the code
    and has no effect here. *)

From S2P Require Import Prelude.
From S2P Require Import Bytes.
From S2P Require Import Text.
From S2P Require Import Interfaces.
From S2P Require Import AuditError.
From S2P Require Import CanonicalPayload.
From S2P Require Import Commitment.
From S2P Require Import SledStore.
From S2P Require Import PoseidonTree.
Local Open Scope N_scope.

(** ** Data *)

Record AuditEvent := {
  index : N;
  leaf_hex : string;
  operation : string;
  database : string;
  collection : string;
  deployment_id : string;
  sequence : N;
  timestamp : string;
}.

Record PersistedEvent := {
  p_index : N;
  p_operation : string;
  p_database : string;
  p_collection : string;
  p_deployment_id : string;
  p_sequence : N;
  p_payload : string;
  p_leaf_hex : string;
  p_root_after : string;
  p_timestamp : string;
  p_version : N;
}.

Record DomainRetentionRoot := {
  root_hex : string;
  event_count : N;
  max_index : N;
  pruned_at : string;
}.

#[export] Instance AuditEvent_eq_dec : EqDecision AuditEvent.
Proof. solve_decision. Defined.
#[export] Instance PersistedEvent_eq_dec : EqDecision PersistedEvent.
Proof. solve_decision. Defined.
#[export] Instance DomainRetentionRoot_eq_dec : EqDecision DomainRetentionRoot.
Proof. solve_decision. Defined.

(** An audit domain: (deploymentId, database). *)
Definition domain : Type := string * string.

(** ** [serde_json]

    A JSON value as far as the log inspects it: an object with scalar members.  The
    class is the text format: what is serialized on one line parses back; an event is
    the object of its fields, and an object without an [index] member is not an event. *)
Inductive Scalar := SStr (s : string) | SBool (b : bool) | SU64 (n : N) | SOther.
Inductive Value := VObject (members : gmap string Scalar) | VOther.

(** [v.get(k)], [as_str], [as_bool], [as_u64] *)
Definition get (v : Value) (k : string) : option Scalar :=
  match v with VObject m => m !! k | VOther => None end.
Definition as_str (s : Scalar) : option string :=
  match s with SStr s => Some s | _ => None end.
Definition as_bool (s : Scalar) : option bool :=
  match s with SBool b => Some b | _ => None end.
Definition as_u64 (s : Scalar) : option N :=
  match s with SU64 n => Some n | _ => None end.

(** The members of a serialized event. *)
Definition event_object (e : PersistedEvent) : gmap string Scalar :=
  list_to_map [("index", SU64 (p_index e)); ("operation", SStr (p_operation e));
    ("database", SStr (p_database e)); ("collection", SStr (p_collection e));
    ("deployment_id", SStr (p_deployment_id e)); ("sequence", SU64 (p_sequence e));
    ("payload", SStr (p_payload e)); ("leaf_hex", SStr (p_leaf_hex e));
    ("root_after", SStr (p_root_after e)); ("timestamp", SStr (p_timestamp e));
    ("version", SU64 (p_version e))]%string.

Class AuditJson := {
  event_to_string : PersistedEvent -> string;
  event_from_str : string -> option PersistedEvent;
  value_to_string : gmap string Scalar -> string;
  value_from_str : string -> option Value;
  event_round_trip e : event_from_str (event_to_string e) = Some e;
  value_round_trip m : value_from_str (value_to_string m) = Some (VObject m);
  event_value e : value_from_str (event_to_string e) = Some (VObject (event_object e));
  value_not_event m : m !! "index"%string = None -> event_from_str (value_to_string m) = None;
  event_single_line e : single_line (event_to_string e);
  value_single_line m : single_line (value_to_string m);
  event_utf8 e : rust_string (event_to_string e);
  value_utf8 m : rust_string (value_to_string m);
}.

(** ** State *)

Record PersistenceState := { events_path : string }.

Record AuditLog (F : Type) := {
  tree : AuditMerkleTree F;
  events : list AuditEvent;
  sequences : gmap domain N;
  persistence : option PersistenceState;
  sled_store : option string;
  legal_holds : gset domain;
  retained_domain_roots : gmap domain (list DomainRetentionRoot);
  leaf_key : option (list byte);
  root_after_by_index : list string;
}.
Arguments tree {F}. Arguments events {F}. Arguments sequences {F}. Arguments persistence {F}.
Arguments sled_store {F}. Arguments legal_holds {F}. Arguments retained_domain_roots {F}.
Arguments leaf_key {F}. Arguments root_after_by_index {F}.
Arguments Build_AuditLog {F}.

(** The files and databases by path, and the errors the next file operations meet:
    every operation, or only the [sync_all] that follows a write. *)
Record Disk (Db : Type) := {
  files : gmap string string;
  sleds : gmap string Db;
  io_error : option string;
  sync_error : option string;
}.
Arguments files {Db}. Arguments sleds {Db}. Arguments io_error {Db}. Arguments sync_error {Db}.
Arguments Build_Disk {Db}.

Record World (F Db : Type) := { log : AuditLog F; disk : Disk Db }.
Arguments log {F Db}. Arguments disk {F Db}. Arguments Build_World {F Db}.

Section setters.
Context {F Db : Type}.
Implicit Types (l : AuditLog F) (d : Disk Db) (w : World F Db).

Definition set_tree t l : AuditLog F :=
  Build_AuditLog t (events l) (sequences l) (persistence l) (sled_store l) (legal_holds l)
    (retained_domain_roots l) (leaf_key l) (root_after_by_index l).
Definition set_events es l : AuditLog F :=
  Build_AuditLog (tree l) es (sequences l) (persistence l) (sled_store l) (legal_holds l)
    (retained_domain_roots l) (leaf_key l) (root_after_by_index l).
Definition set_sequences s l : AuditLog F :=
  Build_AuditLog (tree l) (events l) s (persistence l) (sled_store l) (legal_holds l)
    (retained_domain_roots l) (leaf_key l) (root_after_by_index l).
Definition set_persistence p l : AuditLog F :=
  Build_AuditLog (tree l) (events l) (sequences l) p (sled_store l) (legal_holds l)
    (retained_domain_roots l) (leaf_key l) (root_after_by_index l).
Definition set_sled_store s l : AuditLog F :=
  Build_AuditLog (tree l) (events l) (sequences l) (persistence l) s (legal_holds l)
    (retained_domain_roots l) (leaf_key l) (root_after_by_index l).
Definition set_legal_holds h l : AuditLog F :=
  Build_AuditLog (tree l) (events l) (sequences l) (persistence l) (sled_store l) h
    (retained_domain_roots l) (leaf_key l) (root_after_by_index l).
Definition set_retained r l : AuditLog F :=
  Build_AuditLog (tree l) (events l) (sequences l) (persistence l) (sled_store l) (legal_holds l)
    r (leaf_key l) (root_after_by_index l).
Definition set_key k l : AuditLog F :=
  Build_AuditLog (tree l) (events l) (sequences l) (persistence l) (sled_store l) (legal_holds l)
    (retained_domain_roots l) k (root_after_by_index l).
Definition set_roots r l : AuditLog F :=
  Build_AuditLog (tree l) (events l) (sequences l) (persistence l) (sled_store l) (legal_holds l)
    (retained_domain_roots l) (leaf_key l) r.
Definition set_files f d : Disk Db := Build_Disk f (sleds d) (io_error d) (sync_error d).
Definition set_sleds s d : Disk Db := Build_Disk (files d) s (io_error d) (sync_error d).
Definition on_log (f : AuditLog F -> AuditLog F) w : World F Db := Build_World (f (log w)) (disk w).
Definition on_disk (f : Disk Db -> Disk Db) w : World F Db := Build_World (log w) (f (disk w)).
End setters.

(** ** Leaves *)

Section leaves.
Context {F : Type} {PF : PrimeField F} {Pos : Poseidon F}.
Context {Sha : Sha256} {Hm : HmacSha256} {Hexs : Hex} {B64 : Base64} {Chr : Chrono}.

Definition fr_to_hex (f : F) : string := hex_encode (to_bytes_be f).

Definition hex_to_fr (hex_str : string) : result AuditError F :=
  bytes ← ok_or (hex_decode hex_str) (Validation "hex_to_fr decode");
  Ok (from_be_bytes_mod_order bytes).

Definition leaf_from_payload (_operation _database _collection payload : string) : F :=
  let hash := sha256 (as_bytes payload) in
  from_be_bytes_mod_order (truncate_hash hash).

Definition super_leaf (deployment_id database domain_root_hex : string) : F :=
  leaf_from_payload "domain_root" database ""
    (deployment_id +:+ "|" +:+ database +:+ "|" +:+ domain_root_hex).

(** [.timestamp().max(0) as u64] *)
Definition ts_secs_of (secs : Z) : Z := Z.max secs 0 mod 2 ^ 64.

Definition recompute_leaf (leaf_key : option (list byte)) (event : PersistedEvent) :
    result AuditError F :=
  match p_version event with
  | 0 | 1 =>
    Ok (leaf_from_payload (p_operation event) (p_database event) (p_collection event)
          (p_payload event))
  | 2 =>
    key ← ok_or leaf_key (Validation "v2 event requires leaf key, but none is configured");
    canonical ← ok_or (b64_decode (p_payload event)) (Validation "v2 event base64 decode failed");
    Ok (hmac_leaf key canonical)
  | 3 =>
    key ← ok_or leaf_key (Validation "v3 event requires leaf key, but none is configured");
    canonical ← ok_or (b64_decode (p_payload event)) (Validation "v3 event base64 decode failed");
    secs ← ok_or (parse_rfc3339_secs (p_timestamp event))
                 (Validation "v3 event timestamp parse failed");
    '(leaf, _) ← map_err from_zk (poseidon_leaf_v3 key (p_operation event) (p_database event)
                    (p_collection event) (ts_secs_of secs) canonical);
    Ok leaf
  | _ => Err (Validation "unknown event version")
  end.
End leaves.

(** ** Operations *)

Section operations.
Context {F : Type} {PF : PrimeField F} {Pos : Poseidon F}.
Context {Sha : Sha256} {Hm : HmacSha256} {Hexs : Hex} {B64 : Base64} {Chr : Chrono}.
Context {AJ : AuditJson} {Db : Type} {SD : SledDb Db}.

Definition method (A : Type) : Type := stateR (World F Db) AuditError A.

Definition get_log {A} (f : AuditLog F -> A) : method A := gets (fun w => f (log w)).
Definition put_log (f : AuditLog F -> AuditLog F) : method unit := modify (on_log f).
Definition zk {A} (r : result ZkAuditError A) : method A := liftR (map_err from_zk r).

(** *** The file system *)

Definition path_join (a b : string) : string := a +:+ "/" +:+ b.

Definition io {A} (f : Disk Db -> result AuditError A * Disk Db) : method A :=
  fun w => match io_error (disk w) with
           | Some e => (Err (Io e), w)
           | None => let '(r, d) := f (disk w) in (r, Build_World (log w) d)
           end.

Definition file_exists (path : string) : method bool :=
  gets (fun w => bool_decide (is_Some (files (disk w) !! path))).
Definition sled_exists (path : string) : method bool :=
  gets (fun w => bool_decide (is_Some (sleds (disk w) !! path))).

Definition create_dir_all (dir : string) : method unit := io (fun d => (Ok tt, d)).

Definition read_to_string (path : string) : method string :=
  io (fun d => (match files d !! path with
                | Some s => if utf8_valid (as_bytes s) then Ok s
                            else Err (Io "stream did not contain valid UTF-8")
                | None => Err (Io "No such file or directory")
                end, d)).

Definition write_file (path s : string) : method unit :=
  io (fun d => (Ok tt, set_files (<[path := s]> (files d)) d)).

(** Opening for append creates the file when it is missing. *)
Definition open_append (path : string) : method unit :=
  io (fun d => (Ok tt, match files d !! path with
                       | Some _ => d
                       | None => set_files (<[path := ""%string]> (files d)) d
                       end)).

(** [writeln!(state.file, "{line}")?; state.file.sync_all()?] *)
Definition append_line (path line : string) : method unit :=
  io (fun d =>
        let content := default ""%string (files d !! path) in
        (match sync_error d with Some e => Err (Io e) | None => Ok tt end,
         set_files (<[path := content +:+ line +:+ newline]> (files d)) d)).

(** [SledTreeStore::open]: a missing database is created. *)
Definition open_sled (path : string) : method unit :=
  fun w => match io_error (disk w) with
           | Some _ => (Err (Validation "open sled tree store"), w)
           | None =>
             (Ok tt, match sleds (disk w) !! path with
                     | Some _ => w
                     | None => on_disk (fun d => set_sleds (<[path := sled_new]> (sleds d)) d) w
                     end)
           end.

(** A call on the open store. *)
Definition on_sled {A} (path : string) (m : store (Db := Db) A) : method A :=
  fun w => let db := default sled_new (sleds (disk w) !! path) in
           let '(r, db') := m db in
           (r, on_disk (fun d => set_sleds (<[path := db']> (sleds d)) d) w).

(** [if let Some(store) = sled_guard.as_ref() { store.op()? }] *)
Definition if_sled (m : store (Db := Db) unit) : method unit :=
  s ← get_log sled_store;
  match s with Some path => on_sled path m | None => mret tt end.

(** [if let Some(state) = persistence.as_mut() { writeln!(..)?; sync_all()? }] *)
Definition persist_line (line : string) : method unit :=
  p ← get_log persistence;
  match p with Some st => append_line (events_path st) line | None => mret tt end.

(** *** Construction and the leaf key *)

Definition new : result AuditError (AuditLog F) :=
  tree ← map_err from_zk (with_height 20);
  Ok (Build_AuditLog tree [] ∅ None None ∅ ∅ None []).

Definition root_after_at (l : AuditLog F) (index : N) : option string :=
  root_after_by_index l !! N.to_nat index.

Definition set_leaf_key (key : list byte) : method unit := put_log (set_key (Some key)).
Definition clear_leaf_key : method unit := put_log (set_key None).
Definition has_leaf_key (l : AuditLog F) : bool := bool_decide (is_Some (leaf_key l)).

(** *** Reading a log file *)

(** The parse pass both replays start with: the events, and the number of the first
    line that is neither an event nor a metadata object. *)
Fixpoint parse_lines (i : nat) (lines : list string) : list PersistedEvent * option nat :=
  match lines with
  | [] => ([], None)
  | line :: lines =>
    if bool_decide (trim line = ""%string) then parse_lines (S i) lines
    else match event_from_str (trim line) with
         | Some ev => let '(parsed, bad) := parse_lines (S i) lines in (ev :: parsed, bad)
         | None =>
           match value_from_str (trim line) with
           | Some v => if bool_decide (is_Some (get v "meta")) then parse_lines (S i) lines
                       else ([], Some i)
           | None => ([], Some i)
           end
         end
  end.

(** The file is cut at the first bad line. *)
Definition truncate_at (path : string) (lines : list string) (first_bad : option nat) :
    method unit :=
  match first_bad with
  | None => mret tt
  | Some bad_idx =>
    let clean := join newline (take bad_idx lines) in
    write_file path (if bool_decide (clean = ""%string) then ""%string else clean +:+ newline)
  end.

(** One metadata line applied to the holds and the retained roots. *)
Definition replay_metadata (st : gset domain * gmap domain (list DomainRetentionRoot))
    (val : Value) : gset domain * gmap domain (list DomainRetentionRoot) :=
  let '(holds, retained) := st in
  let str k := get val k ≫= as_str in
  match str "meta"%string with
  | Some meta =>
    if bool_decide (meta = "legal_hold"%string) then
      match str "deployment_id"%string, str "database"%string, get val "hold" ≫= as_bool with
      | Some dep, Some db, Some hold =>
        let key : domain := (dep, db) in
        (if hold : bool then {[key]} ∪ holds else holds ∖ {[key]}, retained)
      | _, _, _ => st
      end
    else if bool_decide (meta = "pruned_domain"%string) then
      match str "deployment_id"%string, str "database"%string, str "root_hex"%string,
            get val "event_count" ≫= as_u64, get val "max_index" ≫= as_u64,
            str "pruned_at"%string with
      | Some dep, Some db, Some root, Some count, Some max, Some at_ =>
        let key := (dep, db) in
        let retained_root :=
          {| root_hex := root; event_count := count; max_index := max; pruned_at := at_ |} in
        let roots := default [] (retained !! key) in
        (holds,
         <[key :=
           if existsb (fun r => bool_decide (max_index r = max_index retained_root) &&
                                bool_decide (root_hex r = root_hex retained_root)) roots
           then roots else roots ++ [retained_root]]> retained)
      | _, _, _, _, _, _ => st
      end
    else st
  | None => st
  end.

Definition metadata_of_lines (lines : list string) :
    gset domain * gmap domain (list DomainRetentionRoot) :=
  foldl (fun st line =>
           if bool_decide (trim line = ""%string) then st
           else match value_from_str (trim line) with
                | Some val => replay_metadata st val
                | None => st
                end) (∅, ∅) lines.

Definition replay_metadata_lines (path : string) : method unit :=
  raw ← read_to_string path;
  let '(holds, retained) := metadata_of_lines (lines raw) in
  _ ← put_log (set_legal_holds holds);
  put_log (set_retained retained).

(** No retained root of its domain covers the event. *)
Definition kept (retained : gmap domain (list DomainRetentionRoot)) (ev : AuditEvent) : bool :=
  match retained !! (deployment_id ev, database ev) with
  | Some roots => negb (existsb (fun r => index ev <=? max_index r) roots)
  | None => true
  end.

(** [events.retain(..)]; with no retained roots at all the code returns early. *)
Definition apply_retention (retained : gmap domain (list DomainRetentionRoot))
    (events : list AuditEvent) : list AuditEvent :=
  filter (fun ev => kept retained ev = true) events.

Definition apply_retention_to_events : method unit :=
  put_log (fun l => set_events (apply_retention (retained_domain_roots l) (events l)) l).

(** [entry(key).or_insert(0)], read and incremented. *)
Definition next_sequence (seqs : gmap domain N) (key : domain) : N * gmap domain N :=
  let assigned := default 0 (seqs !! key) in (assigned, <[key := assigned + 1]> seqs).

Definition event_of (ev : PersistedEvent) (sequence : N) : AuditEvent :=
  {| index := p_index ev; leaf_hex := p_leaf_hex ev; operation := p_operation ev;
     database := p_database ev; collection := p_collection ev;
     deployment_id := p_deployment_id ev; sequence := sequence; timestamp := p_timestamp ev |}.

Definition check_leaf (ev : PersistedEvent) : method F :=
  key ← get_log leaf_key;
  recomputed_leaf ← liftR (recompute_leaf key ev);
  if bool_decide (fr_to_hex recomputed_leaf = p_leaf_hex ev) then mret recomputed_leaf
  else throw (ZkAudit "audit log tamper detected: leaf mismatch").

(** *** [verify_against_tree] *)

Fixpoint verify_events (parsed : list PersistedEvent) (seqs : gmap domain N) :
    method (gmap domain N) :=
  match parsed with
  | [] => mret seqs
  | ev :: parsed =>
    _ ← check_leaf ev;
    t ← get_log tree;
    if N.leb (leaf_count t) (p_index ev) then
      throw (ZkAudit "audit log tamper detected: index exceeds tree leaf count")
    else
      let '(sequence, seqs) := next_sequence seqs (p_deployment_id ev, p_database ev) in
      _ ← put_log (fun l => set_events (events l ++ [event_of ev sequence]) l);
      verify_events parsed seqs
  end.

Definition verify_against_tree (path : string) : method (list PersistedEvent) :=
  raw ← read_to_string path;
  let '(parsed, first_bad) := parse_lines 0 (lines raw) in
  _ ← truncate_at path (lines raw) first_bad;
  _ ← replay_metadata_lines path;
  if bool_decide (parsed = []) then mret []
  else
    evs ← get_log events;
    if negb (bool_decide (evs = [])) then
      throw (ZkAudit "cannot verify into a non-empty audit log")
    else
      seq_counters ← verify_events parsed ∅;
      _ ← put_log (set_sequences seq_counters);
      _ ← put_log (set_roots (map p_root_after parsed));
      t ← get_log tree;
      r ← zk (root t);
      let tree_root_hex := fr_to_hex r in
      match last parsed with
      | Some last_ev =>
        if bool_decide (p_root_after last_ev = tree_root_hex) then
          _ ← apply_retention_to_events; mret parsed
        else throw (ZkAudit "audit log tamper detected: final root mismatch")
      | None => _ ← apply_retention_to_events; mret parsed
      end.

(** *** [replay_file] *)

Fixpoint replay_events (parsed : list PersistedEvent) (seqs : gmap domain N) :
    method (gmap domain N) :=
  match parsed with
  | [] => mret seqs
  | ev :: parsed =>
    recomputed_leaf ← check_leaf ev;
    t ← get_log tree;
    let '(inserted_idx, t) := insert t recomputed_leaf in
    _ ← put_log (set_tree t);
    if negb (bool_decide (inserted_idx = p_index ev)) then
      throw (ZkAudit "audit log tamper detected: index mismatch")
    else
      recomputed_root ← zk (root t);
      let recomputed_root_hex := fr_to_hex recomputed_root in
      if negb (bool_decide (recomputed_root_hex = p_root_after ev)) then
        throw (ZkAudit "audit log tamper detected: root_after mismatch")
      else
        _ ← put_log (fun l => set_roots (root_after_by_index l ++ [recomputed_root_hex]) l);
        let '(sequence, seqs) := next_sequence seqs (p_deployment_id ev, p_database ev) in
        _ ← put_log (fun l => set_events (events l ++ [event_of ev sequence]) l);
        replay_events parsed seqs
  end.

Definition replay_file (path : string) : method (list PersistedEvent) :=
  raw ← read_to_string path;
  let '(parsed, first_bad) := parse_lines 0 (lines raw) in
  _ ← truncate_at path (lines raw) first_bad;
  _ ← replay_metadata_lines path;
  if bool_decide (parsed = []) then mret []
  else
    evs ← get_log events;
    t ← get_log tree;
    if negb (bool_decide (evs = [])) || negb (N.eqb (leaf_count t) 0) then
      throw (ZkAudit "cannot replay into a non-empty audit log")
    else
      seq_counters ← replay_events parsed ∅;
      _ ← put_log (set_sequences seq_counters);
      _ ← apply_retention_to_events;
      mret parsed.

(** *** [set_persistence_dir] *)

(** The fast path: the tree saved in the store, if there is one. *)
Definition load_from_sled (sled_path : string) : method bool :=
  exists_ ← sled_exists sled_path;
  if negb exists_ then mret false
  else
    opened ← catch (open_sled sled_path);
    match opened with
    | Err _ => mret false
    | Ok _ =>
      loaded ← catch (on_sled sled_path load_tree);
      match loaded with
      | Ok (Some (t, _)) => _ ← put_log (set_tree t); mret true
      | Ok None => mret false
      | Err _ => mret false
      end
    end.

Definition set_persistence_dir (dir : string) : method unit :=
  let audit_dir := path_join dir "audit" in
  _ ← create_dir_all audit_dir;
  let events_path := path_join audit_dir "events.jsonl" in
  let sled_path := path_join audit_dir "tree.sled" in
  sled_loaded ← load_from_sled sled_path;
  _ ← open_sled sled_path;
  _ ← put_log (set_sled_store (Some sled_path));
  exists_ ← file_exists events_path;
  _ ← (if exists_ : bool then
         if sled_loaded : bool then verify_against_tree events_path else replay_file events_path
       else mret []);
  _ ← open_append events_path;
  put_log (set_persistence (Some {| events_path := events_path |})).

(** *** Legal holds *)

Definition legal_hold_meta (deployment_id database : string) (hold : bool) : gmap string Scalar :=
  list_to_map [("meta", SStr "legal_hold"); ("deployment_id", SStr deployment_id);
               ("database", SStr database); ("hold", SBool hold)]%string.

Definition set_legal_hold (deployment_id database : string) (hold : bool) : method unit :=
  let key : domain := (deployment_id, database) in
  _ ← put_log (fun l => set_legal_holds
                 (if hold : bool then {[key]} ∪ legal_holds l else legal_holds l ∖ {[key]}) l);
  persist_line (value_to_string (legal_hold_meta deployment_id database hold)).

Definition is_legal_hold (l : AuditLog F) (deployment_id database : string) : bool :=
  bool_decide ((deployment_id, database) ∈ legal_holds l).

(** *** Recording *)

Definition record_inner (deployment_id operation database collection payload : string)
    (leaf : F) (version : N) (timestamp : string) : method N :=
  seqs ← get_log sequences;
  let '(sequence, seqs) := next_sequence seqs (deployment_id, database) in
  _ ← put_log (set_sequences seqs);
  t ← get_log tree;
  let '(index, t) := insert t leaf in
  _ ← put_log (set_tree t);
  let leaf_hex := fr_to_hex leaf in
  r ← zk (root t);
  let root_after := fr_to_hex r in
  _ ← put_log (fun l => set_roots (root_after_by_index l ++ [root_after]) l);
  _ ← put_log (fun l => set_events (events l ++
        [{| index := index; leaf_hex := leaf_hex; operation := operation; database := database;
            collection := collection; deployment_id := deployment_id; sequence := sequence;
            timestamp := timestamp |}]) l);
  _ ← persist_line (event_to_string
        {| p_index := index; p_operation := operation; p_database := database;
           p_collection := collection; p_deployment_id := deployment_id; p_sequence := sequence;
           p_payload := payload; p_leaf_hex := leaf_hex; p_root_after := root_after;
           p_timestamp := timestamp; p_version := version |});
  _ ← match hex_to_fr root_after with
      | Ok root_fr => _ ← catch (if_sled (save_leaf (Z.of_N index) leaf root_fr)); mret tt
      | Err _ => mret tt
      end;
  mret index.

(** [now] is the instant [chrono::Utc::now()] returns. *)
Definition record (now : Z) (deployment_id operation database collection payload : string)
    (leaf : F) : method N :=
  has_key ← get_log has_leaf_key;
  let version := if has_key : bool then 2 else 1 in
  record_inner deployment_id operation database collection payload leaf version
    (to_rfc3339 now).

Definition record_v3 (now : Z) (deployment_id operation database collection : string)
    (canonical_payload : list byte) : method N :=
  k ← get_log leaf_key;
  key ← liftR (ok_or k (Validation "v3 events require a leaf key, but none is configured"));
  let ts_secs := ts_secs_of (now / 1000000000) in
  '(leaf, _) ← zk (poseidon_leaf_v3 key operation database collection ts_secs canonical_payload);
  record_inner deployment_id operation database collection (b64_encode canonical_payload) leaf 3
    (to_rfc3339 now).

(** *** Disclosure *)

Definition disclosure_opening (idx : N) : method (LeafOpening F * F) :=
  k ← get_log leaf_key;
  key ← liftR (ok_or k (Validation "disclosure proofs require a leaf key"));
  p ← get_log persistence;
  st ← liftR (ok_or p (Validation "disclosure proofs require persistence to be configured"));
  content ← read_to_string (events_path st);
  let candidates := omap event_from_str
                      (filter (fun l => trim l <> ""%string) (lines content)) in
  event ← liftR (ok_or (List.find (fun e => bool_decide (p_index e = idx)) candidates)
                       (Validation "no persisted event at index"));
  if negb (bool_decide (p_version event = 3)) then
    throw (Validation "disclosure proofs require v3 leaves")
  else
    canonical ← liftR (ok_or (b64_decode (p_payload event)) (Validation "v3 payload base64 decode"));
    secs ← liftR (ok_or (parse_rfc3339_secs (p_timestamp event)) (Validation "v3 timestamp parse"));
    '(leaf, opening) ← zk (poseidon_leaf_v3 key (p_operation event) (p_database event)
                             (p_collection event) (ts_secs_of secs) canonical);
    if bool_decide (fr_to_hex leaf = p_leaf_hex event) then mret (opening, leaf)
    else throw (Validation "recomputed v3 leaf does not match stored leaf").

(** *** Queries *)

Definition current_root_hex : method string :=
  t ← get_log tree; r ← zk (root t); mret (fr_to_hex r).
Definition log_event_count (l : AuditLog F) : nat := length (events l).
Definition log_leaf_count (l : AuditLog F) : N := leaf_count (tree l).
Definition log_prove_inclusion (idx : N) : method (InclusionProof F) :=
  t ← get_log tree; zk (prove_inclusion t idx).

(** *** Domains *)

Definition in_domain (deployment database_ : string) (ev : AuditEvent) : bool :=
  bool_decide (deployment_id ev = deployment) && bool_decide (database ev = database_).

(** The order of [BTreeSet<(String, String)>]. *)
Definition domain_le (a b : domain) : bool :=
  if bool_decide (a.1 = b.1) then String.leb a.2 b.2 else String.leb a.1 b.1.

Definition list_domains (l : AuditLog F) : list domain :=
  let set : gset domain := list_to_set (map (fun ev => (deployment_id ev, database ev)) (events l)) in
  sort_by domain_le (elements (set ∪ dom (retained_domain_roots l))).

(** The secondary tree over the leaves of one domain, and how many there are. *)
Definition domain_tree (l : AuditLog F) (deployment database_ : string) :
    result AuditError (AuditMerkleTree F * N) :=
  t ← map_err from_zk (with_height 20);
  foldR (fun '(t, count) ev =>
           if in_domain deployment database_ ev then
             leaf ← hex_to_fr (leaf_hex ev);
             Ok ((insert t leaf).2, count + 1)
           else Ok (t, count)) (t, 0) (events l).

Definition domain_root (l : AuditLog F) (deployment database_ : string) :
    result AuditError (string * N) :=
  '(t, count) ← domain_tree l deployment database_;
  let retained := if count =? 0 then
                    retained_domain_roots l !! (deployment, database_) ≫= last
                  else None in
  match retained with
  | Some r => Ok (root_hex r, event_count r)
  | None => r ← map_err from_zk (root t); Ok (fr_to_hex r, count)
  end.

Definition prove_inclusion_in_domain (l : AuditLog F) (deployment database_ : string)
    (position : N) : result AuditError (InclusionProof F * string) :=
  '(t, count) ← domain_tree l deployment database_;
  if count <=? position then Err (Validation "domain proof position out of range")
  else
    proof ← map_err from_zk (prove_inclusion t position);
    Ok (proof, fr_to_hex (proof_root proof)).

(** The tree of the domain roots, and the entry of each domain. *)
Definition super_tree (l : AuditLog F) (domains : list domain) :
    result AuditError (AuditMerkleTree F * list (string * string * string)) :=
  t ← map_err from_zk (with_height 20);
  foldR (fun '(t, entries) d =>
           '(root_hex, _) ← domain_root l d.1 d.2;
           Ok ((insert t (super_leaf d.1 d.2 root_hex)).2, entries ++ [(d.1, d.2, root_hex)]))
        (t, []) domains.

Definition domain_super_root (l : AuditLog F) :
    result AuditError (string * list (string * string * string)) :=
  '(t, entries) ← super_tree l (list_domains l);
  r ← map_err from_zk (root t);
  Ok (fr_to_hex r, entries).

Definition position (deployment database_ : string) (domains : list domain) : option nat :=
  fst <$> list_find (fun d => d.1 = deployment /\ d.2 = database_) domains.

Definition prove_domain_in_super (l : AuditLog F) (deployment database_ : string) :
    result AuditError (InclusionProof F * string * string) :=
  let domains := list_domains l in
  position ← ok_or (position deployment database_ domains) (Validation "unknown audit domain");
  '(t, entries) ← super_tree l domains;
  let domain_root_hex := default ""%string (snd <$> entries !! position) in
  proof ← map_err from_zk (prove_inclusion t (N.of_nat position));
  Ok (proof, fr_to_hex (proof_root proof), domain_root_hex).

Definition retained_domain_roots_of (l : AuditLog F) (deployment database_ : string) :
    list DomainRetentionRoot :=
  default [] (retained_domain_roots l !! (deployment, database_)).

(** *** Pruning *)

Definition pruned_meta (deployment database_ : string) (r : DomainRetentionRoot) :
    gmap string Scalar :=
  list_to_map [("meta", SStr "pruned_domain"); ("deployment_id", SStr deployment);
               ("database", SStr database_); ("root_hex", SStr (root_hex r));
               ("event_count", SU64 (event_count r)); ("max_index", SU64 (max_index r));
               ("pruned_at", SStr (pruned_at r))]%string.

Definition max_index_of (evs : list AuditEvent) : option N :=
  foldl (fun m ev => Some (match m with None => index ev | Some i => N.max i (index ev) end))
        None evs.

Definition prune_domain (now : Z) (deployment database_ : string) :
    method (option DomainRetentionRoot) :=
  hold ← get_log (fun l => is_legal_hold l deployment database_);
  if hold : bool then throw (Validation "cannot prune audit domain: legal hold is active")
  else
    l ← get_log id;
    '(t, count) ← liftR (domain_tree l deployment database_);
    match max_index_of (filter (fun ev => in_domain deployment database_ ev = true) (events l)) with
    | None => mret None
    | Some max_index =>
      r ← zk (root t);
      let retained_root := {| root_hex := fr_to_hex r; event_count := count;
                              max_index := max_index; pruned_at := to_rfc3339 now |} in
      _ ← persist_line (value_to_string (pruned_meta deployment database_ retained_root));
      _ ← put_log (fun l => set_retained
            (<[(deployment, database_) :=
               default [] (retained_domain_roots l !! (deployment, database_)) ++ [retained_root]]>
             (retained_domain_roots l)) l);
      _ ← put_log (fun l => set_events
            (filter (fun ev => in_domain deployment database_ ev = false) (events l)) l);
      mret (Some retained_root)
    end.

(** *** Reset *)

Definition clear : method unit :=
  t ← zk (with_height 20);
  _ ← put_log (set_tree t);
  _ ← put_log (set_events []);
  _ ← put_log (set_sequences ∅);
  _ ← put_log (set_legal_holds ∅);
  _ ← put_log (set_retained ∅);
  _ ← if_sled SledStore.clear;
  p ← get_log persistence;
  match p with
  | Some st => _ ← write_file (events_path st) ""; open_append (events_path st)
  | None => mret tt
  end.

(** *** Tokens and identifiers kept in the store *)

(** [serde_json::to_string(token)], for the driver's token type. *)
Definition save_resume_token (connection_id : string) (token_json : option string) : method unit :=
  json ← liftR (ok_or token_json (Internal "serialize resume token"));
  if_sled (SledStore.save_resume_token connection_id json).

Definition load_resume_token {Token} (from_str : string -> option Token) (connection_id : string) :
    method (option Token) :=
  s ← get_log sled_store;
  match s with
  | None => mret None
  | Some path =>
    json ← on_sled path (SledStore.load_resume_token connection_id);
    match json with
    | Some json => token ← liftR (ok_or (from_str json) (Internal "deserialize resume token"));
                   mret (Some token)
    | None => mret None
    end
  end.

Definition clear_resume_token (connection_id : string) : method unit :=
  if_sled (SledStore.clear_resume_token connection_id).
Definition save_ipfs_cid (epoch_number : Z) (cid : string) : method unit :=
  if_sled (SledStore.save_ipfs_cid epoch_number cid).
Definition load_ipfs_cid (epoch_number : Z) : method (option string) :=
  s ← get_log sled_store;
  match s with
  | Some path => on_sled path (SledStore.load_ipfs_cid epoch_number)
  | None => mret None
  end.
End operations.

(** ** Running a method one statement at a time *)

Ltac bind_step := unfold mbind at 1, stateR_bind at 1.
Ltac get_step := bind_step; unfold get_log at 1, gets at 1.
Ltac put_step := bind_step; unfold put_log at 1, modify at 1.
Ltac lift_step := bind_step; try unfold zk at 1; unfold liftR at 1.

#[global] Arguments next_sequence : simpl never.
#[global] Arguments tree_of : simpl never.
