(* ===== verification/AuditReplay.v ===== *)
(** * The audit log's persistence: replay, verification and tamper evidence

    What startup accepts, exactly: the chain of events [replay_file] rebuilds the tree
    from and the weaker condition [verify_against_tree] checks when the tree comes from
    the store; and what an accepted chain binds. *)

From S2P Require Import Prelude.
From S2P Require Import Bytes.
From S2P Require Import Text.
From S2P Require Import Interfaces.
From S2P Require Import AuditError.
From S2P Require Import CanonicalPayload.
From S2P Require Import Commitment.
From S2P Require Import SledStore.
From S2P Require Import PoseidonTree.
From S2P Require Import AuditLog.
Local Open Scope N_scope.

Section replay.
Context {F : Type} {PF : PrimeField F} {Pos : Poseidon F}.
Context {Sha : Sha256} {Hm : HmacSha256} {Hexs : Hex} {B64 : Base64} {Chr : Chrono}.
Context {AJ : AuditJson} {Db : Type} {SD : SledDb Db}.
Implicit Types (es : list PersistedEvent) (ls : list F) (w : World F Db).

(** ** Specification *)

(** The root of the tree of the leaves [ls]. *)
Definition root_of ls : F := ideal_root (tree_of ls).

(** The events [es], appended to a log whose leaves are [ls], chain to the leaves [ls']:
    each event's leaf is the one its payload gives, its index is the position of the
    leaf, and its [root_after] is the root once the leaf is inserted. *)
Inductive chain (key : option (list byte)) : list F -> list PersistedEvent -> list F -> Prop :=
| chain_nil ls : chain key ls [] ls
| chain_cons ls e v es ls' :
    recompute_leaf key e = Ok v ->
    p_leaf_hex e = fr_to_hex v ->
    p_index e = N.of_nat (length ls) ->
    p_root_after e = fr_to_hex (root_of (ls ++ [v])) ->
    chain key (ls ++ [v]) es ls' ->
    chain key ls (e :: es) ls'.

(** The events in memory, numbered per domain, and the next sequence numbers. *)
Fixpoint number (seqs : gmap domain N) es : list AuditEvent * gmap domain N :=
  match es with
  | [] => ([], seqs)
  | e :: es =>
    let '(s, seqs) := next_sequence seqs (p_deployment_id e, p_database e) in
    let '(evs, seqs) := number seqs es in (event_of e s :: evs, seqs)
  end.

(** What [verify_against_tree] checks of one event, against a tree of [n] leaves. *)
Definition event_checked (key : option (list byte)) (n : N) (e : PersistedEvent) : Prop :=
  (exists v, recompute_leaf key e = Ok v /\ p_leaf_hex e = fr_to_hex v) /\ p_index e < n.

(** ** Lemmas *)

Lemma root_tree_of ls : root (tree_of ls) = Ok (root_of ls).
Proof. by apply root_ideal. Qed.

Lemma tree_of_fields ls :
  leaves (tree_of ls) = indexed ls /\ height (tree_of ls) = 20%nat /\ tree_wf (tree_of ls).
Proof. done. Qed.

Lemma with_height_tree_of : with_height (F := F) 20 = Ok (tree_of []).
Proof. exact eq_refl. Qed.

Lemma root_of_node ls : root_of ls = node (leaf_map_of (indexed ls)) 20 0.
Proof. unfold root_of. rewrite ideal_root_node. exact eq_refl. Qed.

Lemma fr_to_hex_inj : Inj (=) (=) (fr_to_hex (F := F)).
Proof. intros a b H. by apply hex_encode_inj, to_bytes_be_inj in H. Qed.

Lemma hex_to_fr_to_hex f : hex_to_fr (fr_to_hex f) = Ok f.
Proof.
  unfold hex_to_fr, fr_to_hex. rewrite hex_decode_encode. cbn. by rewrite from_be_to_bytes_be.
Qed.

Lemma leaf_count_tree_of ls : leaf_count (tree_of ls) = N.of_nat (length ls).
Proof. unfold leaf_count, tree_of. cbn [leaves]. by rewrite length_indexed. Qed.

#[local] Opaque tree_of root_of.
#[local] Arguments next_sequence : simpl never.

Lemma chain_length key ls es ls' : chain key ls es ls' -> length ls' = (length ls + length es)%nat.
Proof. induction 1 as [|? ? ? ? ? _ _ _ _ _ IH]; cbn; [lia|]. rewrite IH, length_app. cbn. lia. Qed.

Lemma chain_app key ls es1 es2 ls' :
  chain key ls (es1 ++ es2) ls' <-> exists mid, chain key ls es1 mid /\ chain key mid es2 ls'.
Proof.
  revert ls. induction es1 as [|e es1 IH]; intros ls; cbn.
  - split; [intros H; exists ls; split; [constructor|done]|].
    intros (mid & H1 & H2). by inversion H1; subst.
  - split.
    + inversion 1; subst. match goal with H : chain _ _ (_ ++ _) _ |- _ => apply IH in H as (mid & ? & ?) end.
      exists mid. split; [|done]. by econstructor.
    + intros (mid & H1 & H2). inversion H1; subst. econstructor; [done..|]. apply IH. by exists mid.
Qed.

Lemma chain_prefix key ls es ls' : chain key ls es ls' -> ls `prefix_of` ls'.
Proof.
  induction 1 as [|? ? v ? ? _ _ _ _ _ [tl ->]]; [done|].
  exists ([v] ++ tl). by rewrite app_assoc.
Qed.

Lemma chain_lookup key ls es ls' i e :
  chain key ls es ls' -> es !! i = Some e ->
  exists v, ls' !! (length ls + i)%nat = Some v /\ recompute_leaf key e = Ok v /\
    p_leaf_hex e = fr_to_hex v /\ p_index e = N.of_nat (length ls + i) /\
    p_root_after e = fr_to_hex (root_of (take (S (length ls + i)) ls')).
Proof.
  intros Hc Hi. rewrite <-(take_drop_middle es i e Hi) in Hc.
  apply chain_app in Hc as (mid & H1 & H2). inversion H2; subst.
  pose proof (chain_length _ _ _ _ H1) as Hl.
  rewrite length_take, Nat.min_l in Hl by (apply lookup_lt_Some in Hi; lia).
  match goal with H : chain key (mid ++ [?v]) _ _ |- _ => rename H into Hrest; rename v into leaf end.
  assert (exists tl, ls' = (mid ++ [leaf]) ++ tl) as [tl ->].
  { clear -Hrest. apply chain_prefix in Hrest as [tl ->]. by exists tl. }
  exists leaf. rewrite <-Hl. split_and!; [|done|done|congruence|].
  - rewrite lookup_app_l by (rewrite length_app; cbn; lia).
    by rewrite lookup_app_r, Nat.sub_diag by lia.
  - rewrite take_app_length' by (rewrite length_app; cbn; lia). done.
Qed.

Lemma number_app seqs es1 es2 :
  number seqs (es1 ++ es2) =
    ((number seqs es1).1 ++ (number (number seqs es1).2 es2).1,
     (number (number seqs es1).2 es2).2).
Proof.
  revert seqs. induction es1 as [|e es1 IH]; intros seqs; cbn.
  - by destruct (number seqs es2).
  - destruct (next_sequence seqs _) as [s seqs1]. rewrite IH. by destruct (number seqs1 es1).
Qed.

Lemma length_number seqs es : length (number seqs es).1 = length es.
Proof.
  revert seqs. induction es as [|e es IH]; intros seqs; [done|]. cbn.
  destruct (next_sequence seqs _) as [s seqs1]. specialize (IH seqs1).
  destruct (number seqs1 es). cbn in *. by rewrite IH.
Qed.

Lemma number_lookup seqs es i ev :
  (number seqs es).1 !! i = Some ev -> exists e s, es !! i = Some e /\ ev = event_of e s.
Proof.
  revert seqs i. induction es as [|e es IH]; intros seqs i; [done|]. cbn.
  destruct (next_sequence seqs _) as [? seqs1]. destruct (number _ es) as [evs s] eqn:Hn. destruct i as [|i]; cbn.
  - intros [= <-]. by eexists _, _.
  - intros Hi. eapply IH. by rewrite Hn.
Qed.

Lemma check_leaf_Ok e w v w' :
  check_leaf e w = (Ok v, w') <->
  w' = w /\ recompute_leaf (leaf_key (log w)) e = Ok v /\ p_leaf_hex e = fr_to_hex v.
Proof.
  unfold check_leaf, mbind, stateR_bind, get_log, gets, liftR.
  destruct (recompute_leaf _ e) as [u|err]; [|naive_solver].
  case_bool_decide as Hb; cbn; [|naive_solver]. split; [by intros [= <- <-]|].
  by intros (-> & [= ->] & _).
Qed.

(** The log after replaying [es]: the tree of [ls], the roots and the numbered events. *)
Definition after_replay ls es (seqs : gmap domain N) w : World F Db :=
  on_log (fun l => set_events (events l ++ (number seqs es).1)
                     (set_roots (root_after_by_index l ++ map p_root_after es)
                       (set_tree (tree_of ls) l))) w.

Lemma replay_events_chain es seqs w ls :
  tree (log w) = tree_of ls ->
  forall seqs' w', replay_events es seqs w = (Ok seqs', w') <->
    exists ls', chain (leaf_key (log w)) ls es ls' /\ seqs' = (number seqs es).2 /\
                w' = after_replay ls' es seqs w.
Proof.
  revert seqs w ls. induction es as [|e es IH]; intros seqs w ls Ht seqs' w'.
  - cbn [replay_events]. split.
    + intros [= <- <-]. exists ls. split_and!; [constructor|done|].
      destruct w as [l d]. destruct l; cbn in *; subst. unfold after_replay, on_log. cbn.
      by rewrite !app_nil_r.
    + intros (ls' & Hc & -> & ->). inversion Hc; subst. unfold after_replay, on_log. cbn.
      destruct w as [l d]. destruct l; cbn in *; subst. by rewrite !app_nil_r.
  - cbn [replay_events]. split.
    + intros H. apply stateR_bind_Ok in H as (v & w1 & (-> & Hv & Hhex)%check_leaf_Ok & H).
      unfold mbind at 1, stateR_bind at 1, get_log at 1, gets at 1 in H.
      rewrite Ht, insert_tree_of in H.
      unfold mbind at 1, stateR_bind at 1, put_log at 1, modify at 1 in H.
      case_bool_decide as Hidx; [|done]. cbn [negb] in H.
      apply stateR_bind_Ok in H as (r & w2 & Hr & H). unfold zk, liftR in Hr.
      rewrite root_tree_of in Hr. injection Hr as <- <-.
      case_bool_decide as Hroot; [|done]. cbn [negb] in H.
      unfold mbind at 1, stateR_bind at 1, put_log at 1, modify at 1 in H.
      destruct (next_sequence seqs _) as [s seqs1] eqn:Hns.
      unfold mbind at 1, stateR_bind at 1, put_log at 1, modify at 1 in H.
      apply (IH seqs1 _ (ls ++ [v])) in H as (ls' & Hc & -> & ->); [|done].
      exists ls'. split_and!.
      * econstructor; eauto.
      * cbn [number]. rewrite Hns. by destruct (number seqs1 es).
      * unfold after_replay, on_log. cbn. rewrite Hns.
        destruct (number seqs1 es) as [evs s2]. cbn. by rewrite <-!app_assoc, Hroot.
    + intros (ls' & Hc & -> & ->).
      inversion Hc as [|? ? v ? ? Hv Hhex Hidx Hroot Hrest]; subst.
      bind_step.
      rewrite (proj2 (check_leaf_Ok e w v w)) by done.
      get_step. rewrite Ht, insert_tree_of.
      put_step.
      rewrite bool_decide_eq_true_2 by done. cbn [negb].
      lift_step. rewrite root_tree_of. cbn [map_err].
      rewrite bool_decide_eq_true_2 by done. cbn [negb].
      put_step.
      destruct (next_sequence seqs _) as [s seqs1] eqn:Hns.
      put_step.
      apply (IH seqs1 _ (ls ++ [v])); [done|]. exists ls'. split_and!; [done| |].
      * cbn [number]. rewrite Hns. by destruct (number seqs1 es).
      * unfold after_replay, on_log. cbn. rewrite Hns.
        destruct (number seqs1 es) as [evs s2]. cbn. by rewrite <-!app_assoc, Hroot.
Qed.

Lemma verify_events_checked es seqs w seqs' w' :
  verify_events es seqs w = (Ok seqs', w') <->
  Forall (event_checked (leaf_key (log w)) (leaf_count (tree (log w)))) es /\
  seqs' = (number seqs es).2 /\
  w' = on_log (fun l => set_events (events l ++ (number seqs es).1) l) w.
Proof.
  revert seqs w seqs' w'. induction es as [|e es IH]; intros seqs w seqs' w'; cbn [verify_events].
  - assert (on_log (fun l => set_events (events l ++ []) l) w = w) as Hid.
    { destruct w as [l d]. destruct l; unfold on_log; cbn. by rewrite app_nil_r. }
    cbn [number fst snd]. rewrite Hid. split; [by intros [= <- <-]|by intros (_ & -> & ->)].
  - split.
    + intros H. apply stateR_bind_Ok in H as (v & w1 & (-> & Hv & Hhex)%check_leaf_Ok & H).
      unfold mbind at 1, stateR_bind at 1, get_log at 1, gets at 1 in H.
      destruct (leaf_count (tree (log w)) <=? p_index e) eqn:Hle; [done|].
      destruct (next_sequence seqs _) as [s seqs1] eqn:Hns.
      unfold mbind at 1, stateR_bind at 1, put_log at 1, modify at 1 in H.
      apply IH in H as (Hall & -> & ->). cbn [number]. rewrite Hns.
      destruct (number seqs1 es) as [evs s2]. split_and!; [|done|].
      * constructor; [|done]. split; [by exists v|lia].
      * unfold on_log. cbn. by rewrite <-app_assoc.
    + intros (Hall & -> & ->). apply Forall_cons_1 in Hall as [[(v & Hv & Hhex) Hlt] Hall].
      bind_step.
      rewrite (proj2 (check_leaf_Ok e w v w)) by done.
      get_step.
      rewrite (proj2 (N.leb_gt _ _)) by done. cbn [number].
      destruct (next_sequence seqs _) as [s seqs1] eqn:Hns.
      put_step.
      apply IH. split_and!; [done| |].
      * by destruct (number seqs1 es).
      * destruct (number seqs1 es) as [evs s2]. unfold on_log. cbn. by rewrite <-app_assoc.
Qed.

(** The checked events are only a prefix. *)
Lemma verify_events_app es1 es2 seqs w :
  Forall (event_checked (leaf_key (log w)) (leaf_count (tree (log w)))) es1 ->
  verify_events (es1 ++ es2) seqs w =
    verify_events es2 (number seqs es1).2
      (on_log (fun l => set_events (events l ++ (number seqs es1).1) l) w).
Proof.
  revert seqs w. induction es1 as [|e es1 IH]; intros seqs w Hall; cbn [app verify_events].
  - f_equal. destruct w as [l d]. destruct l. unfold on_log. cbn. by rewrite app_nil_r.
  - apply Forall_cons_1 in Hall as [[(v & Hv & Hhex) Hlt] Hall].
    bind_step. rewrite (proj2 (check_leaf_Ok e w v w)) by done.
    get_step. rewrite (proj2 (N.leb_gt _ _)) by done. cbn [number].
    destruct (next_sequence seqs _) as [s seqs1] eqn:Hns. put_step.
    rewrite IH by done. destruct (number seqs1 es1) as [evs s2].
    unfold on_log. cbn. by rewrite <-app_assoc.
Qed.

(** ** Whole files *)

(** The events a file holds, and the file once a bad tail is cut off. *)
Definition parsed_events (content : string) : list PersistedEvent :=
  (parse_lines 0 (lines content)).1.
Definition recovered (content : string) : string :=
  match (parse_lines 0 (lines content)).2 with
  | None => content
  | Some bad_idx =>
    let clean := join newline (take bad_idx (lines content)) in
    if bool_decide (clean = ""%string) then ""%string else clean +:+ newline
  end.

(** The state a startup restores: [es] in memory over the tree [t] and the root history
    [roots], with the holds and retained roots of the recovered file. *)
Definition restored (t : AuditMerkleTree F) (roots : list string) es path content w : World F Db :=
  let '(holds, retained) := metadata_of_lines (lines (recovered content)) in
  {| log :=
       {| tree := t; events := apply_retention retained (number ∅ es).1;
          sequences := if bool_decide (es = []) then sequences (log w) else (number ∅ es).2;
          persistence := persistence (log w); sled_store := sled_store (log w);
          legal_holds := holds; retained_domain_roots := retained;
          leaf_key := leaf_key (log w); root_after_by_index := roots |};
     disk := set_files (<[path := recovered content]> (files (disk w))) (disk w) |}.

Lemma recovered_rust_string content : rust_string content -> rust_string (recovered content).
Proof.
  intros Hc. unfold recovered. destruct (parse_lines _ _).2 as [k|]; [|done]. cbv zeta.
  case_bool_decide as Hj; [done|].
  rewrite join_newline_file_of.
  - apply file_of_rust_string. apply lines_rust_string in Hc. by apply Forall_take.
  - intros Htake. by rewrite Htake in Hj.
Qed.

Lemma read_to_string_Ok path content w :
  io_error (disk w) = None -> files (disk w) !! path = Some content -> rust_string content ->
  read_to_string path w = (Ok content, w).
Proof.
  intros Hio Hf Hc. unfold read_to_string, io. rewrite Hio, Hf. unfold rust_string in Hc.
  rewrite Hc. by destruct w.
Qed.

(** The common start of both replays: read, parse, truncate, restore the metadata. *)
Lemma replay_prefix {A} path content w (k : method A) :
  io_error (disk w) = None -> files (disk w) !! path = Some content -> rust_string content ->
  (_ ← truncate_at path (lines content) (parse_lines 0 (lines content)).2;
   _ ← replay_metadata_lines path; k) w =
  k (let '(holds, retained) := metadata_of_lines (lines (recovered content)) in
     {| log := set_retained retained (set_legal_holds holds (log w));
        disk := set_files (<[path := recovered content]> (files (disk w))) (disk w) |}).
Proof.
  intros Hio Hf Hc.
  set (w1 := {| log := log w;
                disk := set_files (<[path := recovered content]> (files (disk w))) (disk w) |}).
  assert (truncate_at path (lines content) (parse_lines 0 (lines content)).2 w = (Ok tt, w1)) as Ht.
  { unfold w1, recovered, truncate_at. destruct (parse_lines _ _).2 as [b|].
    - unfold write_file, io. by rewrite Hio.
    - rewrite insert_id by done. destruct w as [l d]. by destruct d. }
  bind_step. rewrite Ht.
  unfold replay_metadata_lines.
  assert (read_to_string path w1 = (Ok (recovered content), w1)) as Hr.
  { apply read_to_string_Ok; [done| |by apply recovered_rust_string].
    cbn. by rewrite lookup_insert_eq. }
  bind_step. bind_step. rewrite Hr.
  by destruct (metadata_of_lines _) as [holds retained].
Qed.

(** Storing the events and the sequence counters, and dropping what was pruned. *)
Lemma restored_eq t roots es path content w :
  es <> [] -> events (log w) = [] ->
  (let '(holds, retained) := metadata_of_lines (lines (recovered content)) in
   {| log := set_events (apply_retention retained (number ∅ es).1)
               (set_roots roots (set_sequences (number ∅ es).2
                 (set_tree t (set_retained retained (set_legal_holds holds (log w))))));
      disk := set_files (<[path := recovered content]> (files (disk w))) (disk w) |})
  = restored t roots es path content w.
Proof.
  intros Hes He. unfold restored. destruct (metadata_of_lines _) as [holds retained].
  by rewrite bool_decide_eq_false_2.
Qed.

Lemma restored_nil path content w :
  events (log w) = [] ->
  (let '(holds, retained) := metadata_of_lines (lines (recovered content)) in
   {| log := set_retained retained (set_legal_holds holds (log w));
      disk := set_files (<[path := recovered content]> (files (disk w))) (disk w) |})
  = restored (tree (log w)) (root_after_by_index (log w)) [] path content w.
Proof.
  intros He. unfold restored. destruct (metadata_of_lines _) as [holds retained].
  destruct w as [l d]. destruct l. cbn in *. by subst.
Qed.

(** The end of [verify_against_tree], once the events are checked. *)
Definition verify_tail es (seq_counters : gmap domain N) :
    method (F := F) (Db := Db) (list PersistedEvent) :=
  _ ← put_log (set_sequences seq_counters);
  _ ← put_log (set_roots (map p_root_after es));
  t ← get_log tree;
  r ← zk (root t);
  match last es with
  | Some last_ev =>
    if bool_decide (p_root_after last_ev = fr_to_hex r) then
      _ ← apply_retention_to_events; mret es
    else throw (ZkAudit "audit log tamper detected: final root mismatch")
  | None => _ ← apply_retention_to_events; mret es
  end.

Lemma verify_tail_eq es seqs e0 w ls :
  last es = Some e0 -> tree (log w) = tree_of ls ->
  verify_tail es seqs w =
    let l := set_roots (map p_root_after es) (set_sequences seqs (log w)) in
    if bool_decide (p_root_after e0 = fr_to_hex (root_of ls)) then
      (Ok es, {| log := set_events (apply_retention (retained_domain_roots l) (events l)) l;
                 disk := disk w |})
    else (Err (ZkAudit "audit log tamper detected: final root mismatch"),
          {| log := l; disk := disk w |}).
Proof.
  intros Hlast Ht. unfold verify_tail.
  put_step.
  put_step.
  get_step.
  lift_step.
  cbn [on_log log set_roots set_sequences tree]. rewrite Ht, root_tree_of, Hlast.
  cbn [map_err]. by case_bool_decide.
Qed.

(** The state both replays start from: the holds and retained roots are restored. *)
Definition metadata_restored path content w : World F Db :=
  let '(holds, retained) := metadata_of_lines (lines (recovered content)) in
  {| log := set_retained retained (set_legal_holds holds (log w));
     disk := set_files (<[path := recovered content]> (files (disk w))) (disk w) |}.

Lemma metadata_restored_log path content w :
  tree (log (metadata_restored path content w)) = tree (log w) /\
  events (log (metadata_restored path content w)) = events (log w) /\
  leaf_key (log (metadata_restored path content w)) = leaf_key (log w).
Proof. unfold metadata_restored. by destruct (metadata_of_lines _). Qed.

Lemma replay_file_unfold path content w :
  io_error (disk w) = None -> files (disk w) !! path = Some content -> rust_string content ->
  events (log w) = [] -> tree (log w) = tree_of [] ->
  replay_file path w =
    if bool_decide (parsed_events content = []) then
      (Ok [], restored (tree_of []) (root_after_by_index (log w)) [] path content w)
    else (seq_counters ← replay_events (parsed_events content) ∅;
          _ ← put_log (set_sequences seq_counters);
          _ ← apply_retention_to_events;
          mret (parsed_events content)) (metadata_restored path content w).
Proof.
  intros Hio Hf Hc He Ht. unfold replay_file.
  bind_step. rewrite (read_to_string_Ok path content) by done.
  rewrite (surjective_pairing (parse_lines 0 (lines content))).
  rewrite replay_prefix by done. fold (parsed_events content) (metadata_restored path content w).
  case_bool_decide as Hnil.
  - unfold metadata_restored. by rewrite restored_nil, Ht.
  - destruct (metadata_restored_log path content w) as (Ht' & He' & _).
    get_step. get_step. rewrite He', Ht', He, Ht, leaf_count_tree_of, bool_decide_eq_true_2 by done.
    done.
Qed.

Lemma after_replay_restored ls es path content w :
  es <> [] -> events (log w) = [] ->
  on_log (fun l => set_events (apply_retention (retained_domain_roots l) (events l)) l)
    (on_log (set_sequences (number ∅ es).2) (after_replay ls es ∅ (metadata_restored path content w)))
  = restored (tree_of ls) (root_after_by_index (log w) ++ map p_root_after es) es path content w.
Proof.
  intros Hne He. rewrite <-restored_eq by done. unfold metadata_restored.
  destruct (metadata_of_lines _) as [holds retained].
  unfold after_replay, on_log. cbn. by rewrite He.
Qed.

Lemma replay_file_run path content w ls :
  io_error (disk w) = None -> files (disk w) !! path = Some content -> rust_string content ->
  events (log w) = [] -> tree (log w) = tree_of [] ->
  chain (leaf_key (log w)) [] (parsed_events content) ls ->
  replay_file path w =
    (Ok (parsed_events content),
     restored (tree_of ls) (root_after_by_index (log w) ++ map p_root_after (parsed_events content))
       (parsed_events content) path content w).
Proof.
  intros Hio Hf Hc He Ht Hch. rewrite (replay_file_unfold path content) by done.
  case_bool_decide as Hnil.
  - rewrite Hnil in *. inversion Hch; subst. by rewrite app_nil_r.
  - destruct (metadata_restored_log path content w) as (Ht' & He' & Hk').
    bind_step.
    rewrite (proj2 (replay_events_chain _ _ (metadata_restored path content w) [] ltac:(by rewrite Ht') _ _))
      by (exists ls; split_and!; [by rewrite Hk'|reflexivity|reflexivity]).
    by rewrite <-after_replay_restored.
Qed.

(** C6: what a startup without a stored tree accepts, and the state it restores: the
    replay of a log file succeeds exactly when the events before its first unparsable
    line form a chain from the empty tree, and then the tree, the root history, the
    numbered events that no retained root covers, the sequence counters, the legal holds
    and the retained roots are those of the file, and the bad tail is cut off. *)
Theorem replay_file_accepts_iff path content w es w' :
  io_error (disk w) = None -> files (disk w) !! path = Some content -> rust_string content ->
  events (log w) = [] -> tree (log w) = tree_of [] ->
  replay_file path w = (Ok es, w') <->
  es = parsed_events content /\
  exists ls, chain (leaf_key (log w)) [] es ls /\
    w' = restored (tree_of ls) (root_after_by_index (log w) ++ map p_root_after es) es path content w.
Proof.
  intros Hio Hf Hc He Ht. split; [|intros (-> & ls & Hch & ->); by apply replay_file_run].
  rewrite (replay_file_unfold path content) by done. case_bool_decide as Hnil.
  { intros [= <- <-]. split; [done|]. exists []. split; [constructor|]. by rewrite app_nil_r. }
  destruct (metadata_restored_log path content w) as (Ht' & He' & Hk').
  intros H. apply stateR_bind_Ok in H as (seqs & w1 & Hr & H).
  apply (replay_events_chain _ _ _ [] ltac:(by rewrite Ht')) in Hr as (ls & Hch & -> & ->).
  rewrite Hk' in Hch. injection H as <- <-. split; [done|]. exists ls. split; [done|].
  by rewrite <-after_replay_restored.
Qed.

Lemma verify_against_tree_unfold path content w :
  io_error (disk w) = None -> files (disk w) !! path = Some content -> rust_string content ->
  events (log w) = [] ->
  verify_against_tree path w =
    if bool_decide (parsed_events content = []) then
      (Ok [], restored (tree (log w)) (root_after_by_index (log w)) [] path content w)
    else (seq_counters ← verify_events (parsed_events content) ∅;
          verify_tail (parsed_events content) seq_counters) (metadata_restored path content w).
Proof.
  intros Hio Hf Hc He. unfold verify_against_tree.
  bind_step. rewrite (read_to_string_Ok path content) by done.
  rewrite (surjective_pairing (parse_lines 0 (lines content))).
  rewrite replay_prefix by done. fold (parsed_events content) (metadata_restored path content w).
  case_bool_decide as Hnil.
  - unfold metadata_restored. by rewrite restored_nil.
  - destruct (metadata_restored_log path content w) as (_ & He' & _).
    get_step. by rewrite He', He, bool_decide_eq_true_2.
Qed.

Lemma verify_tail_restored es path content w ls :
  es <> [] -> events (log w) = [] -> tree (log w) = tree_of ls ->
  (forall e, last es = Some e -> p_root_after e = fr_to_hex (root_of ls)) ->
  verify_tail es (number ∅ es).2
    (on_log (fun l => set_events (events l ++ (number ∅ es).1) l) (metadata_restored path content w)) =
  (Ok es, restored (tree_of ls) (map p_root_after es) es path content w).
Proof.
  intros Hne He Ht Hlast. destruct (proj2 (last_is_Some es) Hne) as [e0 He0].
  destruct (metadata_restored_log path content w) as (Ht' & _ & _).
  rewrite (verify_tail_eq _ _ e0 _ ls He0) by (cbn; by rewrite Ht').
  cbv zeta. rewrite bool_decide_eq_true_2 by by apply Hlast.
  rewrite <-restored_eq by done. unfold metadata_restored.
  destruct (metadata_of_lines _) as [holds retained]. unfold on_log. cbn. rewrite He.
  do 2 f_equal. destruct (log w). cbn in *. by subst.
Qed.

Lemma verify_against_tree_run path content w ls :
  io_error (disk w) = None -> files (disk w) !! path = Some content -> rust_string content ->
  events (log w) = [] -> tree (log w) = tree_of ls ->
  Forall (event_checked (leaf_key (log w)) (N.of_nat (length ls))) (parsed_events content) ->
  (forall e, last (parsed_events content) = Some e -> p_root_after e = fr_to_hex (root_of ls)) ->
  verify_against_tree path w =
    (Ok (parsed_events content),
     restored (tree_of ls)
       (if bool_decide (parsed_events content = []) then root_after_by_index (log w)
        else map p_root_after (parsed_events content)) (parsed_events content) path content w).
Proof.
  intros Hio Hf Hc He Ht Hall Hlast. rewrite (verify_against_tree_unfold path content) by done.
  destruct (metadata_restored_log path content w) as (Ht' & He' & Hk').
  case_bool_decide as Hnil; [by rewrite Hnil, Ht|]. bind_step.
  rewrite (proj2 (verify_events_checked _ _ (metadata_restored path content w) _ _))
    by (split_and!; [by rewrite Hk', Ht', Ht, leaf_count_tree_of|reflexivity|reflexivity]).
  by rewrite (verify_tail_restored _ _ _ _ ls).
Qed.

(** What a startup with a stored tree accepts: each event's stored leaf is the one its
    payload gives and its index is below the number of stored leaves, and the last
    [root_after] is the root of the stored tree.  The leaves of the stored tree and the
    other [root_after] values are not compared; a file without events is accepted
    whatever the store holds. *)
Theorem verify_against_tree_accepts_iff path content w ls es w' :
  io_error (disk w) = None -> files (disk w) !! path = Some content -> rust_string content ->
  events (log w) = [] -> tree (log w) = tree_of ls ->
  verify_against_tree path w = (Ok es, w') <->
  es = parsed_events content /\
  Forall (event_checked (leaf_key (log w)) (N.of_nat (length ls))) es /\
  (forall e, last es = Some e -> p_root_after e = fr_to_hex (root_of ls)) /\
  w' = restored (tree_of ls)
         (if bool_decide (es = []) then root_after_by_index (log w) else map p_root_after es)
         es path content w.
Proof.
  intros Hio Hf Hc He Ht.
  split; [|intros (-> & ? & ? & ->); by apply verify_against_tree_run].
  rewrite (verify_against_tree_unfold path content) by done.
  case_bool_decide as Hnil; [rewrite Hnil, Ht; by intros [= <- <-]|].
  destruct (metadata_restored_log path content w) as (Ht' & He' & Hk').
  intros H. apply stateR_bind_Ok in H as (seqs & w1 & Hr & H).
  apply verify_events_checked in Hr as (Hall & -> & ->).
  rewrite Hk', Ht', Ht, leaf_count_tree_of in Hall.
  destruct (proj2 (last_is_Some _) Hnil) as [e0 He0].
  pose proof H as H'. rewrite (verify_tail_eq _ _ e0 _ ls He0) in H' by (cbn; by rewrite Ht').
  cbv zeta in H'. case_bool_decide as Hb; [|done]. clear H'.
  assert (forall e, last (parsed_events content) = Some e -> p_root_after e = fr_to_hex (root_of ls))
    as Hlast by (rewrite He0; by intros e [= <-]).
  rewrite (verify_tail_restored _ _ _ _ ls) in H by done. injection H as <- <-.
  by rewrite bool_decide_eq_false_2.
Qed.

(** ** Tamper evidence *)

Lemma leaf_map_indexed ls i : leaf_map_of (indexed ls) !! N.of_nat i = ls !! i.
Proof.
  induction ls as [|v ls IH] using rev_ind; [done|].
  unfold indexed in *. rewrite imap_app. cbn. rewrite Nat.add_0_r, leaf_map_of_app.
  destruct (decide (i = length ls)) as [->|Hne].
  - by rewrite lookup_insert_eq, lookup_app_r, Nat.sub_diag by lia.
  - rewrite lookup_insert_ne by lia. rewrite IH. destruct (decide (i < length ls)%nat).
    + by rewrite lookup_app_l.
    + rewrite (lookup_ge_None_2 ls), (lookup_ge_None_2 (ls ++ [v])); [done| |lia].
      rewrite length_app. cbn. lia.
Qed.

(** The capacity of the tree. *)
Definition fits ls : Prop := N.of_nat (length ls) <= 2 ^ 20.

(** One root, the same leaf at every position, absent leaves being zero. *)
Lemma root_of_binds_padded ls ls' :
  root_of ls = root_of ls' ->
  (forall i, N.of_nat i < 2 ^ 20 -> default fr_zero (ls !! i) = default fr_zero (ls' !! i)) \/
  trees_collide (leaf_map_of (indexed ls)) (leaf_map_of (indexed ls')).
Proof.
  rewrite !root_of_node. intros [Heq|Hc]%node_binding; [left|by right].
  intros i Hi. specialize (Heq (N.of_nat i)). rewrite !leaf_map_indexed in Heq. apply Heq.
  change (N.of_nat 20) with 20. lia.
Qed.

Lemma root_of_binds ls ls' :
  length ls = length ls' -> fits ls -> root_of ls = root_of ls' ->
  ls = ls' \/ trees_collide (leaf_map_of (indexed ls)) (leaf_map_of (indexed ls')).
Proof.
  unfold fits. intros Hl Hfit [Heq|Hc]%root_of_binds_padded; [left|by right].
  apply list_eq. intros i. destruct (decide (i < length ls)%nat) as [Hi|Hi].
  - specialize (Heq i ltac:(lia)).
    destruct (lookup_lt_is_Some_2 ls i Hi) as [x Hx].
    destruct (lookup_lt_is_Some_2 ls' i ltac:(lia)) as [y Hy].
    rewrite Hx, Hy in *. cbn in Heq. by subst.
  - by rewrite !lookup_ge_None_2 by lia.
Qed.

Lemma chain_last_root k es ls e :
  chain k [] es ls -> last es = Some e -> p_root_after e = fr_to_hex (root_of ls).
Proof.
  intros Hc Hlast. pose proof (chain_length _ _ _ _ Hc) as Hl. cbn in Hl.
  rewrite last_lookup in Hlast.
  destruct (chain_lookup _ _ _ _ _ _ Hc Hlast) as (v & _ & _ & _ & _ & ->).
  cbn [length Nat.add]. rewrite take_ge by lia. done.
Qed.

Lemma chain_fields k es ls :
  chain k [] es ls ->
  map p_leaf_hex es = map fr_to_hex ls /\
  map p_root_after es = imap (fun i _ => fr_to_hex (root_of (take (S i) ls))) ls.
Proof.
  intros Hc. pose proof (chain_length _ _ _ _ Hc) as Hl. cbn in Hl.
  assert (forall (A : Type) (f : PersistedEvent -> A) (g : nat -> F -> A),
    (forall i e v, es !! i = Some e -> ls !! i = Some v -> f e = g i v) -> map f es = imap g ls)
    as Hmap.
  { intros A f g Hfg. apply list_eq. intros i.
    change (map f es) with (f <$> es). rewrite list_lookup_fmap, list_lookup_imap.
    destruct (es !! i) as [e|] eqn:He, (ls !! i) as [v|] eqn:Hv; cbn.
    - f_equal. by apply Hfg.
    - apply lookup_lt_Some in He. apply lookup_ge_None in Hv. lia.
    - apply lookup_ge_None in He. apply lookup_lt_Some in Hv. lia.
    - done. }
  assert (map fr_to_hex ls = imap (fun _ v => fr_to_hex v) ls) as ->.
  { apply list_eq. intros i. change (map fr_to_hex ls) with (fr_to_hex <$> ls).
    rewrite list_lookup_fmap, list_lookup_imap. by destruct (ls !! i). }
  split; apply Hmap; intros i e v He Hv;
    destruct (chain_lookup _ _ _ _ _ _ Hc He) as (v' & Hv' & _ & Hh & _ & Hr);
    cbn [length Nat.add] in *; [congruence|done].
Qed.

(** Tamper evidence: two logs a startup accepts, with the same number of events and the
    same last [root_after] (for instance the original log and an edited one, anchored at
    the same root), have the same leaf and the same root after every event, unless the
    two trees exhibit a Poseidon collision.  The leaf keys may differ. *)
Theorem accepted_logs_agree k k' es es' ls ls' e e' :
  chain k [] es ls -> chain k' [] es' ls' -> fits ls ->
  length es = length es' -> last es = Some e -> last es' = Some e' ->
  p_root_after e = p_root_after e' ->
  (map p_leaf_hex es = map p_leaf_hex es' /\ map p_root_after es = map p_root_after es' /\
   forall i x y, es !! i = Some x -> es' !! i = Some y ->
     recompute_leaf (F := F) k x = recompute_leaf k' y) \/
  trees_collide (leaf_map_of (indexed ls)) (leaf_map_of (indexed ls')).
Proof.
  intros Hc Hc' Hfit Hl He He' Hroot.
  pose proof (chain_length _ _ _ _ Hc) as H1. pose proof (chain_length _ _ _ _ Hc') as H2.
  rewrite (chain_last_root _ _ _ _ Hc He), (chain_last_root _ _ _ _ Hc' He') in Hroot.
  apply fr_to_hex_inj, root_of_binds in Hroot as [<-|Hcol]; [left|by right|cbn in *; lia|done].
  destruct (chain_fields _ _ _ Hc) as [-> ->], (chain_fields _ _ _ Hc') as [-> ->].
  split_and!; [done..|]. intros i x y Hx Hy.
  destruct (chain_lookup _ _ _ _ _ _ Hc Hx) as (v & Hv & -> & _).
  destruct (chain_lookup _ _ _ _ _ _ Hc' Hy) as (v' & Hv' & -> & _). congruence.
Qed.
End replay.
