(* ===== verification/Interceptor.v ===== *)
(** * The interceptor (audit-service/src/audit/interceptor.rs)

    One function per audited database operation: with a leaf key it records the
    canonical payload under a v3 leaf, without one the legacy pipe-delimited payload. *)

From S2P Require Import Prelude.
From S2P Require Import Bytes.
From S2P Require Import Interfaces.
From S2P Require Import AuditError.
From S2P Require Import CanonicalPayload.
From S2P Require Import SledStore.
From S2P Require Import AuditLog.
Local Open Scope string_scope.

Section interceptor.
Context {F : Type} {PF : PrimeField F} {Pos : Poseidon F}.
Context {Sha : Sha256} {Hm : HmacSha256} {Hexs : Hex} {B64 : Base64} {Chr : Chrono}.
Context {AJ : AuditJson} {Db : Type} {SD : SledDb Db} {SP : SerdePair}.

Definition recorder : Type := method (F := F) (Db := Db) N.

Definition record_insert (now : Z) (deployment_id database collection document_json : string) :
    recorder :=
  has_key ← get_log has_leaf_key;
  if has_key : bool then
    let canonical := build_insert_payload database collection document_json in
    record_v3 now deployment_id "insert" database collection canonical
  else
    let payload := "insert|" +:+ database +:+ "|" +:+ collection +:+ "|" +:+ document_json in
    let leaf := leaf_from_payload "insert" database collection payload in
    record now deployment_id "insert" database collection payload leaf.

Definition record_update (now : Z)
    (deployment_id database collection filter_json update_json : string) : recorder :=
  has_key ← get_log has_leaf_key;
  if has_key : bool then
    let canonical := build_update_payload database collection filter_json update_json in
    record_v3 now deployment_id "update" database collection canonical
  else
    let payload := "update|" +:+ database +:+ "|" +:+ collection +:+ "|" +:+ filter_json
                     +:+ "|" +:+ update_json in
    let leaf := leaf_from_payload "update" database collection payload in
    record now deployment_id "update" database collection payload leaf.

Definition record_delete (now : Z) (deployment_id database collection filter_json : string) :
    recorder :=
  has_key ← get_log has_leaf_key;
  if has_key : bool then
    let canonical := build_delete_payload database collection filter_json in
    record_v3 now deployment_id "delete" database collection canonical
  else
    let payload := "delete|" +:+ database +:+ "|" +:+ collection +:+ "|" +:+ filter_json in
    let leaf := leaf_from_payload "delete" database collection payload in
    record now deployment_id "delete" database collection payload leaf.

Definition record_drop_collection (now : Z) (deployment_id database collection : string) :
    recorder :=
  has_key ← get_log has_leaf_key;
  if has_key : bool then
    let canonical := build_drop_collection_payload database collection in
    record_v3 now deployment_id "drop_collection" database collection canonical
  else
    let payload := "drop_collection|" +:+ database +:+ "|" +:+ collection in
    let leaf := leaf_from_payload "drop_collection" database collection payload in
    record now deployment_id "drop_collection" database collection payload leaf.

Definition record_drop_database (now : Z) (deployment_id database : string) : recorder :=
  has_key ← get_log has_leaf_key;
  if has_key : bool then
    let canonical := build_drop_database_payload database in
    record_v3 now deployment_id "drop_database" database "" canonical
  else
    let payload := "drop_database|" +:+ database in
    let leaf := leaf_from_payload "drop_database" database "" payload in
    record now deployment_id "drop_database" database "" payload leaf.

Definition record_rename_collection (now : Z)
    (deployment_id database collection new_name : string) : recorder :=
  has_key ← get_log has_leaf_key;
  if has_key : bool then
    let canonical := build_rename_payload database collection new_name in
    record_v3 now deployment_id "rename" database collection canonical
  else
    let payload := "rename|" +:+ database +:+ "|" +:+ collection +:+ "|" +:+ new_name in
    let leaf := leaf_from_payload "rename" database collection payload in
    record now deployment_id "rename" database collection payload leaf.

Definition record_create_index (now : Z)
    (deployment_id database collection keys_json options_json : string) : recorder :=
  has_key ← get_log has_leaf_key;
  if has_key : bool then
    let canonical := build_create_index_payload database collection keys_json options_json in
    record_v3 now deployment_id "create_index" database collection canonical
  else
    let payload := "create_index|" +:+ database +:+ "|" +:+ collection +:+ "|" +:+ keys_json
                     +:+ "|" +:+ options_json in
    let leaf := leaf_from_payload "create_index" database collection payload in
    record now deployment_id "create_index" database collection payload leaf.

Definition record_drop_index (now : Z)
    (deployment_id database collection index_name : string) : recorder :=
  has_key ← get_log has_leaf_key;
  if has_key : bool then
    let canonical := build_drop_index_payload database collection index_name in
    record_v3 now deployment_id "drop_index" database collection canonical
  else
    let payload := "drop_index|" +:+ database +:+ "|" +:+ collection +:+ "|" +:+ index_name in
    let leaf := leaf_from_payload "drop_index" database collection payload in
    record now deployment_id "drop_index" database collection payload leaf.

(** ** Audited operations *)

Inductive audited_op :=
| OpInsert (database collection document : string)
| OpUpdate (database collection filter update : string)
| OpDelete (database collection filter : string)
| OpDropCollection (database collection : string)
| OpDropDatabase (database : string)
| OpRename (database collection new_name : string)
| OpCreateIndex (database collection keys options : string)
| OpDropIndex (database collection name : string).

Definition record_op (now : Z) (deployment_id : string) (op : audited_op) : recorder :=
  match op with
  | OpInsert db col doc => record_insert now deployment_id db col doc
  | OpUpdate db col f u => record_update now deployment_id db col f u
  | OpDelete db col f => record_delete now deployment_id db col f
  | OpDropCollection db col => record_drop_collection now deployment_id db col
  | OpDropDatabase db => record_drop_database now deployment_id db
  | OpRename db col n => record_rename_collection now deployment_id db col n
  | OpCreateIndex db col k o => record_create_index now deployment_id db col k o
  | OpDropIndex db col n => record_drop_index now deployment_id db col n
  end.

(** What every interceptor does, given the names and the two payloads. *)
Definition record_event (now : Z) (deployment_id operation database collection : string)
    (canonical : list byte) (payload : string) : recorder :=
  has_key ← get_log has_leaf_key;
  if has_key : bool then record_v3 now deployment_id operation database collection canonical
  else record now deployment_id operation database collection payload
         (leaf_from_payload operation database collection payload).

(** The names and the payloads of an operation: the canonical one and the legacy one. *)
Definition op_row (op : audited_op) : string * string * string * list byte * string :=
  match op with
  | OpInsert db col doc =>
    ("insert", db, col, build_insert_payload db col doc,
     "insert|" +:+ db +:+ "|" +:+ col +:+ "|" +:+ doc)
  | OpUpdate db col f u =>
    ("update", db, col, build_update_payload db col f u,
     "update|" +:+ db +:+ "|" +:+ col +:+ "|" +:+ f +:+ "|" +:+ u)
  | OpDelete db col f =>
    ("delete", db, col, build_delete_payload db col f,
     "delete|" +:+ db +:+ "|" +:+ col +:+ "|" +:+ f)
  | OpDropCollection db col =>
    ("drop_collection", db, col, build_drop_collection_payload db col,
     "drop_collection|" +:+ db +:+ "|" +:+ col)
  | OpDropDatabase db =>
    ("drop_database", db, "", build_drop_database_payload db, "drop_database|" +:+ db)
  | OpRename db col n =>
    ("rename", db, col, build_rename_payload db col n,
     "rename|" +:+ db +:+ "|" +:+ col +:+ "|" +:+ n)
  | OpCreateIndex db col k o =>
    ("create_index", db, col, build_create_index_payload db col k o,
     "create_index|" +:+ db +:+ "|" +:+ col +:+ "|" +:+ k +:+ "|" +:+ o)
  | OpDropIndex db col n =>
    ("drop_index", db, col, build_drop_index_payload db col n,
     "drop_index|" +:+ db +:+ "|" +:+ col +:+ "|" +:+ n)
  end.

Lemma record_op_row now dep op :
  record_op now dep op =
    let '(operation, db, col, canonical, payload) := op_row op in
    record_event now dep operation db col canonical payload.
Proof. by destruct op. Qed.

Lemma record_op_event now dep op :
  exists operation db col canonical payload,
    record_op now dep op = record_event now dep operation db col canonical payload.
Proof. destruct op; by eexists _, _, _, _, _. Qed.

(** The legacy payload is ambiguous where the canonical one is not: inserting into
    collection [c] of database [a|b] and into collection [b|c] of database [a] give the
    same pipe-delimited payload, hence the same v1 leaf, and different canonical
    payloads. *)
Theorem v1_payload_ambiguous (doc : string) :
  let payload db col := "insert|" +:+ db +:+ "|" +:+ col +:+ "|" +:+ doc in
  leaf_from_payload (F := F) "insert" "a|b" "c" (payload "a|b" "c") =
    leaf_from_payload "insert" "a" "b|c" (payload "a" "b|c") /\
  build_insert_payload "a|b" "c" doc <> build_insert_payload "a" "b|c" doc.
Proof.
  cbv zeta. split; [reflexivity|]. unfold build_insert_payload.
  rewrite !canonical_payload_bytes_app. intros H.
  assert (push_length_prefixed [] (as_bytes "a|b") ++ push_length_prefixed [] (as_bytes "c") =
          push_length_prefixed [] (as_bytes "a") ++ push_length_prefixed [] (as_bytes "b|c"))%list as H'.
  { apply app_inv_head in H. rewrite !app_assoc in H. by apply app_inv_tail in H. }
  apply (f_equal (take 8)) in H'. vm_compute in H'. discriminate.
Qed.
End interceptor.
