(* ===== verification/AuditSession.v ===== *)
(** * Sessions of the audit log: what a restart restores

    A session wires persistence on an empty directory and then runs any sequence of
    audited operations, legal holds and prunes.  The invariant [persisted] relates the
    log in memory to the file and the store; the theorems state what it gives. *)

From S2P Require Import Prelude.
From S2P Require Import Bytes.
From S2P Require Import Text.
From S2P Require Import Interfaces.
From S2P Require Import AuditError.
From S2P Require Import CanonicalPayload.
From S2P Require Import Commitment.
From S2P Require Import SledStore.
From S2P Require Import PoseidonTree.
From S2P Require Import AuditLog.
From S2P Require Import AuditReplay.
From S2P Require Import Interceptor.
Local Open Scope N_scope.
#[local] Opaque tree_of root_of.
#[local] Arguments apply_retention : simpl never.

Section session.
Context {F : Type} {PF : PrimeField F} {Pos : Poseidon F}.
Context {Sha : Sha256} {Hm : HmacSha256} {Hexs : Hex} {B64 : Base64} {Chr : Chrono}.
Context {AJ : AuditJson} {Db : Type} {SD : SledDb Db} {SP : SerdePair}.
Context (dir : string) (key : option (list byte)).
Implicit Types (es : list PersistedEvent) (ls : list F) (w : World F Db).

(** ** Sessions *)

Inductive command :=
| Record (now : Z) (deployment : string) (op : audited_op)
| Hold (deployment database : string) (hold : bool)
| Prune (now : Z) (deployment database : string).

(** The world after a command; the caller sees its result, the state is kept either way. *)
Definition exec (c : command) w : World F Db :=
  match c with
  | Record now dep op => (record_op now dep op w).2
  | Hold dep db hold => (set_legal_hold dep db hold w).2
  | Prune now dep db => (prune_domain now dep db w).2
  end.
Definition run (cs : list command) w : World F Db := foldl (fun w c => exec c w) w cs.

(** A process that has just started, on a given disk. *)
Definition started (d : Disk Db) : World F Db :=
  {| log := Build_AuditLog (tree_of []) [] ∅ None None ∅ ∅ key []; disk := d |}.
Definition empty_disk : Disk Db :=
  {| files := ∅; sleds := ∅; io_error := None; sync_error := None |}.

Definition audit_file : string := path_join (path_join dir "audit") "events.jsonl".
Definition audit_store : string := path_join (path_join dir "audit") "tree.sled".

(** ** The invariant *)

(** The store holds the leaves; it is untouched before the first one. *)
Definition store_ok (db : Db) ls : Prop :=
  healthy db /\
  if decide (ls = []) then contents db !! META_LEAF_COUNT = None
  else stores db ls (fr_to_hex (root_of ls)).

Definition memory_of ls es (holds : gset domain) (retained : gmap domain (list DomainRetentionRoot)) :
    AuditLog F :=
  {| tree := tree_of ls; events := apply_retention retained (number ∅ es).1;
     sequences := (number ∅ es).2;
     persistence := Some {| events_path := audit_file |}; sled_store := Some audit_store;
     legal_holds := holds; retained_domain_roots := retained; leaf_key := key;
     root_after_by_index := map p_root_after es |}.

(** A metadata object has neither an index nor a root. *)
Definition meta_object (m : gmap string Scalar) : Prop :=
  m !! "index"%string = None /\ is_Some (m !! "meta"%string) /\
  m !! "root_after"%string = None /\ m !! "rootAfter"%string = None.

(** A line of the file: an event, or a metadata object. *)
Inductive written : string -> Prop :=
| written_event e : written (event_to_string e)
| written_meta m : meta_object m -> written (value_to_string m).

(** The format version the operations record events in. *)
Definition log_version : N := match key with Some _ => 3 | None => 1 end.

Record persisted w es ls (jl : list string) : Prop := {
  inv_chain : chain key [] es ls;
  inv_lines : Forall single_line jl;
  inv_utf8 : Forall rust_string jl;
  inv_written : Forall written jl;
  inv_parse : parse_lines 0 jl = (es, None);
  inv_log : let '(holds, retained) := metadata_of_lines jl in log w = memory_of ls es holds retained;
  inv_file : files (disk w) !! audit_file = Some (file_of jl);
  inv_store : exists db, sleds (disk w) !! audit_store = Some db /\ store_ok db ls;
  inv_io : io_error (disk w) = None;
  inv_sync : sync_error (disk w) = None;
  inv_version : Forall (fun e => p_version e = log_version) es;
  inv_bounds : forall d roots r,
    (metadata_of_lines jl).2 !! d = Some roots -> r ∈ roots -> max_index r < N.of_nat (length es);
}.

(** ** Lines *)

Lemma trim_single_line s : single_line s -> trim s = s /\ s <> ""%string.
Proof. by intros (_ & _ & ? & ?). Qed.

Lemma parse_lines_app i jl1 jl2 es :
  parse_lines i jl1 = (es, None) ->
  parse_lines i (jl1 ++ jl2) =
    (es ++ (parse_lines (i + length jl1) jl2).1, (parse_lines (i + length jl1) jl2).2).
Proof.
  revert i es. induction jl1 as [|line jl1 IH]; intros i es; cbn [parse_lines app length].
  - intros [= <-]. rewrite Nat.add_0_r. by destruct (parse_lines _ jl2).
  - rewrite Nat.add_succ_r, <-Nat.add_succ_l. case_bool_decide; [by apply IH|].
    destruct (event_from_str (trim line)) as [ev|].
    + destruct (parse_lines (S i) jl1) as [es1 [k|]] eqn:Hp; [done|]. intros [= <-].
      by rewrite (IH _ _ Hp).
    + destruct (value_from_str (trim line)) as [v|]; [|done].
      case_bool_decide; [by apply IH|done].
Qed.

Lemma parse_event_line i e : parse_lines i [event_to_string e] = ([e], None).
Proof.
  cbn. destruct (trim_single_line _ (event_single_line e)) as [-> Hne].
  rewrite bool_decide_eq_false_2 by done. by rewrite event_round_trip.
Qed.

Lemma parse_meta_line i m :
  meta_object m -> parse_lines i [value_to_string m] = ([], None).
Proof.
  intros (Hi & Hs & _). cbn. destruct (trim_single_line _ (value_single_line m)) as [-> Hne].
  rewrite bool_decide_eq_false_2, value_not_event, value_round_trip by done.
  by rewrite bool_decide_eq_true_2.
Qed.

Lemma metadata_app jl line :
  metadata_of_lines (jl ++ [line]) =
    if bool_decide (trim line = ""%string) then metadata_of_lines jl
    else match value_from_str (trim line) with
         | Some val => replay_metadata (metadata_of_lines jl) val
         | None => metadata_of_lines jl
         end.
Proof. unfold metadata_of_lines. by rewrite foldl_app. Qed.

Lemma metadata_event_line jl e :
  metadata_of_lines (jl ++ [event_to_string e]) = metadata_of_lines jl.
Proof.
  rewrite metadata_app. destruct (trim_single_line _ (event_single_line e)) as [-> Hne].
  rewrite bool_decide_eq_false_2 by done. rewrite event_value.
  by destruct (metadata_of_lines jl) as [holds retained].
Qed.

Lemma metadata_value_line jl m :
  metadata_of_lines (jl ++ [value_to_string m]) = replay_metadata (metadata_of_lines jl) (VObject m).
Proof.
  rewrite metadata_app. destruct (trim_single_line _ (value_single_line m)) as [-> Hne].
  by rewrite bool_decide_eq_false_2, value_round_trip.
Qed.

Lemma replay_hold_meta st dep db hold :
  replay_metadata st (VObject (legal_hold_meta dep db hold)) =
    (if hold then {[(dep, db)]} ∪ st.1 else st.1 ∖ {[(dep, db)]}, st.2).
Proof. by destruct st. Qed.

Lemma replay_pruned_meta holds retained dep db r :
  (forall r', r' ∈ default [] (retained !! (dep, db)) -> max_index r' < max_index r) ->
  replay_metadata (holds, retained) (VObject (pruned_meta dep db r)) =
    (holds, <[(dep, db) := default [] (retained !! (dep, db)) ++ [r]]> retained).
Proof.
  intros Hlt. destruct r as [rh ec mi pa].
  change (replay_metadata _ _) with
    (holds, <[(dep, db) :=
       if existsb (fun r' => bool_decide (max_index r' = mi) && bool_decide (root_hex r' = rh))
            (default [] (retained !! (dep, db)))
       then default [] (retained !! (dep, db))
       else default [] (retained !! (dep, db)) ++
              [{| root_hex := rh; event_count := ec; max_index := mi; pruned_at := pa |}]]> retained).
  destruct (existsb _ _) eqn:He; [|done].
  apply existsb_exists in He as (r' & Hin & [Hmax _]%andb_true_iff).
  apply bool_decide_eq_true in Hmax. apply list_elem_of_In in Hin.
  specialize (Hlt _ Hin). cbn in Hlt. lia.
Qed.

(** ** Recording *)

Definition recorded_event es ls dep op db col payload (leaf : F) version ts : PersistedEvent :=
  {| p_index := N.of_nat (length ls); p_operation := op; p_database := db; p_collection := col;
     p_deployment_id := dep; p_sequence := default 0 ((number ∅ es).2 !! (dep, db));
     p_payload := payload; p_leaf_hex := fr_to_hex leaf;
     p_root_after := fr_to_hex (root_of (ls ++ [leaf])); p_timestamp := ts;
     p_version := version |}.

Lemma if_sled_save w db ls leaf :
  sled_store (log w) = Some audit_store -> sleds (disk w) !! audit_store = Some db ->
  store_ok db ls -> (Z.of_nat (length ls) < 2 ^ 64 - 1)%Z ->
  exists db', store_ok db' (ls ++ [leaf]) /\
    if_sled (save_leaf (Z.of_N (N.of_nat (length ls))) leaf (root_of (ls ++ [leaf]))) w =
      (Ok tt, on_disk (fun d => set_sleds (<[audit_store := db']> (sleds d)) d) w).
Proof.
  intros Hs Hdb [Hh Hst] Hlen.
  destruct (save_leaf_total (Z.of_N (N.of_nat (length ls))) leaf (root_of (ls ++ [leaf])) db Hh)
    as (db' & Hsave & Hh').
  exists db'. split.
  - split; [done|]. rewrite decide_False by (intros []%app_nil; done).
    rewrite nat_N_Z in Hsave.
    eapply (save_leaf_stores db db' ls (fr_to_hex (root_of ls))); [|done|exact Hsave].
    case_decide; [by left|by right].
  - unfold if_sled. get_step. rewrite Hs. unfold on_sled. rewrite Hdb. cbn [default].
    unfold id. by rewrite Hsave.
Qed.

Lemma apply_retention_snoc retained evs ev :
  kept retained ev = true ->
  apply_retention retained (evs ++ [ev]) = apply_retention retained evs ++ [ev].
Proof.
  intros Hk. unfold apply_retention. rewrite filter_app, filter_cons_True by done. done.
Qed.

Lemma kept_new retained ev n :
  (forall d roots r, retained !! d = Some roots -> r ∈ roots -> max_index r < n) ->
  n <= index ev -> kept retained ev = true.
Proof.
  intros Hb Hn. unfold kept. destruct (retained !! _) as [roots|] eqn:Hr; [|done].
  apply negb_true_iff, not_true_iff_false. intros (r & Hin & Hle)%existsb_exists.
  apply list_elem_of_In in Hin. specialize (Hb _ _ _ Hr Hin). lia.
Qed.

Lemma record_inner_persisted w es ls jl dep op db col payload leaf version ts :
  persisted w es ls jl -> (Z.of_nat (length ls) < 2 ^ 64 - 1)%Z ->
  let e := recorded_event es ls dep op db col payload leaf version ts in
  recompute_leaf key e = Ok leaf -> version = log_version ->
  exists w', record_inner dep op db col payload leaf version ts w = (Ok (N.of_nat (length ls)), w') /\
    persisted w' (es ++ [e]) (ls ++ [leaf]) (jl ++ [event_to_string e]).
Proof.
  intros Hinv Hlen e He Hver. destruct Hinv.
  destruct (metadata_of_lines jl) as [holds retained] eqn:Hmeta.
  destruct inv_store0 as (sdb & Hsdb & Hsok).
  pose proof (chain_length _ _ _ _ inv_chain0) as Hel. cbn in Hel.
  unfold record_inner. get_step. rewrite inv_log0. unfold memory_of at 1. cbn [sequences].
  unfold next_sequence at 1. put_step. get_step. unfold on_log. cbn [log disk].
  rewrite inv_log0. unfold memory_of at 1, set_sequences at 1. cbn [tree].
  rewrite insert_tree_of. put_step. lift_step. rewrite root_tree_of. cbn [map_err].
  put_step. put_step. bind_step. unfold persist_line. get_step.
  unfold on_log. cbn [log disk persistence set_events set_roots set_tree set_sequences memory_of].
  unfold append_line, io. cbn [disk events_path]. rewrite inv_io0, inv_sync0, inv_file0.
  cbn [default]. unfold id.
  rewrite hex_to_fr_to_hex. bind_step. bind_step. unfold catch.
  match goal with |- context [if_sled _ ?w1] => set (w2 := w1) end.
  destruct (if_sled_save w2 sdb ls leaf) as (sdb' & Hsok' & ->); [done..|].
  eexists. split; [reflexivity|]. split.
  - apply chain_app. exists ls. split; [done|]. econstructor; [done..|constructor].
  - apply Forall_app_2; [done|]. repeat constructor; apply event_single_line.
  - apply Forall_app_2; [done|]. repeat constructor; apply event_utf8.
  - apply Forall_app_2; [done|]. repeat constructor.
  - rewrite (parse_lines_app _ _ _ _ inv_parse0), parse_event_line. done.
  - rewrite metadata_event_line, Hmeta. unfold w2, on_disk, memory_of. cbn.
    rewrite number_app, map_app. cbn. f_equal. unfold next_sequence. cbn.
    rewrite apply_retention_snoc; [done|].
    eapply kept_new; [exact inv_bounds0|]. cbn. lia.
  - unfold w2, on_disk. cbn. rewrite lookup_insert_eq. f_equal. by rewrite file_of_snoc.
  - exists sdb'. split; [|done]. unfold w2, on_disk. cbn. by rewrite lookup_insert_eq.
  - done.
  - done.
  - apply Forall_app_2; [done|]. by repeat constructor.
  - rewrite metadata_event_line, Hmeta. intros d roots r Hd Hr. rewrite length_app. cbn.
    specialize (inv_bounds0 d roots r Hd Hr). lia.
Qed.

(** The fields of a recorded event that come from the caller. *)
Definition row_of (dep op db col : string) (canonical : list byte) (payload : string) (e : PersistedEvent) : Prop :=
  p_deployment_id e = dep /\ p_operation e = op /\ p_database e = db /\ p_collection e = col /\
  p_payload e = match key with Some _ => b64_encode canonical | None => payload end.

Lemma record_event_row w es ls jl now dep op db col canonical payload :
  persisted w es ls jl -> (Z.of_nat (length ls) < 2 ^ 64 - 1)%Z ->
  exists w' e leaf, record_event now dep op db col canonical payload w = (Ok (N.of_nat (length ls)), w') /\
    persisted w' (es ++ [e]) (ls ++ [leaf]) (jl ++ [event_to_string e]) /\
    row_of dep op db col canonical payload e.
Proof.
  intros Hinv Hlen. assert (leaf_key (log w) = key) as Hkey.
  { destruct Hinv. destruct (metadata_of_lines jl). by rewrite inv_log0. }
  unfold record_event. get_step. unfold has_leaf_key. rewrite Hkey. destruct key as [k|] eqn:Hk.
  - rewrite bool_decide_eq_true_2 by by eexists. unfold record_v3. get_step. rewrite Hkey.
    lift_step. cbn [ok_or]. lift_step. rewrite poseidon_leaf_v3_eq. cbn [map_err].
    match goal with |- context [record_inner dep op db col ?p ?l ?v ?t _] =>
      destruct (record_inner_persisted w es ls jl dep op db col p l v t) as (w' & Hr & Hp) end;
      [done|done| |by unfold log_version; rewrite Hk|].
    { rewrite Hk. unfold recompute_leaf. cbn [recorded_event p_version p_payload p_timestamp ok_or].
      cbn. rewrite b64_decode_encode. cbn. rewrite parse_to_rfc3339. done. }
    eexists _, _, _. split; [exact Hr|]. split; [exact Hp|]. unfold row_of. by rewrite Hk.
  - rewrite bool_decide_eq_false_2 by by intros [].
    unfold record. get_step. unfold has_leaf_key. rewrite Hkey.
    rewrite bool_decide_eq_false_2 by by intros [].
    match goal with |- context [record_inner dep op db col ?p ?l ?v ?t _] =>
      destruct (record_inner_persisted w es ls jl dep op db col p l v t) as (w' & Hr & Hp) end;
      [done|done|by rewrite Hk|by unfold log_version; rewrite Hk|].
    eexists _, _, _. split; [exact Hr|]. split; [exact Hp|]. unfold row_of. by rewrite Hk.
Qed.

Lemma record_event_persisted w es ls jl now dep op db col canonical payload :
  persisted w es ls jl -> (Z.of_nat (length ls) < 2 ^ 64 - 1)%Z ->
  exists w' e leaf, record_event now dep op db col canonical payload w = (Ok (N.of_nat (length ls)), w') /\
    persisted w' (es ++ [e]) (ls ++ [leaf]) (jl ++ [event_to_string e]).
Proof.
  intros Hinv Hlen.
  destruct (record_event_row w es ls jl now dep op db col canonical payload Hinv Hlen)
    as (w' & e & leaf & Hr & Hp & _).
  by exists w', e, leaf.
Qed.

(** ** Metadata lines *)

(** Appending a metadata line that the replay turns into [holds] and [retained]. *)
Lemma persist_meta w es ls jl m holds retained :
  persisted w es ls jl -> meta_object m ->
  replay_metadata (metadata_of_lines jl) (VObject m) = (holds, retained) ->
  (forall d roots r, retained !! d = Some roots -> r ∈ roots -> max_index r < N.of_nat (length es)) ->
  forall l, l = memory_of ls es holds retained ->
  persisted {| log := l;
               disk := set_files (<[audit_file := file_of (jl ++ [value_to_string m])]> (files (disk w)))
                         (disk w) |} es ls (jl ++ [value_to_string m]).
Proof.
  intros Hinv Hmeta Hrep Hb l ->. destruct Hinv. split; cbn.
  - done.
  - apply Forall_app_2; [done|]. repeat constructor; apply value_single_line.
  - apply Forall_app_2; [done|]. repeat constructor; apply value_utf8.
  - apply Forall_app_2; [done|]. constructor; [by apply written_meta|constructor].
  - rewrite (parse_lines_app _ _ _ _ inv_parse0). by erewrite parse_meta_line, app_nil_r.
  - by rewrite metadata_value_line, Hrep.
  - by rewrite lookup_insert_eq.
  - done.
  - done.
  - done.
  - done.
  - by rewrite metadata_value_line, Hrep.
Qed.

Lemma persist_line_persisted w es ls jl line (l : AuditLog F) :
  persisted w es ls jl -> persistence l = Some {| events_path := audit_file |} ->
  persist_line (F := F) (Db := Db) line {| log := l; disk := disk w |} =
    (Ok tt, {| log := l; disk := set_files (<[audit_file := file_of (jl ++ [line])]> (files (disk w)))
                                   (disk w) |}).
Proof.
  intros Hinv Hp. destruct Hinv. unfold persist_line. get_step. cbn [log]. rewrite Hp.
  unfold append_line, io. cbn [disk events_path]. rewrite inv_io0, inv_sync0, inv_file0.
  cbn [log default]. unfold id. by rewrite file_of_snoc.
Qed.

Lemma set_legal_hold_persisted w es ls jl dep db hold :
  persisted w es ls jl ->
  exists w', set_legal_hold dep db hold w = (Ok tt, w') /\
    persisted w' es ls (jl ++ [value_to_string (legal_hold_meta dep db hold)]).
Proof.
  intros Hinv. pose proof Hinv as []. destruct (metadata_of_lines jl) as [holds retained] eqn:Hmeta.
  unfold set_legal_hold. put_step. unfold on_log.
  rewrite (persist_line_persisted w es ls jl) by (rewrite ?inv_log0; done).
  eexists. split; [reflexivity|].
  eapply persist_meta; [done|by split_and!; try eexists|by rewrite replay_hold_meta|by rewrite Hmeta|].
  rewrite inv_log0, Hmeta. done.
Qed.

(** ** Domains *)

Lemma domain_tree_Ok (l : AuditLog F) dep db :
  (forall ev, ev ∈ events l -> exists v : F, leaf_hex ev = fr_to_hex v) ->
  exists dls : list F, domain_tree l dep db = Ok (tree_of dls, N.of_nat (length dls)) /\
    fr_to_hex <$> dls = leaf_hex <$> filter (fun ev => in_domain dep db ev = true) (events l).
Proof.
  unfold domain_tree. intros Hl.
  change (map_err from_zk (with_height 20)) with (Ok (E := AuditError) (tree_of (F := F) [])).
  change (Ok (E := AuditError) (tree_of (F := F) []) ≫= ?f) with (f (tree_of (F := F) [])).
  cbv beta.
  assert (forall evs (pre : list F),
    (forall ev, ev ∈ evs -> exists v : F, leaf_hex ev = fr_to_hex v) ->
    exists dls : list F,
      foldR (fun '(t, count) ev =>
           if in_domain dep db ev then
             leaf ← hex_to_fr (leaf_hex ev); Ok ((insert t leaf).2, count + 1)
           else Ok (t, count)) (tree_of pre, N.of_nat (length pre)) evs
        = Ok (tree_of (pre ++ dls), N.of_nat (length (pre ++ dls))) /\
      fr_to_hex <$> dls = leaf_hex <$> filter (fun ev => in_domain dep db ev = true) evs) as Hgen.
  { clear Hl. induction evs as [|ev evs IH]; intros pre Hl.
    - exists []. rewrite app_nil_r. done.
    - cbn [foldR]. destruct (in_domain dep db ev) eqn:Hd.
      + destruct (Hl ev ltac:(by left)) as [v Hv]. rewrite Hv, hex_to_fr_to_hex.
        cbn [mbind result_bind]. rewrite insert_tree_of. cbn [snd].
        replace (N.of_nat (length pre) + 1) with (N.of_nat (length (pre ++ [v])))
          by (rewrite length_app; cbn; lia).
        destruct (IH (pre ++ [v])) as (dls & Hf & Hd'); [set_solver|].
        exists (v :: dls). rewrite Hf, <-app_assoc. split; [done|].
        rewrite filter_cons_True by done. cbn. by rewrite Hd', Hv.
      + cbn [mbind result_bind]. destruct (IH pre) as (dls & Hf & Hd'); [set_solver|].
        exists dls. rewrite Hf. split; [done|].
        rewrite filter_cons_False by (rewrite Hd; done). done. }
  destruct (Hgen (events l) [] Hl) as (dls & Hf & Hd). exists dls. split; [exact Hf|done].
Qed.

Lemma max_index_of_spec evs :
  match max_index_of evs with
  | None => evs = []
  | Some m => (exists ev, ev ∈ evs /\ index ev = m) /\ forall ev, ev ∈ evs -> index ev <= m
  end.
Proof.
  induction evs as [|ev evs IH] using rev_ind; [done|]. unfold max_index_of in *.
  rewrite foldl_app. cbn. destruct (foldl _ None evs) as [m|].
  - destruct IH as [(e0 & Hin & Hm') Hmax]. split.
    + destruct (N.max_spec m (index ev)) as [[? ->]|[? ->]]; [exists ev|exists e0]; set_solver.
    + intros e Hin'. apply elem_of_app in Hin' as [He%Hmax| ->%list_elem_of_singleton]; lia.
  - subst evs. split; [exists ev; set_solver|]. intros e ->%list_elem_of_singleton. lia.
Qed.

Lemma numbered_event es ls ev :
  chain key [] es ls -> ev ∈ (number ∅ es).1 ->
  index ev < N.of_nat (length es) /\ exists v : F, leaf_hex ev = fr_to_hex v.
Proof.
  intros Hc (i & Hi)%list_elem_of_lookup.
  apply number_lookup in Hi as (e & s & He & ->).
  destruct (chain_lookup _ _ _ _ _ _ Hc He) as (v & _ & _ & Hh & Hidx & _). cbn.
  apply lookup_lt_Some in He. cbn [length Nat.add] in Hidx. split; [lia|by exists v].
Qed.

Lemma elem_of_retained retained evs ev :
  ev ∈ apply_retention retained evs <-> kept retained ev = true /\ ev ∈ evs.
Proof. unfold apply_retention. by rewrite list_elem_of_filter. Qed.

(** Dropping the events a fresh commitment covers is what replaying the commitment does. *)
Lemma prune_is_retention retained evs dep db r m :
  max_index r = m ->
  (forall ev, ev ∈ apply_retention retained evs -> in_domain dep db ev = true -> index ev <= m) ->
  filter (fun ev => in_domain dep db ev = false) (apply_retention retained evs) =
  apply_retention (<[(dep, db) := default [] (retained !! (dep, db)) ++ [r]]> retained) evs.
Proof.
  intros Hr Hmax. unfold apply_retention at 1 2. rewrite list_filter_filter.
  apply filter_ext_in. intros ev Hin. unfold kept at 2.
  unfold in_domain. destruct (decide ((dep, db) = (deployment_id ev, database ev))) as [Hd|Hd].
  - injection Hd as -> ->. rewrite !bool_decide_eq_true_2 by done. cbn [andb].
    split; [by intros [? _]|]. rewrite lookup_insert_eq. intros Hk. exfalso.
    rewrite existsb_app, negb_orb in Hk. apply andb_true_iff in Hk as [Hk Hm'].
    cbn in Hm'. rewrite Hr, orb_false_r in Hm'. apply negb_true_iff, N.leb_gt in Hm'.
    specialize (Hmax ev). rewrite elem_of_retained in Hmax. unfold in_domain in Hmax.
    rewrite !bool_decide_eq_true_2 in Hmax by done.
    enough (index ev <= m) by lia. apply Hmax; [|done]. split; [|done].
    unfold kept. by destruct (retained !! _).
  - rewrite lookup_insert_ne by done. split; [by intros [_ ?]|]. intros Hk. split; [|done].
    apply andb_false_iff. rewrite !bool_decide_eq_false.
    destruct (decide (deployment_id ev = dep)) as [<-|]; [|by left].
    right. by intros <-.
Qed.

Lemma prune_domain_persisted w es ls jl now dep db :
  persisted w es ls jl ->
  exists r w' jl', prune_domain now dep db w = (r, w') /\ persisted w' es ls jl'.
Proof.
  intros Hinv. pose proof Hinv as []. destruct (metadata_of_lines jl) as [holds retained] eqn:Hmeta.
  unfold prune_domain. get_step. destruct (is_legal_hold _ dep db); [by eexists _, _, _|].
  get_step. cbn [id].
  assert (forall ev, ev ∈ events (log w) -> kept retained ev = true /\ ev ∈ (number ∅ es).1) as Hev
    by (rewrite inv_log0; intros ev; apply elem_of_retained).
  destruct (domain_tree_Ok (log w) dep db) as (dls & Hdt & Hdl).
  { intros ev [_ Hin]%Hev. by apply (numbered_event _ _ _ inv_chain0). }
  lift_step. rewrite Hdt.
  set (devs := filter (fun ev => in_domain dep db ev = true) (events (log w))) in *.
  pose proof (max_index_of_spec devs) as Hmax.
  destruct (max_index_of devs) as [m|]; [|by eexists _, _, _].
  lift_step. rewrite root_tree_of. cbn [map_err]. bind_step.
  destruct Hmax as [(e0 & He0 & Hidx0) Hmax].
  unfold devs in He0. apply list_elem_of_filter in He0 as [Hd0 [Hk0 Hin0]%Hev].
  assert (forall r', r' ∈ default [] (retained !! (dep, db)) -> max_index r' < m) as Hlt.
  { intros r' Hr'. destruct (retained !! (dep, db)) as [roots|] eqn:Hroots; [|set_solver].
    unfold kept, in_domain in *. apply andb_true_iff in Hd0 as [H1%bool_decide_eq_true H2%bool_decide_eq_true].
    rewrite H1, H2, Hroots in Hk0. apply negb_true_iff, not_true_iff_false in Hk0.
    apply N.nle_gt. intros Hle. apply Hk0, existsb_exists. exists r'.
    split; [by apply list_elem_of_In|lia]. }
  set (r := {| root_hex := _ |}).
  assert (w = {| log := log w; disk := disk w |}) as Hw by by destruct w.
  pose proof (persist_line_persisted w es ls jl (value_to_string (pruned_meta dep db r)) (log w)
                Hinv ltac:(by rewrite inv_log0)) as Hpl.
  rewrite <-Hw in Hpl. rewrite Hpl. clear Hpl Hw.
  put_step. put_step. eexists _, _, _. split; [reflexivity|].
  unfold on_log. cbn [log disk].
  eapply (persist_meta _ _ _ _ (pruned_meta dep db r)); [done|by split_and!; try eexists| | |].
  - rewrite Hmeta. by apply replay_pruned_meta.
  - intros d roots r'. destruct (decide ((dep, db) = d)) as [<-|Hne].
    + rewrite lookup_insert_eq. intros [= <-] [Hr'| ->%list_elem_of_singleton]%elem_of_app.
      * destruct (retained !! (dep, db)) as [roots|] eqn:Hroots; [|set_solver].
        by eapply inv_bounds0.
      * cbn. rewrite <-Hidx0. by apply (numbered_event es ls).
    + rewrite lookup_insert_ne by done. apply inv_bounds0.
  - rewrite inv_log0. unfold memory_of, set_events, set_retained. cbn. f_equal.
    apply (prune_is_retention _ _ _ _ r m); [done|].
    intros ev Hin Hd. apply Hmax. unfold devs. apply list_elem_of_filter.
    rewrite inv_log0. done.
Qed.

(** ** Runs *)

Lemma exec_persisted c w es ls jl :
  persisted w es ls jl -> (Z.of_nat (length ls) < 2 ^ 64 - 1)%Z ->
  exists es' ls' jl', persisted (exec c w) es' ls' jl' /\ (length ls' <= S (length ls))%nat /\
                      es `prefix_of` es'.
Proof.
  intros Hinv Hlen. destruct c as [now dep op|dep db hold|now dep db]; cbn.
  - destruct (record_op_event (F := F) (Db := Db) now dep op) as (o & db & col & can & pay & ->).
    destruct (record_event_persisted w es ls jl now dep o db col can pay Hinv Hlen)
      as (w' & e & leaf & -> & Hp).
    eexists _, _, _. split; [exact Hp|]. rewrite length_app. cbn. split; [lia|by exists [e]].
  - destruct (set_legal_hold_persisted w es ls jl dep db hold Hinv) as (w' & -> & Hp).
    eexists _, _, _. split; [exact Hp|]. split; [lia|done].
  - destruct (prune_domain_persisted w es ls jl now dep db Hinv) as (r & w' & jl' & -> & Hp).
    eexists _, _, _. split; [exact Hp|]. split; [lia|done].
Qed.

Lemma run_persisted cs w es ls jl :
  persisted w es ls jl -> (Z.of_nat (length ls + length cs) < 2 ^ 64)%Z ->
  exists es' ls' jl', persisted (run cs w) es' ls' jl' /\
    (length ls' <= length ls + length cs)%nat /\ es `prefix_of` es'.
Proof.
  revert w es ls jl. induction cs as [|c cs IH]; intros w es ls jl Hinv Hlen; cbn in *.
  - eexists _, _, _. split; [exact Hinv|]. split; [lia|done].
  - destruct (exec_persisted c w es ls jl Hinv ltac:(lia)) as (es1 & ls1 & jl1 & Hp & Hl & Hpre).
    destruct (IH _ _ _ _ Hp ltac:(lia)) as (es2 & ls2 & jl2 & Hp2 & Hl2 & Hpre2).
    eexists _, _, _. split; [exact Hp2|]. split; [lia|by trans es1].
Qed.

(** ** Starting and restarting *)

Lemma fresh_start :
  exists w, set_persistence_dir dir (started empty_disk) = (Ok tt, w) /\ persisted w [] [] [].
Proof.
  unfold set_persistence_dir. bind_step. unfold create_dir_all, io at 1, started, empty_disk.
  cbn [disk io_error log]. fold audit_file audit_store. bind_step.
  unfold load_from_sled. bind_step. unfold sled_exists, gets. cbn [disk sleds].
  rewrite lookup_empty, bool_decide_eq_false_2 by by intros []. cbn [negb].
  unfold mret at 1, stateR_ret. bind_step. unfold open_sled at 1. cbn [disk io_error sleds].
  rewrite lookup_empty. put_step. bind_step. unfold file_exists, gets. unfold on_log, on_disk, set_sleds.
  cbn [disk files log]. rewrite lookup_empty, bool_decide_eq_false_2 by by intros []. bind_step.
  unfold mret at 1. bind_step. unfold open_append, io, put_log, modify.
  cbn [disk io_error files on_disk on_log set_sleds]. rewrite lookup_empty.
  eexists. split; [reflexivity|]. split; try done.
  - constructor.
  - cbn. by rewrite lookup_insert_eq.
  - exists sled_new. cbn. rewrite lookup_insert_eq. split; [done|]. split; [apply healthy_new|].
    by rewrite contents_new.
Qed.

Lemma parsed_file_of jl es : Forall single_line jl -> parse_lines 0 jl = (es, None) ->
  parsed_events (file_of jl) = es /\ recovered (file_of jl) = file_of jl.
Proof. intros Hs Hp. unfold parsed_events, recovered. rewrite lines_file_of by done. by rewrite Hp. Qed.

(** What the fast path loads. *)
Lemma load_from_sled_persisted d db ls :
  io_error d = None -> sleds d !! audit_store = Some db -> store_ok db ls ->
  (Z.of_nat (length ls) < 2 ^ 64)%Z ->
  load_from_sled audit_store (started d) =
    (Ok (negb (bool_decide (ls = []))),
     {| log := set_tree (tree_of ls) (log (started d)); disk := d |}).
Proof.
  intros Hio Hdb [Hh Hst] Hlen. unfold load_from_sled. bind_step.
  unfold sled_exists, gets. cbn [disk started]. rewrite Hdb, bool_decide_eq_true_2 by by eexists.
  cbn [negb]. bind_step. unfold catch at 1, open_sled. cbn [disk started]. rewrite Hio, Hdb.
  bind_step. unfold catch, on_sled. cbn [disk started]. rewrite Hdb. cbn [default]. unfold id.
  assert (set_sleds (<[audit_store := db]> (sleds d)) d = d) as Hsame
    by (rewrite insert_id by done; by destruct d).
  case_decide as Hls.
  - subst ls. unfold load_tree. bind_step. rewrite db_read_get, Hst by done. cbn [map_err].
    rewrite bool_decide_eq_true_2 by done. unfold on_disk. cbn. by rewrite Hsame.
  - rewrite (load_tree_stores db ls (fr_to_hex (root_of ls))); [|done|done|apply hex_encode_rust_string|lia].
    put_step. rewrite bool_decide_eq_false_2 by done. unfold on_disk, on_log. cbn. by rewrite Hsame.
Qed.

Lemma open_sled_existing d l path db :
  io_error d = None -> sleds d !! path = Some db ->
  open_sled path (Build_World (F := F) l d) = (Ok tt, Build_World l d).
Proof. intros Hio Hdb. unfold open_sled. cbn [disk]. by rewrite Hio, Hdb. Qed.

(** Startup on a disk with a file and a store, up to the replay. *)
Lemma set_persistence_dir_existing d db ls content :
  io_error d = None -> sleds d !! audit_store = Some db -> store_ok db ls ->
  (Z.of_nat (length ls) < 2 ^ 64)%Z -> files d !! audit_file = Some content ->
  set_persistence_dir dir (started d) =
    (_ ← (if bool_decide (ls = []) then replay_file audit_file else verify_against_tree audit_file);
     _ ← open_append audit_file;
     put_log (set_persistence (Some {| events_path := audit_file |})))
    {| log := set_sled_store (Some audit_store) (set_tree (tree_of ls) (log (started d))); disk := d |}.
Proof.
  intros Hio Hdb Hst Hlen Hf. unfold set_persistence_dir. bind_step.
  unfold create_dir_all, io at 1. cbn [disk started]. rewrite Hio.
  change (Build_World (log (started d)) d) with (started d).
  fold audit_file audit_store. bind_step.
  rewrite (load_from_sled_persisted d db ls) by done.
  bind_step. rewrite (open_sled_existing d _ _ db) by done.
  put_step. bind_step. unfold file_exists, gets, on_log. cbn [disk log].
  rewrite Hf, bool_decide_eq_true_2 by by eexists. by case_bool_decide.
Qed.

(** The disk of [w] with other contents for the log file and other databases. *)
Definition with_disk w (content : string) (dbs : gmap string Db) : Disk Db :=
  {| files := <[audit_file := content]> (files (disk w)); sleds := dbs;
     io_error := None; sync_error := None |}.

(** [content] reads as the lines [jl] and the events [es]. *)
Definition reads_as (content : string) es (jl : list string) : Prop :=
  rust_string content /\ parsed_events content = es /\ recovered content = file_of jl.

Lemma reads_as_file w es ls jl : persisted w es ls jl -> reads_as (file_of jl) es jl.
Proof.
  intros []. destruct (parsed_file_of jl es) as [H1 H2]; [done..|].
  split; [by apply file_of_rust_string|done].
Qed.

(** Replaying restores the memory: the state [restored] builds is the one in [w]. *)
Lemma restored_memory w es ls jl content l0 dbs :
  persisted w es ls jl -> reads_as content es jl ->
  l0 = set_sled_store (Some audit_store) (set_tree (tree_of ls) (log (started empty_disk))) ->
  (_ ← open_append audit_file;
   put_log (set_persistence (Some {| events_path := audit_file |})))
    (restored (tree_of ls) (map p_root_after es) es audit_file content
       {| log := l0; disk := with_disk w content dbs |}) =
  (Ok tt, {| log := log w; disk := with_disk w (file_of jl) dbs |}).
Proof.
  intros Hinv (Hu & Hp & Hrec) ->. destruct Hinv.
  unfold restored. rewrite Hrec, lines_file_of by done.
  destruct (metadata_of_lines jl) as [holds retained].
  assert ((if bool_decide (es = []) then ∅ else (number ∅ es).2) = (number ∅ es).2) as Hseq.
  { case_bool_decide as Hnil; [|done]. rewrite Hnil. reflexivity. }
  cbn. rewrite Hseq. bind_step. unfold open_append, io. cbn [disk io_error set_files with_disk files].
  rewrite lookup_insert_eq. unfold put_log, modify, on_log. cbn.
  rewrite inv_log0. unfold memory_of, with_disk. by rewrite insert_insert_eq.
Qed.

Lemma persisted_checked w es ls jl :
  persisted w es ls jl -> Forall (event_checked key (N.of_nat (length ls))) es.
Proof.
  intros []. apply Forall_lookup. intros i e He.
  destruct (chain_lookup _ _ _ _ _ _ inv_chain0 He) as (v & Hv & Hr & Hh & Hi & _).
  split; [by exists v|]. rewrite Hi. apply lookup_lt_Some in Hv. lia.
Qed.

Lemma restart_with_store w es ls jl content dbs db :
  persisted w es ls jl -> (Z.of_nat (length ls) < 2 ^ 64)%Z -> reads_as content es jl ->
  dbs !! audit_store = Some db -> store_ok db ls ->
  set_persistence_dir dir (started (with_disk w content dbs)) =
    (Ok tt, {| log := log w; disk := with_disk w (file_of jl) dbs |}).
Proof.
  intros Hinv Hlen Hreads Hdb Hst. pose proof Hreads as (Hu & Hp & Hrec).
  pose proof Hinv as []. pose proof (chain_length _ _ _ _ inv_chain0) as Hel. cbn in Hel.
  rewrite (set_persistence_dir_existing _ db ls content);
    [|done|done|done|lia|cbn; by rewrite lookup_insert_eq].
  set (l0 := set_sled_store _ _).
  rewrite <-(restored_memory w es ls jl content l0 dbs) by done.
  bind_step. case_bool_decide as Hls.
  - subst ls. rewrite (replay_file_run audit_file content _ []);
      [|done|cbn; by rewrite lookup_insert_eq|done|done|done|by rewrite Hp].
    by rewrite Hp.
  - rewrite (verify_against_tree_run audit_file content _ ls);
      [|done|cbn; by rewrite lookup_insert_eq|done|done|done| |].
    + rewrite bool_decide_eq_false_2 by (rewrite Hp; intros ->; by destruct ls). by rewrite Hp.
    + rewrite Hp. by eapply persisted_checked.
    + rewrite Hp. intros e. by eapply chain_last_root.
Qed.

Lemma restart_without_store w es ls jl content :
  persisted w es ls jl -> reads_as content es jl ->
  set_persistence_dir dir (started (with_disk w content ∅)) =
    (Ok tt, {| log := log w; disk := with_disk w (file_of jl) {[audit_store := sled_new]} |}).
Proof.
  intros Hinv Hreads. pose proof Hreads as (Hu & Hp & Hrec). pose proof Hinv as [].
  unfold set_persistence_dir. bind_step. unfold create_dir_all, io at 1.
  cbn [disk started with_disk io_error]. fold audit_file audit_store. bind_step.
  unfold load_from_sled. bind_step. unfold sled_exists, gets. cbn [disk sleds with_disk started].
  rewrite lookup_empty, bool_decide_eq_false_2 by by intros []. cbn [negb].
  unfold mret at 1, stateR_ret. bind_step. unfold open_sled at 1. cbn [disk io_error sleds with_disk started].
  rewrite lookup_empty. put_step. bind_step. unfold file_exists, gets. unfold on_log, on_disk, set_sleds.
  cbn [disk files log with_disk started]. rewrite lookup_insert_eq, bool_decide_eq_true_2 by by eexists.
  match goal with |- context [replay_file audit_file] => idtac end.
  bind_step.
  match goal with |- context [replay_file audit_file ?w0] => set (w1 := w0) end.
  assert (w1 = {| log := set_sled_store (Some audit_store) (log (started empty_disk));
                  disk := with_disk w content {[audit_store := sled_new]} |}) as -> by done.
  rewrite (replay_file_run audit_file content _ ls);
    [|done|cbn; by rewrite lookup_insert_eq|done|done|done|by rewrite Hp].
  rewrite Hp. cbn [log started set_sled_store root_after_by_index app].
  rewrite <-(restored_memory w es ls jl content _ {[audit_store := sled_new]} Hinv Hreads eq_refl).
  bind_step. done.
Qed.

(** ** Properties *)

(** The worlds a session reaches: persistence wired on an empty directory, then commands,
    fewer than 2^64 of them. *)
Definition session (cs : list command) w : Prop :=
  (Z.of_nat (length cs) < 2 ^ 64)%Z /\
  exists w0, set_persistence_dir dir (started empty_disk) = (Ok tt, w0) /\ w = run cs w0.

Lemma session_persisted cs w :
  session cs w -> exists es ls jl, persisted w es ls jl /\ (Z.of_nat (length ls) < 2 ^ 64)%Z.
Proof.
  intros (Hlen & w0 & H0 & ->). destruct fresh_start as (w0' & H0' & Hp).
  rewrite H0 in H0'. injection H0' as ->.
  destruct (run_persisted cs w0' [] [] [] Hp) as (es & ls & jl & Hp' & Hl & _); [cbn; lia|].
  exists es, ls, jl. split; [done|]. cbn in Hl. lia.
Qed.

(** The root history is that of the leaves. *)
Lemma root_after_persisted w es ls jl i :
  persisted w es ls jl ->
  root_after_at (log w) (N.of_nat i) =
    if decide (i < length ls)%nat then Some (fr_to_hex (root_of (take (S i) ls))) else None.
Proof.
  intros []. pose proof (chain_length _ _ _ _ inv_chain0) as Hel. cbn in Hel.
  destruct (metadata_of_lines jl) as [holds retained].
  unfold root_after_at. rewrite inv_log0. cbn. rewrite Nat2N.id.
  change (map p_root_after es) with (p_root_after <$> es). rewrite list_lookup_fmap.
  case_decide as Hi; [|by rewrite lookup_ge_None_2 by lia].
  destruct (lookup_lt_is_Some_2 es i ltac:(lia)) as [e He]. rewrite He. cbn.
  by destruct (chain_lookup _ _ _ _ _ _ inv_chain0 He) as (v & _ & _ & _ & _ & ->).
Qed.

Lemma session_root_history cs w :
  session cs w ->
  exists ls, tree (log w) = tree_of ls /\
    forall i, root_after_at (log w) (N.of_nat i) =
      if decide (i < length ls)%nat then Some (fr_to_hex (root_of (take (S i) ls))) else None.
Proof.
  intros Hs. destruct (session_persisted cs w Hs) as (es & ls & jl & Hp & _). exists ls. split.
  - pose proof (inv_log _ _ _ _ Hp) as Hlog. destruct (metadata_of_lines jl). by rewrite Hlog.
  - intros i. by eapply root_after_persisted.
Qed.

Lemma persisted_disk w es ls jl :
  persisted w es ls jl -> disk w = with_disk w (file_of jl) (sleds (disk w)).
Proof.
  intros []. unfold with_disk. rewrite insert_id by done.
  destruct (disk w) as [f s e1 e2]. cbn in *. by subst.
Qed.

Lemma persisted_restarts w es ls jl :
  persisted w es ls jl -> (Z.of_nat (length ls) < 2 ^ 64)%Z ->
  set_persistence_dir dir (started (disk w)) = (Ok tt, w).
Proof.
  intros Hp Hl. pose proof (persisted_disk _ _ _ _ Hp) as Hd. pose proof Hp as [].
  destruct inv_store0 as (db & Hdb & Hok). rewrite Hd at 1.
  rewrite (restart_with_store w es ls jl (file_of jl) _ db);
    [|done|done|by eapply reads_as_file|done|done].
  rewrite <-Hd. by destruct w.
Qed.

(** C2: durability: after any session of audited operations, legal holds and prunes, a
    restart on the same disk with the same leaf key succeeds and restores exactly the
    state in memory: tree, events, per-domain sequences, root history, holds and retained
    roots. *)
Theorem restart_restores_session cs w :
  session cs w -> set_persistence_dir dir (started (disk w)) = (Ok tt, w).
Proof. intros (es & ls & jl & Hp & Hl)%session_persisted. by eapply persisted_restarts. Qed.

(** Text a crash can leave at the end of the file: part of a line, neither an event nor
    JSON. *)
Definition torn (s : string) : Prop :=
  rust_string s /\ s <> ""%string /\ NL ∉ as_bytes s /\ trim s <> ""%string /\
  event_from_str (trim s) = None /\ value_from_str (trim s) = None.

Lemma reads_as_torn w es ls jl s :
  persisted w es ls jl -> torn s -> reads_as (file_of jl +:+ s) es jl.
Proof.
  intros [] (Hu & Hne & Hnl & Htr & Hev & Hval).
  assert (parse_lines 0 (jl ++ [s]) = (es, Some (length jl))) as Hp.
  { rewrite (parse_lines_app _ _ _ _ inv_parse0). cbn.
    rewrite bool_decide_eq_false_2, Hev, Hval by done. by rewrite app_nil_r. }
  split_and!.
  - unfold rust_string. rewrite as_bytes_app.
    assert (forall l, Forall rust_string l -> forall t, utf8_valid t = true ->
              utf8_valid (as_bytes (file_of l) ++ t) = true) as Hg.
    { unfold file_of. intros l Hl t Ht. rewrite as_bytes_of_bytes.
      induction Hl as [|x l Hx _ IH]; [done|]. cbn [map concat].
      rewrite <-!app_assoc. cbn [app]. rewrite utf8_valid_split by done. by rewrite Hx, IH. }
    by apply Hg.
  - unfold parsed_events. rewrite lines_file_of_partial by done. by rewrite Hp.
  - unfold recovered. rewrite lines_file_of_partial by done. rewrite Hp. cbn [snd].
    rewrite take_app_length. destruct jl as [|x jl]; [done|].
    rewrite bool_decide_eq_false_2; [by apply join_newline_file_of|].
    apply Forall_cons_1 in inv_lines0 as [(_ & _ & Hx & _) _].
    destruct jl as [|y jl]; [done|]. cbn [join]. intros H%(f_equal as_bytes).
    rewrite as_bytes_app in H. apply app_nil in H as [H _]. apply Hx.
    by rewrite <-(of_bytes_as_bytes x), H.
Qed.


(** The root history is exact and frozen: after any session the entry at every
    position below the leaf count is the root the tree had right after that leaf, there
    is no entry beyond, and running more commands changes none of them. *)
Theorem root_history_frozen cs w :
  session cs w ->
  exists ls, tree (log w) = tree_of ls /\
    (forall i, root_after_at (log w) (N.of_nat i) =
               if decide (i < length ls)%nat then Some (fr_to_hex (root_of (take (S i) ls))) else None) /\
    forall cs' i r, (Z.of_nat (length cs + length cs') < 2 ^ 64)%Z ->
      root_after_at (log w) i = Some r -> root_after_at (log (run cs' w)) i = Some r.
Proof.
  intros (Hlen & w0 & H0 & Hw). destruct fresh_start as (w0' & H0' & Hp0).
  rewrite H0 in H0'. injection H0' as ->.
  destruct (run_persisted cs w0' [] [] [] Hp0) as (es & ls & jl & Hp & Hl & _); [cbn; lia|].
  rewrite <-Hw in Hp. cbn in Hl. pose proof Hp as []. exists ls.
  split; [by destruct (metadata_of_lines jl); rewrite inv_log0|]. split.
  - intros i. by eapply root_after_persisted.
  - intros cs' i r Hlen'. unfold root_after_at.
    destruct (run_persisted cs' w es ls jl Hp ltac:(lia)) as (es' & ls' & jl' & Hp' & _ & [tl ->]).
    pose proof (inv_log _ _ _ _ Hp') as Hlog'. destruct (metadata_of_lines jl), (metadata_of_lines jl').
    rewrite inv_log0, Hlog'. cbn. rewrite map_app. apply lookup_app_l_Some.
Qed.

(** A crash between the two writes of a record, after the line is in the file and
    before the leaf is in the store, makes the next startup fail: the store is one leaf
    short, and the log reports tampering instead of recovering. *)
Theorem crash_between_writes_blocks_startup cs w now dep op :
  session cs w -> (Z.of_nat (length cs) < 2 ^ 64 - 1)%Z -> log_leaf_count (log w) <> 0 ->
  let w2 := exec (Record now dep op) w in
  (set_persistence_dir dir (started (with_disk w2 (default ""%string (files (disk w2) !! audit_file))
                                       (sleds (disk w))))).1 =
    Err (ZkAudit "audit log tamper detected: index exceeds tree leaf count").
Proof.
  intros (_ & w0 & H0 & Hw) Hlen Hne. destruct fresh_start as (w0' & H0' & Hp0).
  rewrite H0 in H0'. injection H0' as ->.
  destruct (run_persisted cs w0' [] [] [] Hp0) as (es & ls & jl & Hp & Hl & _); [cbn; lia|].
  rewrite <-Hw in Hp. cbn in Hl. cbn [exec]. cbv zeta.
  destruct (record_op_event (F := F) (Db := Db) now dep op) as (o & db & col & can & pay & ->).
  destruct (record_event_persisted w es ls jl now dep o db col can pay Hp ltac:(lia))
    as (w2 & e & leaf & -> & Hp2). cbn [snd].
  rewrite (inv_file _ _ _ _ Hp2). cbn [default]. unfold id.
  destruct (reads_as_file _ _ _ _ Hp2) as (Hu & Hpe & Hrec).
  pose proof (persisted_checked _ _ _ _ Hp) as Hall.
  destruct (inv_store _ _ _ _ Hp) as (sdb & Hsdb & Hok).
  pose proof (inv_chain _ _ _ _ Hp2) as Hch2.
  assert (ls <> []) as Hls.
  { intros ->. apply Hne. pose proof (inv_log _ _ _ _ Hp) as Hlog.
    destruct (metadata_of_lines jl). rewrite Hlog. unfold log_leaf_count. cbn.
    by rewrite leaf_count_tree_of. }
  rewrite (set_persistence_dir_existing _ sdb ls (file_of (jl ++ [event_to_string e])));
    [|done|done|done|lia|cbn; by rewrite lookup_insert_eq].
  rewrite bool_decide_eq_false_2 by done. bind_step.
  rewrite (verify_against_tree_unfold audit_file (file_of (jl ++ [event_to_string e])));
    [|done|cbn; by rewrite lookup_insert_eq|done|done].
  rewrite Hpe, bool_decide_eq_false_2 by by intros []%app_nil.
  set (w3 := metadata_restored _ _ _).
  destruct (metadata_restored_log audit_file (file_of (jl ++ [event_to_string e]))
    {| log := set_sled_store (Some audit_store) (set_tree (tree_of ls) (log (started empty_disk)));
       disk := with_disk w2 (file_of (jl ++ [event_to_string e])) (sleds (disk w)) |}) as (Ht & _ & Hk).
  assert (leaf_count (tree (log w3)) = N.of_nat (length ls)) as Hcount.
  { unfold w3. cbn in Ht |- *. rewrite Ht. apply leaf_count_tree_of. }
  assert (leaf_key (log w3) = key) as Hkey by exact Hk.
  bind_step. rewrite verify_events_app by by rewrite Hcount, Hkey.
  cbn [verify_events]. bind_step.
  destruct (chain_lookup _ _ _ _ (length es) e Hch2) as (v & _ & Hv & Hh & Hi & _);
    [by rewrite lookup_app_r, Nat.sub_diag by lia|].
  match goal with |- context [check_leaf e ?w4] =>
    rewrite (proj2 (check_leaf_Ok e w4 v w4)) by (split_and!; [done| |done]; cbn; by rewrite Hkey);
    assert (tree (log w4) = tree (log w3)) as Htree by done
  end.
  get_step. rewrite Htree, Hcount.
  pose proof (chain_length _ _ _ _ (inv_chain _ _ _ _ Hp)) as Hel. cbn in Hel, Hi.
  rewrite (proj2 (N.leb_le _ _)) by lia. done.
Qed.

(** C33: a legal hold blocks pruning: while a domain is held, pruning it fails and changes
    neither memory nor disk, and a session keeps the hold across restarts until it is
    lifted. *)
Theorem legal_hold_blocks_prune cs w dep db now :
  session cs w -> is_legal_hold (log w) dep db = true ->
  prune_domain now dep db w =
    (Err (Validation "cannot prune audit domain: legal hold is active"), w) /\
  (exec (Prune now dep db) w = w) /\
  forall w', set_persistence_dir dir (started (disk w)) = (Ok tt, w') ->
    is_legal_hold (log w') dep db = true.
Proof.
  intros Hs Hh.
  assert (prune_domain now dep db w =
    (Err (Validation "cannot prune audit domain: legal hold is active"), w)) as Hp
    by (unfold prune_domain; get_step; by rewrite Hh).
  split; [done|]. split; [cbn; by rewrite Hp|].
  intros w' Hw'. destruct (session_persisted cs w Hs) as (es & ls & jl & Hpers & Hl).
  pose proof (persisted_disk _ _ _ _ Hpers) as Hd. pose proof Hpers as [].
  destruct inv_store0 as (sdb & Hdb & Hok). rewrite Hd in Hw'.
  rewrite (restart_with_store w es ls jl (file_of jl) _ sdb) in Hw';
    [|done|done|by eapply reads_as_file|done|done].
  by injection Hw' as <-.
Qed.

(** A full reset does not reset the root history: after [clear] the tree and the
    event list are empty and the history still answers with the roots of the old log. *)
Theorem clear_keeps_root_history w w' :
  clear (F := F) (Db := Db) w = (Ok tt, w') ->
  log_leaf_count (log w') = 0 /\ events (log w') = [] /\
  forall i, root_after_at (log w') i = root_after_at (log w) i.
Proof.
  unfold clear. lift_step. rewrite with_height_tree_of. cbn [map_err]. put_step. put_step. put_step. put_step. put_step.
  intros H. apply stateR_bind_Ok in H as ([] & w1 & Hs & H).
  assert (log w1 = set_retained ∅ (set_legal_holds ∅ (set_sequences ∅ (set_events []
            (set_tree (tree_of []) (log w)))))) as H1.
  { unfold if_sled in Hs. apply stateR_bind_Ok in Hs as (p & w2 & [= <- <-] & Hs).
    unfold on_log in Hs. cbn in Hs. destruct (sled_store (log w)) as [path|].
    - unfold on_sled in Hs. destruct (SledStore.clear _) as [r db]. injection Hs as _ <-. done.
    - by injection Hs as <-. }
  assert (log w' = log w1) as ->.
  { apply stateR_bind_Ok in H as (p & w2 & [= <- <-] & H).
    destruct (persistence (log w1)) as [st|]; [|by injection H as <-].
    apply stateR_bind_Ok in H as ([] & w3 & Hwr & Hop).
    unfold write_file, open_append, io in *.
    destruct (io_error (disk w1)); [done|]. injection Hwr as <-. cbn in Hop.
    destruct (io_error _) in Hop; [done|]. by injection Hop as <-. }
  rewrite H1. unfold log_leaf_count. cbn. by rewrite leaf_count_tree_of.
Qed.

Lemma find_first {A} (P : A -> bool) (l : list A) i x :
  l !! i = Some x -> P x = true -> (forall j y, (j < i)%nat -> l !! j = Some y -> P y = false) ->
  List.find P l = Some x.
Proof.
  revert i. induction l as [|a l IH]; intros [|i] Hi Hx Hbefore; [done..|by injection Hi as ->; cbn; rewrite Hx|].
  cbn. rewrite (Hbefore 0%nat a ltac:(lia) eq_refl). apply (IH i); [done..|].
  intros j y Hj. apply (Hbefore (S j)). lia.
Qed.

(** The events [disclosure_opening] looks through are those of the replay. *)
Lemma candidates_eq i jl es :
  Forall single_line jl -> parse_lines i jl = (es, None) ->
  omap event_from_str (filter (fun l => trim l <> ""%string) jl) = es.
Proof.
  intros Hs. revert i es. induction Hs as [|x jl Hx _ IH]; intros i es; cbn [parse_lines].
  - by intros [= <-].
  - destruct (trim_single_line _ Hx) as [-> Hne]. rewrite bool_decide_eq_false_2 by done.
    rewrite filter_cons_True by by rewrite (proj1 (trim_single_line _ Hx)). cbn [omap list_omap].
    destruct (event_from_str x) as [e|].
    + destruct (parse_lines (S i) jl) as [es' [k|]] eqn:Hp; [done|]. intros [= <-].
      f_equal. by eapply IH.
    + destruct (value_from_str x); [|done]. case_bool_decide; [|done]. apply IH.
Qed.

(** The file of a session gives [disclosure_opening] its events. *)
Lemma disclosure_opening_find w es ls jl k idx :
  persisted w es ls jl -> key = Some k ->
  disclosure_opening (F := F) idx w =
    match List.find (fun e => bool_decide (p_index e = idx)) es with
    | None => (Err (Validation "no persisted event at index"), w)
    | Some event =>
      if negb (bool_decide (p_version event = 3)) then
        (Err (Validation "disclosure proofs require v3 leaves"), w)
      else
        (canonical ← ok_or (b64_decode (p_payload event)) (Validation "v3 payload base64 decode");
         secs ← ok_or (parse_rfc3339_secs (p_timestamp event)) (Validation "v3 timestamp parse");
         '(leaf, opening) ← map_err from_zk
            (poseidon_leaf_v3 k (p_operation event) (p_database event) (p_collection event)
               (ts_secs_of secs) canonical);
         if bool_decide (fr_to_hex leaf = p_leaf_hex event) then Ok (opening, leaf)
         else Err (Validation "recomputed v3 leaf does not match stored leaf"), w)
    end.
Proof.
  intros [] Hkey. destruct (metadata_of_lines jl) as [holds retained].
  unfold disclosure_opening.
  get_step. rewrite inv_log0. cbn [leaf_key memory_of]. rewrite Hkey. lift_step. cbn [ok_or map_err].
  get_step. rewrite inv_log0. cbn [persistence memory_of]. lift_step. cbn [ok_or].
  bind_step. cbn [events_path].
  rewrite (read_to_string_Ok audit_file (file_of jl)) by (done || by apply file_of_rust_string).
  rewrite lines_file_of by done. cbv zeta. rewrite (candidates_eq 0 jl es) by done. lift_step.
  destruct (List.find _ es) as [event|]; [|done]. cbn [ok_or].
  case_bool_decide; cbn [negb]; [|done]. lift_step.
  destruct (b64_decode _) as [canonical|]; [|done]. cbn [ok_or]. lift_step.
  destruct (parse_rfc3339_secs _) as [secs|]; [|done]. cbn [ok_or]. lift_step.
  cbn [mbind result_bind]. rewrite poseidon_leaf_v3_eq. cbn [map_err mbind result_bind].
  by case_bool_decide.
Qed.

(** Disclosure: in a session with a leaf key, every recorded event can be disclosed:
    the opening the log derives from its file opens the very leaf the tree holds at that
    index, and nothing changes; past the last event it fails. *)
Theorem disclosure_opens_tree_leaf cs w k idx :
  session cs w -> key = Some k ->
  exists ls, tree (log w) = tree_of ls /\
  match ls !! N.to_nat idx with
  | Some leaf => exists opening, disclosure_opening idx w = (Ok (opening, leaf), w) /\
                                 poseidon7 (to_inputs opening) = Ok leaf
  | None => disclosure_opening (F := F) idx w = (Err (Validation "no persisted event at index"), w)
  end.
Proof.
  intros Hs Hkey. destruct (session_persisted cs w Hs) as (es & ls & jl & Hp & Hl).
  rewrite (disclosure_opening_find w es ls jl k idx Hp Hkey).
  pose proof Hp as []. destruct (metadata_of_lines jl) as [holds retained].
  pose proof (chain_length _ _ _ _ inv_chain0) as Hel. cbn in Hel.
  exists ls. split; [by rewrite inv_log0|].
  destruct (ls !! N.to_nat idx) as [leaf|] eqn:Hleaf.
  - destruct (lookup_lt_is_Some_2 es (N.to_nat idx)) as [e He];
      [apply lookup_lt_Some in Hleaf; lia|].
    rewrite (find_first _ es (N.to_nat idx) e He).
    2:{ destruct (chain_lookup _ _ _ _ _ _ inv_chain0 He) as (_ & _ & _ & _ & Hi & _).
        apply bool_decide_eq_true. rewrite Hi. cbn. lia. }
    2:{ intros j y Hj Hy. destruct (chain_lookup _ _ _ _ _ _ inv_chain0 Hy) as (_ & _ & _ & _ & Hi & _).
        apply bool_decide_eq_false. rewrite Hi. cbn. lia. }
    destruct (chain_lookup _ _ _ _ _ _ inv_chain0 He) as (v & Hv & Hr & Hh & _ & _).
    cbn [length Nat.add] in Hv. rewrite Hleaf in Hv. injection Hv as <-.
    assert (p_version e = 3) as Hver.
    { eapply Forall_lookup_1 in He; [|exact inv_version0]. cbn in He. by rewrite He; unfold log_version; rewrite Hkey. }
    unfold recompute_leaf in Hr. rewrite Hver, Hkey in Hr. cbn [ok_or] in Hr.
    rewrite Hver, bool_decide_eq_true_2 by done. cbn [negb].
    apply bind_Ok_inv in Hr as (k0 & [= <-] & Hr).
    apply bind_Ok_inv in Hr as (canonical & Hcan & Hr).
    apply bind_Ok_inv in Hr as (secs & Hsecs & Hr).
    apply ok_or_Ok in Hcan, Hsecs.
    rewrite Hcan, Hsecs. cbn [ok_or mbind result_bind].
    rewrite poseidon_leaf_v3_eq in Hr |- *. cbn [map_err mbind result_bind] in Hr |- *.
    injection Hr as Hr. rewrite Hr, Hh, bool_decide_eq_true_2 by done.
    eexists. split; [reflexivity|]. unfold to_inputs. cbn. by rewrite <-Hr.
  - apply lookup_ge_None_1 in Hleaf.
    destruct (List.find (fun e => bool_decide (p_index e = idx)) es) as [e|] eqn:Hf; [|done]. exfalso.
    apply List.find_some in Hf as [Hin%list_elem_of_In Hb%bool_decide_eq_true].
    apply list_elem_of_lookup in Hin as [i Hi].
    destruct (chain_lookup _ _ _ _ _ _ inv_chain0 Hi) as (_ & _ & _ & _ & Hidx & _).
    apply lookup_lt_Some in Hi. cbn in Hidx. lia.
Qed.
End session.
