(* ===== verification/AuditDomains.v ===== *)
(** * Domains of the audit log: secondary trees, pruning and the super-root

    The per-domain commitments of a session: pruning keeps them, and the proofs the log
    issues for a domain and for the aggregation of all domains verify. *)

From S2P Require Import Prelude.
From S2P Require Import Bytes.
From S2P Require Import Text.
From S2P Require Import Interfaces.
From S2P Require Import AuditError.
From S2P Require Import CanonicalPayload.
From S2P Require Import SledStore.
From S2P Require Import PoseidonTree.
From S2P Require Import AuditLog.
From S2P Require Import AuditReplay.
From S2P Require Import Interceptor.
From S2P Require Import AuditSession.
Local Open Scope N_scope.
#[local] Opaque tree_of root_of.
#[local] Arguments apply_retention : simpl never.

Section domains.
Context {F : Type} {PF : PrimeField F} {Pos : Poseidon F}.
Context {Sha : Sha256} {Hm : HmacSha256} {Hexs : Hex} {B64 : Base64} {Chr : Chrono}.
Context {AJ : AuditJson} {Db : Type} {SD : SledDb Db} {SP : SerdePair}.
Implicit Types (ls : list F) (w : World F Db) (l : AuditLog F).

(** ** Specification *)

(** Every event in memory carries the hexadecimal form of a field element. *)
Definition decodable l : Prop := forall ev, ev ∈ events l -> exists v : F, leaf_hex ev = fr_to_hex v.

Definition domain_events l dep db : list AuditEvent :=
  filter (fun ev => in_domain dep db ev = true) (events l).

(** ** Lemmas *)

Lemma session_decodable dir key cs w : session dir key cs w -> decodable (log w).
Proof.
  intros (es & ls & jl & Hp & _)%session_persisted. destruct Hp.
  destruct (metadata_of_lines jl) as [holds retained]. rewrite inv_log.
  intros ev [_ Hin]%elem_of_retained. by apply (numbered_event _ _ _ _ inv_chain).
Qed.

(** The leaves of a domain are determined by its events. *)
Lemma domain_tree_events l dep db (dls : list F) :
  decodable l -> fr_to_hex <$> dls = leaf_hex <$> domain_events l dep db ->
  domain_tree l dep db = Ok (tree_of dls, N.of_nat (length dls)).
Proof.
  intros Hl Hd. destruct (domain_tree_Ok l dep db Hl) as (dls' & -> & Hd').
  unfold domain_events in Hd. rewrite <-Hd' in Hd.
  apply list_fmap_eq_inj in Hd as ->; [done|apply fr_to_hex_inj].
Qed.

Lemma domain_leaves l dep db :
  decodable l -> exists dls : list F, fr_to_hex <$> dls = leaf_hex <$> domain_events l dep db /\
    length dls = length (domain_events l dep db).
Proof.
  intros Hl. destruct (domain_tree_Ok l dep db Hl) as (dls & _ & Hd). exists dls. split; [done|].
  apply (f_equal length) in Hd. by rewrite !length_fmap in Hd.
Qed.

Lemma domain_root_active l dep db (dls : list F) :
  decodable l -> dls <> [] -> fr_to_hex <$> dls = leaf_hex <$> domain_events l dep db ->
  domain_root l dep db = Ok (fr_to_hex (root_of dls), N.of_nat (length dls)).
Proof.
  intros Hl Hne Hd. unfold domain_root. rewrite (domain_tree_events l dep db dls) by done.
  cbn [mbind result_bind]. rewrite (proj2 (N.eqb_neq _ 0)) by (destruct dls; [done|cbn; lia]).
  by rewrite root_tree_of.
Qed.

Lemma domain_root_pruned l dep db r :
  decodable l -> domain_events l dep db = [] ->
  retained_domain_roots l !! (dep, db) ≫= last = Some r ->
  domain_root l dep db = Ok (root_hex r, event_count r).
Proof.
  intros Hl He Hr. unfold domain_root. rewrite (domain_tree_events l dep db []) by (by rewrite ?He).
  cbn [mbind result_bind length N.of_nat N.eqb]. by rewrite Hr.
Qed.

(** A domain root depends only on the domain's events and retained roots. *)
Lemma domain_root_ext l l' dep db :
  decodable l -> decodable l' -> domain_events l dep db = domain_events l' dep db ->
  retained_domain_roots l !! (dep, db) = retained_domain_roots l' !! (dep, db) ->
  domain_root l dep db = domain_root l' dep db.
Proof.
  intros Hl Hl' He Hr. destruct (domain_leaves l dep db Hl) as (dls & Hd & _).
  unfold domain_root. rewrite (domain_tree_events l dep db dls) by done.
  rewrite (domain_tree_events l' dep db dls) by (by rewrite <-?He). by rewrite Hr.
Qed.

Lemma filter_filter_domain dep db dep' db' (evs : list AuditEvent) :
  filter (fun ev => in_domain dep' db' ev = true) (filter (fun ev => in_domain dep db ev = false) evs) =
  if decide ((dep, db) = (dep', db')) then []
  else filter (fun ev => in_domain dep' db' ev = true) evs.
Proof.
  rewrite list_filter_filter. case_decide as Hd.
  - injection Hd as -> ->. apply elem_of_nil_inv. intros ev [[H1 H2] _]%list_elem_of_filter. congruence.
  - apply filter_ext_in. intros ev _. split; [by intros [? _]|]. intros Hin. split; [done|].
    unfold in_domain in *. apply andb_true_iff in Hin as [H1%bool_decide_eq_true H2%bool_decide_eq_true].
    apply andb_false_iff. rewrite !bool_decide_eq_false.
    destruct (decide (deployment_id ev = dep)); [right|by left]. congruence.
Qed.

(** ** Properties *)

(** Pruning keeps what it must: the shared tree and the root history do not change,
    exactly the domain's events leave memory, and the commitment it returns is the domain
    root of before, which stays the domain root after; every other domain keeps its
    events and its root. *)
Theorem prune_keeps_commitment dir key cs w now dep db r w' :
  session dir key cs w -> prune_domain now dep db w = (Ok (Some r), w') ->
  tree (log w') = tree (log w) /\ root_after_by_index (log w') = root_after_by_index (log w) /\
  events (log w') = filter (fun ev => in_domain dep db ev = false) (events (log w)) /\
  domain_root (log w) dep db = Ok (root_hex r, event_count r) /\
  domain_root (log w') dep db = Ok (root_hex r, event_count r) /\
  forall dep' db', (dep, db) <> (dep', db') ->
    domain_events (log w') dep' db' = domain_events (log w) dep' db' /\
    domain_root (log w') dep' db' = domain_root (log w) dep' db'.
Proof.
  intros Hs Hprune. pose proof (session_decodable _ _ _ _ Hs) as Hdec.
  destruct (domain_leaves (log w) dep db Hdec) as (dls & Hd & Hlen).
  unfold prune_domain in Hprune. apply stateR_bind_Ok in Hprune as (h & w1 & [= <- <-] & H).
  destruct (is_legal_hold _ dep db); [done|].
  apply stateR_bind_Ok in H as (l0 & w1 & [= <- <-] & H). cbn [id] in H.
  apply stateR_bind_Ok in H as ([t count] & w1 & Ht & H). unfold liftR in Ht.
  rewrite (domain_tree_events (log w) dep db dls) in Ht by done. injection Ht as <- <- <-.
  fold (domain_events (log w) dep db) in H.
  pose proof (max_index_of_spec (domain_events (log w) dep db)) as Hmax.
  destruct (max_index_of _) as [m|]; [|done].
  apply stateR_bind_Ok in H as (rt & w1 & Hr & H). unfold zk, liftR in Hr.
  rewrite root_tree_of in Hr. injection Hr as <- <-.
  apply stateR_bind_Ok in H as ([] & w1 & Hpl & H).
  assert (log w1 = log w) as Hl1.
  { unfold persist_line in Hpl. apply stateR_bind_Ok in Hpl as (p & w2 & [= <- <-] & Hpl).
    destruct (persistence (log w)) as [st|]; [|by injection Hpl as <-].
    unfold append_line, io in Hpl. destruct (io_error (disk w)); [done|].
    destruct (sync_error (disk w)); [done|]. by injection Hpl as <-. }
  apply stateR_bind_Ok in H as ([] & w2 & [= <-] & H).
  apply stateR_bind_Ok in H as ([] & w3 & [= <-] & H). injection H as <- <-.
  unfold on_log. cbn [log]. rewrite Hl1.
  assert (dls <> []) as Hne.
  { intros ->. destruct Hmax as [(e & He & _) _]. cbn in Hlen. apply eq_sym, nil_length_inv in Hlen.
    rewrite Hlen in He. set_solver. }
  match goal with |- context [set_events ?evs (set_retained ?rr ?l)] =>
    set (l' := set_events evs (set_retained rr l)) end.
  assert (decodable l') as Hdec'.
  { intros ev Hin. apply Hdec. cbn in Hin. by apply list_elem_of_filter in Hin as [_ ?]. }
  split_and!; try done.
  - by apply domain_root_active.
  - apply (domain_root_pruned l' dep db {| root_hex := _ |}); [done| |].
    + unfold domain_events. cbn. rewrite filter_filter_domain. by rewrite decide_True.
    + cbn. rewrite lookup_insert_eq. cbn. by rewrite last_snoc.
  - intros dep' db' Hne'.
    assert (domain_events l' dep' db' = domain_events (log w) dep' db') as He.
    { unfold domain_events. cbn. rewrite filter_filter_domain. by rewrite decide_False. }
    split; [done|]. apply domain_root_ext; try done. cbn. by rewrite lookup_insert_ne.
Qed.

(** Selective disclosure: a proof the log issues for a position of a domain verifies,
    spells that position, opens the leaf of the domain's event at that position, and ends
    in the domain root. *)
Theorem domain_proof_verifies dir key cs w dep db position p rh :
  session dir key cs w -> position < 2 ^ 20 ->
  prove_inclusion_in_domain (log w) dep db position = Ok (p, rh) ->
  verify p = Ok true /\ path_position (path_indices p) = position /\
  leaf_hex <$> domain_events (log w) dep db !! N.to_nat position = Some (fr_to_hex (leaf p)) /\
  domain_root (log w) dep db = Ok (rh, N.of_nat (length (domain_events (log w) dep db))).
Proof.
  intros Hs Hpos Hp. pose proof (session_decodable _ _ _ _ Hs) as Hdec.
  destruct (domain_leaves (log w) dep db Hdec) as (dls & Hd & Hlen).
  unfold prove_inclusion_in_domain in Hp.
  rewrite (domain_tree_events (log w) dep db dls) in Hp by done. cbn [mbind result_bind] in Hp.
  destruct (N.leb_spec (N.of_nat (length dls)) position) as [Hge|Hlt]; [done|].
  apply bind_Ok_inv in Hp as (p' & Hp' & [= -> <-]).
  destruct (prove_inclusion (tree_of dls) position) as [p0|] eqn:Hpi; [|done]. injection Hp' as ->.
  destruct (tree_of_fields dls) as (Hlv & Hht & Hwf).
  apply prove_inclusion_inv in Hpi as (Hlf & _ & _ & _ & Hrt & Hver & Hpp); [|done].
  rewrite Hlv in Hlf, Hrt. rewrite Hht in Hrt, Hpp.
  rewrite N.mod_small in Hpp by done. rewrite N.div_small in Hrt by done.
  split_and!; [done|done| |].
  - rewrite <-list_lookup_fmap, <-Hd, list_lookup_fmap.
    rewrite <-(N2Nat.id position), leaf_map_indexed in Hlf. by rewrite Hlf.
  - rewrite Hrt, <-root_of_node, <-Hlen.
    apply domain_root_active; [done|by intros ->; cbn in Hlt; lia|done].
Qed.

(** *** The super-root *)

Lemma domain_root_total l dep db : decodable l -> exists rh c, domain_root l dep db = Ok (rh, c).
Proof.
  intros Hl. destruct (domain_leaves l dep db Hl) as (dls & Hd & _). unfold domain_root.
  rewrite (domain_tree_events l dep db dls) by done. cbn [mbind result_bind].
  destruct (if _ =? _ then _ else _) as [r|]; [by eexists _, _|].
  rewrite root_tree_of. by eexists _, _.
Qed.

(** The entry of a domain, and the leaf that binds it. *)
Definition super_entry l (d : domain) : string * string * string :=
  (d.1, d.2, match domain_root l d.1 d.2 with Ok (rh, _) => rh | Err _ => ""%string end).
Definition entry_leaf (e : string * string * string) : F := super_leaf e.1.1 e.1.2 e.2.

Lemma super_tree_Ok l domains :
  decodable l ->
  super_tree l domains =
    Ok (tree_of (map entry_leaf (map (super_entry l) domains)), map (super_entry l) domains).
Proof.
  intros Hl. unfold super_tree. rewrite with_height_tree_of. cbn [map_err mbind result_bind].
  assert (forall pre,
    foldR (fun '(t, entries) d =>
           '(root_hex, _) ← domain_root l d.1 d.2;
           Ok ((insert t (super_leaf d.1 d.2 root_hex)).2, entries ++ [(d.1, d.2, root_hex)]))
        (tree_of (map entry_leaf pre), pre) domains =
    Ok (E := AuditError) (tree_of (map entry_leaf (pre ++ map (super_entry l) domains)),
                          pre ++ map (super_entry l) domains)) as Hgen; [|apply (Hgen [])].
  induction domains as [|d domains IH]; intros pre; cbn [foldR map]; [by rewrite app_nil_r|].
  destruct (domain_root_total l d.1 d.2 Hl) as (rh & c & Hr). rewrite Hr.
  cbn [mbind result_bind]. rewrite insert_tree_of. cbn [snd].
  assert (super_entry l d = (d.1, d.2, rh)) as He by (unfold super_entry; by rewrite Hr).
  rewrite <-He. change (super_leaf d.1 d.2 rh) with (entry_leaf (d.1, d.2, rh)). rewrite <-He.
  change [entry_leaf (super_entry l d)] with (map entry_leaf [super_entry l d]).
  rewrite <-map_app, IH, <-app_assoc. done.
Qed.

(** Aggregation: the proof the log issues for a domain verifies, ends in the
    super-root, and opens the leaf that binds the domain's identity to its current root,
    at the domain's place in the entries. *)
Theorem super_proof_verifies dir key cs w dep db p srh drh :
  session dir key cs w -> N.of_nat (length (list_domains (log w))) <= 2 ^ 20 ->
  prove_domain_in_super (log w) dep db = Ok (p, srh, drh) ->
  exists entries c position,
    domain_super_root (log w) = Ok (srh, entries) /\
    verify p = Ok true /\ path_position (path_indices p) = N.of_nat position /\
    entries !! position = Some (dep, db, drh) /\ leaf p = super_leaf dep db drh /\
    domain_root (log w) dep db = Ok (drh, c).
Proof.
  intros Hs Hfit Hp. pose proof (session_decodable _ _ _ _ Hs) as Hdec.
  unfold prove_domain_in_super in Hp. set (domains := list_domains (log w)) in *.
  apply bind_Ok_inv in Hp as (i & Hi%ok_or_Ok & Hp).
  unfold position in Hi. apply fmap_Some in Hi as ([i' d] & Hf & ->). cbn [fst] in *.
  apply list_find_Some in Hf as (Hd & [Hdep Hdb] & _).
  rewrite super_tree_Ok in Hp by done. cbn [mbind result_bind] in Hp.
  set (entries := map (super_entry (log w)) domains) in *.
  apply bind_Ok_inv in Hp as (p' & Hp' & Heq).
  destruct (prove_inclusion _ _) as [p0|] eqn:Hpi; [|done]. injection Hp' as ->.
  injection Heq as -> <- <-.
  destruct (domain_root_total (log w) d.1 d.2 Hdec) as (rh & c & Hr).
  assert (entries !! i' = Some (dep, db, rh)) as He.
  { unfold entries. change (map ?f domains) with (f <$> domains).
    rewrite list_lookup_fmap. unfold domain in Hd |- *. rewrite Hd. cbn. unfold super_entry. by rewrite Hr, Hdep, Hdb. }
  destruct (tree_of_fields (map entry_leaf entries)) as (Hlv & Hht & Hwf).
  apply prove_inclusion_inv in Hpi as (Hlf & _ & _ & _ & Hrt & Hver & Hpp); [|done].
  rewrite Hlv in Hlf, Hrt. rewrite Hht in Hrt, Hpp.
  assert (N.of_nat i' < 2 ^ N.of_nat 20) as Hlt.
  { apply lookup_lt_Some in Hd. change (N.of_nat 20) with 20. unfold domain in *. lia. }
  rewrite N.mod_small in Hpp by done. rewrite N.div_small in Hrt by done.
  rewrite leaf_map_indexed in Hlf. change (map entry_leaf entries) with (entry_leaf <$> entries) in Hlf.
  rewrite list_lookup_fmap, He in Hlf. injection Hlf as Hlf.
  rewrite He. cbn [fmap option_fmap option_map default snd].
  exists entries, c, i'. split_and!; [|done|done|done|done|by rewrite <-Hdep, <-Hdb].
  unfold domain_super_root. fold domains. rewrite super_tree_Ok by done.
  cbn [mbind result_bind]. rewrite root_tree_of. cbn [map_err mbind result_bind].
  by rewrite Hrt, <-root_of_node.
Qed.
End domains.
