(* ===== verification/AuditExample.v ===== *)
(** * A concrete log, and the theorems on it

    A JSON format that satisfies the interface the log uses, and sessions over it with
    the in-memory store: every hypothesis of the log's theorems holds there. *)

From S2P Require Import Prelude.
From S2P Require Import Bytes.
From S2P Require Import Text.
From S2P Require Import Interfaces.
From S2P Require Import AuditError.
From S2P Require Import CanonicalPayload.
From S2P Require Import Commitment.
From S2P Require Import SledStore.
From S2P Require Import PoseidonTree.
From S2P Require Import AuditLog.
From S2P Require Import AuditReplay.
From S2P Require Import Interceptor.
From S2P Require Import AuditSession.
From S2P Require Import AuditDomains.
Local Open Scope N_scope.
Import Concrete.
#[local] Opaque tree_of root_of.

(** ** A text format

    A tag, the fields of the value in hexadecimal, each closed by a comma, and the tag. *)

Definition COMMA : byte := x2c.
Definition text (fields : list string) : list byte :=
  concat (map (fun s => to_hex (as_bytes s) ++ [COMMA]) fields).
Fixpoint split_fields (cur l : list byte) : list (list byte) :=
  match l with
  | [] => []
  | b :: l => if bool_decide (b = COMMA) then reverse cur :: split_fields [] l
              else split_fields (b :: cur) l
  end.
Definition untext (l : list byte) : option (list string) :=
  mapM (fun f => of_bytes <$> of_hex f) (split_fields [] l).

Definition print (tag : byte) (fields : list string) : string :=
  of_bytes (tag :: text fields ++ [tag]).
Definition read (tag : byte) (s : string) : option (list string) :=
  match as_bytes s with
  | b :: l => if bool_decide (b = tag) then untext (take (length l - 1) l) else None
  | [] => None
  end.

(** The bytes of hexadecimal text. *)
Definition plain (b : byte) : bool :=
  in_range 0 127 b && negb (bool_decide (b = NL)) && negb (bool_decide (b = CR)).

Lemma hex_byte_plain b : Forall (fun c => plain c = true /\ c <> COMMA) (hex_byte b).
Proof. destruct b; repeat constructor; discriminate. Qed.
Lemma to_hex_plain l : Forall (fun c => plain c = true /\ c <> COMMA) (to_hex l).
Proof.
  unfold to_hex. induction l as [|b l IH]; [constructor|]. apply Forall_app_2; [apply hex_byte_plain|done].
Qed.
Lemma text_plain fields : Forall (fun c => plain c = true) (text fields).
Proof.
  unfold text. induction fields as [|s fields IH]; [constructor|]. cbn. rewrite <-app_assoc.
  apply Forall_app_2; [by eapply Forall_impl; [apply to_hex_plain|intros c []]|by constructor].
Qed.

Lemma split_fields_app h cur l :
  Forall (fun c => c <> COMMA) h ->
  split_fields cur (h ++ COMMA :: l) = (reverse cur ++ h) :: split_fields [] l.
Proof.
  intros Hh. revert cur. induction Hh as [|c h Hc _ IH]; intros cur; cbn.
  - by rewrite app_nil_r.
  - rewrite bool_decide_eq_false_2, IH, reverse_cons by done. by rewrite <-app_assoc.
Qed.
Lemma untext_text fields : untext (text fields) = Some fields.
Proof.
  unfold untext, text. induction fields as [|s fields IH]; [done|]. cbn [map concat].
  rewrite <-app_assoc. cbn [app]. rewrite split_fields_app
    by (eapply Forall_impl; [apply to_hex_plain|by intros c []]).
  change (reverse [] ++ ?h) with h. cbn -[of_hex to_hex]. rewrite of_to_hex. cbn.
  rewrite of_bytes_as_bytes. by setoid_rewrite IH.
Qed.
Lemma read_print tag fields : read tag (print tag fields) = Some fields.
Proof.
  unfold read, print. rewrite as_bytes_of_bytes, bool_decide_eq_true_2 by done.
  rewrite length_app, Nat.add_sub, take_app_length. apply untext_text.
Qed.
Lemma read_other tag tag' (l : list byte) : tag <> tag' -> read tag (of_bytes (tag' :: l)) = None.
Proof. intros. unfold read. by rewrite as_bytes_of_bytes, bool_decide_eq_false_2. Qed.

(** The two tags, E and M. *)
Definition upper (b : byte) : Prop := b = x45 \/ b = x4d.

Lemma print_plain tag fields : upper tag -> Forall (fun c => plain c = true) (as_bytes (print tag fields)).
Proof.
  intros Htag. unfold print. rewrite as_bytes_of_bytes. assert (plain tag = true) by by destruct Htag as [-> | ->].
  constructor; [done|]. apply Forall_app_2; [apply text_plain|by constructor].
Qed.

Lemma strip_nothing ws n l :
  List.find (fun p => starts_with p l) ws = None -> strip ws n l = l.
Proof. intros H. destruct n; [done|]. cbn. by rewrite H. Qed.

Lemma print_single_line tag fields : upper tag -> single_line (print tag fields).
Proof.
  intros Htag. pose proof (print_plain tag fields Htag) as Hp. rewrite Forall_forall in Hp.
  unfold single_line. split_and!.
  - by intros H%Hp.
  - by intros H%Hp.
  - intros Hs%(f_equal as_bytes). unfold print in Hs. by rewrite as_bytes_of_bytes in Hs.
  - unfold trim, trim_start, trim_end, print. rewrite as_bytes_of_bytes.
    rewrite (strip_nothing white_space) by by destruct Htag as [-> | ->].
    rewrite strip_nothing; [by rewrite reverse_involutive|].
    change (tag :: ?l ++ [tag]) with ((tag :: l) ++ [tag]). rewrite reverse_app.
    by destruct Htag as [-> | ->].
Qed.

Lemma print_rust_string tag fields : upper tag -> rust_string (print tag fields).
Proof.
  intros Htag. apply utf8_valid_ascii. eapply Forall_impl; [by apply print_plain|].
  intros c Hc. unfold plain in Hc. by destruct (in_range 0 127 c).
Qed.

(** *** Events and metadata as fields *)

Definition num (n : N) : string := of_bytes (pos_bits (encode n)).
Definition denum (s : string) : option N := decode (bits_pos (as_bytes s)).
Lemma denum_num n : denum (num n) = Some n.
Proof. unfold denum, num. by rewrite as_bytes_of_bytes, bits_pos_bits, decode_encode. Qed.

Definition event_fields (e : PersistedEvent) : list string :=
  [num (p_index e); p_operation e; p_database e; p_collection e; p_deployment_id e;
   num (p_sequence e); p_payload e; p_leaf_hex e; p_root_after e; p_timestamp e; num (p_version e)].
Definition fields_event (l : list string) : option PersistedEvent :=
  match l with
  | [i; o; d; c; dep; q; pl; lf; r; ts; v] =>
    i ← denum i; q ← denum q; v ← denum v;
    Some {| p_index := i; p_operation := o; p_database := d; p_collection := c;
            p_deployment_id := dep; p_sequence := q; p_payload := pl; p_leaf_hex := lf;
            p_root_after := r; p_timestamp := ts; p_version := v |}
  | _ => None
  end.
Lemma fields_event_fields e : fields_event (event_fields e) = Some e.
Proof. unfold event_fields, fields_event. rewrite !denum_num. by destruct e. Qed.

Definition scalar_fields (s : Scalar) : string * string :=
  match s with
  | SStr s => ("s", s) | SBool b => ("b", if b then "t" else "f")
  | SU64 n => ("n", num n) | SOther => ("o", "")
  end%string.
Definition fields_scalar (k v : string) : option Scalar :=
  if bool_decide (k = "s"%string) then Some (SStr v)
  else if bool_decide (k = "b"%string) then Some (SBool (bool_decide (v = "t"%string)))
  else if bool_decide (k = "n"%string) then SU64 <$> denum v
  else Some SOther.
Definition meta_fields (m : gmap string Scalar) : list string :=
  concat (map (fun kv => [kv.1; (scalar_fields kv.2).1; (scalar_fields kv.2).2]) (map_to_list m)).
Fixpoint fields_pairs (l : list string) : option (list (string * Scalar)) :=
  match l with
  | k :: t :: v :: l => s ← fields_scalar t v; r ← fields_pairs l; Some ((k, s) :: r)
  | [] => Some []
  | _ => None
  end.
Definition fields_meta (l : list string) : option (gmap string Scalar) := list_to_map <$> fields_pairs l.
Lemma fields_scalar_fields s : fields_scalar (scalar_fields s).1 (scalar_fields s).2 = Some s.
Proof. destruct s as [|[]| |]; try done. cbn. unfold fields_scalar. cbn. by rewrite denum_num. Qed.
Lemma fields_meta_fields m : fields_meta (meta_fields m) = Some m.
Proof.
  unfold fields_meta, meta_fields.
  assert (forall l, fields_pairs (concat (map (fun kv : string * Scalar =>
            [kv.1; (scalar_fields kv.2).1; (scalar_fields kv.2).2]) l)) = Some l) as Hp.
  { induction l as [|[k s] l IH]; [done|]. cbn -[fields_scalar]. by rewrite fields_scalar_fields, IH. }
  rewrite Hp. cbn. by rewrite list_to_map_to_list.
Qed.

Definition read_event (s : string) : option PersistedEvent := l ← read x45 s; fields_event l.
Definition read_meta (s : string) : option (gmap string Scalar) := l ← read x4d s; fields_meta l.
Lemma read_meta_print m : read_meta (print x4d (meta_fields m)) = Some m.
Proof. unfold read_meta. rewrite read_print. apply fields_meta_fields. Qed.
Lemma read_event_print e : read_event (print x45 (event_fields e)) = Some e.
Proof. unfold read_event. rewrite read_print. apply fields_event_fields. Qed.

#[local] Obligation Tactic := idtac.
#[export] Program Instance plain_json : AuditJson :=
  {| event_to_string e := print x45 (event_fields e);
     event_from_str := read_event;
     value_to_string m := print x4d (meta_fields m);
     value_from_str s := match read_meta s with
                         | Some m => Some (VObject m)
                         | None => (fun e => VObject (event_object e)) <$> read_event s
                         end |}.
Next Obligation. intros e. apply read_event_print. Qed.
Next Obligation. intros m. cbv beta. by rewrite read_meta_print. Qed.
Next Obligation.
  intros e. cbv beta. rewrite read_event_print. unfold read_meta, print. by rewrite read_other.
Qed.
Next Obligation. intros m _. unfold read_event, print. by rewrite read_other. Qed.
Next Obligation. intros e. apply print_single_line. by left. Qed.
Next Obligation. intros m. apply print_single_line. by right. Qed.
Next Obligation. intros e. apply print_rust_string. by left. Qed.
Next Obligation. intros m. apply print_rust_string. by right. Qed.

(** ** A session *)

Definition example_key : list byte := as_bytes "leaf key".
Abbreviation world := (World Fp MemoryDb.mem).

Section example.
Import MemoryDb.
#[local] Existing Instance PayloadExample.plain_pair.

Definition fresh (key : option (list byte)) : world :=
  (set_persistence_dir "d" (started key empty_disk)).2.

Definition commands : list command :=
  [Record 1000000000 "dep" (OpInsert "db" "col" "{}"); Record 2000000000 "dep" (OpDelete "db" "col" "{}");
   Hold "dep" "db" true; Record 3000000000 "dep" (OpDropDatabase "other");
   Prune 4000000000 "dep" "other"]%string.

Definition after (cs : list command) (key : option (list byte)) : world := run cs (fresh key).

Lemma session_after cs key : (Z.of_nat (length cs) < 2 ^ 64)%Z -> session "d" key cs (after cs key).
Proof.
  intros Hlen. split; [done|]. exists (fresh key). split; [|done].
  destruct (fresh_start (F := Fp) (Db := mem) "d" key) as (w0 & H0 & _). unfold fresh. by rewrite H0.
Qed.

Lemma restart_restores_session_witness :
  set_persistence_dir "d" (started (Some example_key) (disk (after commands (Some example_key)))) =
    (Ok tt, after commands (Some example_key)).
Proof. apply (restart_restores_session "d" _ commands), session_after. done. Defined.

Lemma pair_of_fst {A B} (p : A * B) a : p.1 = a -> p = (a, p.2).
Proof. by destruct p; cbn; intros ->. Qed.

(** The text of a JSON object that a crash cut off. *)
Lemma torn_text : torn "{oops".
Proof.
  split_and!; [by vm_compute..| |by vm_compute|by vm_compute|by vm_compute].
  apply (bool_decide_eq_true_1 _). by vm_compute.
Qed.


Lemma root_history_frozen_witness :
  exists ls, tree (log (after commands None)) = tree_of ls /\
    root_after_at (log (after commands None)) 1 =
      (if decide (1 < length ls)%nat then Some (fr_to_hex (root_of (take 2 ls))) else None).
Proof.
  destruct (root_history_frozen "d" None commands (after commands None)) as (ls & Ht & Hr & _).
  - apply session_after. done.
  - exists ls. split; [exact Ht|apply (Hr 1%nat)].
Defined.

Lemma crash_between_writes_blocks_startup_witness :
  let w := after commands None in
  let w2 := exec (Record 5000000000 "dep" (OpInsert "db" "col" "{}")) w in
  (set_persistence_dir "d" (started None
     (with_disk "d" w2 (default ""%string (files (disk w2) !! audit_file "d")) (sleds (disk w))))).1 =
    Err (ZkAudit "audit log tamper detected: index exceeds tree leaf count").
Proof.
  apply (crash_between_writes_blocks_startup "d" None commands);
    [apply session_after; done|done|by vm_compute].
Defined.

Lemma legal_hold_blocks_prune_witness :
  prune_domain 9 "dep" "db" (after commands None) =
    (Err (Validation "cannot prune audit domain: legal hold is active"), after commands None).
Proof.
  refine (proj1 (legal_hold_blocks_prune "d" None commands (after commands None) "dep" "db" 9 _ _));
    [apply session_after; done|by vm_compute].
Defined.

Lemma clear_keeps_root_history_witness :
  exists w', clear (after commands None) = (Ok tt, w') /\ log_leaf_count (log w') = 0 /\
    root_after_at (log w') 2 = root_after_at (log (after commands None)) 2 /\
    is_Some (root_after_at (log w') 2).
Proof.
  exists (clear (after commands None)).2.
  destruct (clear_keeps_root_history (after commands None) (clear (after commands None)).2)
    as (Hc & _ & Hr).
  - apply pair_of_fst. by vm_compute.
  - split; [apply pair_of_fst; by vm_compute|].
    split; [exact Hc|]. split; [apply Hr|]. rewrite Hr. apply (bool_decide_eq_true_1 _). by vm_compute.
Defined.

Lemma disclosure_opens_tree_leaf_witness :
  exists ls, tree (log (after commands (Some example_key))) = tree_of ls /\
    match ls !! 1%nat with
    | Some leaf => exists opening,
        disclosure_opening 1 (after commands (Some example_key)) =
          (Ok (opening, leaf), after commands (Some example_key)) /\
        poseidon7 (to_inputs opening) = Ok leaf
    | None => disclosure_opening 1 (after commands (Some example_key)) =
        (Err (Validation "no persisted event at index"), after commands (Some example_key))
    end.
Proof.
  apply (disclosure_opens_tree_leaf "d" (Some example_key) commands _ example_key 1);
    [apply session_after; done|reflexivity].
Defined.

Lemma prune_succeeds :
  match prune_domain 9 "dep" "db" (after (take 2 commands) None) with
  | (Ok (Some _), _) => true | _ => false end = true.
Proof. by vm_compute. Qed.

Lemma prune_keeps_commitment_witness :
  exists r w', prune_domain 9 "dep" "db" (after (take 2 commands) None) = (Ok (Some r), w') /\
    domain_root (log w') "dep" "db" = Ok (root_hex r, event_count r).
Proof.
  pose proof prune_succeeds as Hok.
  destruct (prune_domain 9 "dep" "db" (after (take 2 commands) None)) as [[[r|]|e] w'] eqn:Hp;
    [|discriminate..].
  exists r, w'. split; [exact eq_refl|].
  eapply (prune_keeps_commitment "d" None (take 2 commands)); [|exact Hp].
  apply session_after. done.
Defined.

Lemma domain_proof_exists :
  match prove_inclusion_in_domain (log (after commands None)) "dep" "db" 1 with
  | Ok _ => true | _ => false end = true.
Proof. by vm_compute. Qed.

Lemma domain_proof_verifies_witness :
  exists p rh, prove_inclusion_in_domain (log (after commands None)) "dep" "db" 1 = Ok (p, rh) /\
    verify p = Ok true /\ path_position (path_indices p) = 1.
Proof.
  pose proof domain_proof_exists as Hok.
  destruct (prove_inclusion_in_domain (log (after commands None)) "dep" "db" 1) as [[p rh]|e] eqn:Hp;
    [|discriminate].
  exists p, rh. split; [exact eq_refl|].
  destruct (domain_proof_verifies "d" None commands (after commands None) "dep" "db" 1 p rh)
    as (Hv & Hi & _); [apply session_after; done|reflexivity|exact Hp|].
  split; [exact Hv|exact Hi].
Defined.

Lemma super_proof_exists :
  match prove_domain_in_super (log (after commands None)) "dep" "other" with
  | Ok _ => true | _ => false end = true.
Proof. by vm_compute. Qed.

Lemma super_proof_verifies_witness :
  exists p srh drh, prove_domain_in_super (log (after commands None)) "dep" "other" = Ok (p, srh, drh) /\
    verify p = Ok true /\ leaf p = super_leaf "dep" "other" drh.
Proof.
  pose proof super_proof_exists as Hok.
  destruct (prove_domain_in_super (log (after commands None)) "dep" "other") as [[[p srh] drh]|e] eqn:Hp;
    [|discriminate].
  exists p, srh, drh. split; [exact eq_refl|].
  destruct (super_proof_verifies "d" None commands (after commands None) "dep" "other" p srh drh)
    as (es & c & i & _ & Hv & _ & _ & Hl & _);
    [apply session_after; done|apply N.leb_le; vm_compute; reflexivity|exact Hp|].
  split; [exact Hv|exact Hl].
Defined.

(** ** Replay of a file *)

Definition example_file : string :=
  default ""%string (files (disk (after commands None)) !! audit_file "d").
Definition restarted : world :=
  {| log := log (started (Db := mem) None empty_disk);
     disk := {| files := {["f"%string := example_file]}; sleds := ∅; io_error := None;
                sync_error := None |} |}.
Definition replayed : result AuditError (list PersistedEvent) * world := replay_file "f" restarted.

Lemma example_file_text :
  files (disk restarted) !! "f"%string = Some example_file /\ rust_string example_file.
Proof. split; by vm_compute. Qed.

Lemma replayed_accepts : replay_file "f" restarted = (Ok (parsed_events example_file), replayed.2).
Proof. apply pair_of_fst. by vm_compute. Qed.

Lemma replay_file_accepts_iff_witness :
  exists ls, chain None [] (parsed_events example_file) ls /\
    replayed.2 = restored (tree_of ls) (map p_root_after (parsed_events example_file))
                   (parsed_events example_file) "f" example_file restarted.
Proof.
  destruct (proj1 (replay_file_accepts_iff "f" example_file restarted
    (parsed_events example_file) replayed.2 eq_refl (proj1 example_file_text)
    (proj2 example_file_text) eq_refl eq_refl) replayed_accepts) as (_ & ls & Hc & Hw).
  exists ls. split; [exact Hc|exact Hw].
Defined.

(** The same file checked against a stored tree whose last root is the one it records. *)
Definition with_tree (t : AuditMerkleTree Fp) : world :=
  {| log := set_tree t (log (started (Db := mem) None empty_disk)); disk := disk restarted |}.
Abbreviation restarted_tree := (with_tree (tree (log (after commands None)))).
Definition verified : result AuditError (list PersistedEvent) * world :=
  verify_against_tree "f" restarted_tree.

(** The file of a session is the chain of its leaves. *)
Lemma session_chain key cs w content :
  session "d" key cs w -> files (disk w) !! audit_file "d" = Some content ->
  exists ls, tree (log w) = tree_of ls /\ chain key [] (parsed_events content) ls.
Proof.
  intros Hs Hf. destruct (session_persisted "d" key cs w Hs) as (es & ls & jl & Hp & _).
  destruct (reads_as_file "d" key _ _ _ _ Hp) as (_ & He & _). destruct Hp.
  rewrite Hf in inv_file. injection inv_file as ->. exists ls. rewrite He. split; [|done].
  destruct (metadata_of_lines jl). by rewrite inv_log.
Qed.

Lemma example_file_of_session :
  files (disk (after commands None)) !! audit_file "d" = Some example_file /\
  (length (parsed_events example_file) =? 3)%nat = true.
Proof. split; by vm_compute. Qed.

Lemma with_tree_fields t :
  io_error (disk (with_tree t)) = None /\
  files (disk (with_tree t)) !! "f"%string = Some example_file /\
  events (log (with_tree t)) = [] /\ tree (log (with_tree t)) = t /\
  leaf_key (log (with_tree t)) = None.
Proof.
  split; [reflexivity|]. split; [apply lookup_singleton_eq|].
  split; [reflexivity|]. split; reflexivity.
Qed.

Lemma example_chain : exists ls e, tree (log restarted_tree) = tree_of ls /\
  chain None [] (parsed_events example_file) ls /\ fits ls /\
  last (parsed_events example_file) = Some e.
Proof.
  destruct example_file_of_session as [Hf Hl%Nat.eqb_eq]. destruct (with_tree_fields (tree (log (after commands None)))) as (_ & _ & _ & -> & _).
  destruct (session_chain None commands (after commands None) example_file) as (ls & Ht & Hc);
    [apply session_after; done|exact Hf|].
  pose proof (chain_length _ _ _ _ Hc) as Hlen. rewrite Hl in Hlen.
  destruct (last (parsed_events example_file)) as [e|] eqn:He.
  - exists ls, e. split; [exact Ht|]. split; [exact Hc|]. split; [|exact eq_refl].
    unfold fits. rewrite Hlen. discriminate.
  - apply last_None in He. rewrite He in Hl. exfalso; clear -Hl; discriminate Hl.
Qed.

Lemma verified_accepts :
  verify_against_tree "f" restarted_tree = (Ok (parsed_events example_file), verified.2).
Proof. apply pair_of_fst. by vm_compute. Qed.

Lemma verify_against_tree_accepts_iff_witness :
  exists ls, tree (log restarted_tree) = tree_of ls /\
    Forall (event_checked None (N.of_nat (length ls))) (parsed_events example_file) /\
    parsed_events example_file <> [].
Proof.
  destruct example_chain as (ls & e & Ht & _ & _ & Hlast).
  destruct (with_tree_fields (tree (log (after commands None)))) as (Hio & Hf & Hev & _ & Hk).
  destruct (proj1 (verify_against_tree_accepts_iff "f" example_file restarted_tree ls
    (parsed_events example_file) verified.2 Hio Hf (proj2 example_file_text) Hev Ht)
    verified_accepts) as (_ & Hall & _). rewrite Hk in Hall.
  exists ls. split; [exact Ht|]. split; [exact Hall|].
  intros H. rewrite H in Hlast. exfalso; clear -Hlast; discriminate Hlast.
Defined.

Lemma accepted_logs_agree_witness :
  exists ls e, chain None [] (parsed_events example_file) ls /\
    last (parsed_events example_file) = Some e /\
    (map p_leaf_hex (parsed_events example_file) = map p_leaf_hex (parsed_events example_file) \/
     trees_collide (leaf_map_of (indexed ls)) (leaf_map_of (indexed ls))).
Proof.
  destruct example_chain as (ls & e & _ & Hc & Hf & He). exists ls, e.
  split; [exact Hc|]. split; [exact He|].
  destruct (accepted_logs_agree None None _ _ ls ls e e Hc Hc Hf eq_refl He He eq_refl)
    as [(H & _)|H]; [left; exact H|right; exact H].
Defined.
End example.
