(* ===== verification/Reader.v ===== *)
(** * Reader mode (audit-service/src/audit/reader.rs)

    A log file checked against the root on the chain, without the log in memory: the
    first event with that root is looked up, and the events up to it are recomputed. *)

From stdpp Require Import pretty.
From S2P Require Import Prelude.
From S2P Require Import Bytes.
From S2P Require Import Text.
From S2P Require Import Interfaces.
From S2P Require Import AuditError.
From S2P Require Import PoseidonTree.
From S2P Require Import AuditLog.
Local Open Scope N_scope.

(** ** Data *)

Record OnChainRoot := {
  oc_sequence : N;
  oc_root_hex : string;
  oc_timestamp : N;
  oc_metadata : string;
}.

Record VerificationReport := {
  onchain_root_found : bool;
  onchain_root : option OnChainRoot;
  local_root_hex : string;
  commitment_event_index : option N;
  total_events : N;
  verified_events : N;
  events_after_commitment : N;
  chain_intact : bool;
  tamper_detected : bool;
  summary : string;
}.

(** ** Operations *)

Section reader.
Context {F : Type} {PF : PrimeField F} {Pos : Poseidon F}.
Context {Sha : Sha256} {Hexs : Hex} {AJ : AuditJson}.

(** Lines that are not blank, and the JSON they hold. *)
Definition count_events (jsonl : string) : N :=
  N.of_nat (length (filter (fun l => trim l <> ""%string /\ is_Some (value_from_str (trim l)))
                           (lines jsonl))).

(** [ev.get(snake).or_else(|| ev.get(camel)).and_then(|v| v.as_str())] *)
Definition event_str (ev : Value) (snake camel : string) : option string :=
  v ← match get ev snake with Some v => Some v | None => get ev camel end; as_str v.

Fixpoint find_root (lines : list string) (root_hex : string) : option N :=
  match lines with
  | [] => None
  | line :: lines =>
    let line := trim line in
    if bool_decide (line = ""%string) then find_root lines root_hex
    else match value_from_str line with
         | Some ev =>
           match event_str ev "root_after" "rootAfter" with
           | Some root_after =>
             if bool_decide (root_after = root_hex) then v ← get ev "index"; as_u64 v
             else find_root lines root_hex
           | None => find_root lines root_hex
           end
         | None => find_root lines root_hex
         end
  end.
Definition find_root_in_log (jsonl root_hex : string) : option N := find_root (lines jsonl) root_hex.

Definition str_or_empty (ev : Value) (k : string) : string := default ""%string (v ← get ev k; as_str v).
Definition row_leaf (ev : Value) : F :=
  leaf_from_payload (str_or_empty ev "operation") (str_or_empty ev "database")
    (str_or_empty ev "collection") (str_or_empty ev "payload").

(** One event against the tree of the events before it: the new tree, or nothing. *)
Definition check_row (t : AuditMerkleTree F) (ev : Value) (index : N) : option (AuditMerkleTree F) :=
  let version := default 0 (v ← get ev "version"; as_u64 v) mod 2 ^ 32 in
  let stored_leaf := default ""%string (event_str ev "leaf_hex" "leafHex") in
  let stored_root := default ""%string (event_str ev "root_after" "rootAfter") in
  match version with
  | 0 | 1 =>
    let recomputed_leaf := row_leaf ev in
    if negb (bool_decide (fr_to_hex recomputed_leaf = stored_leaf)) then None
    else
      let '(inserted_idx, t) := insert t recomputed_leaf in
      if negb (inserted_idx =? index) then None
      else match root t with
           | Ok recomputed_root =>
             if negb (bool_decide (fr_to_hex recomputed_root = stored_root)) then None else Some t
           | Err _ => None
           end
  | _ => None
  end.

(** The loop: [break] answers [true]. *)
Fixpoint verify_rows (t : AuditMerkleTree F) (up_to_index : N) (lines : list string) : bool :=
  match lines with
  | [] => true
  | line :: lines =>
    let line := trim line in
    if bool_decide (line = ""%string) then verify_rows t up_to_index lines
    else match value_from_str line with
         | None => false
         | Some ev =>
           match (v ← get ev "index"; as_u64 v) with
           | None => if bool_decide (is_Some (get ev "meta")) then verify_rows t up_to_index lines
                     else false
           | Some index =>
             if up_to_index <? index then true
             else match check_row t ev index with
                  | Some t => verify_rows t up_to_index lines
                  | None => false
                  end
           end
         end
  end.

Definition verify_root_chain (jsonl : string) (up_to_index : N) : bool :=
  match PoseidonTree.new with
  | Ok tree => verify_rows tree up_to_index (lines jsonl)
  | Err _ => false
  end.

(** [index + 1] in a release build *)
Definition succ_u64 (index : N) : N := (index + 1) mod 2 ^ 64.

Definition summary_found (chain_ok : bool) (index events_after total_events : N) : string :=
  if chain_ok then
    if events_after =? 0 then
      "✅ Verified: on-chain root matches local log at event " +:+ pretty index +:+ ". All " +:+
      pretty total_events +:+ " events verified. Log is fully committed."
    else
      "✅ Verified: on-chain root matches local log at event " +:+ pretty index +:+ ". " +:+
      pretty (succ_u64 index) +:+ " events verified, " +:+ pretty events_after +:+
      " new event(s) since commitment."
  else
    "❌ Tamper detected: root chain broken before event " +:+ pretty index +:+
    " (on-chain root match point). Events may have been modified or reordered.".

(** The first sixteen bytes of a root are cut out; hexadecimal text is ASCII. *)
Definition summary_not_found (onchain_root_hex : string) (total_events : N) : string :=
  if total_events =? 0 then
    "⚠️ Local log is empty. No events to verify against on-chain root."%string
  else
    "❌ On-chain root " +:+ String.substring 0 16 onchain_root_hex +:+ " not found in local log (" +:+
    pretty total_events +:+ " events). The log may have been truncated, or the on-chain root " +:+
    "belongs to a different audit log.".

Definition summary_uncommitted (total_events : N) : string :=
  if total_events =? 0 then "Local log is empty and no on-chain root has been committed."%string
  else "No on-chain root has been committed yet. Local log has " +:+ pretty total_events +:+
       " event(s) awaiting commitment.".

Definition verify_with_onchain_root (onchain_root : option OnChainRoot)
    (events_jsonl local_root_hex : string) : result AuditError VerificationReport :=
  let total_events := count_events events_jsonl in
  match onchain_root with
  | Some root =>
    match find_root_in_log events_jsonl (oc_root_hex root) with
    | Some index =>
      let chain_ok := verify_root_chain events_jsonl index in
      let events_after := total_events - succ_u64 index in
      Ok {| onchain_root_found := true; onchain_root := onchain_root;
            local_root_hex := local_root_hex; commitment_event_index := Some index;
            total_events := total_events; verified_events := succ_u64 index;
            events_after_commitment := events_after; chain_intact := chain_ok;
            tamper_detected := negb chain_ok;
            summary := summary_found chain_ok index events_after total_events |}
    | None =>
      Ok {| onchain_root_found := false; onchain_root := onchain_root;
            local_root_hex := local_root_hex; commitment_event_index := None;
            total_events := total_events; verified_events := 0;
            events_after_commitment := total_events; chain_intact := false;
            tamper_detected := 0 <? total_events;
            summary := summary_not_found (oc_root_hex root) total_events |}
    end
  | None =>
    Ok {| onchain_root_found := false; onchain_root := None; local_root_hex := local_root_hex;
          commitment_event_index := None; total_events := total_events; verified_events := 0;
          events_after_commitment := total_events; chain_intact := true; tamper_detected := false;
          summary := summary_uncommitted total_events |}
  end.
End reader.
