(* ===== verification/ReaderSpec.v ===== *)
(** * What reader mode shows

    A report without tamper means that the log, if its indices are in order, holds the leaves
    the root was committed for; the log of a session without a leaf key passes, and the log of
    a session with one never does.  The last section runs reader mode on the example log. *)

From S2P Require Import Prelude.
From S2P Require Import Bytes.
From S2P Require Import Text.
From S2P Require Import Interfaces.
From S2P Require Import AuditError.
From S2P Require Import CanonicalPayload.
From S2P Require Import SledStore.
From S2P Require Import PoseidonTree.
From S2P Require Import AuditLog.
From S2P Require Import AuditReplay.
From S2P Require Import Interceptor.
From S2P Require Import AuditSession.
From S2P Require Import Reader.
Local Open Scope N_scope.
#[local] Opaque tree_of root_of.

Section spec.
Context {F : Type} {PF : PrimeField F} {Pos : Poseidon F}.
Context {Sha : Sha256} {Hm : HmacSha256} {Hexs : Hex} {B64 : Base64} {Chr : Chrono}.
Context {AJ : AuditJson} {Db : Type} {SD : SledDb Db} {SP : SerdePair}.
Implicit Types (ls : list F) (jl : list string) (ev : Value).

(** ** The rows of a file *)

(** The value of a line that is not blank. *)
Definition value_of_line (line : string) : option Value :=
  if bool_decide (trim line = ""%string) then None else value_from_str (trim line).
Definition index_of ev : option N := v ← get ev "index"; as_u64 v.
(** The lines that carry an index, with it. *)
Definition rows jl : list (N * Value) :=
  omap (fun line => ev ← value_of_line line; i ← index_of ev; Some (i, ev)) jl.
Definition in_order jl : Prop := StronglySorted N.le (rows jl).*1.

Lemma rows_cons line jl :
  rows (line :: jl) =
    match (ev ← value_of_line line; i ← index_of ev; Some (i, ev)) with
    | Some r => r :: rows jl
    | None => rows jl
    end.
Proof. done. Qed.

#[local] Arguments rows : simpl never.

(** A successful check of a row extends the leaves by the one it recomputes. *)
Lemma check_row_Some ls ev i t :
  check_row (tree_of ls) ev i = Some t ->
  t = tree_of (ls ++ [row_leaf ev]) /\ i = N.of_nat (length ls) /\
  default ""%string (event_str ev "root_after" "rootAfter") = fr_to_hex (root_of (ls ++ [row_leaf ev])).
Proof.
  unfold check_row. intros H.
  assert ((if negb (bool_decide (fr_to_hex (row_leaf (F := F) ev) =
                     default ""%string (event_str ev "leaf_hex" "leafHex"))) then None
      else let '(inserted_idx, t) := insert (tree_of ls) (row_leaf ev) in
           if negb (inserted_idx =? i) then None
           else match root t with
                | Ok r => if negb (bool_decide (fr_to_hex r =
                            default ""%string (event_str ev "root_after" "rootAfter"))) then None
                          else Some t
                | Err _ => None
                end) = Some t) as H'.
  { destruct (default 0 _ mod 2 ^ 32) as [|[p|p|]]; done. }
  clear H. rename H' into H. case_bool_decide; [|done]. cbn [negb] in H.
  rewrite insert_tree_of, root_tree_of in H.
  destruct (N.eqb_spec (N.of_nat (length ls)) i) as [<-|]; [|done]. cbn [negb] in H.
  case_bool_decide as Hr; [|done]. cbn [negb] in H. injection H as <-. by rewrite <-Hr.
Qed.

(** Every row up to an index is where it says, and its root recomputes. *)
Lemma verify_rows_true jl ls up k i ev :
  verify_rows (tree_of ls) up jl = true -> in_order jl ->
  rows jl !! k = Some (i, ev) -> i <= up ->
  i = N.of_nat (length ls + k) /\
  default ""%string (event_str ev "root_after" "rootAfter") =
    fr_to_hex (root_of (ls ++ map (fun r => row_leaf r.2) (take (S k) (rows jl)))).
Proof.
  unfold in_order. revert ls k. induction jl as [|line jl IH]; intros ls k Hv Hord Hk Hi; [done|].
  rewrite rows_cons in Hord, Hk |- *. unfold value_of_line in *. cbn [verify_rows] in Hv.
  case_bool_decide; [by apply IH|].
  destruct (value_from_str (trim line)) as [ev0|]; [|done]. cbn [mbind option_bind] in *.
  unfold index_of in *. destruct (v ← get ev0 "index"; as_u64 v) as [i0|] eqn:Hi0;
    [|case_bool_decide; [by apply IH|done]].
  cbn [mbind option_bind] in Hord, Hk |- *. cbn [fmap list_fmap fst] in Hord.
  apply StronglySorted_inv in Hord as [Hord Hle].
  destruct (N.ltb_spec up i0) as [Hlt|Hge].
  { exfalso. destruct k as [|k]; [injection Hk as -> ->; lia|].
    change (rows jl !! k = Some (i, ev)) in Hk.
    assert ((rows jl).*1 !! k = Some i) as Hk1 by by rewrite list_lookup_fmap, Hk.
    eapply Forall_lookup_1 in Hle; [|exact Hk1]. lia. }
  destruct (check_row (tree_of ls) ev0 i0) as [t|] eqn:Hc; [|done].
  apply check_row_Some in Hc as (-> & Hi0' & Hroot).
  destruct k as [|k].
  - injection Hk as -> ->. split; [lia|]. done.
  - change (rows jl !! k = Some (i, ev)) in Hk. destruct (IH _ _ Hv Hord Hk Hi) as [Hidx Hr]. rewrite length_app in Hidx. cbn in Hidx.
    split; [lia|]. rewrite Hr. cbn. by rewrite <-app_assoc.
Qed.

Lemma find_root_row jl r j :
  find_root jl r = Some j ->
  exists k ev, rows jl !! k = Some (j, ev) /\ event_str ev "root_after" "rootAfter" = Some r.
Proof.
  assert (forall line jl, (exists k ev, rows jl !! k = Some (j, ev) /\
            event_str ev "root_after" "rootAfter" = Some r) ->
          exists k ev, rows (line :: jl) !! k = Some (j, ev) /\
            event_str ev "root_after" "rootAfter" = Some r) as Hcons.
  { intros line jl' (k & ev & Hk & He). rewrite rows_cons.
    destruct (ev ← value_of_line line; i ← index_of ev; Some (i, ev)); [by exists (S k), ev|by exists k, ev]. }
  induction jl as [|line jl IH]; [done|]. cbn [find_root].
  case_bool_decide as Ht; [intros ?%IH; by apply Hcons|].
  destruct (value_from_str (trim line)) as [ev|] eqn:Hv; [|intros ?%IH; by apply Hcons].
  destruct (event_str ev _ _) as [r'|] eqn:He; [|intros ?%IH; by apply Hcons].
  case_bool_decide as Hr; [|intros ?%IH; by apply Hcons]. subst r'. intros Hj.
  exists 0%nat, ev. split; [|done]. rewrite rows_cons. unfold value_of_line.
  rewrite bool_decide_eq_false_2, Hv by done. cbn [mbind option_bind]. unfold index_of.
  change (v ← get ev "index"; as_u64 v) with (get ev "index" ≫= as_u64) in *. by rewrite Hj.
Qed.


(** ** Files a session writes *)

Lemma get_event e :
  get (VObject (event_object e)) "index" = Some (SU64 (p_index e)) /\
  get (VObject (event_object e)) "operation" = Some (SStr (p_operation e)) /\
  get (VObject (event_object e)) "database" = Some (SStr (p_database e)) /\
  get (VObject (event_object e)) "collection" = Some (SStr (p_collection e)) /\
  get (VObject (event_object e)) "payload" = Some (SStr (p_payload e)) /\
  get (VObject (event_object e)) "leaf_hex" = Some (SStr (p_leaf_hex e)) /\
  get (VObject (event_object e)) "root_after" = Some (SStr (p_root_after e)) /\
  get (VObject (event_object e)) "version" = Some (SU64 (p_version e)).
Proof. done. Qed.

(** What reader mode sees of a written line. *)
Lemma written_line line :
  written line ->
  trim line = line /\ line <> ""%string /\
  ((exists e, event_from_str line = Some e /\ value_from_str line = Some (VObject (event_object e))) \/
   (exists m, meta_object m /\ event_from_str line = None /\ value_from_str line = Some (VObject m))).
Proof.
  intros [e|m Hmeta].
  - destruct (trim_single_line _ (event_single_line e)) as [-> Hne]. split_and!; [done..|].
    left. exists e. by rewrite event_round_trip, event_value.
  - destruct (trim_single_line _ (value_single_line m)) as [-> Hne]. split_and!; [done..|].
    right. exists m. rewrite value_round_trip, value_not_event by apply Hmeta. done.
Qed.

Lemma parse_lines_cons i line jl es :
  written line -> parse_lines i (line :: jl) = (es, None) ->
  (exists e es', es = e :: es' /\ value_from_str line = Some (VObject (event_object e)) /\
                 parse_lines (S i) jl = (es', None)) \/
  (exists m, meta_object m /\ value_from_str line = Some (VObject m) /\
             parse_lines (S i) jl = (es, None)).
Proof.
  intros (Ht & Hne & Hline)%written_line. cbn [parse_lines]. rewrite Ht, bool_decide_eq_false_2 by done.
  destruct Hline as [(e & -> & Hv)|(m & Hmeta & -> & Hv)].
  - destruct (parse_lines (S i) jl) as [es' bad]. intros [= <- ->]. left. by exists e, es'.
  - rewrite Hv, bool_decide_eq_true_2 by apply Hmeta. intros Hp. right. by exists m.
Qed.

Lemma check_row_event ls e v :
  p_version e = 1 -> recompute_leaf None e = Ok v -> p_leaf_hex e = fr_to_hex v ->
  p_index e = N.of_nat (length ls) -> p_root_after e = fr_to_hex (root_of (ls ++ [v])) ->
  check_row (tree_of ls) (VObject (event_object e)) (p_index e) = Some (tree_of (ls ++ [v])).
Proof.
  destruct (get_event e) as (_ & Ho & Hd & Hc & Hp & Hl & Hr & Hv).
  intros Hver Hre Hleaf Hi Hroot. unfold recompute_leaf in Hre. rewrite Hver in Hre. injection Hre as <-.
  unfold check_row, row_leaf, str_or_empty, event_str. rewrite Ho, Hd, Hc, Hp, Hl, Hr, Hv, Hver.
  cbn -[fr_to_hex leaf_from_payload tree_of root insert]. change (1 mod 2 ^ 32) with 1. cbv iota. unfold id.
  rewrite Hleaf, bool_decide_eq_true_2 by done. cbn [negb].
  rewrite insert_tree_of, root_tree_of, Hi, N.eqb_refl. cbn [negb].
  by rewrite Hroot, bool_decide_eq_true_2.
Qed.

Lemma verify_rows_chain jl ls ls' es i up :
  Forall written jl -> parse_lines i jl = (es, None) -> chain None ls es ls' ->
  Forall (fun e => p_version e = 1) es -> verify_rows (tree_of ls) up jl = true.
Proof.
  intros Hw. revert ls es i. induction Hw as [|line jl Hline _ IH]; intros ls es i Hp Hc Hver; [done|].
  destruct (written_line line Hline) as (Ht & Hne & _). cbn [verify_rows].
  rewrite Ht, bool_decide_eq_false_2 by done.
  apply parse_lines_cons in Hp as [(e & es' & -> & -> & Hp)|(m & Hmeta & -> & Hp)]; [| |done].
  - inversion Hc as [|? ? v ? ? Hre Hleaf Hidx Hroot Hc']; subst. clear Hc.
    apply Forall_cons_1 in Hver as [Hver1 Hver].
    destruct (get_event e) as (-> & _). cbn [mbind option_bind as_u64].
    destruct (up <? p_index e); [done|]. rewrite (check_row_event ls e v) by done.
    by eapply IH.
  - destruct Hmeta as (Hi & Hs & _). cbn [get]. rewrite Hi. cbn [mbind option_bind].
    rewrite bool_decide_eq_true_2 by done. by eapply IH.
Qed.

Lemma find_root_events jl es i n e :
  Forall written jl -> parse_lines n jl = (es, None) -> es !! i = Some e ->
  exists j e', (j <= i)%nat /\ es !! j = Some e' /\ p_root_after e' = p_root_after e /\
    find_root jl (p_root_after e) = Some (p_index e').
Proof.
  intros Hw. revert es i n. induction Hw as [|line jl Hline _ IH]; intros es i n Hp He; [by injection Hp as <-|].
  destruct (written_line line Hline) as (Ht & Hne & _). cbn [find_root].
  rewrite Ht, bool_decide_eq_false_2 by done.
  apply parse_lines_cons in Hp as [(e0 & es' & -> & -> & Hp)|(m & Hmeta & -> & Hp)]; [| |done].
  - destruct (get_event e0) as (Hidx & _ & _ & _ & _ & _ & Hr & _). unfold event_str.
    rewrite Hr. cbn [mbind option_bind as_str]. case_bool_decide as Heq.
    + exists 0%nat, e0. split; [lia|]. split; [done|]. split; [done|]. by rewrite Hidx.
    + destruct i as [|i]; [by injection He as ->|]. cbn in He.
      destruct (IH es' i (S n) Hp He) as (j & e' & Hj & He' & Hr' & Hf).
      exists (S j), e'. split; [lia|done].
  - destruct Hmeta as (_ & _ & H1 & H2). unfold event_str. cbn [get]. rewrite H1, H2.
    by eapply IH.
Qed.

Lemma count_written jl : Forall written jl -> Forall single_line jl ->
  count_events (file_of jl) = N.of_nat (length jl).
Proof.
  intros Hw Hs. unfold count_events. rewrite lines_file_of by done. f_equal. clear Hs.
  induction Hw as [|line jl Hline _ IH]; [done|].
  rewrite filter_cons_True; [cbn; by rewrite IH|].
  destruct (written_line line Hline) as (-> & Hne & [(e & _ & ->)|(m & _ & _ & ->)]); (split; [done|by eexists]).
Qed.

Lemma length_parsed jl es n : Forall written jl -> parse_lines n jl = (es, None) -> (length es <= length jl)%nat.
Proof.
  intros Hw. revert es n. induction Hw as [|line jl Hline _ IH]; intros es n Hp; [by injection Hp as <-|].
  apply parse_lines_cons in Hp as [(e & es' & -> & _ & Hp)|(m & _ & _ & Hp)]; [| |done];
    apply IH in Hp; cbn; lia.
Qed.

(** The report about a root of a session, up to the verdict on the chain. *)
Lemma session_report dir key cs (w : World F Db) content i r root local :
  session dir key cs w -> files (disk w) !! audit_file dir = Some content ->
  root_after_at (log w) i = Some r -> oc_root_hex root = r ->
  exists rep j, verify_with_onchain_root (Some root) content local = Ok rep /\
    onchain_root_found rep = true /\ commitment_event_index rep = Some j /\ j <= i /\
    root_after_at (log w) j = Some r /\ verified_events rep = j + 1 /\
    verified_events rep + events_after_commitment rep = total_events rep /\
    chain_intact rep = verify_rows (tree_of []) j (lines content) /\
    tamper_detected rep = negb (chain_intact rep).
Proof.
  intros Hses Hfile Hroot Hoc. destruct (session_persisted dir key cs w Hses) as (es & ls & jl & Hp & Hlen).
  pose proof Hp as []. rewrite Hfile in inv_file. injection inv_file as ->.
  pose proof (chain_length _ _ _ _ inv_chain) as Hel. cbn in Hel.
  assert (root_after_by_index (log w) = map p_root_after es) as Hrs.
  { destruct (metadata_of_lines jl). by rewrite inv_log. }
  unfold root_after_at in *. rewrite Hrs in *. change (map p_root_after es) with (p_root_after <$> es) in *.
  rewrite list_lookup_fmap in Hroot. destruct (es !! N.to_nat i) as [e|] eqn:He; [|done].
  injection Hroot as Hr. subst r.
  destruct (find_root_events jl es (N.to_nat i) 0 e) as (j & e' & Hj & He' & Hr' & Hf); [done..|].
  destruct (chain_lookup _ _ _ _ _ _ inv_chain He') as (_ & _ & _ & _ & Hidx & _). cbn in Hidx.
  pose proof (lookup_lt_Some _ _ _ He') as Hjlt. pose proof (length_parsed jl es 0 inv_written inv_parse).
  eexists _, (N.of_nat j). unfold verify_with_onchain_root, find_root_in_log.
  rewrite Hoc, lines_file_of, Hf, count_written by done. split; [reflexivity|].
  cbn [onchain_root_found commitment_event_index verified_events events_after_commitment
       total_events chain_intact tamper_detected].
  rewrite Hidx. unfold succ_u64. rewrite N.mod_small by lia.
  split_and!; [done|done|lia|by rewrite list_lookup_fmap, Nat2N.id, He'; cbn; rewrite Hr'|done|lia| |done].
  unfold verify_root_chain, PoseidonTree.new, DEFAULT_HEIGHT. rewrite with_height_tree_of.
  by rewrite lines_file_of.
Qed.

(** The log of a session without a leaf key passes: whatever was recorded, held and
    pruned, a root the log had after some event (an epoch's root, for instance) is found
    again, at the first event that had it, and the events up to it verify without
    tamper. *)
Theorem keyless_log_verifies dir cs (w : World F Db) content i r root local :
  session dir None cs w -> files (disk w) !! audit_file dir = Some content ->
  root_after_at (log w) i = Some r -> oc_root_hex root = r ->
  exists rep j, verify_with_onchain_root (Some root) content local = Ok rep /\
    chain_intact rep = true /\ tamper_detected rep = false /\
    commitment_event_index rep = Some j /\ j <= i /\ root_after_at (log w) j = Some r /\
    verified_events rep = j + 1 /\
    verified_events rep + events_after_commitment rep = total_events rep.
Proof.
  intros Hses Hfile Hroot Hoc.
  destruct (session_report dir None cs w content i r root local) as
    (rep & j & Hrep & _ & Hci & Hj & Hrj & Hv & Ht & Hch & Htam); [done..|].
  exists rep, j. rewrite Htam, Hch.
  destruct (session_persisted dir None cs w Hses) as (es & ls & jl & [] & _).
  rewrite Hfile in inv_file. injection inv_file as ->. rewrite lines_file_of by done.
  by rewrite (verify_rows_chain jl [] ls es 0 j).
Qed.

Lemma first_row_of_session k jl es ls e n up :
  Forall written jl -> parse_lines n jl = (es, None) -> chain (Some k) [] es ls ->
  head es = Some e -> p_version e = 3 -> verify_rows (F := F) (tree_of []) up jl = false.
Proof.
  intros Hw. revert n. induction Hw as [|line jl Hline _ IH]; intros n Hp Hc He Hver; [by injection Hp as <-|].
  destruct (written_line line Hline) as (Ht & Hne & _). cbn [verify_rows].
  rewrite Ht, bool_decide_eq_false_2 by done.
  apply parse_lines_cons in Hp as [(e0 & es' & -> & -> & Hp)|(m & Hmeta & -> & Hp)]; [| |done].
  - injection He as ->. inversion Hc as [|? ? v ? ? Hre Hleaf Hidx Hroot Hc']; subst.
    destruct (get_event e) as (-> & _ & _ & _ & _ & _ & _ & Hv). cbn [mbind option_bind as_u64].
    rewrite Hidx. cbn [length]. change (N.of_nat 0) with 0. destruct (N.ltb_spec up 0); [lia|].
    unfold check_row. by rewrite Hv, Hver.
  - destruct Hmeta as (Hi & Hs & _). cbn [get]. rewrite Hi. cbn [mbind option_bind].
    rewrite bool_decide_eq_true_2 by done. by eapply IH.
Qed.

(** And the log of a session with a leaf key never does: reader mode knows only the
    keyless leaves, so it reports every such log as tampered with, at whatever root. *)
Theorem keyed_log_reported_tampered dir k cs (w : World F Db) content i r root local :
  session dir (Some k) cs w -> files (disk w) !! audit_file dir = Some content ->
  root_after_at (log w) i = Some r -> oc_root_hex root = r ->
  exists rep, verify_with_onchain_root (Some root) content local = Ok rep /\
    onchain_root_found rep = true /\ chain_intact rep = false /\ tamper_detected rep = true.
Proof.
  intros Hses Hfile Hroot Hoc.
  destruct (session_report dir (Some k) cs w content i r root local) as
    (rep & j & Hrep & Hfound & _ & _ & Hrj & _ & _ & Hch & Htam); [done..|].
  exists rep. rewrite Htam, Hch. clear Htam Hch.
  destruct (session_persisted dir (Some k) cs w Hses) as (es & ls & jl & Hp & _). pose proof Hp as [].
  rewrite Hfile in inv_file. injection inv_file as ->. rewrite lines_file_of by done.
  assert (exists e es', es = e :: es') as (e & es' & ->).
  { unfold root_after_at in Hrj. destruct (metadata_of_lines jl). rewrite inv_log in Hrj.
    destruct es as [|e es']; [done|by exists e, es']. }
  rewrite (first_row_of_session k jl (e :: es') ls e 0 j); try done.
  by apply Forall_cons_1 in inv_version as [? _].
Qed.

(** ** Forged logs *)

Definition forged_log (r : string) : string :=
  file_of [value_to_string {["index" := SU64 1]};
           value_to_string {["index" := SU64 0; "root_after" := SStr r]}]%string.

(** A report without tamper says nothing about a log whose indices are not in order:
    for every root there is a log of two lines without any event content that reader
    mode reports as verified, since a row beyond the commitment point ends the check
    even when it comes first. *)
Theorem forged_log_verifies root local :
  exists rep, verify_with_onchain_root (Some root) (forged_log (oc_root_hex root)) local = Ok rep /\
    onchain_root_found rep = true /\ chain_intact rep = true /\ tamper_detected rep = false /\
    verified_events rep = 1.
Proof.
  set (m1 := {["index"%string := SU64 1]} : gmap string Scalar).
  set (m2 := {["index" := SU64 0; "root_after" := SStr (oc_root_hex root)]}%string : gmap string Scalar).
  destruct (trim_single_line _ (value_single_line m1)) as [T1 N1].
  destruct (trim_single_line _ (value_single_line m2)) as [T2 N2].
  assert (lines (forged_log (oc_root_hex root)) = [value_to_string m1; value_to_string m2]) as Hl.
  { apply lines_file_of. by repeat constructor; apply value_single_line. }
  assert (find_root_in_log (forged_log (oc_root_hex root)) (oc_root_hex root) = Some 0) as Hf.
  { unfold find_root_in_log. rewrite Hl. cbn [find_root]. rewrite T1, T2, !value_round_trip.
    rewrite !bool_decide_eq_false_2 by done. unfold event_str.
    change (get (VObject m1) "root_after") with (@None Scalar).
    change (get (VObject m1) "rootAfter") with (@None Scalar).
    change (get (VObject m2) "root_after") with (Some (SStr (oc_root_hex root))).
    cbn [mbind option_bind as_str]. by rewrite bool_decide_eq_true_2. }
  assert (verify_root_chain (forged_log (oc_root_hex root)) 0 = true) as Hc.
  { unfold verify_root_chain, PoseidonTree.new, DEFAULT_HEIGHT. rewrite with_height_tree_of, Hl.
    cbn [verify_rows]. rewrite T1, !value_round_trip. by rewrite bool_decide_eq_false_2. }
  unfold verify_with_onchain_root. rewrite Hf. eexists. split; [reflexivity|].
  cbn [onchain_root_found chain_intact tamper_detected verified_events]. by rewrite Hc.
Qed.
End spec.

(** ** Reader mode on the example log *)

From S2P Require Import AuditExample.
Local Open Scope N_scope.
Import Concrete MemoryDb.
#[local] Existing Instance PayloadExample.plain_pair.
#[local] Opaque tree_of root_of.

Definition committed (root_hex : string) : OnChainRoot :=
  {| oc_sequence := 1; oc_root_hex := root_hex; oc_timestamp := 0; oc_metadata := "" |}.
Definition file_after (key : option (list byte)) : string :=
  default ""%string (files (disk (after commands key)) !! audit_file "d").
Definition root_at (key : option (list byte)) (i : N) : string :=
  default ""%string (root_after_at (log (after commands key)) i).

Lemma file_and_root key :
  key = None \/ key = Some example_key ->
  files (disk (after commands key)) !! audit_file "d" = Some (file_after key) /\
  root_after_at (log (after commands key)) 1 = Some (root_at key 1).
Proof. intros [-> | ->]; split; by vm_compute. Qed.

Lemma keyless_log_verifies_witness :
  exists rep j, verify_with_onchain_root (F := Fp) (Some (committed (root_at None 1))) (file_after None) "" = Ok rep /\
    chain_intact rep = true /\ verified_events rep = j + 1 /\ j <= 1.
Proof.
  destruct (file_and_root None (or_introl eq_refl)) as [Hf Hr].
  destruct (keyless_log_verifies "d" commands (after commands None) (file_after None) 1 (root_at None 1)
              (committed (root_at None 1)) "") as (rep & j & Hrep & Hok & _ & _ & Hj & _ & Hv & _);
    [apply session_after; reflexivity|exact Hf|exact Hr|reflexivity|].
  exists rep, j. split; [exact Hrep|]. split; [exact Hok|]. split; [exact Hv|exact Hj].
Defined.

Lemma keyed_log_reported_tampered_witness :
  exists rep, verify_with_onchain_root (F := Fp) (Some (committed (root_at (Some example_key) 1)))
                (file_after (Some example_key)) "" = Ok rep /\ tamper_detected rep = true.
Proof.
  destruct (file_and_root (Some example_key) (or_intror eq_refl)) as [Hf Hr].
  destruct (keyed_log_reported_tampered "d" example_key commands (after commands (Some example_key))
              (file_after (Some example_key)) 1 (root_at (Some example_key) 1)
              (committed (root_at (Some example_key) 1)) "") as (rep & Hrep & _ & _ & Ht);
    [apply session_after; reflexivity|exact Hf|exact Hr|reflexivity|].
  exists rep. split; [exact Hrep|exact Ht].
Defined.

(** The root after the last event of the example file. *)
Definition last_root : string :=
  default ""%string (p_root_after <$> last (parsed_events example_file)).

Lemma example_report :
  (match verify_with_onchain_root (F := Fp) (Some (committed last_root)) example_file "" with
   | Ok rep => chain_intact rep | Err _ => false end) &&
  bool_decide (StronglySorted N.le (rows (lines example_file)).*1) = true.
Proof. by vm_compute. Qed.

