(* ===== verification/VerificationStore.v ===== *)
(** * History of verification runs (audit-service/src/audit/verification_store.rs)

    The runs of reader mode, oldest first and at most [MAX_RECORDS] of them, written to a
    JSON file after every change.  What the file holds after any sequence of runs. *)

From S2P Require Import Prelude.
From S2P Require Import Bytes.
From S2P Require Import Interfaces.
From S2P Require Import AuditError.
From S2P Require Import Reader.
Local Open Scope nat_scope.

Definition MAX_RECORDS : nat := 500.

Record VerificationRecord := { run_at : Z; report : VerificationReport }.

(** The JSON text of [PersistedHistory]. *)
Class HistoryJson := {
  history_to_string : list VerificationRecord -> string;
  history_from_str : string -> option (list VerificationRecord);
  history_round_trip rs : history_from_str (history_to_string rs) = Some rs;
}.

(** The store, the files, and whether file operations fail. *)
Record VerificationStore := {
  records : list VerificationRecord;
  persistence_path : option string;
  vs_files : gmap string string;
  vs_error : option string;
}.

Section store.
Context {HJ : HistoryJson}.

Definition vm (A : Type) : Type := stateR VerificationStore AuditError A.

Definition on_records (f : list VerificationRecord -> list VerificationRecord) : vm unit :=
  modify (fun s => Build_VerificationStore (f (records s)) (persistence_path s) (vs_files s) (vs_error s)).
Definition set_path (p : string) : vm unit :=
  modify (fun s => Build_VerificationStore (records s) (Some p) (vs_files s) (vs_error s)).

(** An empty store next to the files of the disk. *)
Definition new (files : gmap string string) (error : option string) : VerificationStore :=
  Build_VerificationStore [] None files error.

Definition save : vm unit := fun s =>
  match persistence_path s with
  | None => (Ok tt, s)
  | Some path =>
    match vs_error s with
    | Some _ => (Err (Internal "write verification history"), s)
    | None => (Ok tt, Build_VerificationStore (records s) (Some path)
                        (<[path := history_to_string (records s)]> (vs_files s)) None)
    end
  end.

(** A file that does not read or parse is ignored. *)
Definition enable_persistence (path : string) : vm unit :=
  s ← get_state;
  _ ← match vs_files s !! path with
      | Some data =>
        match vs_error s, history_from_str data with
        | None, Some rs => on_records (fun _ => rs)
        | _, _ => mret tt
        end
      | None => mret tt
      end;
  _ ← set_path path;
  save.

(** The oldest runs beyond the cap are drained. *)
Definition bounded (rs : list VerificationRecord) : list VerificationRecord :=
  if MAX_RECORDS <? length rs then drop (length rs - MAX_RECORDS) rs else rs.

Definition record (run_at : Z) (report : VerificationReport) : vm VerificationRecord :=
  let r := {| run_at := run_at; report := report |} in
  _ ← on_records (fun rs => bounded (rs ++ [r]));
  _ ← save;
  mret r.

Definition list_records (s : VerificationStore) : list VerificationRecord := records s.

Definition clear : vm unit :=
  _ ← on_records (fun _ => []);
  save.

(** ** Properties *)

(** The last [MAX_RECORDS] of a list. *)
Definition latest (rs : list VerificationRecord) : list VerificationRecord :=
  drop (length rs - MAX_RECORDS) rs.

Lemma bounded_latest rs : bounded rs = latest rs.
Proof.
  unfold bounded, latest. destruct (Nat.ltb_spec MAX_RECORDS (length rs)); [done|].
  by replace (length rs - MAX_RECORDS) with 0 by lia.
Qed.

Lemma length_latest rs : length (latest rs) = Nat.min (length rs) MAX_RECORDS.
Proof. unfold latest. rewrite length_drop. lia. Qed.

Lemma latest_latest rs r : latest (latest rs ++ [r]) = latest (rs ++ [r]).
Proof.
  unfold latest. rewrite !length_app, length_drop. cbn [length].
  assert (1 <= MAX_RECORDS) as HM by (unfold MAX_RECORDS; lia). revert HM.
  generalize MAX_RECORDS as m. intros m HM. destruct (decide (length rs <= m)).
  - replace (length rs - m) with 0 by lia. by rewrite Nat.sub_0_r.
  - replace (length rs - (length rs - m) + 1 - m) with 1 by lia.
    rewrite !drop_app_le; [|lia|rewrite length_drop; lia].
    rewrite drop_drop. do 2 f_equal. lia.
Qed.

Definition record_all (rs : list VerificationRecord) (s : VerificationStore) : VerificationStore :=
  foldl (fun s r => (record (run_at r) (report r) s).2) s rs.

Lemma record_state r s :
  records (record (run_at r) (report r) s).2 = latest (records s ++ [r]) /\
  persistence_path (record (run_at r) (report r) s).2 = persistence_path s /\
  vs_error (record (run_at r) (report r) s).2 = vs_error s /\
  forall p, persistence_path s = Some p -> vs_error s = None ->
    vs_files (record (run_at r) (report r) s).2 !! p = Some (history_to_string (latest (records s ++ [r]))).
Proof.
  unfold record, on_records, modify, save, mbind, stateR_bind. cbn. rewrite bounded_latest.
  replace {| run_at := run_at r; report := report r |} with r by by destruct r.
  destruct (persistence_path s) as [p|], (vs_error s) as [e|] eqn:He; cbn; try done.
  split_and!; [done..|]. intros p' [= <-] _. apply lookup_insert_eq.
Qed.

Lemma record_all_state rs s :
  records (record_all rs s) = foldl (fun l r => latest (l ++ [r])) (records s) rs /\
  persistence_path (record_all rs s) = persistence_path s /\
  vs_error (record_all rs s) = vs_error s /\
  forall p, rs <> [] -> persistence_path s = Some p -> vs_error s = None ->
    vs_files (record_all rs s) !! p = Some (history_to_string (records (record_all rs s))).
Proof.
  induction rs as [|r rs (IH1 & IH2 & IH3 & IH4)] using rev_ind; [done|].
  unfold record_all in *. rewrite !foldl_app. cbn [foldl].
  set (s' := foldl _ s rs) in *. destruct (record_state r s') as (-> & -> & -> & Hf).
  rewrite IH1. split_and!; [done..|]. intros p _ Hp He.
  rewrite Hf by congruence. by rewrite IH1.
Qed.

Lemma foldl_latest l rs : rs <> [] -> foldl (fun l r => latest (l ++ [r])) l rs = latest (l ++ rs).
Proof.
  induction rs as [|r rs IH] using rev_ind; [done|]. intros _. rewrite foldl_app. cbn [foldl].
  destruct rs as [|r' rs]; [done|]. rewrite IH by done. rewrite latest_latest. by rewrite <-app_assoc.
Qed.

(** The history is the latest 500 runs, in order, and survives a restart: whatever was
    recorded, a store opened on the same file afterwards lists the last [MAX_RECORDS] of
    all runs, so the file never grows beyond that. *)
Theorem history_survives_restart s path rs :
  persistence_path s = Some path -> vs_error s = None -> rs <> [] ->
  let s1 := record_all rs s in
  list_records s1 = latest (list_records s ++ rs) /\ length (list_records s1) <= MAX_RECORDS /\
  exists s2, enable_persistence path (new (vs_files s1) None) = (Ok tt, s2) /\
    list_records s2 = list_records s1.
Proof.
  intros Hp He Hne s1. destruct (record_all_state rs s) as (H1 & _ & _ & H4).
  specialize (H4 path Hne Hp He). unfold list_records. fold s1 in H1, H4.
  rewrite foldl_latest in H1 by done. rewrite H1, length_latest. split; [done|]. split; [lia|].
  rewrite <-H1. unfold enable_persistence, get_state, mbind, stateR_bind. cbn [new vs_files vs_error].
  rewrite H4, history_round_trip. unfold on_records, modify, set_path, save. cbn.
  eexists. split; [reflexivity|]. done.
Qed.
End store.

(** ** A concrete history *)

Module HistoryExample.
Import Concrete.

Definition root_tuple (r : OnChainRoot) : N * string * N * string :=
  (oc_sequence r, oc_root_hex r, oc_timestamp r, oc_metadata r).
Definition tuple_root (t : N * string * N * string) : OnChainRoot :=
  let '(a, b, c, d) := t in Build_OnChainRoot a b c d.
#[export] Instance OnChainRoot_eq_dec : EqDecision OnChainRoot.
Proof. solve_decision. Defined.
#[export] Instance OnChainRoot_countable : Countable OnChainRoot.
Proof. by apply (inj_countable' root_tuple tuple_root); intros []. Defined.

Definition record_tuple (v : VerificationRecord) :=
  let r := report v in
  (run_at v, (onchain_root_found r, onchain_root r, local_root_hex r, commitment_event_index r),
   (total_events r, verified_events r, events_after_commitment r),
   (chain_intact r, tamper_detected r, summary r)).
Definition tuple_record
    (t : Z * (bool * option OnChainRoot * string * option N) * (N * N * N) * (bool * bool * string)) :
    VerificationRecord :=
  let '(z, (a, b, c, d), (e, f, g), (h, i, j)) := t in
  Build_VerificationRecord z (Build_VerificationReport a b c d e f g h i j).
#[export] Instance VerificationReport_eq_dec : EqDecision VerificationReport.
Proof. solve_decision. Defined.
#[export] Instance VerificationRecord_eq_dec : EqDecision VerificationRecord.
Proof. solve_decision. Defined.
#[export] Instance VerificationRecord_countable : Countable VerificationRecord.
Proof. by apply (inj_countable' record_tuple tuple_record); intros [? []]. Defined.

#[local] Obligation Tactic := idtac.
#[export] Program Instance plain_history : HistoryJson :=
  {| history_to_string rs := of_bytes (pos_bits (encode rs));
     history_from_str s := decode (bits_pos (as_bytes s)) |}.
Next Obligation. intros rs. cbv beta. by rewrite as_bytes_of_bytes, bits_pos_bits, decode_encode. Qed.

Definition run_of (t : Z) : VerificationRecord :=
  {| run_at := t;
     report := {| onchain_root_found := false; onchain_root := None; local_root_hex := "";
                  commitment_event_index := None; total_events := 0; verified_events := 0;
                  events_after_commitment := 0; chain_intact := true; tamper_detected := false;
                  summary := "" |} |}.
Definition opened : VerificationStore := Build_VerificationStore [] (Some "h.json"%string) ∅ None.

Lemma history_survives_restart_witness :
  exists s2, enable_persistence "h.json" (new (vs_files (record_all [run_of 1; run_of 2] opened)) None) =
    (Ok tt, s2) /\ list_records s2 = list_records (record_all [run_of 1; run_of 2] opened).
Proof.
  destruct (history_survives_restart opened "h.json" [run_of 1; run_of 2]) as (_ & _ & H);
    [reflexivity|reflexivity|discriminate|exact H].
Defined.
End HistoryExample.
