(* ===== verification/Epoch.v ===== *)
(** * Epochs (audit-service/src/audit/epoch.rs)

    The manager groups the leaves of the log into consecutive epochs, freezes the root of
    each when it closes and keeps its state in a JSON file.  Every method takes the locks
    of the fields it uses and is one operation here.  Unsigned arithmetic wraps as in a
    release build; [expect] on an empty vector is a panic. *)

From S2P Require Import Prelude.
From S2P Require Import Interfaces.
From S2P Require Import AuditError.
From S2P Require Import OplogTree.
From S2P Require Import PoseidonTree.
From S2P Require Import AuditLog.
Local Open Scope N_scope.

(** ** Data *)

Record EpochConfig := { event_threshold : N; time_threshold_secs : N }.

Record Epoch := {
  epoch_number : N;
  start_index : N;
  end_index : option N;
  root_hex : option string;
  event_count : N;
  committed : bool;
  committed_at : option string;
  tx_hash : option string;
  oplog_start_ts : option OplogTimestamp;
  oplog_end_ts : option OplogTimestamp;
  oplog_entry_count : option N;
  oplog_merkle_root_hex : option string;
  oplog_majority_commit_ts : option OplogTimestamp;
}.

Definition new_epoch (epoch_number start_index : N) : Epoch :=
  Build_Epoch epoch_number start_index None None 0 false None None None None None None None.
Definition is_open (e : Epoch) : bool := bool_decide (end_index e = None).
Definition has_oplog_hash (e : Epoch) : bool := bool_decide (is_Some (oplog_merkle_root_hex e)).

Definition set_count (n : N) (e : Epoch) : Epoch :=
  Build_Epoch (epoch_number e) (start_index e) (end_index e) (root_hex e) n (committed e)
    (committed_at e) (tx_hash e) (oplog_start_ts e) (oplog_end_ts e) (oplog_entry_count e)
    (oplog_merkle_root_hex e) (oplog_majority_commit_ts e).
Definition set_end (index : N) (root : string) (e : Epoch) : Epoch :=
  Build_Epoch (epoch_number e) (start_index e) (Some index) (Some root) (event_count e) (committed e)
    (committed_at e) (tx_hash e) (oplog_start_ts e) (oplog_end_ts e) (oplog_entry_count e)
    (oplog_merkle_root_hex e) (oplog_majority_commit_ts e).
Definition set_committed (at_ : string) (tx : option string) (e : Epoch) : Epoch :=
  Build_Epoch (epoch_number e) (start_index e) (end_index e) (root_hex e) (event_count e) true
    (Some at_) tx (oplog_start_ts e) (oplog_end_ts e) (oplog_entry_count e)
    (oplog_merkle_root_hex e) (oplog_majority_commit_ts e).
Definition set_oplog (st en : OplogTimestamp) (n : N) (root : string) (maj : OplogTimestamp)
    (e : Epoch) : Epoch :=
  Build_Epoch (epoch_number e) (start_index e) (end_index e) (root_hex e) (event_count e)
    (committed e) (committed_at e) (tx_hash e) (Some st) (Some en) (Some n) (Some root) (Some maj).

(** [PersistedEpochState] *)
Record EpochState := { st_epochs : list Epoch; st_next_oplog_start_ts : option OplogTimestamp }.

(** The JSON text of the saved state. *)
Class EpochJson := {
  epochs_to_string : EpochState -> string;
  epochs_from_str : string -> option EpochState;
  epochs_round_trip st : epochs_from_str (epochs_to_string st) = Some st;
}.

Record EpochManager := {
  config : EpochConfig;
  epochs : list Epoch;
  next_oplog_start : option OplogTimestamp;
  persistence_path : option string;
}.

(** The manager, the files it can reach, and whether file operations fail. *)
Record EpochWorld := { manager : EpochManager; ep_files : gmap string string; ep_error : option string }.

Inductive failure := Raise (e : AuditError) | Panic (msg : string).

(** ** Operations *)

Section epochs.
Context {F : Type} {PF : PrimeField F} {Pos : Poseidon F}.
Context {EJ : EpochJson} {Chr : Chrono}.

Definition em (A : Type) : Type := stateR EpochWorld failure A.
Definition raise {A} (e : AuditError) : em A := throw (Raise e).
(** [match m { Ok(a) => .., Err(e) => .. }]: a panic is not caught. *)
Definition catch_error {A} (m : em A) : em (result AuditError A) := fun w =>
  match m w with
  | (Ok a, w') => (Ok (Ok a), w')
  | (Err (Raise e), w') => (Ok (Err e), w')
  | (Err (Panic msg), w') => (Err (Panic msg), w')
  end.
Definition on_manager (f : EpochManager -> EpochManager) : em unit :=
  modify (fun w => {| manager := f (manager w); ep_files := ep_files w; ep_error := ep_error w |}).
Definition with_epochs es (m : EpochManager) : EpochManager :=
  Build_EpochManager (config m) es (next_oplog_start m) (persistence_path m).
Definition with_next ts (m : EpochManager) : EpochManager :=
  Build_EpochManager (config m) (epochs m) ts (persistence_path m).
Definition with_path p (m : EpochManager) : EpochManager :=
  Build_EpochManager (config m) (epochs m) (next_oplog_start m) p.
Definition with_config c (m : EpochManager) : EpochManager :=
  Build_EpochManager c (epochs m) (next_oplog_start m) (persistence_path m).

Definition state_of (m : EpochManager) : EpochState :=
  {| st_epochs := epochs m; st_next_oplog_start_ts := next_oplog_start m |}.

Definition u64_wrap (x : N) : N := x mod 2 ^ 64.

Definition new (config : EpochConfig) : EpochManager :=
  {| config := config; epochs := [new_epoch 0 0]; next_oplog_start := None;
     persistence_path := None |}.

(** *** The file *)

Definition read_state (path : string) : em EpochState := fun w =>
  match ep_error w, ep_files w !! path with
  | None, Some data =>
    match epochs_from_str data with
    | Some st => (Ok st, w)
    | None => (Err (Raise (Internal "parse epoch state")), w)
    end
  | _, _ => (Err (Raise (Internal "read epoch state")), w)
  end.

Definition save : em unit := fun w =>
  match persistence_path (manager w) with
  | None => (Ok tt, w)
  | Some path =>
    match ep_error w with
    | Some _ => (Err (Raise (Internal "write epoch state")), w)
    | None => (Ok tt, {| manager := manager w;
                         ep_files := <[path := epochs_to_string (state_of (manager w))]> (ep_files w);
                         ep_error := ep_error w |})
    end
  end.

Definition load_from_file (path : string) (config : EpochConfig) : em EpochManager :=
  state ← read_state path;
  mret {| config := config; epochs := st_epochs state;
          next_oplog_start := st_next_oplog_start_ts state; persistence_path := Some path |}.

Definition path_exists (path : string) : em bool :=
  gets (fun w => bool_decide (is_Some (ep_files w !! path))).

Definition new_with_persistence (config : EpochConfig) (path : string) : em EpochManager :=
  exists_ ← path_exists path;
  loaded ← (if exists_ : bool then
              r ← catch_error (load_from_file path config); mret (ok r)
            else mret None);
  mret (default (with_path (Some path) (new config)) loaded).

Definition enable_persistence (path : string) : em unit :=
  exists_ ← path_exists path;
  _ ← (if exists_ : bool then
         state ← read_state path;
         _ ← on_manager (with_epochs (st_epochs state));
         on_manager (with_next (st_next_oplog_start_ts state))
       else mret tt);
  _ ← on_manager (with_path (Some path));
  save.

Definition reset : em unit :=
  _ ← on_manager (with_epochs [new_epoch 0 0]);
  _ ← on_manager (with_next None);
  save.

(** *** Oplog data *)

Definition next_oplog_start_ts (m : EpochManager) : OplogTimestamp :=
  default ts_zero (next_oplog_start m).

(** The first epoch with a number, and its position. *)
Definition find_epoch (n : N) (es : list Epoch) : option (nat * Epoch) :=
  list_find (fun e => epoch_number e = n) es.

Definition attach_oplog_hash (n : N) (st en : OplogTimestamp) (entries : N) (root : string)
    (maj : OplogTimestamp) : em Epoch :=
  es ← gets (fun w => epochs (manager w));
  match find_epoch n es with
  | Some (i, epoch) =>
    if is_open epoch then raise (Validation "epoch is still open")
    else
      let updated_epoch := set_oplog st en entries root maj epoch in
      _ ← on_manager (with_epochs (<[i := updated_epoch]> es));
      _ ← on_manager (with_next (Some en));
      _ ← save;
      mret updated_epoch
  | None => raise (Validation "epoch not found")
  end.

(** *** Recording and closing *)

(** [epochs.last_mut().expect("always at least one epoch")] *)
Definition last_epoch : em Epoch :=
  es ← gets (fun w => epochs (manager w));
  match last es with
  | Some e => mret e
  | None => throw (Panic "always at least one epoch")
  end.

(** A write through [current]. *)
Definition put_last (e : Epoch) : em unit :=
  on_manager (fun m => with_epochs (<[(length (epochs m) - 1)%nat := e]> (epochs m)) m).

(** Freezing the root at [index], opening the next epoch and saving. *)
Definition close_at (index : N) (current : Epoch) (log : AuditLog F) : em Epoch :=
  root_hex ← match root_after_at log index with
             | Some r => mret r
             | None => raise (Validation "cannot close epoch: no recorded root")
             end;
  let closed := set_end index root_hex current in
  _ ← put_last closed;
  let next_number := u64_wrap (epoch_number closed + 1) in
  let next_start := u64_wrap (index + 1) in
  _ ← on_manager (fun m => with_epochs (epochs m ++ [new_epoch next_number next_start]) m);
  _ ← save;
  mret closed.

Definition should_close (config : EpochConfig) (current : Epoch) : bool :=
  (0 <? event_threshold config) && (event_threshold config <=? event_count current).

Definition record_event (index : N) (log : AuditLog F) : em (option Epoch) :=
  config ← gets (fun w => config (manager w));
  current ← last_epoch;
  if negb (is_open current) then raise (Validation "no open epoch to record event into")
  else
    let current := set_count (u64_wrap (event_count current + 1)) current in
    _ ← put_last current;
    if should_close config current then
      closed ← close_at index current log;
      mret (Some closed)
    else mret None.

(** [start_index + event_count - 1], checked before that the count is not 0 *)
Definition end_of (current : Epoch) : N :=
  u64_wrap (u64_wrap (start_index current + event_count current) + (2 ^ 64 - 1)).

Definition close_current_epoch (log : AuditLog F) : em Epoch :=
  current ← last_epoch;
  if negb (is_open current) then raise (Validation "current epoch is already closed")
  else if event_count current =? 0 then raise (Validation "cannot close an empty epoch")
  else close_at (end_of current) current log.

(** [now] is the instant [chrono::Utc::now()] returns. *)
Definition mark_committed (now : Z) (n : N) (tx_hash_ : string) : em unit :=
  es ← gets (fun w => epochs (manager w));
  match find_epoch n es with
  | Some (i, epoch) =>
    let keep_existing := bool_decide (tx_hash_ = ""%string) &&
          match tx_hash epoch with Some h => negb (bool_decide (h = ""%string)) | None => false end in
    let tx := if keep_existing then tx_hash epoch else Some tx_hash_ in
    _ ← on_manager (with_epochs (<[i := set_committed (to_rfc3339 now) tx epoch]> es));
    save
  | None => raise (Validation "epoch not found")
  end.

Definition sync_open_epoch_with_audit_log (log : AuditLog F) : em (option Epoch) :=
  config ← gets (fun w => config (manager w));
  current ← last_epoch;
  if negb (is_open current) then mret None
  else
    let audit_count := N.of_nat (log_event_count log) in
    let new_count := if start_index current <? audit_count
                     then audit_count - start_index current else 0 in
    let current := set_count new_count current in
    _ ← put_last current;
    if should_close config current then
      closed ← close_at (end_of current) current log;
      mret (Some closed)
    else
      _ ← save;
      mret None.

Definition current_epoch : em Epoch := last_epoch.
Definition closed_epochs (m : EpochManager) : list Epoch :=
  filter (fun e => is_open e = false) (epochs m).
Definition list_epochs (m : EpochManager) : list Epoch := epochs m.
Definition set_config (c : EpochConfig) : em unit := on_manager (with_config c).

(** *** The daemon's loop (auditd/mod.rs, [auto_commit_loop]) *)

(** One pass: the indices from the last event count to the current one are fed to the
    manager; an error is logged and the pass goes on.  The closed epochs are published. *)
Fixpoint feed (n : nat) (i : N) (log : AuditLog F) : em (list Epoch) :=
  match n with
  | O => mret []
  | S n =>
    r ← catch_error (record_event i log);
    rest ← feed n (i + 1) log;
    mret match r with Ok (Some closed) => closed :: rest | _ => rest end
  end.

Definition auto_commit_pass (last_event_count : N) (log : AuditLog F) : em (N * list Epoch) :=
  let current_count := N.of_nat (log_event_count log) in
  if current_count =? last_event_count then mret (last_event_count, [])
  else
    closed ← feed (N.to_nat (current_count - last_event_count)) last_event_count log;
    mret (current_count, closed).
End epochs.
