(* ===== verification/EpochSpec.v ===== *)
(** * What the epochs guarantee

    [manages] are the states a manager reaches next to a growing log: fed with the index after
    the last one it knows, closed by hand, marked, given oplog data, reconfigured, synchronised,
    saved and restarted, with file operations that may fail at any time.  In all of them the
    epochs tile the log.  Then the epochs of a session of the audit log, and a manager next to a
    concrete log. *)

From S2P Require Import Prelude.
From S2P Require Import Interfaces.
From S2P Require Import AuditError.
From S2P Require Import OplogTree.
From S2P Require Import PoseidonTree.
From S2P Require Import SledStore.
From S2P Require Import CanonicalPayload.
From S2P Require Import AuditLog.
From S2P Require Import AuditReplay.
From S2P Require Import AuditSession.
From S2P Require Import Epoch.
Local Open Scope N_scope.
#[local] Opaque tree_of root_of.

Section spec.
Context {F : Type} {PF : PrimeField F} {Pos : Poseidon F}.
Context {EJ : EpochJson} {Chr : Chrono}.
Implicit Types (log : AuditLog F) (w : EpochWorld) (es : list Epoch) (e : Epoch).

(** ** Tilings *)

(** The fields that place an epoch. *)
Definition core e := (epoch_number e, start_index e, end_index e, root_hex e, event_count e).

Definition closed_ok log (n s : N) e (en : N) : Prop :=
  core e = (n, s, Some en, root_after_at log en, en + 1 - s) /\
  s <= en /\ is_Some (root_after_at log en).

(** Closed epochs from number [n] and index [s] on, the next index being [s']. *)
Inductive run log : N -> N -> list Epoch -> N -> Prop :=
| run_nil n s : run log n s [] s
| run_cons n s e en es s' :
    closed_ok log n s e en -> run log (n + 1) (en + 1) es s' -> run log n s (e :: es) s'.

(** The closed epochs and the open one tile [0, fed). *)
Definition tiling log (fed : N) es : Prop :=
  exists pre cur s, es = pre ++ [cur] /\ run log 0 0 pre s /\
    core cur = (N.of_nat (length pre), s, None, None, fed - s) /\ s <= fed /\ fed < 2 ^ 64.

Lemma run_snoc log n s pre s' e en :
  run log n s pre s' -> closed_ok log (n + N.of_nat (length pre)) s' e en ->
  run log n s (pre ++ [e]) (en + 1).
Proof.
  induction 1 as [n s|n s x en' es s' Hx Hr IH]; cbn; intros He.
  - rewrite N.add_0_r in He. eapply run_cons; [done|constructor].
  - eapply run_cons; [done|]. apply IH. by replace (n + 1 + N.of_nat (length es)) with
      (n + N.of_nat (S (length es))) by lia.
Qed.

Lemma run_length log n s es s' : run log n s es s' -> s + N.of_nat (length es) <= s'.
Proof. induction 1 as [|n s e en es s' (_ & ? & _) _ IH]; cbn; lia. Qed.

Lemma run_core log n s es s' es' : map core es = map core es' -> run log n s es s' -> run log n s es' s'.
Proof.
  intros Hc Hr. revert es' Hc.
  induction Hr as [n s|n s e en es s' (He & Hrest) Hr IH]; intros [|e' es'] Hc; try done.
  - constructor.
  - injection Hc as Hn Hs Hen Hrt Hct Hc. eapply run_cons; [|by apply IH]. split; [|done].
    rewrite <-He. unfold core. congruence.
Qed.

Definition log_extends log log' : Prop :=
  forall i r, root_after_at log i = Some r -> root_after_at log' i = Some r.

Lemma run_mono log log' n s es s' : log_extends log log' -> run log n s es s' -> run log' n s es s'.
Proof.
  intros Hext. induction 1 as [n s|n s e en es s' (He & Hle & [r Hr]) _ IH]; [constructor|].
  eapply run_cons; [|done]. split; [|split; [done|]]; rewrite (Hext _ _ Hr); [by rewrite He, Hr|done].
Qed.

Lemma tiling_mono log log' fed es : log_extends log log' -> tiling log fed es -> tiling log' fed es.
Proof.
  intros Hext (pre & cur & s & -> & Hr & H). exists pre, cur, s. split; [done|].
  split; [by eapply run_mono|done].
Qed.

Lemma tiling_core log fed es es' : map core es = map core es' -> tiling log fed es -> tiling log fed es'.
Proof.
  intros Hc (pre & cur & s & -> & Hr & Hcur & H).
  rewrite map_app in Hc. symmetry in Hc. change map with (@fmap list _) in Hc.
  apply fmap_app_inv in Hc as (pre' & last' & Hpre & Hlast & ->).
  destruct last' as [|cur' [|? ?]]; try done. injection Hlast as Hn Hs Hen Hrt Hct.
  exists pre', cur', s. split; [done|]. split; [eapply run_core; [|done]; by symmetry|].
  split; [|done]. rewrite <-(length_fmap core pre'), <-Hpre, length_map, <-Hcur.
  unfold core. congruence.
Qed.

Lemma tiling_new log : tiling log 0 [new_epoch 0 0].
Proof. exists [], (new_epoch 0 0), 0. by repeat split; try constructor. Qed.

(** Replacing an epoch by one at the same place. *)
Lemma core_insert es (i : nat) e e' : es !! i = Some e -> core e' = core e -> map core (<[i := e']> es) = map core es.
Proof.
  intros Hi Hc. change map with (@fmap list _). rewrite list_fmap_insert, Hc.
  apply list_insert_id. by rewrite list_lookup_fmap, Hi.
Qed.

(** ** One method at a time *)

(** The log the manager is next to is as it says, and so is every saved state. *)
Definition files_ok log w : Prop :=
  forall path s st, ep_files w !! path = Some s -> epochs_from_str s = Some st ->
    exists fed, tiling log fed (st_epochs st).
Definition managed log w : Prop :=
  (exists fed, tiling log fed (epochs (manager w))) /\ files_ok log w.

Lemma save_managed log w : managed log w -> managed log (save w).2 /\ manager (save w).2 = manager w.
Proof.
  intros [Ht Hf]. unfold save. destruct (persistence_path _) as [path|]; [|done].
  destruct (ep_error w); [done|]. cbn. split; [|done]. split; [done|].
  intros p s st. cbn. destruct (decide (p = path)) as [->|Hne].
  - rewrite lookup_insert_eq. intros [= <-]. rewrite epochs_round_trip. by intros [= <-].
  - rewrite lookup_insert_ne by done. apply Hf.
Qed.

(** A state change of the manager that keeps the tiling. *)
Lemma managed_epochs log w fed m :
  files_ok log w -> tiling log fed (epochs m) ->
  managed log {| manager := m; ep_files := ep_files w; ep_error := ep_error w |}.
Proof. intros Hf Ht. split; [by exists fed|done]. Qed.

Ltac em_step := unfold mbind at 1, stateR_bind at 1.

Lemma last_epoch_run w pre cur : epochs (manager w) = pre ++ [cur] -> last_epoch w = (Ok cur, w).
Proof. intros He. unfold last_epoch. em_step. unfold gets. by rewrite He, last_snoc. Qed.

Lemma put_last_epochs w pre cur e :
  epochs (manager w) = pre ++ [cur] ->
  put_last e w = (Ok tt, {| manager := with_epochs (pre ++ [e]) (manager w);
                             ep_files := ep_files w; ep_error := ep_error w |}).
Proof.
  intros He. unfold put_last, on_manager, modify. rewrite He, length_app. cbn.
  by rewrite Nat.add_sub, insert_app_r_alt, Nat.sub_diag by lia.
Qed.

(** The index after the last one the open epoch knows. *)
Definition next_index w : option N :=
  e ← last (epochs (manager w)); Some (start_index e + event_count e).

Lemma tiling_next log fed w : tiling log fed (epochs (manager w)) -> next_index w = Some fed.
Proof.
  intros (pre & cur & s & He & _ & Hc & Hle & _). unfold next_index. rewrite He, last_snoc. cbn.
  injection Hc as _ Hs _ _ Hn. rewrite Hs, Hn. f_equal. lia.
Qed.

(** Closing at the last known index. *)
Lemma close_at_run log w pre cur s fed :
  epochs (manager w) = pre ++ [cur] -> files_ok log w -> run log 0 0 pre s ->
  core cur = (N.of_nat (length pre), s, None, None, fed - s) -> s < fed -> fed < 2 ^ 64 ->
  managed log (close_at (fed - 1) cur log w).2.
Proof.
  intros He Hf Hr Hc Hs Hb. pose proof Hc as Hc'. injection Hc' as Hn Hst Hen Hrt Hct.
  unfold close_at. em_step. destruct (root_after_at log (fed - 1)) as [r|] eqn:Hroot; cbn.
  2:{ split; [|done]. exists fed. rewrite He. exists pre, cur, s. split_and!; (done || lia). }
  em_step. rewrite (put_last_epochs w pre cur) by done. em_step. unfold on_manager, modify.
  cbn [manager epochs with_epochs ep_files ep_error].
  set (closed := set_end (fed - 1) r cur).
  set (w1 := {| manager := _; ep_files := _; ep_error := _ |}).
  assert (tiling log fed (epochs (manager w1))) as Ht.
  { pose proof (run_length _ _ _ _ _ Hr).
    exists (pre ++ [closed]), (new_epoch (u64_wrap (epoch_number closed + 1)) (u64_wrap (fed - 1 + 1))), fed.
    split; [done|]. split.
    - replace fed with (fed - 1 + 1) at 1 by lia. eapply run_snoc; [done|]. split.
      + unfold closed, core, set_end. cbn. rewrite Hroot, Hn, Hst, Hct. repeat f_equal. lia.
      + split; [lia|by eexists].
    - unfold core, new_epoch, u64_wrap. cbn. rewrite length_app, Hn. cbn.
      rewrite !N.mod_small by lia. split; [|lia]. repeat f_equal; lia. }
  destruct (save_managed log w1 (managed_epochs log w fed _ Hf Ht)) as [Hm _].
  em_step. by destruct (save w1) as [[[]|err] w2].
Qed.

Lemma end_of_tiling cur s fed :
  start_index cur = s -> event_count cur = fed - s -> s < fed -> fed < 2 ^ 64 -> end_of cur = fed - 1.
Proof.
  intros Hst Hct Hs Hb. unfold end_of, u64_wrap. rewrite Hst, Hct.
  replace (s + (fed - s)) with fed by lia. rewrite (N.mod_small fed) by done.
  replace (fed + (2 ^ 64 - 1)) with (fed - 1 + 1 * 2 ^ 64) by lia.
  rewrite N.Div0.mod_add. apply N.mod_small. lia.
Qed.

Lemma record_event_managed log w i :
  managed log w -> next_index w = Some i -> i + 1 < 2 ^ 64 ->
  managed log (record_event i log w).2.
Proof.
  intros [(fed & Ht) Hf] Hi Hb. rewrite (tiling_next _ _ _ Ht) in Hi. injection Hi as <-.
  destruct Ht as (pre & cur & s & He & Hr & Hc & Hle & _).
  pose proof Hc as Hc'. injection Hc' as Hn Hst Hen Hrt Hct.
  unfold record_event. em_step. unfold gets at 1. em_step. rewrite (last_epoch_run _ _ _ He).
  unfold is_open. rewrite Hen, bool_decide_eq_true_2 by done. cbn [negb].
  set (cur' := set_count _ cur).
  assert (core cur' = (N.of_nat (length pre), s, None, None, fed + 1 - s)) as Hc'.
  { unfold cur', core, set_count, u64_wrap. cbn. rewrite Hn, Hst, Hen, Hrt, Hct, N.mod_small by lia.
    repeat f_equal. lia. }
  em_step. rewrite (put_last_epochs w pre cur) by done.
  set (w1 := {| manager := _; ep_files := _; ep_error := _ |}).
  assert (tiling log (fed + 1) (epochs (manager w1))) as Ht1
    by (exists pre, cur', s; split_and!; try done; lia).
  destruct (should_close _ _).
  - em_step. pose proof (close_at_run log w1 pre cur' s (fed + 1) eq_refl Hf Hr Hc' ltac:(lia) Hb) as Hm.
    replace (fed + 1 - 1) with fed in Hm by lia.
    by destruct (close_at fed cur' log w1) as [[]].
  - split; [by exists (fed + 1)|done].
Qed.

Lemma close_current_managed log w : managed log w -> managed log (close_current_epoch log w).2.
Proof.
  intros [(fed & Ht) Hf]. pose proof Ht as (pre & cur & s & He & Hr & Hc & Hle & Hb).
  pose proof Hc as Hc'. injection Hc' as Hn Hst Hen Hrt Hct.
  unfold close_current_epoch. em_step. rewrite (last_epoch_run _ _ _ He).
  unfold is_open. rewrite Hen, bool_decide_eq_true_2 by done. cbn [negb].
  destruct (N.eqb_spec (event_count cur) 0); [split; [by exists fed|done]|].
  rewrite (end_of_tiling cur s fed) by (done || lia).
  by apply (close_at_run log w pre cur s fed); (done || lia).
Qed.

Lemma sync_managed log w :
  managed log w -> N.of_nat (log_event_count log) < 2 ^ 64 ->
  managed log (sync_open_epoch_with_audit_log log w).2.
Proof.
  intros [(fed & Ht) Hf] Hb'. pose proof Ht as (pre & cur & s & He & Hr & Hc & Hle & Hb).
  pose proof Hc as Hc'. injection Hc' as Hn Hst Hen Hrt Hct.
  unfold sync_open_epoch_with_audit_log. em_step. unfold gets at 1. em_step.
  rewrite (last_epoch_run _ _ _ He).
  unfold is_open. rewrite Hen, bool_decide_eq_true_2 by done. cbn [negb].
  set (count := N.of_nat (log_event_count log)) in *. set (cur' := set_count _ cur).
  set (fed' := N.max s count).
  assert (core cur' = (N.of_nat (length pre), s, None, None, fed' - s)) as Hc'.
  { unfold cur', core, set_count. cbn. rewrite Hn, Hst, Hen, Hrt. repeat f_equal.
    destruct (N.ltb_spec s count); lia. }
  em_step. rewrite (put_last_epochs w pre cur) by done.
  set (w1 := {| manager := _; ep_files := _; ep_error := _ |}).
  assert (tiling log fed' (epochs (manager w1))) as Ht1
    by (exists pre, cur', s; split_and!; try done; lia).
  destruct (should_close _ _) eqn:Hsc.
  - unfold should_close in Hsc. apply andb_true_iff in Hsc as [Hs1%N.ltb_lt Hs2%N.leb_le].
    assert (start_index cur' = s /\ event_count cur' = fed' - s) as [Hst' Hct']
      by (unfold core in Hc'; clearbody cur'; by injection Hc').
    rewrite Hct' in Hs2.
    em_step. rewrite (end_of_tiling cur' s fed') by (done || lia).
    assert (managed log (close_at (fed' - 1) cur' log w1).2) as Hm.
    { apply (close_at_run log w1 pre cur' s fed'); (done || lia). }
    by destruct (close_at (fed' - 1) cur' log w1) as [[]].
  - destruct (save_managed log w1 (managed_epochs log w fed' _ Hf Ht1)) as [Hm _].
    em_step. by destruct (save w1) as [[]].
Qed.

(** A write to one epoch that keeps its place, then a save. *)
Lemma put_epoch_managed log w (n : N) i e e' m :
  managed log w -> find_epoch n (epochs (manager w)) = Some (i, e) ->
  epochs m = <[i := e']> (epochs (manager w)) -> core e' = core e ->
  managed log {| manager := m; ep_files := ep_files w; ep_error := ep_error w |}.
Proof.
  intros [[fed Ht] Hf] Hfind Hm Hc. split; [|done]. exists fed. cbn. rewrite Hm.
  apply list_find_Some in Hfind as (Hi & _ & _).
  eapply tiling_core; [|exact Ht]. symmetry. by eapply core_insert.
Qed.

Lemma mark_committed_managed log w now n tx :
  managed log w -> managed log (mark_committed now n tx w).2.
Proof.
  intros Hm. unfold mark_committed. em_step. unfold gets at 1.
  destruct (find_epoch n _) as [[i e]|] eqn:Hfind; [|done].
  em_step. unfold on_manager, modify. apply save_managed. by eapply put_epoch_managed.
Qed.

Lemma attach_managed log w n st en k root maj :
  managed log w -> managed log (attach_oplog_hash n st en k root maj w).2.
Proof.
  intros Hm. unfold attach_oplog_hash. em_step. unfold gets at 1.
  destruct (find_epoch n _) as [[i e]|] eqn:Hfind; [|done]. destruct (is_open e); [done|].
  em_step. unfold on_manager at 1, modify at 1. em_step. unfold on_manager at 1, modify at 1.
  set (w1 := {| manager := _; ep_files := _; ep_error := _ |}).
  assert (managed log w1) as H1
    by by apply (put_epoch_managed log w n i e (set_oplog st en k root maj e)).
  em_step. destruct (save_managed log w1 H1) as [Hs _]. by destruct (save w1) as [[]].
Qed.

Lemma read_state_same path w r w' : read_state path w = (r, w') -> w' = w.
Proof.
  unfold read_state. destruct (ep_error w); [by intros [= _ <-]|].
  destruct (ep_files w !! path) as [s|]; [|by intros [= _ <-]].
  destruct (epochs_from_str s); by intros [= _ <-].
Qed.

Lemma read_state_managed log w path st w' :
  managed log w -> read_state path w = (Ok st, w') ->
  w' = w /\ exists fed, tiling log fed (st_epochs st).
Proof.
  intros [_ Hf]. unfold read_state. destruct (ep_error w); [done|].
  destruct (ep_files w !! path) as [s|] eqn:Hs; [|done].
  destruct (epochs_from_str s) as [st'|] eqn:Hst; [|done]. intros [= <- <-].
  split; [done|by eapply Hf].
Qed.

Lemma enable_managed log w path : managed log w -> managed log (enable_persistence path w).2.
Proof.
  intros Hm. unfold enable_persistence. em_step. unfold path_exists, gets.
  case_bool_decide; em_step.
  - em_step. destruct (read_state path w) as [[st|err] w1] eqn:Hr.
    + destruct (read_state_managed _ _ _ _ _ Hm Hr) as [-> [fed Ht]].
      em_step. unfold on_manager at 1 2, modify. em_step. unfold on_manager, modify.
      apply save_managed. eapply managed_epochs; [apply Hm|exact Ht].
    + by rewrite (read_state_same _ _ _ _ Hr).
  - em_step. unfold on_manager, modify. apply save_managed.
    destruct Hm as [[fed Ht] Hf]. by eapply managed_epochs.
Qed.

Lemma reset_managed log w : managed log w -> managed log (reset w).2.
Proof.
  intros [_ Hf]. unfold reset. em_step. unfold on_manager at 1, modify. em_step.
  unfold on_manager, modify. apply save_managed. eapply managed_epochs; [done|apply tiling_new].
Qed.

Lemma restart_managed log w cfg path mgr w' :
  managed log w -> new_with_persistence cfg path w = (Ok mgr, w') ->
  managed log {| manager := mgr; ep_files := ep_files w'; ep_error := ep_error w' |}.
Proof.
  intros Hm. unfold new_with_persistence. em_step. unfold path_exists, gets.
  case_bool_decide; em_step.
  - em_step. unfold catch_error, load_from_file. em_step.
    destruct (read_state path w) as [[st|[e|msg]] w1] eqn:Hr; cbn; [| |done]; intros [= <- <-].
    + destruct (read_state_managed _ _ _ _ _ Hm Hr) as [-> [fed Ht]].
      eapply managed_epochs; [apply Hm|exact Ht].
    + rewrite (read_state_same _ _ _ _ Hr).
      eapply managed_epochs; [apply Hm|apply tiling_new].
  - cbn. intros [= <- <-]. eapply managed_epochs; [apply Hm|apply tiling_new].
Qed.

(** ** Reachable managers *)

(** The manager next to its log.  The daemon and the listener feed [record_event] with
    the index after the last one; the log only grows; file operations can start to fail
    or to work at any time; a restart keeps the files only. *)
Inductive manages : AuditLog F -> EpochWorld -> Prop :=
| manages_new log cfg err :
    manages log {| manager := new cfg; ep_files := ∅; ep_error := err |}
| manages_grow log log' w : manages log w -> log_extends log log' -> manages log' w
| manages_disk log w err :
    manages log w ->
    manages log {| manager := manager w; ep_files := ep_files w; ep_error := err |}
| manages_config log w cfg : manages log w -> manages log (set_config cfg w).2
| manages_record log w i :
    manages log w -> next_index w = Some i -> i + 1 < 2 ^ 64 -> manages log (record_event i log w).2
| manages_close log w : manages log w -> manages log (close_current_epoch log w).2
| manages_sync log w :
    manages log w -> N.of_nat (log_event_count log) < 2 ^ 64 ->
    manages log (sync_open_epoch_with_audit_log log w).2
| manages_mark log w now n tx : manages log w -> manages log (mark_committed now n tx w).2
| manages_attach log w n st en k root maj :
    manages log w -> manages log (attach_oplog_hash n st en k root maj w).2
| manages_enable log w path : manages log w -> manages log (enable_persistence path w).2
| manages_reset log w : manages log w -> manages log (reset w).2
| manages_restart log w cfg path mgr w' :
    manages log w -> new_with_persistence cfg path w = (Ok mgr, w') ->
    manages log {| manager := mgr; ep_files := ep_files w'; ep_error := ep_error w' |}.

Lemma manages_managed log w : manages log w -> managed log w.
Proof.
  induction 1 as [log cfg err|log log' w _ [[fed Ht] Hf] Hext|log w err _ Hm|log w cfg _ Hm|
    | | | | | | | ].
  - split; [exists 0; apply tiling_new|]. intros p s st. cbn. by rewrite lookup_empty.
  - split; [exists fed; by eapply tiling_mono|]. intros p s st Hs Hst.
    destruct (Hf p s st Hs Hst) as [fed' Ht']. exists fed'. by eapply tiling_mono.
  - exact Hm.
  - exact Hm.
  - by apply record_event_managed.
  - by apply close_current_managed.
  - by apply sync_managed.
  - by apply mark_committed_managed.
  - by apply attach_managed.
  - by apply enable_managed.
  - by apply reset_managed.
  - by eapply restart_managed.
Qed.

(** ** Properties *)

Lemma run_lookup log n s es s' (i : nat) e :
  run log n s es s' -> es !! i = Some e ->
  exists st en, closed_ok log (n + N.of_nat i) st e en /\
    (es !! S i = None -> s' = en + 1) /\
    (forall e', es !! S i = Some e' -> start_index e' = en + 1).
Proof.
  intros Hr. revert i. induction Hr as [n s|n s x en es s' Hx Hr IH]; intros i; [done|].
  destruct i as [|i]; cbn.
  - intros [= ->]. exists s, en. rewrite N.add_0_r. split; [done|]. split.
    + intros Hn. destruct es; [|done]. by inversion Hr.
    + intros e' He'. destruct es as [|y es]; [done|]. injection He' as ->.
      inversion Hr as [|? ? ? en' ? ? (Hc & _) _]; subst. by injection Hc.
  - intros Hi. destruct (IH i Hi) as (st & en' & Hc & Hn & Hs). exists st, en'.
    split; [|done]. by replace (n + N.of_nat (S i)) with (n + 1 + N.of_nat i) by lia.
Qed.

Lemma tiling_lookup log fed es (i : nat) e :
  tiling log fed es -> es !! i = Some e ->
  epoch_number e = N.of_nat i /\
  if decide (S i = length es) then
    end_index e = None /\ root_hex e = None /\ start_index e + event_count e = fed
  else exists en, end_index e = Some en /\ start_index e <= en /\
    event_count e = en + 1 - start_index e /\ root_hex e = root_after_at log en /\
    is_Some (root_hex e) /\ (forall e', es !! S i = Some e' -> start_index e' = en + 1) /\ en < fed.
Proof.
  intros (pre & cur & s & -> & Hr & Hc & Hle & Hb) Hi.
  injection Hc as Hn Hst Hen Hrt Hct.
  rewrite length_app. cbn. case_decide as Hlast.
  - assert (i = length pre) as -> by lia.
    rewrite lookup_app_r, Nat.sub_diag in Hi by done. injection Hi as <-. split_and!; try done. lia.
  - assert (i < length pre)%nat as Hlt.
    { apply lookup_lt_Some in Hi. rewrite length_app in Hi. cbn in Hi. lia. }
    rewrite lookup_app_l in Hi by done.
    destruct (run_lookup _ _ _ _ _ _ _ Hr Hi) as (st & en & (Hc & Hsen & Hroot) & Hend & Hnext).
    injection Hc as Hn' Hst' Hen' Hrt' Hct'. rewrite N.add_0_l in Hn'. split; [done|].
    exists en. rewrite Hst', Hct', Hrt'. split_and!; try done.
    + intros e' He'. destruct (decide (S i = length pre)) as [Hend'|Hne].
      * rewrite lookup_app_r, Hend', Nat.sub_diag in He' by lia. injection He' as <-.
        rewrite Hst. apply Hend. apply lookup_ge_None_2. lia.
      * rewrite lookup_app_l in He' by lia. by apply Hnext.
    + clear -Hr Hi Hle Hen' Hn' Hst' Hrt' Hct' Hsen Hroot.
      assert (forall n s es s' i e en, run log n s es s' -> es !! i = Some e -> end_index e = Some en ->
                en < s') as Hg; [|pose proof (Hg _ _ _ _ _ _ _ Hr Hi Hen'); lia].
      clear. intros n s es s' i e en Hr. revert i. induction Hr as [|n s x en' es s' (Hx & _) Hr IH]; intros i Hi He; [done|].
      destruct i as [|i]; cbn in Hi; [|by eapply IH].
      injection Hi as ->. pose proof (run_length _ _ _ _ _ Hr). injection Hx as _ _ Hx _ _.
      rewrite He in Hx. injection Hx as ->. lia.
Qed.

(** C30: the epochs tile the log: in every state a manager reaches next to a log that only
    grows, fed with the index after the last one it knows, the epochs are numbered from 0,
    exactly the last one is open, each closed one ends at or after its start, has as many
    events as its range and froze the root the log had right after its last index, and
    the next epoch starts at the following index. *)
Theorem epochs_tile_log log w :
  manages log w ->
  epochs (manager w) <> [] /\
  forall (i : nat) e, epochs (manager w) !! i = Some e ->
    epoch_number e = N.of_nat i /\ (i = 0%nat -> start_index e = 0) /\
    if decide (S i = length (epochs (manager w))) then end_index e = None /\ root_hex e = None
    else exists en, end_index e = Some en /\ start_index e <= en /\
      event_count e = en + 1 - start_index e /\ root_hex e = root_after_at log en /\
      is_Some (root_hex e) /\
      forall e', epochs (manager w) !! S i = Some e' -> start_index e' = en + 1.
Proof.
  intros Hm. destruct (manages_managed _ _ Hm) as [[fed Ht] _]. split.
  - destruct Ht as (pre & cur & s & -> & _). by destruct pre.
  - intros i e Hi. pose proof (tiling_lookup _ _ _ _ _ Ht Hi) as [Hn Hrest].
    split; [done|]. split.
    + intros ->. destruct Ht as ([|x pre] & cur & s & He & Hr & Hc & _); rewrite He in Hi; injection Hi as ->.
      * inversion Hr; subst. by injection Hc as _ Hc _ _ _.
      * inversion Hr as [|? ? ? ? ? ? (Hx & _) _]; subst. by injection Hx as _ Hx _ _ _.
    + case_decide; [tauto|]. destruct Hrest as (en & ? & ? & ? & ? & ? & ? & _). by exists en.
Qed.

(** A restart loses nothing that was saved: once any method saved the state, a manager
    built from the file has the same epochs and the same oplog position. *)
Theorem saved_epochs_restored cfg w w' path :
  save w = (Ok tt, w') -> persistence_path (manager w) = Some path -> ep_error w = None ->
  exists mgr, new_with_persistence cfg path w' = (Ok mgr, w') /\
    epochs mgr = epochs (manager w) /\ next_oplog_start mgr = next_oplog_start (manager w) /\
    config mgr = cfg.
Proof.
  intros Hs Hp He. unfold save in Hs. rewrite Hp, He in Hs. injection Hs as <-.
  exists {| config := cfg; epochs := epochs (manager w);
            next_oplog_start := next_oplog_start (manager w); persistence_path := Some path |}.
  split; [|done]. unfold new_with_persistence. em_step. unfold path_exists, gets. cbn.
  rewrite lookup_insert_eq, bool_decide_eq_true_2 by by eexists.
  em_step. em_step. unfold catch_error, load_from_file. em_step. unfold read_state. cbn.
  by rewrite ?He, lookup_insert_eq, epochs_round_trip.
Qed.

(** Pruning misplaces epochs: the daemon's pass counts the events in memory, which a
    prune lowers below the number of leaves.  The next event is then fed under an index
    [c] before the start of the open epoch, and when that closes the epoch, the daemon
    gets, publishes and commits an epoch that ends before it starts, with an old root. *)
Theorem prune_misplaces_epoch log w cur c root :
  last (epochs (manager w)) = Some cur -> end_index cur = None -> ep_error w = None ->
  0 < event_threshold (config (manager w)) <= event_count cur + 1 ->
  event_count cur + 1 < 2 ^ 64 ->
  c < start_index cur -> N.of_nat (log_event_count log) = c + 1 -> root_after_at log c = Some root ->
  exists closed w', auto_commit_pass c log w = (Ok (c + 1, [closed]), w') /\
    start_index closed = start_index cur /\ end_index closed = Some c /\ c < start_index closed /\
    root_hex closed = Some root.
Proof.
  intros Hlast Hopen Hio [Hpos Hthr] Hb Hc Hn Hroot. apply last_Some in Hlast as [pre He].
  set (cur' := set_count (u64_wrap (event_count cur + 1)) cur).
  set (closed := set_end c root cur').
  unfold auto_commit_pass. rewrite Hn. rewrite (proj2 (N.eqb_neq _ _)) by lia.
  replace (c + 1 - c) with 1 by lia.
  assert (exists w', record_event c log w = (Ok (Some closed), w')) as [w' Hrec].
  { unfold record_event. em_step. unfold gets at 1. em_step. rewrite (last_epoch_run _ _ _ He).
    unfold is_open. rewrite Hopen, bool_decide_eq_true_2 by done. cbn [negb].
    em_step. rewrite (put_last_epochs w pre cur) by done.
    assert (should_close (config (manager w)) (set_count (u64_wrap (event_count cur + 1)) cur) = true) as ->.
    { unfold should_close, set_count, u64_wrap. cbn [event_count]. rewrite N.mod_small by lia.
      apply andb_true_iff. split; [by apply N.ltb_lt|by apply N.leb_le]. }
    em_step. unfold close_at. em_step. rewrite Hroot. cbn [mret stateR_ret].
    em_step. rewrite (put_last_epochs _ pre cur') by done.
    em_step. unfold on_manager at 1, modify at 1. em_step.
    unfold save. cbn [manager with_epochs persistence_path ep_error].
    destruct (persistence_path (manager w)); rewrite ?Hio; by eexists. }
  exists closed, w'. split; [|by split_and!].
  change (N.to_nat 1) with 1%nat. cbn [feed].
  em_step. em_step. unfold catch_error. by rewrite Hrec.
Qed.

(** ** Epochs of a session *)

Section sessions.
Context {Sha : Sha256} {Hm : HmacSha256} {Hexs : Hex} {B64 : Base64}.
Context {AJ : AuditJson} {Db : Type} {SD : SledDb Db} {SP : SerdePair}.

(** The anchored root is the root of a prefix of the log: next to the log of any
    session, the root frozen in a closed epoch is the Merkle root of exactly the leaves up
    to its end index. *)
Theorem epoch_root_of_prefix dir key cs (aw : World F Db) w (i : nat) e en :
  session dir key cs aw -> manages (log aw) w ->
  epochs (manager w) !! i = Some e -> end_index e = Some en ->
  exists ls, tree (log aw) = tree_of ls /\ (N.to_nat en < length ls)%nat /\
    root_hex e = Some (fr_to_hex (root_of (take (S (N.to_nat en)) ls))).
Proof.
  intros Hs Hmg Hi Hen. destruct (session_root_history dir key cs aw Hs) as (ls & Ht & Hroots).
  destruct (manages_managed _ _ Hmg) as [[fed Htl] _].
  destruct (tiling_lookup _ _ _ _ _ Htl Hi) as [_ Hrest].
  case_decide; [destruct Hrest as [Hn _]; congruence|].
  destruct Hrest as (en' & Hen' & _ & _ & Hroot & [r Hr] & _).
  rewrite Hen in Hen'. injection Hen' as <-.
  rewrite <-(N2Nat.id en), Hroots in Hroot. rewrite Hr in Hroot.
  exists ls. split; [done|]. destruct (decide _); [|done].
  split; [done|]. by rewrite Hr.
Qed.
End sessions.
End spec.

(** ** Epochs on a concrete log *)

From S2P Require Import Bytes.
From S2P Require Import Interceptor.
From S2P Require Import AuditExample.
From S2P Require Import Epoch.
Local Open Scope N_scope.
Import Concrete MemoryDb.
#[local] Opaque tree_of root_of.

(** ** A text format *)

#[export] Instance OplogTimestamp_eq_dec : EqDecision OplogTimestamp.
Proof. solve_decision. Defined.
#[export] Instance OplogTimestamp_countable : Countable OplogTimestamp.
Proof.
  by apply (inj_countable' (fun t => (time t, increment t))
              (fun p => {| time := p.1; increment := p.2 |})); intros [].
Defined.
#[export] Instance Epoch_eq_dec : EqDecision Epoch.
Proof. solve_decision. Defined.
#[export] Instance Epoch_countable : Countable Epoch.
Proof.
  apply (inj_countable'
    (fun e => ((epoch_number e, start_index e, end_index e, root_hex e, event_count e),
               (committed e, committed_at e, tx_hash e, oplog_start_ts e),
               (oplog_end_ts e, oplog_entry_count e, oplog_merkle_root_hex e,
                oplog_majority_commit_ts e)))
    (fun p => let '((a, b, c, d, e), (f, g, h, i), (j, k, l, m)) := p in
              Build_Epoch a b c d e f g h i j k l m)).
  by intros [].
Defined.
#[export] Instance EpochState_eq_dec : EqDecision EpochState.
Proof. solve_decision. Defined.
#[export] Instance EpochState_countable : Countable EpochState.
Proof.
  by apply (inj_countable' (fun s => (st_epochs s, st_next_oplog_start_ts s))
              (fun p => {| st_epochs := p.1; st_next_oplog_start_ts := p.2 |})); intros [].
Defined.

#[local] Obligation Tactic := idtac.
#[export] Program Instance plain_epoch_json : EpochJson :=
  {| epochs_to_string st := of_bytes (pos_bits (encode st));
     epochs_from_str s := decode (bits_pos (as_bytes s)) |}.
Next Obligation. intros st. cbv beta. by rewrite as_bytes_of_bytes, bits_pos_bits, decode_encode. Qed.

(** ** A manager next to the log of a session *)

Abbreviation example_log := (log (after commands None)).
Definition each_event : EpochConfig := {| event_threshold := 1; time_threshold_secs := 0 |}.
Definition manager0 : EpochWorld := {| manager := new each_event; ep_files := ∅; ep_error := None |}.
Definition manager3 : EpochWorld :=
  (record_event 2 example_log (record_event 1 example_log (record_event 0 example_log manager0).2).2).2.

Lemma manager3_manages : manages example_log manager3.
Proof.
  unfold manager3.
  apply manages_record; [|by vm_compute|done].
  apply manages_record; [|by vm_compute|done].
  apply manages_record; [|by vm_compute|done].
  apply manages_new.
Qed.

Lemma epochs_tile_log_witness :
  epochs (manager manager3) <> [] /\ length (epochs (manager manager3)) = 4%nat.
Proof.
  split; [apply (epochs_tile_log example_log), manager3_manages|vm_compute; reflexivity].
Defined.

Definition on_disk_manager : EpochWorld :=
  {| manager := with_path (Some "epochs.json"%string) (new each_event); ep_files := ∅; ep_error := None |}.

Lemma saved_epochs_restored_witness :
  exists mgr, new_with_persistence each_event "epochs.json" (save on_disk_manager).2 =
      (Ok mgr, (save on_disk_manager).2) /\
    epochs mgr = epochs (manager on_disk_manager).
Proof.
  destruct (saved_epochs_restored each_event on_disk_manager (save on_disk_manager).2 "epochs.json")
    as (mgr & Hm & He & _); [reflexivity..|].
  exists mgr. split; [exact Hm|exact He].
Defined.

(** The session pruned the domain of its third event: two events, three leaves. *)
Lemma example_log_pruned :
  N.of_nat (log_event_count example_log) = 2 /\ is_Some (root_after_at example_log 1) /\
  start_index <$> last (epochs (manager manager3)) = Some 3 /\
  (e ← last (epochs (manager manager3)); end_index e) = None /\
  event_count <$> last (epochs (manager manager3)) = Some 0 /\
  ep_error manager3 = None /\ event_threshold (config (manager manager3)) = 1.
Proof. split_and!; [by vm_compute|apply (bool_decide_eq_true_1 _); by vm_compute|by vm_compute..]. Qed.

Lemma prune_misplaces_epoch_witness :
  exists closed w', auto_commit_pass 1 example_log manager3 = (Ok (2, [closed]), w') /\
    end_index closed = Some 1 /\ 1 < start_index closed.
Proof.
  destruct example_log_pruned as (Hn & [root Hroot] & Hs & He & Hc & Hio & Hthr).
  destruct (last (epochs (manager manager3))) as [cur|] eqn:Hlast; [|discriminate Hs].
  injection Hs as Hs. injection Hc as Hc. cbn in He.
  destruct (prune_misplaces_epoch example_log manager3 cur 1 root)
    as (closed & w' & Hp & _ & Hend & Hlt & _);
    [exact Hlast|exact He|exact Hio|rewrite Hc, Hthr; split; [reflexivity|discriminate]
    |rewrite Hc; reflexivity|rewrite Hs; reflexivity|exact Hn|exact Hroot|].
  exists closed, w'. split; [exact Hp|]. split; [exact Hend|exact Hlt].
Defined.

Lemma second_epoch_closed :
  match epochs (manager manager3) !! 1%nat with
  | Some e => bool_decide (end_index e = Some 1) | None => false end = true.
Proof. by vm_compute. Qed.

Lemma epoch_root_of_prefix_witness :
  exists ls e, tree example_log = tree_of ls /\ epochs (manager manager3) !! 1%nat = Some e /\
    root_hex e = Some (fr_to_hex (root_of (take 2 ls))).
Proof.
  pose proof second_epoch_closed as Hok.
  destruct (epochs (manager manager3) !! 1%nat) as [e|] eqn:He; [|discriminate Hok].
  apply bool_decide_eq_true in Hok.
  destruct (epoch_root_of_prefix (SP := PayloadExample.plain_pair) "d" None commands
              (after commands None) manager3 1 e 1)
    as (ls & Ht & _ & Hr); [apply session_after; done|apply manager3_manages|exact He|exact Hok|].
  exists ls, e. split; [exact Ht|]. split; [exact eq_refl|exact Hr].
Defined.
