(* ===== verification/ChangeStream.v ===== *)
(** * The change-stream listener (audit-service/src/audit/change_stream.rs)

    Deployment identities, and the listener that records what a MongoDB change stream
    delivers, saves the resume token after every event and reconnects.  The driver is a
    parameter: what a connection delivers, given the resume token it is opened with. *)

From S2P Require Import Prelude.
From S2P Require Import Bytes.
From S2P Require Import Text.
From S2P Require Import Interfaces.
From S2P Require Import AuditError.
From S2P Require Import OplogCanon.
From S2P Require Import CanonicalPayload.
From S2P Require Import SledStore.
From S2P Require Import PoseidonTree.
From S2P Require Import AuditLog.
From S2P Require Import Interceptor.
From S2P Require Import Epoch.
Local Open Scope N_scope.

(** ** Deployment identities *)

Abbreviation document := (list (string * Bson)).

(** [doc.get_str(k)], [doc.get_array(k)] *)
Definition get_str (d : document) (k : string) : option string :=
  match doc_get d k with Some (BString s) => Some s | _ => None end.
Definition get_array (d : document) (k : string) : option (list Bson) :=
  match doc_get d k with Some (Array l) => Some l | _ => None end.

Definition hosts_of (hello : document) : list string :=
  let hosts := omap (fun b => match b with BString s => Some s | _ => None end)
                    (default [] (get_array hello "hosts")) in
  if bool_decide (hosts = []) then
    match get_str hello "me" with
    | Some me => if bool_decide (me = ""%string) then [] else [me]
    | None => []
    end
  else hosts.

Definition derive_deployment_id {Sha : Sha256} {Hexs : Hex} (hello : document) : string :=
  let unnamed :=
    let is_sharded := match get_str hello "msg" with
                      | Some m => bool_decide (m = "isdbgrid"%string) | None => false end in
    let hosts := dedup (sort_by String.leb (hosts_of hello)) in
    let fingerprint :=
      if bool_decide (hosts = []) then "unknown"%string
      else hex_encode (take 8 (sha256 (as_bytes (join "," hosts)))) in
    if is_sharded then "sharded:" +:+ fingerprint else "standalone:" +:+ fingerprint in
  match get_str hello "setName" with
  | Some set_name => if bool_decide (set_name = ""%string) then unnamed else "rs:" +:+ set_name
  | None => unnamed
  end.

(** [run_command] answers with a document or an error. *)
Definition fetch_deployment_id {Sha : Sha256} {Hexs : Hex} (reply : option document) : string :=
  match reply with Some doc => derive_deployment_id doc | None => ""%string end.

Definition supports_change_streams (deployment_id : string) : bool :=
  String.prefix "rs:" deployment_id || String.prefix "sharded:" deployment_id.

(** ** Change events *)

Inductive OperationType :=
| Insert | Update | Replace | Delete | Drop | DropDatabase | Rename | Invalidate
| Other (op : string) | Future.

(** The fields the listener reads: a namespace is a database and maybe a collection, an
    update description the updated and the removed fields. *)
Record ChangeStreamEvent := {
  operation_type : OperationType;
  ns : option (string * option string);
  to : option (string * option string);
  document_key : option document;
  update_description : option (document * list string);
  full_document : option document;
}.

(** [serde_json::to_string] of BSON and of strings. *)
Class BsonJson := {
  document_json : document -> option string;
  bson_json : Bson -> option string;
  strings_json : list string -> option string;
}.

(** The log and, in the application, the epoch manager next to it. *)
Record Capture (F Db : Type) := { captured : World F Db; epochs_of : option EpochWorld }.
Arguments captured {F Db}. Arguments epochs_of {F Db}. Arguments Build_Capture {F Db}.

Section listener.
Context {F : Type} {PF : PrimeField F} {Pos : Poseidon F}.
Context {Sha : Sha256} {Hm : HmacSha256} {Hexs : Hex} {B64 : Base64} {Chr : Chrono}.
Context {AJ : AuditJson} {Db : Type} {SD : SledDb Db} {SP : SerdePair}.
Context {EJ : EpochJson} {BJ : BsonJson}.

Definition capture (A : Type) : Type := stateR (Capture F Db) AuditError A.

(** A method of the log, whose failure is a value here. *)
Definition logged {A} (m : method (F := F) (Db := Db) A) : capture (result AuditError A) :=
  fun c => let '(r, w) := m (captured c) in (Ok r, Build_Capture w (epochs_of c)).

(** [if let (Ok(index), Some(em)) = (res, epoch_manager)]; a failure is only logged. *)
Definition advance (record : recorder (F := F) (Db := Db)) : capture unit := fun c =>
  let '(res, w) := record (captured c) in
  (Ok tt, Build_Capture w
     (match res, epochs_of c with
      | Ok index, Some em => Some (record_event index (log w) em).2
      | _, em => em
      end)).

Definition filter_of (event : ChangeStreamEvent) : string :=
  match document_key event with
  | Some k => default ""%string (document_json k)
  | None => "{}"%string
  end.

Definition update_of (event : ChangeStreamEvent) : string :=
  match update_description event with
  | Some (updated_fields, removed_fields) =>
    let updated := default "{}"%string (document_json updated_fields) in
    let removed := default "[]"%string (strings_json removed_fields) in
    "{" +:+ quote +:+ "updatedFields" +:+ quote +:+ ":" +:+ updated +:+ "," +:+
      quote +:+ "removedFields" +:+ quote +:+ ":" +:+ removed +:+ "}"
  | None =>
    match full_document event with
    | Some doc => default "{}"%string (document_json doc)
    | None => "{}"%string
    end
  end.

Definition process_event (now : Z) (deployment_id : string) (event : ChangeStreamEvent) :
    capture unit :=
  match ns event with
  | None => mret tt
  | Some (db, coll) =>
    let coll := default ""%string coll in
    match operation_type event with
    | Insert =>
      match full_document event with
      | Some doc =>
        match document_json doc with
        | Some json => advance (record_insert now deployment_id db coll json)
        | None => mret tt
        end
      | None => mret tt
      end
    | Update | Replace =>
      advance (record_update now deployment_id db coll (filter_of event) (update_of event))
    | Delete => advance (record_delete now deployment_id db coll (filter_of event))
    | Drop => advance (record_drop_collection now deployment_id db coll)
    | DropDatabase => advance (record_drop_database now deployment_id db)
    | Rename =>
      let new_name := default "renamed"%string (t ← to event; t.2) in
      advance (record_rename_collection now deployment_id db coll new_name)
    | Invalidate => mret tt
    | Other op =>
      if bool_decide (op = "createIndexes"%string) then
        let keys_json := match full_document event with
                         | Some doc => default ""%string (v ← doc_get doc "key"; bson_json v)
                         | None => "{}"%string
                         end in
        advance (record_create_index now deployment_id db coll keys_json "{}")
      else if bool_decide (op = "dropIndexes"%string) then
        let name := default "unknown"%string (d ← document_key event; get_str d "name") in
        advance (record_drop_index now deployment_id db coll name)
      else mret tt
    | Future => mret tt
    end
  end.

(** ** The listener *)

Section stream.
Context {Token : Type} (token_json : Token -> option string) (token_from_str : string -> option Token).

(** What the open stream yields next: an event, with the stream's resume token after it,
    an error, or the stop signal.  The end of the list is the end of the stream. *)
Inductive delivery :=
| Delivered (now : Z) (event : ChangeStreamEvent) (token : option Token)
| StreamError
| Cancelled.

Fixpoint watch_once (deployment_id connection_id : string) (ds : list delivery) : capture unit :=
  match ds with
  | [] => mret tt
  | Cancelled :: _ => mret tt
  | StreamError :: _ => throw (Mongo "change stream error")
  | Delivered now event token :: ds =>
    _ ← process_event now deployment_id event;
    _ ← match token with
        | Some token => logged (save_resume_token connection_id (token_json token))
        | None => mret (Ok tt)
        end;
    watch_once deployment_id connection_id ds
  end.

(** Opening can fail; the stop signal can come while the listener waits to retry. *)
Inductive connection := Opened (ds : list delivery) (stop_in_backoff : bool)
                      | OpenError (stop_in_backoff : bool)
                      | Stopped.

(** The retry loop, for [n] connections: the waits between them, in seconds.  [connect]
    is what the next connections do, given the resume token. *)
Fixpoint listen (deployment_id connection_id : string)
    (connect : nat -> option Token -> connection) (n attempt : nat) (backoff : N) : capture (list N) :=
  match n with
  | O => mret []
  | S n =>
    r ← logged (load_resume_token token_from_str connection_id);
    let resume_token := default None (ok r) in
    let retry (stop : bool) : capture (list N) :=
      if stop then mret [backoff]
      else rest ← listen deployment_id connection_id connect n (S attempt) (N.min (backoff * 2) 30);
           mret (backoff :: rest) in
    match connect attempt resume_token with
    | Stopped => mret []
    | OpenError stop => retry stop
    | Opened ds stop =>
      res ← catch (watch_once deployment_id connection_id ds);
      match res with
      | Ok _ => mret []
      | Err _ => retry stop
      end
    end
  end.

Definition run_listener (deployment_id connection_id : string)
    (connect : nat -> option Token -> connection) (n : nat) : capture (list N) :=
  listen deployment_id connection_id connect n 0 1.
End stream.
End listener.
