(* ===== verification/ChangeStreamSpec.v ===== *)
(** * What the listener guarantees

    The identity of a deployment depends on the set of its hosts; while file operations succeed,
    the listener records what the stream carries once, in order and without a gap, however often
    it reconnects; but an event whose recording fails is skipped.  Then the listener on a
    concrete stream. *)

From S2P Require Import Prelude.
From S2P Require Import Bytes.
From S2P Require Import Text.
From S2P Require Import Interfaces.
From S2P Require Import AuditError.
From S2P Require Import OplogCanon.
From S2P Require Import CanonicalPayload.
From S2P Require Import SledStore.
From S2P Require Import PoseidonTree.
From S2P Require Import AuditLog.
From S2P Require Import AuditReplay.
From S2P Require Import Interceptor.
From S2P Require Import AuditSession.
From S2P Require Import Epoch.
From S2P Require Import ChangeStream.
From S2P Require Import AuditExample.
From S2P Require Import EpochSpec.
Local Open Scope N_scope.
#[local] Opaque tree_of root_of.

(** ** Deployment identities *)

(** The identity of a deployment does not depend on the order in which its members
    list themselves, nor on repetitions: two answers with the same set name, kind and
    [me] whose host lists have the same elements give the same identity. *)
Theorem deployment_id_host_order {Sha : Sha256} {Hexs : Hex} (hello hello' : document) :
  get_str hello "setName" = get_str hello' "setName" ->
  get_str hello "msg" = get_str hello' "msg" ->
  (forall h, h ∈ hosts_of hello <-> h ∈ hosts_of hello') ->
  derive_deployment_id hello = derive_deployment_id hello'.
Proof.
  intros Hset Hmsg Hh. unfold derive_deployment_id. rewrite Hset, Hmsg.
  by rewrite (dedup_sort_set _ _ Hh).
Qed.

Section spec.
Context {F : Type} {PF : PrimeField F} {Pos : Poseidon F}.
Context {Sha : Sha256} {Hm : HmacSha256} {Hexs : Hex} {B64 : Base64} {Chr : Chrono}.
Context {AJ : AuditJson} {Db : Type} {SD : SledDb Db} {SP : SerdePair}.
Context {EJ : EpochJson} {BJ : BsonJson}.
Implicit Types (w : World F Db) (c : Capture F Db).

(** ** Frames: what recording leaves alone *)

Definition same_key (k : list byte) (db db' : Db) : Prop := contents db' !! k = contents db !! k.
#[local] Instance same_key_preorder k : PreOrder (same_key k).
Proof. split; unfold same_key; [by intros ?|intros ? ? ? ? ?; congruence]. Qed.

Lemma db_op_keeps (R : Db -> Db -> Prop) {Rpre : PreOrder R} op msg :
  (forall db db', op db = Ok db' -> R db db') -> keeps R (db_op op msg).
Proof. intros Hop db. unfold db_op. destruct (op db) as [db'|] eqn:H; [by apply Hop|done]. Qed.

Lemma save_leaf_keeps k i leaf root : ~ tree_key k -> keeps (same_key k) (save_leaf (F := F) i leaf root).
Proof.
  intros Hk.
  assert (forall k' v db db', tree_key k' -> sled_insert k' v db = Ok db' -> same_key k db db') as Hins.
  { intros k' v db db' Hk' H%sled_insert_Ok. unfold same_key. rewrite H. apply lookup_insert_ne.
    by intros ->. }
  unfold save_leaf. repeat (apply keeps_bind; [apply _| |intros _]);
    (apply db_op_keeps; [apply _|]); intros db db'.
  - apply Hins. right. right. by eexists.
  - apply Hins. by left.
  - apply Hins. right. by left.
  - intros H%sled_flush_Ok. unfold same_key. by rewrite H.
Qed.

(** The store at a path, and worlds whose stores agree on a key. *)
Definition store_at w (path : string) : Db := default sled_new (sleds (disk w) !! path).
Definition same_entry (k : list byte) w w' : Prop :=
  forall path, contents (store_at w' path) !! k = contents (store_at w path) !! k.
#[local] Instance same_entry_preorder k : PreOrder (same_entry k).
Proof. split; [by intros ? ?|intros ? ? ? H1 H2 path; by rewrite H2, H1]. Qed.

Lemma put_log_keeps k f : keeps (same_entry k) (put_log (F := F) (Db := Db) f).
Proof. by intros w path. Qed.

Lemma append_line_keeps k path line : keeps (same_entry k) (append_line (F := F) (Db := Db) path line).
Proof. intros w p. unfold append_line, io. by destruct (io_error (disk w)). Qed.

Lemma on_sled_keeps {A} k path (m : store (Db := Db) A) :
  keeps (same_key k) m -> keeps (same_entry k) (on_sled (F := F) path m).
Proof.
  intros Hkeep w p. unfold on_sled. specialize (Hkeep (default sled_new (sleds (disk w) !! path))).
  destruct (m _) as [r db']. cbn in Hkeep |- *. unfold store_at. cbn.
  destruct (decide (p = path)) as [->|Hne];
    [by rewrite lookup_insert_eq|by rewrite lookup_insert_ne].
Qed.

Hint Resolve put_log_keeps append_line_keeps on_sled_keeps save_leaf_keeps : audit.
Hint Unfold get_log zk : audit.

Ltac keeps_step :=
  match goal with
  | |- keeps _ (mbind _ _) => apply keeps_bind; [apply _| |intros ?]
  | |- keeps _ (match ?x with _ => _ end) => destruct x
  | |- keeps _ (get_log _) => unfold get_log
  | |- keeps _ (zk _) => unfold zk
  | |- keeps _ (catch _) => apply keeps_catch
  | |- keeps _ (if_sled _) => unfold if_sled
  | |- keeps _ (persist_line _) => unfold persist_line
  | |- _ => by eauto with audit typeclass_instances
  end.

Lemma record_op_keeps k now dep op :
  ~ tree_key k -> keeps (same_entry k) (record_op (F := F) (Db := Db) now dep op).
Proof.
  intros Hk. destruct (record_op_event (F := F) (Db := Db) now dep op) as (o & db & col & can & pay & ->).
  unfold Interceptor.record_event, record, record_v3, record_inner. repeat keeps_step.
Qed.

(** ** One event *)

(** The operation an event records, if any. *)
Definition op_of_event (event : ChangeStreamEvent) : option audited_op :=
  '(db, coll) ← ns event;
  let coll := default ""%string coll in
  match operation_type event with
  | Insert => doc ← full_document event; json ← document_json doc; Some (OpInsert db coll json)
  | Update | Replace => Some (OpUpdate db coll (filter_of event) (update_of event))
  | Delete => Some (OpDelete db coll (filter_of event))
  | Drop => Some (OpDropCollection db coll)
  | DropDatabase => Some (OpDropDatabase db)
  | Rename => Some (OpRename db coll (default "renamed"%string (t ← to event; t.2)))
  | Invalidate | Future => None
  | Other op =>
    if bool_decide (op = "createIndexes"%string) then
      Some (OpCreateIndex db coll
              (match full_document event with
               | Some doc => default ""%string (v ← doc_get doc "key"; bson_json v)
               | None => "{}"%string
               end) "{}")
    else if bool_decide (op = "dropIndexes"%string) then
      Some (OpDropIndex db coll (default "unknown"%string (d ← document_key event; get_str d "name")))
    else None
  end.

Lemma process_event_op now dep event :
  process_event (F := F) (Db := Db) now dep event =
    match op_of_event event with
    | Some op => advance (record_op now dep op)
    | None => mret tt
    end.
Proof.
  unfold process_event, op_of_event. destruct (ns event) as [[db coll]|]; [|done]. cbn [mbind option_bind].
  destruct (operation_type event) as [| | | | | | | |op|]; try done.
  - destruct (full_document event) as [doc|]; [|done]. cbn. by destruct (document_json doc).
  - by repeat case_bool_decide.
Qed.

(** ** Streams *)

Section stream.
Context (dir : string) (key : option (list byte)) (dep conn : string).
Context {Token : Type}.
Context (token_json : Token -> option string) (token_from_str : string -> option Token).
Context (token_text : Token -> string).
Hypothesis Hjson : forall t, token_json t = Some (token_text t).
Hypothesis Hround : forall t, token_from_str (token_text t) = Some t.
Hypothesis Hutf8 : forall t, rust_string (token_text t).

(** The events of the deployment in order, those to come included; the place from which a
    stream resumed after a token goes on; and the place a stream opened without a token
    begins at, the end of the events there were when the [j]-th connection was opened. *)
Context (H : list ChangeStreamEvent) (position : Token -> nat).
Context (opened_at : nat -> nat).
Hypothesis Hopened : forall j, (opened_at j <= length H)%nat.
Implicit Types (es : list PersistedEvent).

Definition from (j : nat) (t : option Token) : nat := match t with Some t => position t | None => opened_at j end.

(** [k] events from a place, each with a token that resumes after it, and then nothing more,
    an error or the stop signal. *)
Inductive delivers : nat -> nat -> list (delivery (Token := Token)) -> Prop :=
| delivers_end p : delivers p 0 []
| delivers_error p : delivers p 0 [StreamError]
| delivers_stop p : delivers p 0 [Cancelled]
| delivers_event now e t p k ds :
    H !! p = Some e -> position t = S p -> delivers (S p) k ds ->
    delivers p (S k) (Delivered now e (Some t) :: ds).

(** The row an operation leaves in the file. *)
Definition recorded (op : audited_op) (e : PersistedEvent) : Prop :=
  let '(operation, db, col, canonical, payload) := op_row op in
  row_of key dep operation db col canonical payload e.

(** The events from [q] up to [p]. *)
Definition segment (q p : nat) : list ChangeStreamEvent := take (p - q) (drop q H).

Lemma segment_nil q : segment q q = [].
Proof. unfold segment. by rewrite Nat.sub_diag. Qed.
Lemma segment_S q p e : (q <= p)%nat -> H !! p = Some e -> segment q (S p) = segment q p ++ [e].
Proof.
  intros Hq He. unfold segment. rewrite Nat.sub_succ_l by done. apply take_S_r.
  rewrite lookup_drop. by rewrite <-Nat.le_add_sub.
Qed.

(** The log holds, after [es0], the operations of the events from [q] up to [p]; the saved
    token resumes at [p], or none is saved and no event was taken. *)
Record caught_up es0 c (q p : nat) (t : option Token) : Prop := {
  cu_pos : (q <= p <= length H)%nat;
  cu_log : exists rows ls jl, persisted dir key (captured c) (es0 ++ rows) ls jl /\
             Forall2 recorded (omap op_of_event (segment q p)) rows;
  cu_token : contents (store_at (captured c) (audit_store dir)) !! resume_token_key conn =
             (fun t => as_bytes (token_text t)) <$> t;
  cu_resumes : match t with Some t => position t = p | None => p = q end;
}.

Lemma save_token_persisted w es ls jl t :
  persisted dir key w es ls jl ->
  exists w', save_resume_token (F := F) conn (Some (token_text t)) w = (Ok tt, w') /\
    persisted dir key w' es ls jl /\
    contents (store_at w' (audit_store dir)) !! resume_token_key conn = Some (as_bytes (token_text t)).
Proof.
  intros Hp. pose proof Hp as []. destruct inv_store as (db & Hdb & Hh & Hst).
  assert (sled_store (log w) = Some (audit_store dir)) as Hss.
  { destruct (metadata_of_lines jl). by rewrite inv_log. }
  unfold save_resume_token. lift_step. unfold ok_or. unfold if_sled. get_step. rewrite Hss.
  unfold on_sled. rewrite Hdb. cbn [default]. unfold id, SledStore.save_resume_token.
  unfold mbind, stateR_bind.
  destruct (db_insert_healthy (resume_token_key conn) (as_bytes (token_text t))
              "sled insert resume_token" db Hh) as (db1 & -> & Hh1 & Hc1).
  destruct (healthy_flush db1 Hh1) as (db2 & Hf & Hh2).
  assert (db_op sled_flush "sled flush resume_token" db1 = (Ok tt, db2)) as -> by by apply db_op_Ok.
  apply sled_flush_Ok in Hf.
  eexists. split; [reflexivity|]. split.
  - unfold on_disk. split; cbn; try done. exists db2. rewrite lookup_insert_eq. split; [done|].
    split; [done|]. destruct (decide (ls = [])) as [->|Hne].
    + rewrite Hf, Hc1, lookup_insert_ne; [done|].
      intros Heq. apply (resume_token_key_not_tree conn). rewrite Heq. by left.
    + eapply stores_insert; [apply (resume_token_key_not_tree conn)|by rewrite Hf|done].
  - unfold store_at, on_disk. cbn. rewrite lookup_insert_eq. cbn. unfold id. by rewrite Hf, Hc1, lookup_insert_eq.
Qed.

Lemma recorded_length es0 c q p t :
  caught_up es0 c q p t -> exists rows ls jl, persisted dir key (captured c) (es0 ++ rows) ls jl /\
    Forall2 recorded (omap op_of_event (segment q p)) rows /\ (length ls <= length es0 + p)%nat.
Proof.
  intros [Hpos (rows & ls & jl & Hp & Hrows) _ _]. exists rows, ls, jl. split_and!; [done..|].
  pose proof (chain_length _ _ _ _ (inv_chain _ _ _ _ _ _ Hp)) as Hl.
  pose proof (Forall2_length _ _ _ Hrows) as Hr.
  assert (forall l, (length (omap op_of_event l) <= length l)%nat) as Ho.
  { induction l as [|x l IH]; [done|]. cbn. destruct (op_of_event x); cbn; lia. }
  specialize (Ho (segment q p)). unfold segment in Ho at 2. rewrite length_take in Ho. rewrite length_app in Hl. cbn in Hl. lia.
Qed.

Lemma omap_snoc q p e :
  (q <= p)%nat -> H !! p = Some e ->
  omap op_of_event (segment q (S p)) =
    omap op_of_event (segment q p) ++ match op_of_event e with Some op => [op] | None => [] end.
Proof. intros Hq He. rewrite (segment_S q p e Hq He), omap_app. cbn. by destruct (op_of_event e). Qed.

Context (es0 : list PersistedEvent).
Hypothesis Hbound : (Z.of_nat (length es0 + length H) < 2 ^ 64)%Z.

(** Processing an event and saving its token moves one event on. *)
Lemma step_caught_up c q p t0 now e t :
  caught_up es0 c q p t0 -> H !! p = Some e -> position t = S p ->
  exists c1 c', process_event (F := F) now dep e c = (Ok tt, c1) /\
    logged (save_resume_token conn (token_json t)) c1 = (Ok (Ok tt), c') /\ caught_up es0 c' q (S p) (Some t).
Proof.
  intros Hc He Ht. pose proof (lookup_lt_Some _ _ _ He) as Hlt.
  destruct (recorded_length es0 c q p t0 Hc) as (rows & ls & jl & Hp & Hrows & Hlen). destruct Hc.
  assert (exists c1 rows' ls' jl', process_event (F := F) now dep e c = (Ok tt, c1) /\
    persisted dir key (captured c1) (es0 ++ rows') ls' jl' /\
    Forall2 recorded (omap op_of_event (segment q (S p))) rows') as (c1 & rows' & ls' & jl' & Hpr & Hp1 & Hr1).
  { rewrite process_event_op, (omap_snoc q p e) by (done || lia). destruct (op_of_event e) as [op|].
    - unfold advance. rewrite record_op_row. destruct (op_row op) as [[[[o db] col] can] pay] eqn:Hop.
      destruct (record_event_row dir key (captured c) (es0 ++ rows) ls jl now dep o db col can pay Hp)
        as (w' & ev & leaf & -> & Hp' & Hrow); [lia|].
      eexists _, (rows ++ [ev]), _, _. split; [reflexivity|]. cbn. rewrite app_assoc.
      split; [exact Hp'|]. apply Forall2_app; [done|]. constructor; [|constructor].
      unfold recorded. by rewrite Hop.
    - exists c, rows, ls, jl. rewrite app_nil_r. done. }
  destruct (save_token_persisted (captured c1) (es0 ++ rows') ls' jl' t Hp1) as (w' & Hs & Hp' & Htok).
  exists c1, (Build_Capture w' (epochs_of c1)). split; [done|]. split.
  - unfold logged. by rewrite Hjson, Hs.
  - split; [lia|by exists rows', ls', jl'|exact Htok|exact Ht].
Qed.

(** How a connection ends: with an error to retry after, or for good. *)
Definition ends (ds : list (delivery (Token := Token))) : result AuditError unit :=
  match last ds with
  | Some StreamError => Err (Mongo "change stream error")
  | _ => Ok tt
  end.

Lemma watch_once_caught_up k ds c q p t :
  caught_up es0 c q p t -> delivers p k ds ->
  exists c' t', watch_once token_json dep conn ds c = (ends ds, c') /\ caught_up es0 c' q (p + k) t' /\
    (is_Some t -> is_Some t').
Proof.
  intros Hc Hd. revert c t Hc.
  induction Hd as [p|p|p|now e t1 p k ds He Ht1 Hd IH]; intros c t Hc;
    [exists c, t; rewrite Nat.add_0_r; done..|].
  destruct (step_caught_up c q p t now e t1 Hc He Ht1) as (c1 & c2 & H1 & H2 & Hc2).
  destruct (IH c2 (Some t1) Hc2) as (c' & t' & Hw & Hc' & Ht').
  exists c', t'. rewrite Nat.add_succ_r. split; [|split; [done|intros _; by apply Ht']]. cbn [watch_once].
  unfold mbind at 1, stateR_bind at 1. rewrite H1. unfold mbind at 1, stateR_bind at 1. rewrite H2, Hw.
  by destruct ds.
Qed.

(** ** Resuming *)

(** Before the first event the listener is nowhere in particular. *)
Lemma caught_up_anywhere c q p q' :
  caught_up es0 c q p None -> (q' <= length H)%nat -> caught_up es0 c q' q' None.
Proof.
  intros [Hpos (rows & ls & jl & Hp & Hr) Htok ->] Hq'. split; [lia| |done|done].
  exists rows, ls, jl. split; [done|]. by rewrite segment_nil in *.
Qed.

Lemma load_token c q p t :
  caught_up es0 c q p t ->
  logged (load_resume_token token_from_str conn) c = (Ok (Ok t), c).
Proof.
  intros [_ (rows & ls & jl & [] & _) Htok _]. destruct inv_store as (db & Hdb & Hh & _).
  assert (sled_store (log (captured c)) = Some (audit_store dir)) as Hss.
  { destruct (metadata_of_lines jl). by rewrite inv_log. }
  unfold logged, load_resume_token. get_step. rewrite Hss. bind_step. unfold on_sled. rewrite Hdb.
  cbn [default]. unfold id, SledStore.load_resume_token. unfold mbind at 1, stateR_bind at 1.
  rewrite db_read_get by done. unfold store_at in Htok. rewrite Hdb in Htok. cbn in Htok. unfold id in Htok.
  rewrite Htok. unfold on_disk, set_sleds. unfold mret at 1, stateR_ret at 1. rewrite insert_id by done.
  destruct c as [[l [f sl io sy]] em]. cbn. destruct t as [t|]; [|done].
  cbn. by rewrite from_utf8_lossy_valid, Hround.
Qed.

(** What MongoDB documents of a connection: resumed after a token, it delivers the events
    after it; opened without one, those from then on; some of them, and stops or fails. *)
Definition serves (connect : nat -> option Token -> connection) : Prop :=
  forall j t ds stop, connect j t = Opened ds stop -> exists k, delivers (from j t) k ds.

(** A connection takes the listener on: with a token saved, from where it was; without, from
    where the connection was opened. *)
Lemma connected j k ds c q p t :
  caught_up es0 c q p t -> delivers (from j t) k ds ->
  exists c' t', watch_once token_json dep conn ds c = (ends ds, c') /\
    caught_up es0 c' (if t then q else opened_at j) (from j t + k) t' /\ (is_Some t -> is_Some t').
Proof.
  intros Hc Hd. destruct t as [t|]; cbn [from] in *.
  - rewrite (cu_resumes _ _ _ _ _ Hc) in *. by apply watch_once_caught_up.
  - apply watch_once_caught_up; [|done]. by eapply caught_up_anywhere.
Qed.

(** Where the run over the connections from [j] up to [m] got: a saved token stays behind;
    the first one is of a connection opened without. *)
Definition follows (j m q p : nat) (t : option Token) (q' p' : nat) (t' : option Token) : Prop :=
  match t with
  | Some _ => q' = q /\ (p <= p')%nat /\ is_Some t'
  | None => t' = None \/ exists i, (j <= i < m)%nat /\ q' = opened_at i
  end.

Lemma follows_step j m c q p t k c1 t1 q' p' t' :
  (j < m)%nat -> caught_up es0 c q p t ->
  caught_up es0 c1 (if t then q else opened_at j) (from j t + k) t1 -> (is_Some t -> is_Some t1) ->
  follows (S j) m (if t then q else opened_at j) (from j t + k) t1 q' p' t' -> follows j m q p t q' p' t'.
Proof.
  intros Hj Hc Hc1 Ht Hf. destruct t as [t|]; cbn [from follows] in *.
  - rewrite (cu_resumes _ _ _ _ _ Hc) in *. destruct (Ht (mk_is_Some _ _ eq_refl)) as [x ->].
    destruct Hf as (-> & Hle & Hs). split_and!; [done|lia|done].
  - destruct t1 as [t1|].
    + destruct Hf as (-> & _ & _). right. exists j. split; [lia|done].
    + destruct Hf as [->|(i & Hi & ->)]; [by left|]. right. exists i. split; [lia|done].
Qed.

Lemma follows_stay j m c q p t : caught_up es0 c q p t -> follows j m q p t q p t.
Proof. intros Hc. destruct t as [t|]; cbn; [by split_and!|by left]. Qed.

Lemma follows_wider j j' m q p t q' p' t' :
  (j' <= j)%nat -> follows j m q p t q' p' t' -> follows j' m q p t q' p' t'.
Proof.
  intros Hj. destruct t; [done|]. cbn. intros [->|(i & Hi & ->)]; [by left|]. right. exists i. split; [lia|done].
Qed.

Lemma listen_caught_up connect n j b c q p t :
  serves connect -> caught_up es0 c q p t ->
  exists l c' q' p' t', listen token_json token_from_str dep conn connect n j b c = (Ok l, c') /\
    caught_up es0 c' q' p' t' /\ follows j (j + n) q p t q' p' t'.
Proof.
  intros Hs. revert j b c q p t. induction n as [|n IH]; intros j b c q p t Hc.
  { exists [], c, q, p, t. split_and!; [done|done|by eapply follows_stay]. }
  assert (forall (stop : bool) c q p t, caught_up es0 c q p t -> exists l c' q' p' t',
    (if stop then mret [b]
     else rest ← listen token_json token_from_str dep conn connect n (S j) (N.min (b * 2) 30);
          mret (b :: rest)) c = (Ok l, c') /\ caught_up es0 c' q' p' t' /\
    follows (S j) (j + S n) q p t q' p' t') as Hretry.
  { intros stop c2 q2 p2 t2 Hc2. destruct stop.
    - exists [b], c2, q2, p2, t2. split_and!; [done|done|by eapply follows_stay].
    - destruct (IH (S j) (N.min (b * 2) 30) c2 q2 p2 t2 Hc2) as (l & c' & q' & p' & t' & Hl & Hc' & Hf).
      exists (b :: l), c', q', p', t'. unfold mbind, stateR_bind. rewrite Hl.
      split_and!; [done|done|by rewrite Nat.add_succ_r]. }
  cbn [listen]. unfold mbind at 1, stateR_bind at 1. rewrite (load_token c q p t Hc). cbn [ok default].
  unfold id. destruct (connect j t) as [ds stop|stop|] eqn:Hconn.
  - destruct (Hs _ _ _ _ Hconn) as [k Hd].
    destruct (connected j k ds c q p t Hc Hd) as (c1 & t1 & Hw & Hc1 & Ht1).
    unfold mbind at 1, stateR_bind at 1. unfold catch. rewrite Hw. destruct (ends ds).
    + eexists [], c1, _, _, t1. split_and!; [done|exact Hc1|].
      eapply follows_step; [lia|done..|]. by eapply follows_stay.
    + destruct (Hretry stop c1 _ _ t1 Hc1) as (l & c' & q' & p' & t' & Hl & Hc' & Hf).
      exists l, c', q', p', t'. split_and!; [exact Hl|done|]. eapply follows_step; [lia|done..].
  - destruct (Hretry stop c q p t Hc) as (l & c' & q' & p' & t' & Hl & Hc' & Hf).
    exists l, c', q', p', t'. split_and!; [exact Hl|done|]. eapply follows_wider; [|done]. lia.
  - exists [], c, q, p, t. split_and!; [done|done|by eapply follows_stay].
Qed.

(** A connection that fails, and one that delivers everything. *)
Definition fails (connect : nat -> option Token -> connection) (j : nat) : Prop :=
  forall t, connect j t = OpenError false \/
    exists k ds, connect j t = Opened (ds ++ [StreamError]) false /\ delivers (from j t) k (ds ++ [StreamError]).
Definition delivers_all (connect : nat -> option Token -> connection) (j : nat) : Prop :=
  forall t, exists ds stop, connect j t = Opened ds stop /\ delivers (from j t) (length H - from j t) ds /\
    ends ds = Ok tt.

Lemma listen_catches_up connect n j m b c q p t :
  (forall i, (j <= i < j + m)%nat -> fails connect i) -> delivers_all connect (j + m) -> (m < n)%nat ->
  caught_up es0 c q p t ->
  exists l c' q' t', listen token_json token_from_str dep conn connect n j b c = (Ok l, c') /\
    length l = m /\ caught_up es0 c' q' (length H) t' /\
    if t then q' = q else exists i, (j <= i <= j + m)%nat /\ q' = opened_at i.
Proof.
  intros Hfail Hall. revert n j b c q p t Hfail Hall. induction m as [|m IH]; intros n j b c q p t Hfail Hall Hn Hc;
    (destruct n as [|n]; [lia|]); cbn [listen]; unfold mbind at 1, stateR_bind at 1;
    rewrite (load_token c q p t Hc); cbn [ok default]; unfold id.
  - destruct (Hall t) as (ds & stop & Hconn & Hd & Hend). rewrite Nat.add_0_r in Hconn, Hd.
    rewrite Hconn. destruct (connected j _ ds c q p t Hc Hd) as (c1 & t1 & Hw & Hc1 & _).
    unfold mbind at 1, stateR_bind at 1. unfold catch. rewrite Hw, Hend.
    eexists [], c1, _, t1. split; [done|]. split; [done|]. rewrite <-Nat.le_add_sub in Hc1.
    + split; [exact Hc1|]. destruct t; [done|]. exists j. split; [lia|done].
    + destruct t as [t|]; cbn [from]; [rewrite (cu_resumes _ _ _ _ _ Hc); apply Hc|apply Hopened].
  - assert (forall c q p t, caught_up es0 c q p t -> exists l c' q' t',
      (rest ← listen token_json token_from_str dep conn connect n (S j) (N.min (b * 2) 30);
       mret (b :: rest)) c = (Ok l, c') /\ length l = S m /\ caught_up es0 c' q' (length H) t' /\
      if t then q' = q else exists i, (S j <= i <= S j + m)%nat /\ q' = opened_at i) as Hretry.
    { intros c2 q2 p2 t2 Hc2. destruct (IH n (S j) (N.min (b * 2) 30) c2 q2 p2 t2) as (l & c' & q' & t' & Hl & Hlen & Hc' & Hq');
        [intros i Hi; apply Hfail; lia|by rewrite Nat.add_succ_comm|lia|done|].
      exists (b :: l), c', q', t'. unfold mbind, stateR_bind. rewrite Hl. cbn. by rewrite Hlen. }
    destruct (Hfail j ltac:(lia) t) as [Hconn|(k & ds & Hconn & Hd)]; rewrite Hconn.
    + destruct (Hretry c q p t Hc) as (l & c' & q' & t' & Hl & Hlen & Hc' & Hq').
      exists l, c', q', t'. split_and!; [done..|]. destruct t; [done|]. destruct Hq' as (i & Hi & ->).
      exists i. split; [lia|done].
    + destruct (connected j k _ c q p t Hc Hd) as (c1 & t1 & Hw & Hc1 & Ht1).
      unfold mbind at 1, stateR_bind at 1. unfold catch. rewrite Hw.
      unfold ends. rewrite last_snoc. destruct (Hretry c1 _ _ t1 Hc1) as (l & c' & q' & t' & Hl & Hlen & Hc' & Hq').
      exists l, c', q', t'. split_and!; [done..|]. destruct t as [t|].
      * destruct (Ht1 (mk_is_Some _ _ eq_refl)) as [x ->]. done.
      * destruct t1 as [t1|]; [exists j; split; [lia|done]|]. destruct Hq' as (i & Hi & ->). exists i. split; [lia|done].
Qed.

(** ** Theorems *)

(** C14: while operations on the file and the store succeed, the listener leaves no gap and no
    duplicate once it has begun: after any number of connections, each delivering any part
    of what the server documents and ending in any way, the log holds after what it held
    before exactly the operations of a run of events without a gap, in stream order, and the
    saved token resumes right after them.  With a token saved the run goes on from where it
    was; without one it begins where a connection of the listener was opened, since the
    server then delivers what happens from that time on. *)
Theorem listener_gapless connect n c q p t :
  serves connect -> caught_up es0 c q p t ->
  exists l c' q' p' t', run_listener token_json token_from_str dep conn connect n c = (Ok l, c') /\
    caught_up es0 c' q' p' t' /\ follows 0 n q p t q' p' t'.
Proof. apply (listen_caught_up connect n 0). Qed.

(** C34: and it catches up: if, after [m] failed connections, one delivers everything the
    server has, the listener ends with every event recorded, from where it was if a token
    was saved, and else from where one of these connections was opened; as long as
    operations on the file and the store succeed. *)
Theorem listener_catches_up connect n m c q p t :
  (forall i, (i < m)%nat -> fails connect i) -> delivers_all connect m -> (m < n)%nat ->
  caught_up es0 c q p t ->
  exists l c' q' t', run_listener token_json token_from_str dep conn connect n c = (Ok l, c') /\
    length l = m /\ caught_up es0 c' q' (length H) t' /\
    if t then q' = q else exists i, (i <= m)%nat /\ q' = opened_at i.
Proof.
  intros Hf Hall Hn Hc.
  destruct (listen_catches_up connect n 0 m 1 c q p t) as (l & c' & q' & t' & Hl & Hlen & Hc' & Hq');
    [intros i Hi; apply Hf; lia|done|done|done|].
  exists l, c', q', t'. split_and!; [done..|]. destruct t; [done|]. destruct Hq' as (i & Hi & ->).
  exists i. split; [lia|done].
Qed.

(** But a first connection that fails before it delivered anything leaves no token, and the
    second begins where it is opened: the events in between are in no log. *)
Theorem silent_connection_skips connect c q k ds stop :
  caught_up es0 c q q None -> connect 0%nat None = Opened [StreamError] false ->
  connect 1%nat None = Opened ds stop -> delivers (opened_at 1) k ds -> ends ds = Ok tt ->
  exists l c' t', run_listener token_json token_from_str dep conn connect 2 c = (Ok l, c') /\
    caught_up es0 c' (opened_at 1) (opened_at 1 + k) t'.
Proof.
  intros Hc H0 H1 Hd He. unfold run_listener. cbn [listen]. unfold mbind at 1, stateR_bind at 1.
  rewrite (load_token c q q None Hc). cbn [ok default]. unfold id at 1. rewrite H0.
  unfold mbind at 1, stateR_bind at 1, catch at 1. cbn [watch_once]. unfold throw at 1. cbn.
  unfold mbind at 1, stateR_bind at 1. unfold mbind at 1, stateR_bind at 1. rewrite (load_token c q q None Hc). cbn [ok default].
  unfold id at 1. rewrite H1. destruct (connected 1 k ds c q q None Hc Hd) as (c1 & t1 & Hw & Hc1 & _).
  unfold mbind at 1, stateR_bind at 1, catch at 1. rewrite Hw, He. cbn. by eexists _, c1, t1.
Qed.
End stream.

(** ** Waiting *)

Lemma listen_backoff {Token} (token_json : Token -> option string) token_from_str dep conn connect n j b k c :
  b = N.min (2 ^ k) 30 ->
  exists l c', listen (F := F) (Db := Db) token_json token_from_str dep conn connect n j b c = (Ok l, c') /\
    (length l <= n)%nat /\
    forall i x, l !! i = Some x -> x = N.min (2 ^ (k + N.of_nat i)) 30.
Proof.
  revert j b k c. induction n as [|n IH]; intros j b k c Hb; [by exists [], c|].
  assert (forall (stop : bool) c, exists l c',
    (if stop then mret [b]
     else rest ← listen token_json token_from_str dep conn connect n (S j) (N.min (b * 2) 30);
          mret (b :: rest)) c = (Ok l, c') /\ (length l <= S n)%nat /\
    forall i x, l !! i = Some x -> x = N.min (2 ^ (k + N.of_nat i)) 30) as Hretry.
  { intros stop c2. destruct stop.
    - exists [b], c2. split; [done|]. split; [cbn; lia|]. intros [|i] x; [|done].
      intros [= <-]. by rewrite N.add_0_r.
    - destruct (IH (S j) (N.min (b * 2) 30) (k + 1) c2) as (l & c' & Hl & Hlen & Hx).
      { rewrite N.pow_add_r. subst b. lia. }
      exists (b :: l), c'. unfold mbind, stateR_bind. rewrite Hl. split; [done|]. split; [cbn; lia|].
      intros [|i] x; [intros [= <-]; by rewrite N.add_0_r|]. intros Hi%Hx. rewrite Hi. do 2 f_equal. lia. }
  cbn [listen]. unfold mbind at 1, stateR_bind at 1. unfold logged.
  destruct (load_resume_token _ _ _) as [r w].
  destruct (connect j _) as [ds stop|stop|]; [|apply Hretry|].
  - unfold mbind at 1, stateR_bind at 1. unfold catch. destruct (watch_once _ _ _ _ _) as [[u|e] c2];
      [|apply Hretry].
    eexists [], _. split; [reflexivity|]. split; [cbn; lia|done].
  - eexists [], _. split; [reflexivity|]. split; [cbn; lia|done].
Qed.

(** Whatever the server does, the listener waits 1, 2, 4, 8, 16, 30, 30, .. seconds
    between connections, at most one wait per connection, and never ends in an error. *)
Theorem listener_backoff {Token} (token_json : Token -> option string) token_from_str dep conn connect n c :
  exists l c', run_listener (F := F) (Db := Db) token_json token_from_str dep conn connect n c = (Ok l, c') /\
    (length l <= n)%nat /\ forall i x, l !! i = Some x -> x = N.min (2 ^ N.of_nat i) 30.
Proof. by apply (listen_backoff token_json token_from_str dep conn connect n 0 1 0). Qed.

(** ** Failing files *)

(** While the files fail, nothing reaches them; the store stays usable. *)
Definition files_fail w w' : Prop :=
  sled_store (log w') = sled_store (log w) /\
  (forall err, io_error (disk w) = Some err ->
     io_error (disk w') = Some err /\ files (disk w') = files (disk w)) /\
  (forall path, healthy (store_at w path) -> healthy (store_at w' path)).
#[local] Instance files_fail_preorder : PreOrder files_fail.
Proof.
  split; [by intros w|]. intros w1 w2 w3 (S1 & F1 & P1) (S2 & F2 & P2). split; [congruence|].
  split; [|by eauto]. intros err He. destruct (F1 err He) as [He2 Hf2].
  destruct (F2 err He2) as [He3 Hf3]. split; [done|congruence].
Qed.

Lemma put_log_fail f : (forall l : AuditLog F, sled_store (f l) = sled_store l) ->
  keeps files_fail (put_log (F := F) (Db := Db) f).
Proof. intros Hf w. split; [apply Hf|by split]. Qed.

Lemma append_line_fail path line : keeps files_fail (append_line (F := F) (Db := Db) path line).
Proof. intros w. unfold append_line, io. destruct (io_error (disk w)) as [e|] eqn:Hio; [done|]. split; [done|]. split; [by rewrite Hio|done]. Qed.

Lemma on_sled_fail {A} path (m : store (Db := Db) A) :
  keeps (fun db db' => healthy db -> healthy db') m -> keeps files_fail (on_sled (F := F) path m).
Proof.
  intros Hkeep w. unfold on_sled. specialize (Hkeep (default sled_new (sleds (disk w) !! path))).
  destruct (m _) as [r db']. cbn in Hkeep. split; [done|]. split; [done|]. intros p. unfold store_at. cbn.
  destruct (decide (p = path)) as [->|Hne];
    [by rewrite lookup_insert_eq|by rewrite lookup_insert_ne].
Qed.

#[local] Instance healthy_preorder : PreOrder (fun db db' : Db => healthy db -> healthy db').
Proof. split; red; auto. Qed.

Lemma save_leaf_healthy i leaf root :
  keeps (fun db db' => healthy db -> healthy db') (save_leaf (F := F) (Db := Db) i leaf root).
Proof.
  intros db Hh. destruct (save_leaf_total (F := F) i leaf root db Hh) as (db' & H & Hh'). by rewrite H.
Qed.

#[local] Hint Resolve put_log_fail append_line_fail on_sled_fail save_leaf_healthy : audit.

Lemma record_op_fail now dep op : keeps files_fail (record_op (F := F) (Db := Db) now dep op).
Proof.
  destruct (record_op_event (F := F) (Db := Db) now dep op) as (o & db & col & can & pay & ->).
  unfold Interceptor.record_event, record, record_v3, record_inner. repeat keeps_step.
Qed.

(** A world whose file operations fail. *)
Definition failing (err : string) w : World F Db :=
  on_disk (fun d => Build_Disk (files d) (sleds d) (Some err) (sync_error d)) w.

(** But the token is saved whether or not the event was recorded: when the file
    cannot be written (a full disk, say), nothing is appended, the failure is swallowed,
    and the stored token moves past the event, which no later connection delivers. *)
Theorem failed_record_skipped dir key cs {Token} (token_json : Token -> option string)
    (token_from_str : string -> option Token) dep conn c now event t text err :
  session dir key cs (captured c) -> token_json t = Some text -> token_from_str text = Some t ->
  rust_string text -> is_Some (op_of_event event) ->
  let c1 := Build_Capture (failing err (captured c)) (epochs_of c) in
  exists c' c'', watch_once token_json dep conn [Delivered now event (Some t)] c1 = (Ok tt, c') /\
    files (disk (captured c')) = files (disk (captured c)) /\
    logged (load_resume_token token_from_str conn) c' = (Ok (Ok (Some t)), c'').
Proof.
  intros Hses Hjson Hround Hutf [op Hop] c1.
  destruct (session_persisted dir key cs (captured c) Hses) as (es & ls & jl & [] & _).
  destruct inv_store as (db & Hdb & Hh & _).
  assert (sled_store (log (captured c)) = Some (audit_store dir)) as Hss.
  { destruct (metadata_of_lines jl). by rewrite inv_log. }
  cbn [watch_once]. unfold mbind at 1, stateR_bind at 1. rewrite process_event_op, Hop. unfold advance.
  pose proof (record_op_fail now dep op (captured c1)) as (Hs1 & Hf1 & Hh1).
  destruct (record_op now dep op (captured c1)) as [r w1]. cbn [snd] in *.
  destruct (Hf1 err eq_refl) as [Hio1 Hfiles1]. clear Hf1.
  change (sled_store (log (captured c1))) with (sled_store (log (captured c))) in Hs1. rewrite Hss in Hs1.
  specialize (Hh1 (audit_store dir)). unfold store_at in Hh1. cbn [c1 failing on_disk captured disk sleds] in Hh1.
  rewrite Hdb in Hh1. specialize (Hh1 Hh).
  set (db1 := default sled_new (sleds (disk w1) !! audit_store dir)) in *.
  destruct (db_insert_healthy (resume_token_key conn) (as_bytes text) "sled insert resume_token" db1 Hh1)
    as (db2 & Hi2 & Hh2 & Hc2).
  destruct (healthy_flush db2 Hh2) as (db3 & Hf3 & Hh3).
  assert (db_op sled_flush "sled flush resume_token" db2 = (Ok tt, db3)) as Hop3 by by apply db_op_Ok.
  apply sled_flush_Ok in Hf3.
  unfold mbind at 1, stateR_bind at 1. unfold logged at 1. cbn [captured].
  unfold save_resume_token. lift_step. rewrite Hjson. unfold ok_or. unfold if_sled. get_step. rewrite Hs1.
  unfold on_sled. fold db1. unfold SledStore.save_resume_token. unfold mbind, stateR_bind. rewrite Hi2, Hop3.
  eexists _, _. split; [reflexivity|]. split; [exact Hfiles1|].
  unfold logged, load_resume_token, mbind, stateR_bind, get_log, gets. unfold on_disk, set_sleds. cbn [captured log disk sleds].
  rewrite Hs1. unfold on_sled. cbn [disk sleds]. rewrite lookup_insert_eq. cbn [default]. unfold id.
  unfold SledStore.load_resume_token, mbind, stateR_bind. rewrite db_read_get by done.
  rewrite Hf3, Hc2, lookup_insert_eq. cbn. rewrite from_utf8_lossy_valid, Hround by done. reflexivity.
Qed.
End spec.

(** ** The listener on a concrete stream *)

Local Open Scope N_scope.
Import Concrete MemoryDb.
#[local] Existing Instance PayloadExample.plain_pair.
#[local] Opaque tree_of root_of.

#[export] Instance toy_bson_json : BsonJson :=
  {| document_json d := Some (if bool_decide (d = []) then "{}" else "{..}")%string;
     bson_json _ := Some "1"%string; strings_json _ := Some "[]"%string |}.

(** Tokens are numbers, saved as digits. *)
Definition token_json (t : N) : option string := Some (num t).
Lemma num_rust_string t : rust_string (num t).
Proof.
  unfold rust_string, num. rewrite as_bytes_of_bytes. apply utf8_valid_ascii.
  induction (encode t) as [p IH|p IH|]; cbn; repeat constructor; done.
Qed.

Definition insert_event (name : string) : ChangeStreamEvent :=
  {| operation_type := Insert; ns := Some ("db", Some "col")%string; to := None; document_key := None;
     update_description := None; full_document := Some [("name"%string, BString name)] |}.
Definition delete_event : ChangeStreamEvent :=
  {| operation_type := Delete; ns := Some ("db", Some "col")%string; to := None;
     document_key := Some [("_id"%string, Int32 1)]; update_description := None; full_document := None |}.
Definition stream : list ChangeStreamEvent := [insert_event "a"; delete_event].

(** A token is the number of events before it; the first connection is opened before the
    events, the others after them. *)
Definition opened_at (j : nat) : nat := match j with O => 0%nat | S _ => 2%nat end.
Lemma opened_in_stream j : (opened_at j <= length stream)%nat.
Proof. destruct j; cbn; lia. Qed.

Definition first_start : Capture Fp mem := {| captured := fresh None; epochs_of := None |}.

Lemma stream_bound : (Z.of_nat (length (@nil PersistedEvent) + length stream) < 2 ^ 64)%Z.
Proof. reflexivity. Qed.

Abbreviation up_to c q p t := (caught_up "d" None "rs:rs0" "conn" num stream N.to_nat [] c q p t).

Lemma first_start_caught_up : up_to first_start 0 0 None.
Proof.
  split; [cbn; lia| |reflexivity|reflexivity]. exists [], [], []. split; [|constructor].
  destruct (fresh_start (F := Fp) (Db := mem) "d" None) as (w & Hw & Hp).
  cbn [app]. unfold first_start, fresh. cbn [captured]. by rewrite Hw.
Qed.

Fixpoint deliveries (p : nat) (l : list ChangeStreamEvent) : list (delivery (Token := N)) :=
  match l with
  | [] => []
  | e :: l => Delivered 5000000000 e (Some (N.of_nat (S p))) :: deliveries (S p) l
  end.

Lemma deliveries_all l p : drop p stream = l -> delivers stream N.to_nat p (length l) (deliveries p l).
Proof.
  revert p. induction l as [|e l IH]; intros p Hl; [constructor|]. cbn [deliveries length]. constructor.
  - by rewrite <-(Nat.add_0_r p), <-lookup_drop, Hl.
  - apply Nat2N.id.
  - apply IH. by rewrite <-Nat.add_1_r, <-drop_drop, Hl.
Qed.

(** The first connection breaks after an event, the next one delivers what is left. *)
Definition connect (j : nat) (t : option N) : connection :=
  let p := from N.to_nat opened_at j t in
  match j with
  | O => Opened (take 1 (deliveries p (drop p stream)) ++ [StreamError]) false
  | S _ => Opened (deliveries p (drop p stream)) false
  end.

Lemma first_delivers p :
  exists k, delivers stream N.to_nat p k (take 1 (deliveries p (drop p stream)) ++ [StreamError]).
Proof.
  destruct (drop p stream) as [|e l] eqn:Hl; [exists 0%nat; constructor|].
  exists 1%nat. cbn. constructor; [by rewrite <-(Nat.add_0_r p), <-lookup_drop, Hl|apply Nat2N.id|constructor].
Qed.

Lemma connect_serves : serves stream N.to_nat opened_at connect.
Proof.
  intros [|j] t ds stop; intros [= <- _]; [apply first_delivers|].
  eexists. by apply deliveries_all.
Qed.

Lemma listener_gapless_witness :
  exists l c' q' p' t', run_listener token_json denum "rs:rs0" "conn" connect 2 first_start = (Ok l, c') /\
    up_to c' q' p' t' /\ follows opened_at 0 2 0 0 None q' p' t'.
Proof.
  apply (listener_gapless "d" None "rs:rs0" "conn" token_json denum num (fun _ => eq_refl) denum_num
           num_rust_string stream N.to_nat opened_at opened_in_stream [] stream_bound connect 2 first_start 0 0 None
           connect_serves first_start_caught_up).
Defined.

Lemma listener_catches_up_witness :
  exists l c' q' t', run_listener token_json denum "rs:rs0" "conn" connect 2 first_start = (Ok l, c') /\
    length l = 1%nat /\ up_to c' q' 2 t' /\ exists i, (i <= 1)%nat /\ q' = opened_at i.
Proof.
  apply (listener_catches_up "d" None "rs:rs0" "conn" token_json denum num (fun _ => eq_refl) denum_num
           num_rust_string stream N.to_nat opened_at opened_in_stream [] stream_bound connect 2 1 first_start 0 0 None).
  - intros i Hi t. right. destruct i as [|i]; [|exfalso; lia]. destruct (first_delivers (from N.to_nat opened_at 0 t)) as [k Hk].
    by eexists k, _.
  - intros t. exists (deliveries (from N.to_nat opened_at 1 t) (drop (from N.to_nat opened_at 1 t) stream)), false.
    split; [reflexivity|]. rewrite <-length_drop. split; [by apply deliveries_all|].
    destruct (from N.to_nat opened_at 1 t) as [|[|p]]; try reflexivity. cbn [stream drop]. by rewrite drop_nil.
  - lia.
  - apply first_start_caught_up.
Defined.

(** The run of the witnesses: two events from the start. *)
Example listener_example :
  match run_listener token_json denum "rs:rs0" "conn" connect 2 first_start with
  | (Ok l, c) => bool_decide (l = [1]) && (length (events (log (captured c))) =? 2)%nat
  | _ => false
  end = true.
Proof. vm_compute. reflexivity. Qed.

(** A first connection that breaks before its first event. *)
Definition connect_late (j : nat) (t : option N) : connection (Token := N) :=
  match j with O => Opened [StreamError] false | S _ => Opened [] false end.
Lemma silent_connection_skips_witness :
  exists l c' t', run_listener token_json denum "rs:rs0" "conn" connect_late 2 first_start = (Ok l, c') /\
    up_to c' 2 (2 + 0) t'.
Proof.
  apply (silent_connection_skips "d" None "rs:rs0" "conn" token_json denum num (fun _ => eq_refl) denum_num
           num_rust_string stream N.to_nat opened_at opened_in_stream [] stream_bound connect_late first_start 0 0 [] false);
    [apply first_start_caught_up|reflexivity|reflexivity|constructor|reflexivity].
Defined.

Lemma failed_record_skipped_witness :
  exists c' c'',
    watch_once token_json "rs:rs0" "conn" [Delivered 5000000000 (insert_event "a") (Some 7)]
      (Build_Capture (failing "disk full" (AuditExample.after commands None)) None) = (Ok tt, c') /\
    files (disk (captured c')) = files (disk (AuditExample.after commands None)) /\
    logged (load_resume_token denum "conn") c' = (Ok (Ok (Some 7)), c'').
Proof.
  apply (failed_record_skipped "d" None commands token_json denum "rs:rs0" "conn"
           (Build_Capture (AuditExample.after commands None) None) 5000000000 (insert_event "a") 7 (num 7) "disk full");
    [apply session_after; reflexivity|reflexivity|apply denum_num|apply num_rust_string|].
  eexists. reflexivity.
Defined.

Definition hello (hosts : list Bson) : document := [("ok"%string, Int32 1); ("hosts"%string, Array hosts)].

Lemma deployment_id_host_order_witness :
  derive_deployment_id (hello [BString "a"; BString "b"]) =
  derive_deployment_id (hello [BString "b"; BString "a"; BString "b"]).
Proof.
  apply deployment_id_host_order; [reflexivity..|].
  intros h. change (hosts_of (hello [BString "a"; BString "b"])) with ["a"; "b"]%string.
  change (hosts_of (hello [BString "b"; BString "a"; BString "b"])) with ["b"; "a"; "b"]%string.
  rewrite !elem_of_cons. tauto.
Defined.
