(* ===== verification/Attestation.v ===== *)
(** * Threshold attestation (audit-service/src/audit/attestation.rs)

    Publishers and their attestations of epoch roots, kept in a store; the K-of-N status of an
    epoch. *)

From S2P Require Import Prelude.
From S2P Require Import Bytes.
From S2P Require Import Interfaces.
From S2P Require Import AuditError.
From S2P Require Import PoseidonTree.
From S2P Require Import SledStore.
Local Open Scope Z_scope.

(** ** Data *)

Record Publisher := { public_key : string; name : string; registered_at : string }.

Record Attestation := {
  epoch_number : Z;
  a_root_hex : string;
  publisher_public_key : string;
  signature : string;
  submitted_at : string;
}.

Record AttestationStatus := {
  s_epoch_number : Z;
  s_root_hex : string;
  threshold : nat;
  total_publishers : nat;
  valid_attestations : nat;
  threshold_met : bool;
  attested_by : list string;
  pending : list string;
}.

(** [serde_json::to_vec] and [from_slice]. *)
Class AttestationJson := {
  publisher_to_vec : Publisher -> list byte;
  publisher_from_slice : list byte -> option Publisher;
  attestation_to_vec : Attestation -> list byte;
  attestation_from_slice : list byte -> option Attestation;
  publisher_round_trip p : publisher_from_slice (publisher_to_vec p) = Some p;
  attestation_round_trip a : attestation_from_slice (attestation_to_vec a) = Some a;
}.

(** [ed25519_dalek]: [VerifyingKey::from_bytes] and [verify] (key, message, signature). *)
Class Dalek := {
  verifying_key_ok : list byte -> bool;
  dalek_verify : list byte -> list byte -> list byte -> bool;
}.

(** ** Operations *)

Section manager.
Context {Db : Type} {SD : SledDb Db} {Hexs : Hex} {Chr : Chrono}.
Context {AtJ : AttestationJson} {Dal : Dalek}.

Record AttestationManager := { k_threshold : nat; at_store : option Db }.
Definition am (A : Type) : Type := stateR AttestationManager AuditError A.

Definition new (threshold : nat) : AttestationManager :=
  {| k_threshold := threshold; at_store := None |}.
Definition set_store (db : Db) : am unit :=
  modify (fun m => {| k_threshold := k_threshold m; at_store := Some db |}).
Definition set_threshold (k : nat) : am unit :=
  modify (fun m => {| k_threshold := k; at_store := at_store m |}).

(** [if let Some(store) = guard.as_ref() { store.op()? }], and the value without one. *)
Definition with_store {A} (op : stateR Db AuditError A) (absent : A) : am A :=
  fun m => match at_store m with
           | None => (Ok absent, m)
           | Some db => let '(r, db') := op db in
                        (r, {| k_threshold := k_threshold m; at_store := Some db' |})
           end.

Definition PUBLISHER_PREFIX : list byte := as_bytes "publisher:".
Definition ATTESTATION_PREFIX : list byte := as_bytes "attestation:".
Definition COLON : byte := x3a.

Definition publisher_key (public_key : string) : list byte :=
  PUBLISHER_PREFIX ++ as_bytes public_key.
Definition attestation_prefix (epoch_number : Z) : list byte :=
  ATTESTATION_PREFIX ++ be_bytes 8 epoch_number ++ [COLON].
Definition attestation_key (epoch_number : Z) (public_key : string) : list byte :=
  ATTESTATION_PREFIX ++ be_bytes 8 epoch_number ++ [COLON] ++ as_bytes public_key.

Definition get_publisher (public_key : string) : am (option Publisher) :=
  with_store (data ← get_raw (publisher_key public_key);
              match data with
              | Some data => p ← liftR (ok_or (publisher_from_slice data) (Internal "deserialize publisher"));
                             mret (Some p)
              | None => mret None
              end) None.

Definition save_publisher (p : Publisher) : am unit :=
  with_store (insert_raw (publisher_key (public_key p)) (publisher_to_vec p)) tt.

Definition add_publisher (now : Z) (public_key name : string) : am Publisher :=
  pk_bytes ← liftR (ok_or (hex_decode public_key) (Validation "invalid public key hex"));
  if negb (length pk_bytes =? 32)%nat then throw (Validation "public key must be 32 bytes")
  else if negb (verifying_key_ok pk_bytes) then throw (Validation "invalid ed25519 key")
  else
    old ← get_publisher public_key;
    match old with
    | Some _ => throw (Validation "publisher already registered")
    | None =>
      let publisher := {| public_key := public_key; name := name; registered_at := to_rfc3339 now |} in
      _ ← save_publisher publisher;
      mret publisher
    end.

Definition remove_publisher (public_key : string) : am unit :=
  with_store (remove_raw (publisher_key public_key)) tt.

Definition list_publishers : am (list Publisher) :=
  with_store (scan_prefix publisher_from_slice PUBLISHER_PREFIX) [].

Definition verify_signature (public_key_hex root_hex signature_hex : string) :
    result AuditError unit :=
  pk_bytes ← ok_or (hex_decode public_key_hex) (Validation "decode public key");
  sig_bytes ← ok_or (hex_decode signature_hex) (Validation "decode signature");
  root_bytes ← ok_or (hex_decode root_hex) (Validation "decode root");
  if negb (length pk_bytes =? 32)%nat then Err (Validation "public key must be 32 bytes")
  else if negb (length sig_bytes =? 64)%nat then Err (Validation "signature must be 64 bytes")
  else if negb (verifying_key_ok pk_bytes) then Err (Validation "invalid public key")
  else if negb (dalek_verify pk_bytes root_bytes sig_bytes)
       then Err (Validation "signature verification failed")
  else Ok tt.

Definition get_attestation (n : Z) (public_key : string) : am (option Attestation) :=
  with_store (data ← get_raw (attestation_key n public_key);
              match data with
              | Some data => a ← liftR (ok_or (attestation_from_slice data)
                                              (Internal "deserialize attestation"));
                             mret (Some a)
              | None => mret None
              end) None.

Definition save_attestation (a : Attestation) : am unit :=
  with_store (insert_raw (attestation_key (epoch_number a) (publisher_public_key a))
                         (attestation_to_vec a)) tt.

Definition submit_attestation (now n : Z) (root_hex public_key_ signature_hex : string) :
    am Attestation :=
  p ← get_publisher public_key_;
  publisher ← liftR (ok_or p (Validation "publisher not registered"));
  _ ← liftR (verify_signature (public_key publisher) root_hex signature_hex);
  old ← get_attestation n public_key_;
  match old with
  | Some _ => throw (Validation "publisher has already attested epoch")
  | None =>
    let attestation := {| epoch_number := n; a_root_hex := root_hex;
                          publisher_public_key := public_key_; signature := signature_hex;
                          submitted_at := to_rfc3339 now |} in
    _ ← save_attestation attestation;
    mret attestation
  end.

Definition list_attestations (n : Z) : am (list Attestation) :=
  with_store (scan_prefix attestation_from_slice (attestation_prefix n)) [].

Definition get_status (n : Z) (root_hex : string) : am AttestationStatus :=
  threshold ← gets k_threshold;
  publishers ← list_publishers;
  attestations ← list_attestations n;
  let valid_attestations := length attestations in
  let attested_by := map publisher_public_key attestations in
  let pending := filter (fun pk => pk ∉ attested_by) (map public_key publishers) in
  mret {| s_epoch_number := n; s_root_hex := root_hex; threshold := threshold;
          total_publishers := length publishers; valid_attestations := valid_attestations;
          threshold_met := (threshold <=? valid_attestations)%nat && (0 <? threshold)%nat;
          attested_by := attested_by; pending := pending |}.
End manager.
