(* ===== verification/AttestationSpec.v ===== *)
(** * What the attestation status means

    The attestations it counts are verified ones of distinct publisher strings; but they need
    not be of the root it is asked about, nor of distinct signing keys.  Then a concrete store
    with its publishers. *)

From S2P Require Import Prelude.
From S2P Require Import Bytes.
From S2P Require Import Interfaces.
From S2P Require Import AuditError.
From S2P Require Import PoseidonTree.
From S2P Require Import SledStore.
From S2P Require Import Attestation.
Local Open Scope Z_scope.

Section spec.
Context {Db : Type} {SD : SledDb Db} {Hexs : Hex} {Chr : Chrono}.
Context {AtJ : AttestationJson} {Dal : Dalek}.
Implicit Types (m : AttestationManager (Db := Db)) (db : Db) (a : Attestation) (n : Z).

(** ** Keys *)

Definition u64 n : Prop := 0 <= n < 2 ^ 64.

Lemma as_bytes_inj' s t : as_bytes s = as_bytes t -> s = t.
Proof. intros H. by rewrite <-(of_bytes_as_bytes s), <-(of_bytes_as_bytes t), H. Qed.

Lemma publisher_key_inj s t : publisher_key s = publisher_key t -> s = t.
Proof. unfold publisher_key. by intros ?%app_inv_head%as_bytes_inj'. Qed.

Lemma be_bytes_8_inj x y : u64 x -> u64 y -> be_bytes 8 x = be_bytes 8 y -> x = y.
Proof.
  unfold u64. intros Hx Hy H%(f_equal of_be_bytes). rewrite !of_be_be_bytes in H.
  change (256 ^ Z.of_nat 8) with (2 ^ 64) in H. rewrite !Z.mod_small in H; lia.
Qed.

(** The attestation keys with the prefix of an epoch are those of its attestations. *)
Lemma attestation_prefix_key n n' pk :
  u64 n -> u64 n' -> attestation_prefix n `prefix_of` attestation_key n' pk -> n = n'.
Proof.
  intros Hn Hn' [rest Heq]. unfold attestation_prefix, attestation_key in Heq.
  rewrite <-!app_assoc in Heq. apply app_inv_head in Heq.
  apply app_inj_1 in Heq as [Hb _]; [|by rewrite !length_be_bytes]. symmetry. by apply be_bytes_8_inj.
Qed.

Lemma attestation_prefix_of_key n pk : attestation_prefix n `prefix_of` attestation_key n pk.
Proof.
  exists (as_bytes pk). unfold attestation_prefix, attestation_key. by rewrite <-!app_assoc.
Qed.

Lemma attestation_not_publisher n pk : ~ attestation_prefix n `prefix_of` publisher_key pk.
Proof.
  intros [rest Heq]. unfold attestation_prefix, publisher_key in Heq.
  apply (f_equal head) in Heq. discriminate.
Qed.
Lemma publisher_not_attestation n pk : ~ PUBLISHER_PREFIX `prefix_of` attestation_key n pk.
Proof.
  intros [rest Heq]. unfold attestation_key in Heq. apply (f_equal head) in Heq. discriminate.
Qed.

Lemma attestation_key_inj n pk pk' : attestation_key n pk = attestation_key n pk' -> pk = pk'.
Proof.
  unfold attestation_key. intros H%app_inv_head%app_inv_head. by injection H as ?%as_bytes_inj'.
Qed.

(** ** Well-formed stores *)

Definition attestation_verified a : Prop :=
  u64 (epoch_number a) /\
  verify_signature (publisher_public_key a) (a_root_hex a) (signature a) = Ok tt.

(** Every entry is a publisher or a verified attestation under its own key. *)
Definition store_ok db : Prop :=
  forall k v, contents db !! k = Some v ->
    (exists p, k = publisher_key (public_key p) /\ v = publisher_to_vec p) \/
    (exists a, k = attestation_key (epoch_number a) (publisher_public_key a) /\
               v = attestation_to_vec a /\ attestation_verified a).
Definition manager_ok m : Prop := forall db, at_store m = Some db -> store_ok db.

Lemma store_ok_insert_publisher db db' p :
  store_ok db -> contents db' = <[publisher_key (public_key p) := publisher_to_vec p]> (contents db) ->
  store_ok db'.
Proof.
  intros Hok Hc k v. rewrite Hc. destruct (decide (k = publisher_key (public_key p))) as [->|Hk].
  - rewrite lookup_insert_eq. intros [= <-]. left. by exists p.
  - rewrite lookup_insert_ne by done. apply Hok.
Qed.

Lemma store_ok_insert_attestation db db' a :
  store_ok db -> attestation_verified a ->
  contents db' = <[attestation_key (epoch_number a) (publisher_public_key a) := attestation_to_vec a]>
                   (contents db) -> store_ok db'.
Proof.
  intros Hok Ha Hc k v. rewrite Hc.
  destruct (decide (k = attestation_key (epoch_number a) (publisher_public_key a))) as [->|Hk].
  - rewrite lookup_insert_eq. intros [= <-]. right. by exists a.
  - rewrite lookup_insert_ne by done. apply Hok.
Qed.

Lemma store_ok_delete db db' k : store_ok db -> contents db' = delete k (contents db) -> store_ok db'.
Proof. intros Hok Hc k' v. rewrite Hc. intros [_ Hv]%lookup_delete_Some. by apply Hok. Qed.

(** A raw write, whatever happens, leaves the old contents or the new ones. *)
Lemma insert_raw_contents k v db r db' :
  insert_raw k v db = (r, db') ->
  contents db' = contents db \/ contents db' = <[k := v]> (contents db).
Proof.
  unfold insert_raw, db_op. unfold mbind, stateR_bind.
  destruct (sled_insert k v db) as [db1|e] eqn:Hi; [|intros [= _ <-]; by left].
  apply sled_insert_Ok in Hi. destruct (sled_flush db1) as [db2|e] eqn:Hfl; intros [= _ <-].
  - apply sled_flush_Ok in Hfl. right. by rewrite Hfl.
  - by right.
Qed.

Lemma remove_raw_contents k db r db' :
  remove_raw k db = (r, db') ->
  contents db' = contents db \/ contents db' = delete k (contents db).
Proof.
  unfold remove_raw, db_op. unfold mbind, stateR_bind.
  destruct (sled_remove k db) as [db1|e] eqn:Hi; [|intros [= _ <-]; by left].
  apply sled_remove_Ok in Hi. destruct (sled_flush db1) as [db2|e] eqn:Hfl; intros [= _ <-].
  - apply sled_flush_Ok in Hfl. right. by rewrite Hfl.
  - by right.
Qed.

Lemma store_ok_same db db' : store_ok db -> contents db' = contents db -> store_ok db'.
Proof. intros Hok Hc k v. rewrite Hc. apply Hok. Qed.

(** Reads change nothing. *)
Lemma with_store_read {A} (op : stateR Db AuditError A) absent m :
  (forall db, (op db).2 = db) -> (with_store op absent m).2 = m.
Proof.
  intros Hop. unfold with_store. destruct m as [k [db|]]; cbn; [|done].
  specialize (Hop db). destruct (op db) as [r db']; cbn in *. by subst.
Qed.

Lemma get_publisher_same pk m : (get_publisher pk m).2 = m.
Proof.
  apply with_store_read. intros db. unfold get_raw, db_read. unfold mbind, stateR_bind.
  destruct (sled_get _ db) as [[v|]|e]; [|done..]. cbn. by destruct (publisher_from_slice v).
Qed.

Lemma get_attestation_same n pk m : (get_attestation n pk m).2 = m.
Proof.
  apply with_store_read. intros db. unfold get_raw, db_read. unfold mbind, stateR_bind.
  destruct (sled_get _ db) as [[v|]|e]; [|done..]. cbn. by destruct (attestation_from_slice v).
Qed.

Lemma scan_same {T} (f : list byte -> option T) p absent m : (with_store (scan_prefix f p) absent m).2 = m.
Proof.
  apply with_store_read. intros db. unfold scan_prefix, db_read. unfold mbind, stateR_bind.
  by destruct (sled_scan p db).
Qed.

(** A publisher the store returns has the key it was asked for. *)
Lemma get_publisher_ok pk m p m' :
  manager_ok m -> get_publisher pk m = (Ok (Some p), m') -> public_key p = pk.
Proof.
  intros Hok. unfold get_publisher, with_store. destruct (at_store m) as [db|] eqn:Hdb; [|done].
  unfold get_raw, db_read. unfold mbind, stateR_bind.
  destruct (sled_get _ db) as [v|e] eqn:Hg; [|done]. cbn. apply sled_get_Ok in Hg.
  destruct v as [v|]; [|done]. cbn. destruct (publisher_from_slice v) as [p'|] eqn:Hp; [|done].
  cbn. intros [= <- _]. symmetry in Hg.
  destruct (Hok db Hdb _ _ Hg) as [(q & Hk & ->)|(a & Hk & _)].
  - rewrite publisher_round_trip in Hp. injection Hp as <-. by apply publisher_key_inj in Hk.
  - exfalso. apply (publisher_not_attestation (epoch_number a) (publisher_public_key a)).
    rewrite <-Hk. by eexists.
Qed.

(** ** Reachable managers *)

Inductive reachable : AttestationManager (Db := Db) -> Prop :=
| reachable_new k : reachable (set_store sled_new (new k)).2
| reachable_threshold m k : reachable m -> reachable (set_threshold k m).2
| reachable_add m now pk name : reachable m -> reachable (add_publisher now pk name m).2
| reachable_remove m pk : reachable m -> reachable (remove_publisher pk m).2
| reachable_submit m now n root pk sig :
    u64 n -> reachable m -> reachable (submit_attestation now n root pk sig m).2.

Lemma save_ok m k v :
  (forall db db', at_store m = Some db -> contents db' = <[k := v]> (contents db) -> store_ok db') ->
  manager_ok m -> manager_ok (with_store (insert_raw k v) tt m).2.
Proof.
  intros Hnew Hok. unfold with_store. destruct (at_store m) as [db|] eqn:Hdb; [|by apply Hok].
  destruct (insert_raw k v db) as [r db'] eqn:Hi. intros db1 [= <-].
  apply insert_raw_contents in Hi as [Hc|Hc]; [|by eapply Hnew].
  eapply store_ok_same; [|done]. by apply Hok.
Qed.

Lemma reachable_manager_ok m : reachable m -> manager_ok m.
Proof.
  induction 1 as [k|m k _ IH|m now pk nm _ IH|m pk _ IH|m now n root pk sig Hn _ IH].
  - intros db [= <-] k' v. rewrite contents_new, lookup_empty. done.
  - exact IH.
  - unfold add_publisher. unfold mbind, stateR_bind, liftR, throw.
    destruct (hex_decode pk) as [bytes|]; cbn; [|done].
    destruct (negb _); [done|]. destruct (negb _); [done|].
    pose proof (get_publisher_same pk m) as Hs.
    destruct (get_publisher pk m) as [[[p|]|e] m1]; cbn in Hs; subst m1; [done| |done].
    set (p := {| public_key := pk; name := nm; registered_at := to_rfc3339 now |}).
    assert (manager_ok (save_publisher p m).2) as Hsave.
    { apply save_ok; [|done]. intros db db' Hdb Hc.
      by eapply (store_ok_insert_publisher db db' p); [apply IH|]. }
    by destruct (save_publisher p m) as [[]].
  - unfold remove_publisher, with_store. destruct (at_store m) as [db|] eqn:Hdb; [|exact IH].
    destruct (remove_raw _ db) as [r db'] eqn:Hr. intros db1 [= <-].
    apply remove_raw_contents in Hr as [Hc|Hc].
    + eapply store_ok_same; [|done]. by apply IH.
    + eapply store_ok_delete; [|done]. by apply IH.
  - unfold submit_attestation. unfold mbind, stateR_bind, liftR, throw.
    pose proof (get_publisher_same pk m) as Hs.
    destruct (get_publisher pk m) as [[[p|]|e] m1] eqn:Hp; cbn in Hs; subst m1; [|done..].
    apply get_publisher_ok in Hp; [|done]. cbn. subst pk.
    destruct (verify_signature _ root sig) as [[]|e] eqn:Hv; [|done].
    pose proof (get_attestation_same n (public_key p) m) as Hs.
    destruct (get_attestation n _ m) as [[[a|]|e] m1]; cbn in Hs; subst m1; [done| |done].
    set (a := {| epoch_number := n; a_root_hex := root; publisher_public_key := public_key p;
                 signature := sig; submitted_at := to_rfc3339 now |}).
    assert (manager_ok (save_attestation a m).2) as Hsave.
    { apply save_ok; [|done]. intros db db' Hdb Hc.
      by apply (store_ok_insert_attestation db db' a); [apply IH|split|]. }
    by destruct (save_attestation a m) as [[]].
Qed.

Lemma list_attestations_ok n m l m' :
  u64 n -> manager_ok m -> list_attestations n m = (Ok l, m') ->
  NoDup (publisher_public_key <$> l) /\
  Forall (fun a => epoch_number a = n /\ attestation_verified a) l.
Proof.
  intros Hn Hok. unfold list_attestations, with_store.
  destruct (at_store m) as [db|] eqn:Hdb; [|intros [= <- _]; split; constructor].
  unfold scan_prefix, db_read. unfold mbind, stateR_bind.
  destruct (sled_scan _ db) as [items|e] eqn:Hs; [|done]. cbn. unfold liftR.
  destruct (mapR _ items) as [l'|e] eqn:Hm; [|done]. intros [= <- _].
  apply mapR_Ok in Hm. pose proof (sled_scan_NoDup _ _ _ Hs) as Hnd.
  assert (Forall2 (fun kv a => kv.1 = attestation_key n (publisher_public_key a) /\
                               epoch_number a = n /\ attestation_verified a) items l') as H2.
  { eapply Forall2_impl_in; [exact Hm|]. intros [k v] a Hin _ Ha%ok_or_Ok. cbn in *.
    apply (sled_scan_Ok _ _ _ _ _ Hs) in Hin as [Hc Hp].
    destruct (Hok db Hdb _ _ Hc) as [(p & -> & _)|(a' & -> & -> & Hv)].
    - by apply attestation_not_publisher in Hp.
    - rewrite attestation_round_trip in Ha. injection Ha as <-.
      apply attestation_prefix_key in Hp as <-; [|done|apply Hv]. done. }
  split.
  - apply (NoDup_fmap_1 (attestation_key n)). rewrite <-list_fmap_compose.
    replace ((attestation_key n ∘ publisher_public_key) <$> l') with items.*1; [done|].
    clear -H2. induction H2 as [|kv a items l (Hk & _) _ IH]; [done|]. cbn. by rewrite Hk, IH.
  - eapply Forall2_Forall_r; [exact H2|]. apply Forall_true. by intros ? ? (_ & ? & ?).
Qed.

(** C31: what the status counts: in every reachable state the count is the number of stored
    attestations of that epoch, all with a verified signature over their own root, of
    pairwise different publisher strings, and the threshold is met exactly when it is
    positive and there are that many. *)
Theorem status_counts_verified m n root st m' :
  reachable m -> u64 n -> get_status n root m = (Ok st, m') ->
  exists l, list_attestations n m = (Ok l, m) /\
    attested_by st = map publisher_public_key l /\ NoDup (attested_by st) /\
    Forall (fun a => epoch_number a = n /\ attestation_verified a) l /\
    valid_attestations st = length l /\ threshold st = k_threshold m /\
    (threshold_met st = true <-> (0 < k_threshold m <= length l)%nat).
Proof.
  intros Hr Hn. unfold get_status. unfold mbind at 1, stateR_bind at 1, gets.
  unfold mbind at 1, stateR_bind at 1.
  pose proof (scan_same publisher_from_slice PUBLISHER_PREFIX [] m) as Hs1.
  fold (list_publishers (Db := Db)) in Hs1.
  destruct (list_publishers m) as [[ps|e] m1]; cbn in Hs1; subst m1; [|done].
  unfold mbind, stateR_bind.
  pose proof (scan_same attestation_from_slice (attestation_prefix n) [] m) as Hs2.
  fold (list_attestations (Db := Db) n) in Hs2.
  destruct (list_attestations n m) as [[l|e] m1] eqn:Hl; cbn in Hs2; subst m1; [|done].
  intros [= <- _]. destruct (list_attestations_ok n m l m Hn (reachable_manager_ok _ Hr) Hl) as [Hnd Hall].
  exists l. cbn [attested_by valid_attestations threshold threshold_met]. split_and!; try done.
  rewrite andb_true_iff, Nat.leb_le, Nat.ltb_lt. lia.
Qed.

(** But the status does not look at the root: the answer for any other root of the
    same epoch is the same, so attestations of a forged root meet the threshold of the
    genuine one. *)
Theorem status_ignores_root m n root root' :
  match get_status n root m, get_status n root' m with
  | (Ok st, m1), (Ok st', m2) =>
    m1 = m2 /\ s_root_hex st = root /\ s_root_hex st' = root' /\
    threshold_met st = threshold_met st' /\ attested_by st = attested_by st' /\
    pending st = pending st'
  | (Err e, m1), (Err e', m2) => e = e' /\ m1 = m2
  | _, _ => False
  end.
Proof.
  unfold get_status. unfold mbind, stateR_bind, gets, mret, stateR_ret.
  destruct (list_publishers m) as [[ps|e] m1]; [|done].
  by destruct (list_attestations n m1) as [[l|e] m2].
Qed.

(** ** One key, two publishers *)

Lemma insert_raw_run k v db :
  healthy db -> exists db', insert_raw k v db = (Ok tt, db') /\ healthy db' /\
    contents db' = <[k := v]> (contents db).
Proof.
  intros Hh. destruct (healthy_insert k v db Hh) as (db1 & Hi & Hh1).
  destruct (healthy_flush db1 Hh1) as (db2 & Hf & Hh2). exists db2.
  unfold insert_raw, db_op. unfold mbind, stateR_bind. rewrite Hi, Hf.
  split; [done|]. split; [done|]. by rewrite (sled_flush_Ok _ _ Hf), (sled_insert_Ok _ _ _ _ Hi).
Qed.

Lemma get_raw_run k db : healthy db -> get_raw k db = (Ok (contents db !! k), db).
Proof.
  intros Hh. unfold get_raw, db_read. pose proof (healthy_get k db Hh) as Hg.
  destruct (sled_get k db) as [v|e] eqn:Hs; [|done]. by rewrite (sled_get_Ok _ _ _ Hs).
Qed.

Definition store_of (k : nat) db : AttestationManager := {| k_threshold := k; at_store := Some db |}.

Lemma add_publisher_run k db now pk bytes nm :
  healthy db -> hex_decode pk = Some bytes -> length bytes = 32%nat -> verifying_key_ok bytes = true ->
  contents db !! publisher_key pk = None ->
  let p := {| public_key := pk; name := nm; registered_at := to_rfc3339 now |} in
  exists db', add_publisher now pk nm (store_of k db) = (Ok p, store_of k db') /\ healthy db' /\
    contents db' = <[publisher_key pk := publisher_to_vec p]> (contents db).
Proof.
  intros Hh Hpk Hl Hv Hnone p.
  destruct (insert_raw_run (publisher_key pk) (publisher_to_vec p) db Hh) as (db' & Hi & Hh' & Hc).
  exists db'. split; [|done]. unfold add_publisher, get_publisher, save_publisher, with_store.
  unfold mbind, stateR_bind, liftR. rewrite Hpk. cbn. rewrite (proj2 (Nat.eqb_eq _ _) Hl), Hv. cbn.
  rewrite get_raw_run, Hnone by done. cbn. fold p. change (public_key p) with pk. by rewrite Hi.
Qed.

Lemma submit_run k db now n root pk p sig :
  healthy db -> contents db !! publisher_key pk = Some (publisher_to_vec p) -> public_key p = pk ->
  verify_signature pk root sig = Ok tt -> contents db !! attestation_key n pk = None ->
  let a := {| epoch_number := n; a_root_hex := root; publisher_public_key := pk; signature := sig;
              submitted_at := to_rfc3339 now |} in
  exists db', submit_attestation now n root pk sig (store_of k db) = (Ok a, store_of k db') /\
    healthy db' /\ contents db' = <[attestation_key n pk := attestation_to_vec a]> (contents db).
Proof.
  intros Hh Hp Hpk Hv Hnone a.
  destruct (insert_raw_run (attestation_key n pk) (attestation_to_vec a) db Hh) as (db' & Hi & Hh' & Hc).
  exists db'. split; [|done].
  unfold submit_attestation, get_publisher, get_attestation, save_attestation, with_store.
  unfold mbind, stateR_bind, liftR. cbn.
  rewrite get_raw_run, Hp by done. cbn. rewrite publisher_round_trip. cbn. rewrite Hpk, Hv.
  rewrite get_raw_run, Hnone by done. cbn. fold a. change (attestation_key _ _) with (attestation_key n pk).
  by rewrite Hi.
Qed.

Lemma attestation_key_not_publisher n pk pk' : attestation_key n pk <> publisher_key pk'.
Proof. intros H. apply (publisher_not_attestation n pk). rewrite H. by eexists. Qed.

(** Scanning for records that all parse. *)
Lemma scan_prefix_run {T} (f : list byte -> option T) p db :
  healthy db -> (forall k v, contents db !! k = Some v -> p `prefix_of` k -> is_Some (f v)) ->
  exists (items : list (list byte * list byte)) (l : list T), scan_prefix f p db = (Ok l, db) /\ length l = length items /\ NoDup items.*1 /\
    forall k, k ∈ items.*1 <-> is_Some (contents db !! k) /\ p `prefix_of` k.
Proof.
  intros Hh Hf. destruct (healthy_scan p db Hh) as [items Hs].
  assert (exists l, mapR (fun kv => ok_or (f kv.2) (Internal "deserialize scan result")) items = Ok l
                    /\ length l = length items) as (l & Hl & Hlen).
  { assert (forall kv, kv ∈ items -> is_Some (f kv.2)) as Hall.
    { intros [k v] Hin. apply (sled_scan_Ok _ _ _ _ _ Hs) in Hin as [Hc Hp]. by eapply Hf. }
    clear Hs. induction items as [|kv items IH]; [by exists []|].
    destruct (Hall kv ltac:(by left)) as [x Hx].
    destruct IH as (l & Hl & Hlen); [intros; apply Hall; by right|].
    exists (x :: l). cbn. rewrite Hx. cbn. rewrite Hl. cbn. by rewrite Hlen. }
  exists items, l. split; [|split; [done|split; [by eapply sled_scan_NoDup|]]].
  - unfold scan_prefix, db_read. unfold mbind, stateR_bind. rewrite Hs. cbn. unfold liftR. by rewrite Hl.
  - intros k. rewrite list_elem_of_fmap. split.
    + intros ([k' v] & -> & Hin). apply (sled_scan_Ok _ _ _ _ _ Hs) in Hin as [Hc Hp].
      split; [by eexists|done].
    + intros [[v Hv] Hp]. exists (k, v). split; [done|]. by apply (sled_scan_Ok _ _ _ _ _ Hs).
Qed.

(** And one signing key can meet a threshold of two: publishers are told apart by
    their hex text, so the holder of a key registered under two spellings of it attests
    the same root twice, with the same signature, and the status reports the threshold
    met. *)
Theorem one_key_meets_threshold db now pk pk' bytes nm nm' n root sig :
  healthy db -> contents db = ∅ -> u64 n -> pk <> pk' ->
  hex_decode pk = Some bytes -> hex_decode pk' = Some bytes ->
  verify_signature pk root sig = Ok tt ->
  let m1 := (add_publisher now pk nm (store_of 2 db)).2 in
  let m2 := (add_publisher now pk' nm' m1).2 in
  let m3 := (submit_attestation now n root pk sig m2).2 in
  let m4 := (submit_attestation now n root pk' sig m3).2 in
  exists st, get_status n root m4 = (Ok st, m4) /\ valid_attestations st = 2%nat /\
    threshold st = 2%nat /\ threshold_met st = true.
Proof.
  intros Hh Hempty Hn Hne Hpk Hpk' Hv.
  assert (length bytes = 32%nat /\ verifying_key_ok bytes = true) as [Hl Hok].
  { unfold verify_signature in Hv. rewrite Hpk in Hv. cbn in Hv.
    apply bind_Ok_inv in Hv as (sb & _ & Hv). apply bind_Ok_inv in Hv as (rb & _ & Hv).
    destruct (Nat.eqb_spec (length bytes) 32); [|done]. cbn in Hv.
    destruct (negb _); [done|]. by destruct (verifying_key_ok bytes). }
  assert (verify_signature pk' root sig = Ok tt) as Hv'
    by (revert Hv; unfold verify_signature; by rewrite Hpk, Hpk').
  assert (publisher_key pk <> publisher_key pk') as Hkne by (by intros ?%publisher_key_inj).
  assert (attestation_key n pk <> attestation_key n pk') as Hane by (by intros ?%attestation_key_inj).
  destruct (add_publisher_run 2 db now pk bytes nm) as (db1 & E1 & Hh1 & C1);
    [done..|by rewrite Hempty, lookup_empty|].
  destruct (add_publisher_run 2 db1 now pk' bytes nm') as (db2 & E2 & Hh2 & C2);
    [done..|by rewrite C1, lookup_insert_ne, Hempty, lookup_empty|].
  set (p := {| public_key := pk; name := nm; registered_at := to_rfc3339 now |}) in *.
  set (p' := {| public_key := pk'; name := nm'; registered_at := to_rfc3339 now |}) in *.
  destruct (submit_run 2 db2 now n root pk p sig) as (db3 & E3 & Hh3 & C3); [done| |done|done| |].
  { by rewrite C2, lookup_insert_ne, C1, lookup_insert_eq. }
  { rewrite C2, C1, Hempty, !lookup_insert_ne; [by rewrite lookup_empty|..];
      intros H; by apply (attestation_key_not_publisher n pk _ (eq_sym H)). }
  destruct (submit_run 2 db3 now n root pk' p' sig) as (db4 & E4 & Hh4 & C4); [done| |done|done| |].
  { rewrite C3, lookup_insert_ne by apply attestation_key_not_publisher.
    by rewrite C2, lookup_insert_eq. }
  { rewrite C3, lookup_insert_ne by done. rewrite C2, C1, Hempty, !lookup_insert_ne;
      [by rewrite lookup_empty|..]; intros H; by apply (attestation_key_not_publisher n pk' _ (eq_sym H)). }
  rewrite E1. cbn [snd]. rewrite E2. cbn [snd]. rewrite E3. cbn [snd]. rewrite E4. cbn [snd].
  rewrite C3, C2, C1, Hempty in C4.
  destruct (scan_prefix_run publisher_from_slice PUBLISHER_PREFIX db4 Hh4) as (it1 & l1 & S1 & _).
  { intros k v. rewrite C4, !lookup_insert_Some, lookup_empty.
    intros [[<- <-]|(_ & [[<- <-]|(_ & [[<- <-]|(_ & [[<- <-]|[_ ?]])])])] Hp;
      rewrite ?publisher_round_trip; try done; by apply publisher_not_attestation in Hp. }
  destruct (scan_prefix_run attestation_from_slice (attestation_prefix n) db4 Hh4)
    as (it2 & l2 & S2 & Hlen & Hnd & Hin).
  { intros k v. rewrite C4, !lookup_insert_Some, lookup_empty.
    intros [[<- <-]|(_ & [[<- <-]|(_ & [[<- <-]|(_ & [[<- <-]|[_ ?]])])])] Hp;
      rewrite ?attestation_round_trip; try done; by apply attestation_not_publisher in Hp. }
  assert (length l2 = 2%nat) as Hl2.
  { rewrite Hlen, <-(length_fmap fst). apply (Permutation_length (l' := [attestation_key n pk; attestation_key n pk'])).
    apply NoDup_Permutation; [done|by repeat constructor; set_solver|].
    intros k. rewrite Hin, C4. split.
    - rewrite <-not_eq_None_Some, !lookup_insert_None, lookup_empty. intros [Hk Hp].
      destruct (decide (k = attestation_key n pk')) as [->|]; [set_solver|].
      destruct (decide (k = attestation_key n pk)) as [->|]; [set_solver|].
      exfalso. apply Hk. split_and!; try done; intros <-; by apply attestation_not_publisher in Hp.
    - rewrite !elem_of_cons. intros [->|[->|[]%elem_of_nil]];
        (split; [|apply attestation_prefix_of_key]).
      + rewrite lookup_insert_ne, lookup_insert_eq by done. by eexists.
      + rewrite lookup_insert_eq. by eexists. }
  unfold get_status. unfold mbind, stateR_bind, gets, list_publishers, list_attestations, with_store.
  cbn [at_store store_of k_threshold]. rewrite S1. cbn [at_store k_threshold]. rewrite S2.
  eexists. split; [reflexivity|]. cbn. by rewrite Hl2.
Qed.
End spec.

(** ** Attestations in a concrete store *)

From S2P Require Import AuditExample.
Local Open Scope Z_scope.
Import Concrete MemoryDb.

#[export] Instance Publisher_eq_dec : EqDecision Publisher.
Proof. solve_decision. Defined.
#[export] Instance Publisher_countable : Countable Publisher.
Proof.
  by apply (inj_countable' (fun p => [public_key p; name p; registered_at p])
    (fun l => {| public_key := nth 0 l ""%string; name := nth 1 l ""%string;
                 registered_at := nth 2 l ""%string |})); intros [].
Defined.
#[export] Instance Attestation_eq_dec : EqDecision Attestation.
Proof. solve_decision. Defined.
#[export] Instance Attestation_countable : Countable Attestation.
Proof.
  by apply (inj_countable'
    (fun a => (epoch_number a, [a_root_hex a; publisher_public_key a; signature a; submitted_at a]))
    (fun p => {| epoch_number := p.1; a_root_hex := nth 0 p.2 ""%string;
                 publisher_public_key := nth 1 p.2 ""%string; signature := nth 2 p.2 ""%string;
                 submitted_at := nth 3 p.2 ""%string |})); intros [].
Defined.

#[local] Obligation Tactic := idtac.
#[export] Program Instance plain_attestation_json : AttestationJson :=
  {| publisher_to_vec p := pos_bits (encode p);
     publisher_from_slice l := decode (bits_pos l);
     attestation_to_vec a := pos_bits (encode a);
     attestation_from_slice l := decode (bits_pos l) |}.
Next Obligation. intros p. cbv beta. by rewrite bits_pos_bits, decode_encode. Qed.
Next Obligation. intros a. cbv beta. by rewrite bits_pos_bits, decode_encode. Qed.

(** A signature repeats the first byte of the key. *)
#[export] Instance toy_dalek : Dalek :=
  {| verifying_key_ok _ := true; dalek_verify pk _ sig := bool_decide (head pk = head sig) |}.

Definition spelled (b : byte) (n : nat) : string := of_bytes (List.repeat b n).
Definition lower_key : string := spelled x61 64.
Definition upper_key : string := spelled x41 64.
Definition toy_signature : string := spelled x61 128.

Lemma one_key_meets_threshold_witness :
  let m1 := (add_publisher 0 lower_key "alice" (store_of 2 empty_db)).2 in
  let m2 := (add_publisher 0 upper_key "bob" m1).2 in
  let m3 := (submit_attestation 0 7 "00" lower_key toy_signature m2).2 in
  let m4 := (submit_attestation 0 7 "00" upper_key toy_signature m3).2 in
  exists st, get_status 7 "00" m4 = (Ok st, m4) /\ valid_attestations st = 2%nat /\
    threshold st = 2%nat /\ threshold_met st = true.
Proof.
  apply (one_key_meets_threshold empty_db 0 lower_key upper_key (List.repeat xaa 32) "alice" "bob" 7
           "00" toy_signature); [reflexivity|reflexivity|split; [discriminate|reflexivity]
    |vm_compute; discriminate|vm_compute; reflexivity..].
Defined.

Definition attested_manager : AttestationManager :=
  (submit_attestation 0 7 "00" lower_key toy_signature
     (add_publisher 0 lower_key "alice" (set_store sled_new (new 1)).2).2).2.

Lemma attested_reachable : reachable attested_manager.
Proof.
  apply reachable_submit; [split; [discriminate|reflexivity]|].
  apply reachable_add, reachable_new.
Qed.

Lemma attested_status :
  match get_status 7 "ff" attested_manager with
  | (Ok st, _) => threshold_met st && (valid_attestations st =? 1)%nat | _ => false end = true.
Proof. by vm_compute. Qed.

Lemma status_counts_verified_witness :
  exists st l, (get_status 7 "ff" attested_manager).1 = Ok st /\
    list_attestations 7 attested_manager = (Ok l, attested_manager) /\
    threshold_met st = true /\ length l = valid_attestations st.
Proof.
  pose proof attested_status as Hok.
  destruct (get_status 7 "ff" attested_manager) as [[st|e] m'] eqn:Hs; [|discriminate Hok].
  apply andb_true_iff in Hok as [Hmet _].
  destruct (status_counts_verified attested_manager 7 "ff" st m') as (l & Hl & _ & _ & _ & Hn & _);
    [apply attested_reachable|split; [discriminate|reflexivity]|exact Hs|].
  exists st, l. split; [exact eq_refl|]. split; [exact Hl|]. split; [exact Hmet|].
  symmetry. exact Hn.
Defined.
