(* ===== verification/JobStore.v ===== *)
(** * Job store (src-tauri/src/mongo/job_store.rs)

    The dump, restore, export and import jobs with their history, logs and cancel flags,
    saved as one JSON line per job.  A method changes the store under one write lock and
    writes the file under the read lock it takes next, so the last save after a change
    sees it: each method is one operation here.  [chrono_now()] is an argument, and a
    write of the file succeeds. *)

From S2P Require Import Prelude.
From S2P Require Import Bytes.
From S2P Require Import Text.
Local Open Scope N_scope.

(** ** Data *)

Inductive JobKind := Dump | Restore | Export | Import.
Inductive JobStatus := Queued | Running | Done | Failed | Cancelled.
#[export] Instance JobKind_eq_dec : EqDecision JobKind.
Proof. solve_decision. Defined.
#[export] Instance JobStatus_eq_dec : EqDecision JobStatus.
Proof. solve_decision. Defined.

Record ScheduleConfig := {
  cron : string;
  enabled : bool;
  retention_count : option N;
  next_run_at : option string;
}.

Record JobMeta := {
  job_id : string;
  kind : JobKind;
  status : JobStatus;
  connection_id : string;
  profile_id : string;
  database : string;
  collections : list string;
  created_at : string;
  started_at : option string;
  finished_at : option string;
  output_path : option string;
  source_path : option string;
  schedule : option ScheduleConfig;
  parent_job_id : option string;
  processed : N;
  total : option N;
  errors : N;
  message : string;
  config_json : option string;
}.

Definition new_meta (now job_id : string) (kind : JobKind) (connection_id database : string) : JobMeta :=
  {| job_id := job_id; kind := kind; status := Queued; connection_id := connection_id;
     profile_id := ""; database := database; collections := []; created_at := now;
     started_at := None; finished_at := None; output_path := None; source_path := None;
     schedule := None; parent_job_id := None; processed := 0; total := None; errors := 0;
     message := ""; config_json := None |}.

Inductive LogLevel := Info | Warn | Error.
Record JobLogEntry := { timestamp : string; level : LogLevel; text : string }.

Record JobFilter := {
  f_connection_id : option string;
  f_profile_id : option string;
  f_database : option string;
  f_kind : option JobKind;
  f_status : option JobStatus;
  f_limit : option nat;
}.

(** The cancel flags are shared: [active] holds references into [flags]. *)
Record JobStore := {
  active : gmap string nat;
  flags : list bool;
  jobs : list JobMeta;
  logs : gmap string (list JobLogEntry);
  persist_path : option string;
  files : gmap string string;
}.

(** [serde_json] on a job: one line of text that parses back. *)
Class JobJson := {
  job_to_string : JobMeta -> string;
  job_from_str : string -> option JobMeta;
  job_round_trip j : job_from_str (job_to_string j) = Some j;
  job_one_line j : one_line (job_to_string j);
}.

Definition set_jobs js (s : JobStore) : JobStore :=
  Build_JobStore (active s) (flags s) js (logs s) (persist_path s) (files s).
Definition set_logs ls (s : JobStore) : JobStore :=
  Build_JobStore (active s) (flags s) (jobs s) ls (persist_path s) (files s).

(** Setters of a job. *)
Definition inherit (sc : option ScheduleConfig) (parent : option string) (profile : string) (j : JobMeta) : JobMeta :=
  Build_JobMeta (job_id j) (kind j) (status j) (connection_id j) profile (database j) (collections j)
    (created_at j) (started_at j) (finished_at j) (output_path j) (source_path j) sc parent
    (processed j) (total j) (errors j) (message j) (config_json j).
Definition set_status (st : JobStatus) (msg : string) (started finished : option string) (j : JobMeta) : JobMeta :=
  Build_JobMeta (job_id j) (kind j) st (connection_id j) (profile_id j) (database j) (collections j)
    (created_at j) started finished (output_path j) (source_path j) (schedule j) (parent_job_id j)
    (processed j) (total j) (errors j) msg (config_json j).
Definition set_progress (p : N) (t : option N) (e : N) (j : JobMeta) : JobMeta :=
  Build_JobMeta (job_id j) (kind j) (status j) (connection_id j) (profile_id j) (database j) (collections j)
    (created_at j) (started_at j) (finished_at j) (output_path j) (source_path j) (schedule j)
    (parent_job_id j) p t e (message j) (config_json j).
Definition set_next_run (t : option string) (j : JobMeta) : JobMeta :=
  inherit ((fun s => Build_ScheduleConfig (cron s) (enabled s) (retention_count s) t) <$> schedule j)
    (parent_job_id j) (profile_id j) j.

(** ** Operations *)

Section store.
Context {JJ : JobJson}.

Definition new (files : gmap string string) : JobStore := Build_JobStore ∅ [] [] ∅ None files.

(** Lines that do not parse are dropped. *)
Definition with_path (path : option string) (files : gmap string string) : JobStore :=
  let loaded := match path with
                | Some p => match files !! p with
                            | Some text => omap job_from_str (lines text)
                            | None => []
                            end
                | None => []
                end in
  Build_JobStore ∅ [] loaded ∅ path files.

Definition save (s : JobStore) : JobStore :=
  match persist_path s with
  | Some path =>
    Build_JobStore (active s) (flags s) (jobs s) (logs s) (persist_path s)
      (<[path := join newline (map job_to_string (jobs s))]> (files s))
  | None => s
  end.

Definition find_job (id : string) (js : list JobMeta) : option (nat * JobMeta) :=
  list_find (fun j => job_id j = id) js.
(** [jobs.iter_mut().find(|j| j.job_id == id)] *)
Definition update_job (id : string) (f : JobMeta -> JobMeta) (js : list JobMeta) : list JobMeta :=
  match find_job id js with Some (i, j) => <[i := f j]> js | None => js end.

Definition create_job (meta : JobMeta) (s : JobStore) : string * JobStore :=
  let id := job_id meta in
  let meta := match find_job id (jobs s) with
              | Some (_, existing) =>
                inherit (match schedule meta with None => schedule existing | sc => sc end)
                        (match parent_job_id meta with None => parent_job_id existing | p => p end)
                        (if bool_decide (profile_id meta = ""%string) then profile_id existing
                         else profile_id meta) meta
              | None => meta
              end in
  let js := filter (fun j => job_id j <> id) (jobs s) ++ [meta] in
  (id, save (set_jobs js s)).

(** A fresh flag, shared with the caller. *)
Definition register (job_id : string) (s : JobStore) : nat * JobStore :=
  let r := length (flags s) in
  (r, Build_JobStore (<[job_id := r]> (active s)) (flags s ++ [false]) (jobs s) (logs s)
        (persist_path s) (files s)).

Definition cancel (job_id : string) (s : JobStore) : bool * JobStore :=
  match active s !! job_id with
  | Some r => (true, Build_JobStore (active s) (<[r := true]> (flags s)) (jobs s) (logs s)
                       (persist_path s) (files s))
  | None => (false, s)
  end.

Definition unregister (job_id : string) (s : JobStore) : JobStore :=
  Build_JobStore (delete job_id (active s)) (flags s) (jobs s) (logs s) (persist_path s) (files s).

Definition update_status (now job_id : string) (st : JobStatus) (message : string) (s : JobStore) : JobStore :=
  save (set_jobs (update_job job_id (fun j =>
    set_status st message
      (match st, started_at j with Running, None => Some now | _, t => t end)
      (match st with Done | Failed | Cancelled => Some now | _ => finished_at j end) j) (jobs s)) s).

Definition update_progress (job_id : string) (processed : N) (total_ : option N) (errors : N)
    (s : JobStore) : JobStore :=
  save (set_jobs (update_job job_id (fun j =>
    set_progress processed (match total_ with Some t => Some t | None => total j end) errors j) (jobs s)) s).

Definition append_log (job_id : string) (entry : JobLogEntry) (s : JobStore) : JobStore :=
  set_logs (<[job_id := default [] (logs s !! job_id) ++ [entry]]> (logs s)) s.
Definition log_info (now job_id message : string) : JobStore -> JobStore :=
  append_log job_id {| timestamp := now; level := Info; text := message |}.
Definition log_warn (now job_id message : string) : JobStore -> JobStore :=
  append_log job_id {| timestamp := now; level := Warn; text := message |}.
Definition log_error (now job_id message : string) : JobStore -> JobStore :=
  append_log job_id {| timestamp := now; level := Error; text := message |}.

Definition matches (f : JobFilter) (j : JobMeta) : bool :=
  match f_connection_id f with Some id => bool_decide (connection_id j = id) | None => true end &&
  match f_profile_id f with
  | Some id => bool_decide (profile_id j = ""%string) || bool_decide (profile_id j = id)
  | None => true
  end &&
  match f_database f with Some db => bool_decide (database j = db) | None => true end &&
  match f_kind f with Some k => bool_decide (kind j = k) | None => true end &&
  match f_status f with Some st => bool_decide (status j = st) | None => true end.

(** [b.created_at.cmp(&a.created_at)]: the later text first. *)
Definition newer (a b : JobMeta) : bool := String.leb (created_at b) (created_at a).

Definition list_jobs (f : JobFilter) (s : JobStore) : list JobMeta :=
  let out := sort_by newer (filter (fun j => matches f j = true) (jobs s)) in
  match f_limit f with Some limit => take limit out | None => out end.

Definition get (job_id : string) (s : JobStore) : option JobMeta := snd <$> find_job job_id (jobs s).
Definition get_log (job_id : string) (s : JobStore) : list JobLogEntry := default [] (logs s !! job_id).

Definition delete_job (id : string) (s : JobStore) : bool * JobStore :=
  let js := filter (fun j => job_id j <> id) (jobs s) in
  let removed := (length js <? length (jobs s))%nat in
  (removed, if removed then save (set_logs (delete id (logs s)) (set_jobs js s)) else set_jobs js s).

Definition active_status (st : JobStatus) : bool :=
  match st with Running | Queued => true | _ => false end.

(** [parse_instant] is [DateTime::parse_from_rfc3339]. *)
Definition is_due (parse_instant : string -> option Z) (now : Z) (j : JobMeta) : bool :=
  bool_decide (parent_job_id j = None) && negb (active_status (status j)) &&
  match schedule j with
  | Some sc =>
    enabled sc &&
    match next_run_at sc with
    | Some t => match parse_instant t with Some dt => Z.leb dt now | None => false end
    | None => false
    end
  | None => false
  end.
Definition due_jobs (parse_instant : string -> option Z) (now : Z) (s : JobStore) : list JobMeta :=
  filter (fun j => is_due parse_instant now j = true) (jobs s).

Definition update_next_run (job_id : string) (t : option string) (s : JobStore) : JobStore :=
  save (set_jobs (update_job job_id (set_next_run t) (jobs s)) s).

(** The finished runs of a template. *)
Definition finished_run (template : string) (j : JobMeta) : bool :=
  bool_decide (parent_job_id j = Some template) && negb (active_status (status j)).

Definition cleanup_retention (template : string) (retention_count : nat) (s : JobStore) : nat * JobStore :=
  let runs := sort_by newer (filter (fun j => finished_run template j = true) (jobs s)) in
  let to_remove := map job_id (drop retention_count runs) in
  let js := filter (fun j => job_id j ∉ to_remove) (jobs s) in
  let removed := (length (jobs s) - length js)%nat in
  (removed,
   if (0 <? removed)%nat then
     save (set_logs (foldr (fun id m => delete id m) (logs s) to_remove) (set_jobs js s))
   else set_jobs js s).
End store.
