(* ===== verification/JobSpec.v ===== *)
(** * What the job store promises

    A store reached by any sequence of operations keeps one record per id and one cancel
    flag per registration, and a restart reads its jobs back; retention removes exactly
    the oldest finished runs of a template. *)

From S2P Require Import Prelude.
From S2P Require Import Bytes.
From S2P Require Import Text.
From S2P Require Import JobStore.
Local Open Scope nat_scope.

Section spec.
Context {JJ : JobJson}.
Implicit Types (s : JobStore) (j : JobMeta).

(** ** Every operation of the store *)

Inductive op :=
| Create (meta : JobMeta)
| Register (id : string)
| Cancel (id : string)
| Unregister (id : string)
| UpdateStatus (now id : string) (st : JobStatus) (msg : string)
| UpdateProgress (id : string) (p : N) (t : option N) (e : N)
| AppendLog (id : string) (entry : JobLogEntry)
| UpdateNextRun (id : string) (t : option string)
| Delete (id : string)
| Cleanup (template : string) (n : nat).

Definition apply (o : op) (s : JobStore) : JobStore :=
  match o with
  | Create meta => (create_job meta s).2
  | Register id => (register id s).2
  | Cancel id => (cancel id s).2
  | Unregister id => unregister id s
  | UpdateStatus now id st msg => update_status now id st msg s
  | UpdateProgress id p t e => update_progress id p t e s
  | AppendLog id entry => append_log id entry s
  | UpdateNextRun id t => update_next_run id t s
  | Delete id => (delete_job id s).2
  | Cleanup template n => (cleanup_retention template n s).2
  end.
Definition apply_all (os : list op) (s : JobStore) : JobStore := foldl (fun s o => apply o s) s os.

(** ** Updates in place *)

Lemma find_job_Some id js i j : find_job id js = Some (i, j) -> js !! i = Some j /\ job_id j = id.
Proof. by intros (? & ? & _)%list_find_Some. Qed.

Lemma update_job_ids id f js :
  (forall j, job_id (f j) = job_id j) -> map job_id (update_job id f js) = map job_id js.
Proof.
  intros Hf. unfold update_job. destruct (find_job id js) as [[i j]|] eqn:H; [|done].
  apply find_job_Some in H as [Hi _]. change (job_id <$> <[i:=f j]> js = job_id <$> js).
  rewrite list_fmap_insert, Hf. apply list_insert_id. by rewrite list_lookup_fmap, Hi.
Qed.

Lemma NoDup_filter_ids (P : JobMeta -> Prop) `{!forall j, Decision (P j)} js :
  NoDup (map job_id js) -> NoDup (map job_id (filter P js)).
Proof.
  intros Hn. eapply sublist_NoDup; [exact Hn|]. apply fmap_sublist, sublist_filter.
Qed.

(** ** The invariant *)

(** One record per id; every registration has a flag of its own. *)
Record store_ok (s : JobStore) : Prop := {
  ok_ids : NoDup (map job_id (jobs s));
  ok_refs : forall id r, active s !! id = Some r -> r < length (flags s);
  ok_alias : forall id id' r, active s !! id = Some r -> active s !! id' = Some r -> id = id';
}.

Lemma jobs_save s : jobs (save s) = jobs s.
Proof. unfold save. by destruct (persist_path s). Qed.
Lemma active_save s : active (save s) = active s.
Proof. unfold save. by destruct (persist_path s). Qed.
Lemma flags_save s : flags (save s) = flags s.
Proof. unfold save. by destruct (persist_path s). Qed.
Lemma path_save s : persist_path (save s) = persist_path s.
Proof. unfold save. destruct (persist_path s) eqn:E; [reflexivity|exact E]. Qed.
Lemma logs_save s : logs (save s) = logs s.
Proof. unfold save. by destruct (persist_path s). Qed.

Lemma store_ok_jobs s s' :
  active s' = active s -> flags s' = flags s -> NoDup (map job_id (jobs s')) -> store_ok s -> store_ok s'.
Proof. intros Ha Hf Hj [_ Hr Hal]. split; rewrite ?Ha, ?Hf; done. Qed.

Lemma create_job_ids meta s :
  NoDup (map job_id (jobs s)) -> NoDup (map job_id (jobs (create_job meta s).2)).
Proof.
  intros Hs. unfold create_job. cbn. rewrite jobs_save. cbn. rewrite map_app.
  set (m := match find_job _ _ with Some _ => _ | None => meta end).
  assert (job_id m = job_id meta) as Hm by (subst m; by destruct (find_job _ _) as [[]|]).
  apply NoDup_app. split_and!; [by apply NoDup_filter_ids| |apply NoDup_singleton].
  intros id Hid. cbn. rewrite Hm, list_elem_of_singleton. intros ->.
  change (job_id meta ∈ job_id <$> filter (fun j => job_id j <> job_id meta) (jobs s)) in Hid.
  apply list_elem_of_fmap in Hid as (j & Hj & Hin). apply list_elem_of_filter in Hin as [Hne _]. done.
Qed.

Lemma create_fresh meta s :
  job_id meta ∉ map job_id (jobs s) -> jobs (create_job meta s).2 = jobs s ++ [meta].
Proof.
  intros Hf. assert (forall j, j ∈ jobs s -> job_id j <> job_id meta) as Hne.
  { intros j Hj He. apply Hf. rewrite <-He. by apply (list_elem_of_fmap_2 job_id). }
  unfold create_job. cbn [snd]. rewrite jobs_save. cbn.
  destruct (find_job (job_id meta) (jobs s)) as [[i j]|] eqn:H.
  - apply find_job_Some in H as [Hi Hid]. by apply list_elem_of_lookup_2, Hne in Hi.
  - by rewrite list_filter_all by by apply Forall_forall.
Qed.

Lemma cleanup_jobs template n s :
  jobs (cleanup_retention template n s).2 =
  filter (fun j => job_id j ∉ map job_id
            (drop n (sort_by newer (filter (fun j => finished_run template j = true) (jobs s))))) (jobs s).
Proof. unfold cleanup_retention. cbn [snd]. case_match; [by rewrite jobs_save|done]. Qed.

Lemma delete_jobs id s : jobs (delete_job id s).2 = filter (fun j => job_id j <> id) (jobs s).
Proof. unfold delete_job. cbn [snd]. case_match; [by rewrite jobs_save|done]. Qed.

Lemma apply_flags o s :
  (forall id, o <> Register id) -> (forall id, o <> Cancel id) -> (forall id, o <> Unregister id) ->
  active (apply o s) = active s /\ flags (apply o s) = flags s.
Proof.
  intros H1 H2 H3. destruct o as [meta|id|id|id|now id st msg|id p t e|id entry|id t|id|tmpl n]; cbn [apply].
  1, 5, 6, 8: unfold create_job, update_status, update_progress, update_next_run; cbn [snd];
    by rewrite active_save, flags_save.
  - by destruct (H1 id).
  - by destruct (H2 id).
  - by destruct (H3 id).
  - done.
  - unfold delete_job. cbn [snd]. case_match; [by rewrite active_save, flags_save|done].
  - unfold cleanup_retention. cbn [snd]. case_match; [by rewrite active_save, flags_save|done].
Qed.

Lemma apply_ids o s : NoDup (map job_id (jobs s)) -> NoDup (map job_id (jobs (apply o s))).
Proof.
  intros Hs. destruct o; cbn [apply]; try done.
  - by apply create_job_ids.
  - unfold cancel. by destruct (active s !! id).
  - unfold update_status. rewrite jobs_save. cbn. by rewrite update_job_ids.
  - unfold update_progress. rewrite jobs_save. cbn. by rewrite update_job_ids.
  - unfold update_next_run. rewrite jobs_save. cbn. by rewrite update_job_ids.
  - rewrite delete_jobs. by apply NoDup_filter_ids.
  - rewrite cleanup_jobs. by apply NoDup_filter_ids.
Qed.

Lemma apply_ok o s : store_ok s -> store_ok (apply o s).
Proof.
  intros Hs. pose proof (apply_ids o s (ok_ids s Hs)) as Hids.
  destruct o as [|id|id|id| | | | | |];
    try (by apply (store_ok_jobs s); try done; apply apply_flags).
  - destruct Hs as [Hj Hr Hal]. split; cbn; [done|..]; rewrite ?length_app; cbn.
    + intros id' r [[-> <-]|[Hne H]]%lookup_insert_Some; [lia|]. specialize (Hr _ _ H). lia.
    + intros id1 id2 r [[<- <-]|[Hne H]]%lookup_insert_Some [[<- He]|[Hne' H']]%lookup_insert_Some;
        [done|specialize (Hr _ _ H'); lia|specialize (Hr _ _ H); lia|by eapply Hal].
  - revert Hids. cbn. unfold cancel. destruct (active s !! id); [|done]. intros _. destruct Hs as [Hj Hr Hal].
    split; cbn; [done|by rewrite length_insert|done].
  - destruct Hs as [Hj Hr Hal]. split; cbn; [done|..].
    + intros id' r [_ H]%lookup_delete_Some. by eapply Hr.
    + intros id1 id2 r [_ H1]%lookup_delete_Some [_ H2]%lookup_delete_Some. by eapply Hal.
Qed.

Lemma new_ok files : store_ok (new files).
Proof. split; [constructor|done|done]. Qed.

Lemma apply_all_ok os s : store_ok s -> store_ok (apply_all os s).
Proof. revert s. induction os as [|o os IH]; intros s Hs; [done|]. apply IH. by apply apply_ok. Qed.

(** The store keeps one record per job id and never shares a cancel flag between two
    jobs: after any sequence of operations on a new store, the ids of the jobs are distinct,
    every registered id refers to an existing flag, no two ids to the same, and [cancel]
    raises the flag of the job it names and of no other registered job. *)
Theorem jobs_well_formed files os :
  let s := apply_all os (new files) in
  store_ok s /\
  forall id r id' r', active s !! id = Some r -> active s !! id' = Some r' -> id' <> id ->
    flags (cancel id s).2 !! r = Some true /\ flags (cancel id s).2 !! r' = flags s !! r'.
Proof.
  intros s. assert (store_ok s) as Hs by apply apply_all_ok, new_ok.
  split; [done|]. intros id r id' r' H H' Hne. destruct Hs as [_ Hr Hal]. unfold cancel. rewrite H. cbn.
  split; [apply list_lookup_insert_eq; by eapply Hr|].
  apply list_lookup_insert_ne. intros ->. apply Hne. by eapply Hal.
Qed.

(** ** Restarts *)

Definition reload (p : string) (s : JobStore) : list JobMeta := jobs (with_path (Some p) (files s)).

Lemma reload_save p s : persist_path s = Some p -> reload p (save s) = jobs s.
Proof.
  intros Hp. unfold reload, with_path, save. rewrite Hp. cbn. rewrite lookup_insert_eq.
  apply reload_lines; [apply job_round_trip|apply job_one_line].
Qed.

Definition on_disk (p : string) (s : JobStore) : Prop :=
  persist_path s = Some p /\ reload p s = jobs s.

Lemma on_disk_save p s : persist_path s = Some p -> on_disk p (save s).
Proof. intros Hp. split; [by rewrite path_save|]. by rewrite reload_save, jobs_save. Qed.

Lemma on_disk_same p s s' :
  persist_path s' = persist_path s -> files s' = files s -> jobs s' = jobs s -> on_disk p s -> on_disk p s'.
Proof. unfold on_disk, reload. by intros -> -> ->. Qed.

Lemma delete_on_disk p id s : on_disk p s -> on_disk p (delete_job id s).2.
Proof.
  intros Hs. unfold delete_job. cbn [snd]. destruct (Nat.ltb_spec (length (filter (fun j => job_id j <> id) (jobs s)))
    (length (jobs s))) as [H|H].
  - apply on_disk_save. apply Hs.
  - apply (on_disk_same p s); [done..|by apply list_filter_full|done].
Qed.

Lemma cleanup_on_disk p template n s : on_disk p s -> on_disk p (cleanup_retention template n s).2.
Proof.
  intros Hs. unfold cleanup_retention. cbn [snd]. set (ids := map job_id _).
  destruct (Nat.ltb_spec 0 (length (jobs s) - length (filter (fun j => job_id j ∉ ids) (jobs s)))) as [H|H].
  - apply on_disk_save. apply Hs.
  - apply (on_disk_same p s); [done..|apply list_filter_full; lia|done].
Qed.

Lemma apply_on_disk p o s : on_disk p s -> on_disk p (apply o s).
Proof.
  intros Hs. pose proof (proj1 Hs) as Hp. destruct o; cbn [apply];
    try (by apply on_disk_save); try (by apply (on_disk_same p s)).
  - unfold cancel. destruct (active s !! id); [by apply (on_disk_same p s)|done].
  - by apply delete_on_disk.
  - by apply cleanup_on_disk.
Qed.

Lemma apply_all_on_disk p os s : on_disk p s -> on_disk p (apply_all os s).
Proof. revert s. induction os as [|o os IH]; intros s Hs; [done|]. apply IH. by apply apply_on_disk. Qed.

(** Jobs survive a restart: a store opened on a file, after any sequence of operations,
    has left in the file exactly its jobs, in order, so opening the file again gives the
    same list, whatever the file held at first (lines that did not parse are gone). *)
Theorem jobs_survive_restart path files0 os :
  let s := apply_all os (with_path (Some path) files0) in
  jobs (with_path (Some path) (files s)) = jobs s.
Proof.
  intros s. assert (on_disk path s) as [_ H] by by apply apply_all_on_disk. exact H.
Qed.

(** ** Retention *)

Definition runs (template : string) (s : JobStore) : list JobMeta :=
  sort_by newer (filter (fun j => finished_run template j = true) (jobs s)).

Lemma newer_total a b : newer a b = true \/ newer b a = true.
Proof. apply leb_total. Qed.
Lemma newer_trans a b c : newer a b = true -> newer b c = true -> newer a c = true.
Proof. unfold newer. eauto using leb_trans. Qed.

Lemma runs_ids_NoDup template s : NoDup (map job_id (jobs s)) -> NoDup (map job_id (runs template s)).
Proof.
  intros H'. unfold runs. change (NoDup (job_id <$> sort_by newer (filter (fun j => finished_run template j = true) (jobs s)))).
  rewrite sort_by_perm. by apply NoDup_filter_ids.
Qed.

Lemma filter_kept (l1 l2 : list JobMeta) :
  NoDup (map job_id (l1 ++ l2)) -> filter (fun j => job_id j ∉ map job_id l2) (l1 ++ l2) = l1.
Proof.
  intros Hn. rewrite map_app in Hn. apply NoDup_app in Hn as (_ & Hn & _). rewrite filter_app.
  assert (filter (fun j => job_id j ∉ map job_id l2) l2 = []) as ->.
  { apply list_filter_none, Forall_forall. intros j Hj Hni. apply Hni.
    by apply (list_elem_of_fmap_2 job_id). }
  rewrite app_nil_r. apply list_filter_all, Forall_forall. intros j Hj. apply Hn.
  by apply (list_elem_of_fmap_2 job_id).
Qed.

Lemma runs_cleanup template n s :
  NoDup (map job_id (jobs s)) ->
  runs template (cleanup_retention template n s).2 = take n (runs template s).
Proof.
  intros Hn. unfold runs at 1. rewrite cleanup_jobs, list_filter_comm.
  rewrite sort_by_filter; [|apply newer_total|apply newer_trans].
  fold (runs template s). apply (runs_ids_NoDup template) in Hn.
  rewrite <-(take_drop n (runs template s)) in Hn. apply filter_kept in Hn. by rewrite take_drop in Hn.
Qed.

(** Nothing but finished runs of the template goes. *)
Lemma others_cleanup template n s :
  NoDup (map job_id (jobs s)) ->
  filter (fun j => ~ finished_run template j = true) (jobs (cleanup_retention template n s).2) =
  filter (fun j => ~ finished_run template j = true) (jobs s).
Proof.
  intros Hn. rewrite cleanup_jobs, list_filter_comm. apply list_filter_all, Forall_forall.
  intros j [Hj Hin]%list_elem_of_filter (j' & Hid & Hrem)%list_elem_of_fmap.
  apply (subseteq_drop n) in Hrem. fold (runs template s) in Hrem. unfold runs in Hrem.
  rewrite sort_by_perm in Hrem. apply list_elem_of_filter in Hrem as [Hfin Hin'].
  apply Hj. replace j with j'; [done|]. by apply (NoDup_map_inj job_id (jobs s)).
Qed.

Lemma removed_cleanup template n s :
  NoDup (map job_id (jobs s)) -> (cleanup_retention template n s).1 = length (runs template s) - n.
Proof.
  intros Hn. change ((cleanup_retention template n s).1) with
    (length (jobs s) - length (filter (fun j => job_id j ∉ map job_id (drop n (runs template s))) (jobs s))).
  unfold runs. rewrite <-cleanup_jobs.
  rewrite (length_filter_split (fun j => finished_run template j = true) (jobs s)).
  rewrite (length_filter_split (fun j => finished_run template j = true) (jobs (cleanup_retention _ _ _).2)).
  rewrite others_cleanup by done.
  pose proof (runs_cleanup template n s Hn) as H'. apply (f_equal length) in H'. revert H'. unfold runs.
  rewrite length_take, !length_sort_by. lia.
Qed.

(** ** One job *)

Lemma get_iff s id j :
  NoDup (map job_id (jobs s)) -> get id s = Some j <-> j ∈ jobs s /\ job_id j = id.
Proof.
  intros Hn. unfold get. destruct (find_job id (jobs s)) as [[i j']|] eqn:H'; cbn.
  - apply find_job_Some in H' as [Hi Hid]. apply list_elem_of_lookup_2 in Hi. split; [by intros [= <-]|].
    intros [Hj Hj']. f_equal. apply (NoDup_map_inj job_id (jobs s)); congruence.
  - split; [done|]. intros [Hj Hid]. apply list_find_None in H'. by eapply Forall_forall in H'.
Qed.

Lemma update_job_elem id f js j :
  NoDup (map job_id js) -> j ∈ js -> (if decide (job_id j = id) then f j else j) ∈ update_job id f js.
Proof.
  intros Hn Hj. unfold update_job. destruct (find_job id js) as [[i j0]|] eqn:H'.
  - apply find_job_Some in H' as [Hi Hid]. case_decide as Hd.
    + replace j with j0; [|apply (NoDup_map_inj job_id js); [done|by eapply list_elem_of_lookup_2|done|congruence]].
      apply (list_elem_of_lookup_2 _ i), list_lookup_insert_eq. by eapply lookup_lt_Some.
    + apply list_elem_of_lookup in Hj as [k Hk]. apply (list_elem_of_lookup_2 _ k).
      rewrite list_lookup_insert_ne; [done|]. intros ->. congruence.
  - case_decide; [|done]. apply list_find_None in H'. by eapply Forall_forall in H'.
Qed.

Lemma get_update_job id f s id' j :
  NoDup (map job_id (jobs s)) -> (forall j, job_id (f j) = job_id j) -> get id' s = Some j ->
  get id' (save (set_jobs (update_job id f (jobs s)) s)) = Some (if decide (id' = id) then f j else j).
Proof.
  intros Hn Hf [Hj <-]%get_iff; [|done]. apply get_iff; rewrite jobs_save; cbn.
  - by rewrite update_job_ids.
  - split; [by apply update_job_elem|]. case_decide; by rewrite ?Hf.
Qed.

Lemma get_create meta s :
  NoDup (map job_id (jobs s)) ->
  exists j, get (job_id meta) (create_job meta s).2 = Some j /\ status j = status meta /\
    (parent_job_id meta <> None -> parent_job_id j = parent_job_id meta).
Proof.
  intros Hn. pose proof (create_job_ids meta s Hn) as Hn'. unfold create_job in *. cbn [snd] in *.
  set (m := match find_job _ _ with Some _ => _ | None => meta end) in *. exists m. split.
  - apply get_iff; [done|]. rewrite jobs_save. cbn.
    split; [apply elem_of_app; right; by apply list_elem_of_singleton|].
    subst m. by destruct (find_job _ _) as [[]|].
  - subst m. destruct (find_job _ _) as [[]|]; [|done]. cbn. split; [done|]. by destruct (parent_job_id meta).
Qed.

(** Retention keeps exactly the newest finished runs of a template: the runs left are
    the [n] first of the runs sorted newest first, every other job (the template, its
    queued and running runs, other templates' runs) stays as it was and in order, and the
    count returned is the number of runs removed. *)
Theorem cleanup_keeps_newest template n files os :
  let s := apply_all os (new files) in
  let '(removed, s') := cleanup_retention template n s in
  StronglySorted (fun a b => newer a b = true) (runs template s) /\
  runs template s' = take n (runs template s) /\
  filter (fun j => ~ finished_run template j = true) (jobs s') =
  filter (fun j => ~ finished_run template j = true) (jobs s) /\
  removed = length (runs template s) - n.
Proof.
  intros s. assert (store_ok s) as [Hn _ _] by apply apply_all_ok, new_ok.
  rewrite (surjective_pairing (cleanup_retention template n s)).
  split; [apply sort_by_sorted; [apply newer_total|apply newer_trans]|].
  split; [by apply runs_cleanup|]. split; [by apply others_cleanup|by apply removed_cleanup].
Qed.

(** ** Schedules that stop *)

Lemma not_due parse_instant t s id :
  (forall j, j ∈ jobs s -> job_id j = id -> active_status (status j) = true) ->
  id ∉ map job_id (due_jobs parse_instant t s).
Proof.
  intros Hs (j & Hid & Hin)%list_elem_of_fmap. apply list_elem_of_filter in Hin as [Hdue Hin].
  unfold is_due in Hdue. rewrite (Hs j Hin (eq_sym Hid)), andb_false_r in Hdue. discriminate Hdue.
Qed.

Lemma status_updated now id st msg s j :
  NoDup (map job_id (jobs s)) -> j ∈ jobs (update_status now id st msg s) -> job_id j = id -> status j = st.
Proof.
  intros Hn. unfold update_status. rewrite jobs_save. cbn. set (f := fun j => set_status _ _ _ _ j).
  assert (forall j, job_id (f j) = job_id j) as Hf by done.
  pose proof (update_job_ids id f (jobs s) Hf) as Hids. unfold update_job in *.
  destruct (find_job id (jobs s)) as [[i j0]|] eqn:Hj; intros Hin Hid.
  - apply find_job_Some in Hj as [Hi Hj0]. replace j with (f j0); [done|].
    apply (NoDup_map_inj job_id (<[i:=f j0]> (jobs s))); [by rewrite Hids| |done|by rewrite Hf, Hid].
    apply (list_elem_of_lookup_2 _ i), list_lookup_insert_eq. by eapply lookup_lt_Some.
  - apply list_find_None in Hj. by eapply Forall_forall in Hj.
Qed.

Lemma with_path_ok p files0 : files0 !! p = None -> store_ok (with_path (Some p) files0).
Proof. intros Hp. unfold with_path. rewrite Hp. split; [constructor|done|done]. Qed.

(** A schedule whose template was running when the application stopped never fires
    again: the restarted store reads the template back as running, and no instant makes it
    due, whatever its schedule says, until something else sets its status. *)
Theorem interrupted_template_never_due parse_instant path os now id msg t :
  let s := update_status now id Running msg (apply_all os (with_path (Some path) ∅)) in
  id ∉ map job_id (due_jobs parse_instant t (with_path (Some path) (files s))).
Proof.
  intros s.
  assert (on_disk path (apply_all os (with_path (Some path) ∅))) as Hd by by apply apply_all_on_disk.
  assert (store_ok (apply_all os (with_path (Some path) ∅))) as [Hn _ _] by by apply apply_all_ok, with_path_ok.
  pose proof (apply_on_disk path (UpdateStatus now id Running msg) _ Hd) as [_ Hr].
  cbn [apply] in Hr. fold s in Hr. unfold reload in Hr. apply not_due. rewrite Hr.
  intros j Hj Hid. by rewrite (status_updated now id Running msg _ j Hn Hj Hid).
Qed.
End spec.
