(* ===== verification/JobCommands.v ===== *)
(** * Job commands (src-tauri/src/commands/jobs.rs)

    What the windows call: each command is a short program over the job store.  Between
    the store calls of [update_schedule] and [cancel_job] other tasks use the store, so
    these two are also given as their parts. *)

From S2P Require Import Prelude.
From S2P Require Import JobStore.
From S2P Require Import JobSpec.
Local Open Scope N_scope.

Inductive AppError := NotFound (msg : string) | Validation (msg : string).

(** [cron::Schedule::from_str], its error, and the next occurrence. *)
Class Cron := {
  schedule_of : string -> result string (option string);
}.

Section commands.
Context {JJ : JobJson} {CR : Cron}.

Record ListJobsRequest := {
  rq_connection_id : option string;
  rq_profile_id : option string;
  rq_database : option string;
  rq_kind : option string;
  rq_status : option string;
  rq_limit : option nat;
}.

Definition kind_of (k : string) : option JobKind :=
  if bool_decide (k = "dump"%string) then Some Dump
  else if bool_decide (k = "restore"%string) then Some Restore
  else if bool_decide (k = "export"%string) then Some Export
  else if bool_decide (k = "import"%string) then Some Import
  else None.

Definition status_of (k : string) : option JobStatus :=
  if bool_decide (k = "queued"%string) then Some Queued
  else if bool_decide (k = "running"%string) then Some Running
  else if bool_decide (k = "done"%string) then Some Done
  else if bool_decide (k = "failed"%string) then Some Failed
  else if bool_decide (k = "cancelled"%string) then Some Cancelled
  else None.

Definition list_jobs_command (r : ListJobsRequest) (s : JobStore) : list JobMeta :=
  list_jobs {| f_connection_id := rq_connection_id r; f_profile_id := rq_profile_id r;
               f_database := rq_database r; f_kind := rq_kind r ≫= kind_of;
               f_status := rq_status r ≫= status_of; f_limit := rq_limit r |} s.

Definition not_found (job_id : string) : AppError := NotFound ("job not found: " +:+ job_id).

Definition get_job (job_id : string) (s : JobStore) : result AppError (JobMeta * list JobLogEntry) :=
  match get job_id s with
  | Some meta => Ok (meta, get_log job_id s)
  | None => Err (not_found job_id)
  end.

Definition cancel_job (now job_id : string) (s : JobStore) : bool * JobStore :=
  let '(ok, s) := cancel job_id s in
  (ok, if ok then update_status now job_id Cancelled "Cancelled by user" s else s).

Definition reset_for_rerun (now new_id : string) (meta : JobMeta) : JobMeta :=
  Build_JobMeta new_id (kind meta) Queued (connection_id meta) (profile_id meta) (database meta)
    (collections meta) now None None (output_path meta) (source_path meta) None None 0 None 0
    "Queued for rerun" (config_json meta).

Definition rerun_job (now new_id job_id : string) (s : JobStore) : result AppError JobMeta * JobStore :=
  match get job_id s with
  | None => (Err (not_found job_id), s)
  | Some meta =>
    let new_meta := reset_for_rerun now new_id meta in
    (Ok new_meta, log_info now new_id "Queued for rerun" (create_job new_meta s).2)
  end.

Record UpdateScheduleRequest := {
  us_job_id : string;
  us_cron : string;
  us_enabled : bool;
  us_retention_count : option N;
  us_profile_id : option string;
}.

(** The record that [update_schedule] writes back, from the one it read. *)
Definition scheduled_meta (r : UpdateScheduleRequest) (meta : JobMeta) : result AppError JobMeta :=
  match (if us_enabled r then
           match schedule_of (us_cron r) with
           | Ok next => Ok next
           | Err e => Err (Validation ("invalid cron: " +:+ e))
           end
         else Ok None) with
  | Err e => Err e
  | Ok next =>
    Ok (inherit (Some {| cron := us_cron r; enabled := us_enabled r;
                         retention_count := us_retention_count r; next_run_at := next |})
          (parent_job_id meta)
          (match us_profile_id r with
           | Some p => if bool_decide (profile_id meta = ""%string) then p else profile_id meta
           | None => profile_id meta
           end) meta)
  end.

Definition update_schedule (r : UpdateScheduleRequest) (s : JobStore) : result AppError JobMeta * JobStore :=
  match get (us_job_id r) s with
  | None => (Err (not_found (us_job_id r)), s)
  | Some meta =>
    match scheduled_meta r meta with
    | Err e => (Err e, s)
    | Ok meta => (Ok meta, (create_job meta s).2)
    end
  end.

(** ** Properties *)

Lemma create_status meta s j :
  NoDup (map job_id (jobs s)) -> j ∈ jobs (create_job meta s).2 -> job_id j = job_id meta ->
  status j = status meta.
Proof.
  intros Hn Hj Hid. destruct (get_create meta s Hn) as (j' & Hj' & Hst & _).
  apply get_iff in Hj' as [Hin' Hid']; [|by apply create_job_ids].
  replace j with j'; [done|]. apply (NoDup_map_inj job_id (jobs (create_job meta s).2));
    [by apply create_job_ids|done|done|congruence].
Qed.

(** A schedule update that overlaps the end of a run undoes it: [update_schedule] writes
    back the record it read, so when the run finishes between its two store calls the
    template is running again for good, and no instant makes its new schedule due. *)
Theorem schedule_update_loses_status parse_instant r s meta m now msg t :
  NoDup (map job_id (jobs s)) -> get (us_job_id r) s = Some meta -> status meta = Running ->
  scheduled_meta r meta = Ok m ->
  let s1 := update_status now (us_job_id r) Done msg s in
  let s2 := (create_job m s1).2 in
  (exists j, get (us_job_id r) s1 = Some j /\ status j = Done) /\
  (exists j, get (us_job_id r) s2 = Some j /\ status j = Running) /\
  us_job_id r ∉ map job_id (due_jobs parse_instant t s2).
Proof.
  intros Hn Hget Hrun Hm s1 s2.
  assert (job_id m = us_job_id r /\ status m = Running) as [Hid Hst].
  { apply get_iff in Hget as [_ Hid]; [|done]. unfold scheduled_meta in Hm.
    destruct (if us_enabled r then _ else _); [|discriminate Hm]. injection Hm as <-. done. }
  pose proof (apply_ids (UpdateStatus now (us_job_id r) Done msg) s Hn) as Hn1.
  cbn [apply] in Hn1. fold s1 in Hn1. split; [|split].
  - apply (get_update_job (us_job_id r) (fun j => set_status Done msg (started_at j) (Some now) j)) in Hget;
      [|done|done]. rewrite decide_True in Hget by done. eexists. by split.
  - destruct (get_create m s1 Hn1) as (j & Hj & Hjs & _). exists j. rewrite <-Hid, Hjs. by split.
  - apply not_due. intros j Hj Hjid. rewrite (create_status m s1 j Hn1 Hj), Hst; [done|congruence].
Qed.

(** A rerun is only recorded: the new job is queued with the request of the old one and
    no schedule or parent, the old job is untouched, and no instant makes the new job due,
    so the scheduler never starts it. *)
Theorem rerun_never_due parse_instant now new_id job_id0 s meta t :
  NoDup (map job_id (jobs s)) -> new_id ∉ map job_id (jobs s) -> get job_id0 s = Some meta ->
  let s' := (rerun_job now new_id job_id0 s).2 in
  (exists j, get new_id s' = Some j /\ status j = Queued /\ schedule j = None /\
     parent_job_id j = None /\ config_json j = config_json meta) /\
  get job_id0 s' = Some meta /\ new_id ∉ map job_id (due_jobs parse_instant t s').
Proof.
  intros Hn Hf Hget. unfold rerun_job. rewrite Hget. cbn [snd].
  set (m := reset_for_rerun now new_id meta). set (s' := log_info _ _ _ _).
  assert (jobs s' = jobs s ++ [m]) as Hjobs by (subst s'; exact (create_fresh m s Hf)).
  assert (NoDup (map job_id (jobs s'))) as Hn' by exact (create_job_ids m s Hn).
  apply get_iff in Hget as [Hin Hid]; [|done]. split; [|split].
  - exists m. split; [|done]. apply get_iff; [done|]. rewrite Hjobs. set_solver.
  - apply get_iff; [done|]. rewrite Hjobs. set_solver.
  - apply not_due. intros j. rewrite Hjobs. intros [Hj| ->%list_elem_of_singleton]%elem_of_app He; [|done].
    destruct Hf. rewrite <-He. by apply (list_elem_of_fmap_2 job_id).
Qed.
End commands.
