(* ===== verification/Scheduler.v ===== *)
(** * Background scheduler (src-tauri/src/mongo/scheduler.rs)

    The loop that starts scheduled jobs, as a step relation: a tick walks the due jobs,
    waits for a permit before each start, and the started tasks run and end at any time
    in between, next to any other use of the job store. *)

From S2P Require Import Prelude.
From S2P Require Import JobStore.
From S2P Require Import JobSpec.
Local Open Scope nat_scope.

Definition MAX_CONCURRENT_JOBS : nat := 2.

Inductive SchedulerError :=
| MissingConfig (job_id : string)
| BadConfig (msg : string)
| Connection (msg : string)
| JobFailed (msg : string)
| UnsupportedKind (kind : JobKind)
| UnsupportedDestination
| Internal (msg : string).

(** [#[error(...)]] *)
Definition display (e : SchedulerError) : string :=
  match e with
  | MissingConfig id => "job " +:+ id +:+ " has no stored config_json"
  | BadConfig m => "invalid stored config: " +:+ m
  | Connection m => "could not resolve a connection: " +:+ m
  | JobFailed m => "scheduled job failed: " +:+ m
  | UnsupportedKind _ => "scheduling is only supported for dump and export jobs"
  | UnsupportedDestination => "clipboard destinations cannot be scheduled"
  | Internal m => "scheduler internal error: " +:+ m
  end.

(** What the code relies on outside the store: the next occurrence of a cron expression,
    parsed instants, [{:?}] of a string, the connection found or opened for a job, its
    stored request parsed by [serde_json], and the runners, which use the store
    themselves. *)
Class Runtime := {
  next_run_from_cron : string -> option string;
  parse_instant : string -> option Z;
  debug_string : string -> string;
  resolve_connection : JobMeta -> result SchedulerError string;
  dump_request : string -> result string unit;
  export_request : string -> result string bool;  (* the request writes to the clipboard *)
  run_dump : string -> JobStore -> result string unit * JobStore;
  run_export : string -> JobStore -> result string unit * JobStore;
}.

Section scheduler.
Context {JJ : JobJson} {RT : Runtime}.

(** ** A scheduled run *)

Definition fail_job (now new_job_id msg : string) (s : JobStore) : JobStore :=
  log_error now new_job_id msg (update_status now new_job_id Failed msg s).

Definition execute_scheduled_job (now : string) (meta : JobMeta) (new_job_id : string) (s : JobStore) :
    result SchedulerError unit * JobStore :=
  match config_json meta with
  | None => (Err (MissingConfig (job_id meta)), s)
  | Some config =>
    match resolve_connection meta with
    | Err e =>
      (Err e, fail_job now new_job_id ("Scheduled job could not connect: " +:+ display e) s)
    | Ok _ =>
      match kind meta with
      | Dump =>
        match dump_request config with
        | Err e => (Err (BadConfig e), s)
        | Ok _ =>
          match run_dump new_job_id s with
          | (Err e, s) => (Err (JobFailed e), fail_job now new_job_id ("Scheduled dump failed: " +:+ e) s)
          | (Ok _, s) => (Ok tt, s)
          end
        end
      | Export =>
        match export_request config with
        | Err e => (Err (BadConfig e), s)
        | Ok true => (Err UnsupportedDestination, s)
        | Ok false =>
          match run_export new_job_id s with
          | (Err e, s) => (Err (JobFailed e), fail_job now new_job_id ("Scheduled export failed: " +:+ e) s)
          | (Ok _, s) => (Ok tt, s)
          end
        end
      | Restore | Import => (Err (UnsupportedKind (kind meta)), s)
      end
    end
  end.

(** ** A tick *)

(** The queued run of a template. *)
Definition run_of (now new_id : string) (meta : JobMeta) : JobMeta :=
  let m := new_meta now new_id (kind meta) (connection_id meta) (database meta) in
  Build_JobMeta (job_id m) (kind m) (status m) (connection_id m) (profile_id meta) (database m)
    (collections meta) (created_at m) (started_at m) (finished_at m) (output_path meta)
    (source_path meta) None (Some (job_id meta)) (processed m) (total m) (errors m)
    "Queued by scheduler" (config_json meta).

(** The schedule of the template advances, or stops on a cron expression that has no next
    occurrence; the retention to apply at the end of the tick. *)
Definition advance_schedule (now : string) (meta : JobMeta) (s : JobStore) : JobStore * option (string * N) :=
  match schedule meta with
  | Some sched =>
    if enabled sched then
      match next_run_from_cron (cron sched) with
      | Some next =>
        (log_info now (job_id meta) ("Next run scheduled at " +:+ next)
           (update_next_run (job_id meta) (Some next) s),
         (fun r => (job_id meta, r)) <$> retention_count sched)
      | None =>
        (log_warn now (job_id meta) 
           ("Invalid cron expression " +:+ debug_string (cron sched) +:+ "; schedule paused until corrected")
           (update_next_run (job_id meta) None s), None)
      end
    else (s, None)
  | None => (s, None)
  end.

(** A task: the template, the run, and the template's record when the tick read it. *)
Record task := { template : string; run_id : string; task_meta : JobMeta }.

(** Where the loop is: between ticks, walking the due jobs, or waiting for a permit. *)
Inductive phase :=
| Idle
| Ticking (due : list JobMeta) (retention : list (string * N))
| Waiting (t : task) (due : list JobMeta) (retention : list (string * N)).

Record Scheduler := {
  store : JobStore;
  in_flight : gset string;
  permits : nat;
  running : list task;
  at_ : phase;
}.

Definition start (s : JobStore) : Scheduler :=
  {| store := s; in_flight := ∅; permits := MAX_CONCURRENT_JOBS; running := []; at_ := Idle |}.

(** [let due = state.jobs.due_jobs().await; if due.is_empty() { return Ok(()) }] *)
Definition tick_start (now : Z) (st : Scheduler) : Scheduler :=
  let due := due_jobs parse_instant now (store st) in
  {| store := store st; in_flight := in_flight st; permits := permits st; running := running st;
     at_ := if bool_decide (length due = 0) then Idle else Ticking due [] |}.

(** One iteration, up to waiting for the permit. *)
Definition tick_next (now new_id : string) (meta : JobMeta) (due : list JobMeta)
    (retention : list (string * N)) (st : Scheduler) : Scheduler :=
  let original_id := job_id meta in
  if bool_decide (original_id ∈ in_flight st) then
    {| store := store st; in_flight := in_flight st; permits := permits st; running := running st;
       at_ := Ticking due retention |}
  else
    let s := (create_job (run_of now new_id meta) (store st)).2 in
    let s := log_info now new_id "Scheduled job triggered" s in
    let '(s, r) := advance_schedule now meta s in
    {| store := s; in_flight := {[original_id]} ∪ in_flight st; permits := permits st;
       running := running st;
       at_ := Waiting {| template := original_id; run_id := new_id; task_meta := meta |} due
                (retention ++ option_list r) |}.

(** [acquire_owned().await] and the spawn. *)
Definition tick_spawn (t : task) (due : list JobMeta) (retention : list (string * N)) (st : Scheduler) :
    option Scheduler :=
  match permits st with
  | O => None
  | S permits =>
    Some {| store := store st; in_flight := in_flight st; permits := permits;
            running := running st ++ [t]; at_ := Ticking due retention |}
  end.

(** The end of the tick: every queued retention is applied. *)
Definition tick_end (retention : list (string * N)) (st : Scheduler) : Scheduler :=
  {| store := foldl (fun s r => (cleanup_retention r.1 (N.to_nat r.2) s).2) (store st) retention;
     in_flight := in_flight st; permits := permits st; running := running st; at_ := Idle |}.

(** A task runs to its end: its error is only logged, the template leaves the set, and
    the permit is released. *)
Definition task_end (now : string) (i : nat) (st : Scheduler) : option Scheduler :=
  t ← running st !! i;
  let s := (execute_scheduled_job now (task_meta t) (run_id t) (store st)).2 in
  Some {| store := s; in_flight := in_flight st ∖ {[template t]}; permits := S (permits st);
          running := delete i (running st); at_ := at_ st |}.

(** The rest of the application uses the store. *)
Definition use_store (s : JobStore) (st : Scheduler) : Scheduler :=
  {| store := s; in_flight := in_flight st; permits := permits st; running := running st; at_ := at_ st |}.

(** What the loop and its tasks do once a tick has started. *)
Inductive own_step : Scheduler -> Scheduler -> Prop :=
| own_next now new_id meta due r st :
    at_ st = Ticking (meta :: due) r -> own_step st (tick_next now new_id meta due r st)
| own_spawn t due r st st' :
    at_ st = Waiting t due r -> tick_spawn t due r st = Some st' -> own_step st st'
| own_end r st : at_ st = Ticking [] r -> own_step st (tick_end r st)
| own_task now i st st' : task_end now i st = Some st' -> own_step st st'.

Inductive step : Scheduler -> Scheduler -> Prop :=
| step_tick now st : at_ st = Idle -> step st (tick_start now st)
| step_own st st' : own_step st st' -> step st st'
| step_store s st : step st (use_store s st).

Inductive reachable (s0 : JobStore) : Scheduler -> Prop :=
| reachable_start : reachable s0 (start s0)
| reachable_step st st' : reachable s0 st -> step st st' -> reachable s0 st'.

(** ** Invariant *)

Definition pending (st : Scheduler) : list task :=
  running st ++ match at_ st with Waiting t _ _ => [t] | _ => [] end.

Record scheduler_ok (st : Scheduler) : Prop := {
  ok_permits : permits st + length (running st) = MAX_CONCURRENT_JOBS;
  ok_templates : NoDup (map template (pending st));
  ok_in_flight : forall id, id ∈ in_flight st <-> id ∈ map template (pending st);
}.

Lemma start_ok s : scheduler_ok (start s).
Proof. split; cbn; [done|constructor|set_solver]. Qed.

Lemma pending_delete i t (l rest : list task) :
  l !! i = Some t -> l ++ rest ≡ₚ t :: (delete i l ++ rest).
Proof. intros Hi. by rewrite (delete_Permutation l i t Hi) at 1. Qed.

Lemma scheduler_ok_perm st (l : list string) :
  permits st + length (running st) = MAX_CONCURRENT_JOBS -> map template (pending st) ≡ₚ l ->
  NoDup l -> (forall id, id ∈ in_flight st <-> id ∈ l) -> scheduler_ok st.
Proof.
  intros Hp Hl Hnd Hin. split; [done|by rewrite Hl|]. intros id. by rewrite Hin, Hl.
Qed.

Lemma own_step_ok st st' : scheduler_ok st -> own_step st st' -> scheduler_ok st'.
Proof.
  intros [Hp Hnd Hin] Hstep. unfold pending in *.
  destruct Hstep as [now new_id meta due r st Hat|t due r st st' Hat Hs|r st Hat|now i st st' Ht].
  - rewrite Hat in *. unfold tick_next. case_bool_decide as Hf; [by split|].
    destruct (advance_schedule _ _ _) as [s' r']. rewrite app_nil_r in *.
    apply (scheduler_ok_perm _ (job_id meta :: map template (running st))); cbn; [done|..].
    + unfold pending. cbn. rewrite map_app. cbn. symmetry. apply Permutation_cons_append.
    + apply NoDup_cons. by rewrite <- Hin.
    + intros id. rewrite elem_of_union, elem_of_singleton, elem_of_cons, Hin. done.
  - unfold tick_spawn in Hs. destruct (permits st) as [|k] eqn:Hk; [done|]. injection Hs as <-.
    rewrite Hat in *. split; cbn; [rewrite length_app; cbn; lia|..]; unfold pending; cbn; by rewrite app_nil_r.
  - rewrite Hat in *. by split.
  - unfold task_end in Ht. destruct (running st !! i) as [t|] eqn:Hi; [|done]. injection Ht as <-.
    set (rest := match at_ st with Waiting t _ _ => [t] | _ => [] end) in *.
    pose proof (pending_delete i t (running st) rest Hi) as Hperm. apply (Permutation_map template) in Hperm.
    rewrite Hperm in Hnd. cbn in Hnd. apply NoDup_cons in Hnd as [Hni Hnd].
    apply (scheduler_ok_perm _ (map template (delete i (running st) ++ rest))); cbn; [|done|done|].
    + rewrite length_delete by done. pose proof (lookup_lt_Some _ _ _ Hi). lia.
    + intros id. rewrite elem_of_difference, Hin, Hperm, elem_of_singleton. cbn. rewrite elem_of_cons.
      split; [naive_solver|]. intros Hid. split; [by right|]. by intros ->.
Qed.

Lemma step_ok st st' : scheduler_ok st -> step st st' -> scheduler_ok st'.
Proof.
  intros Hok Hs. destruct Hs as [now st0 Hat|st0 st1 H|s st0]; [|by apply (own_step_ok st0)|].
  - destruct Hok as [Hp Hnd Hin]. unfold pending in *. rewrite Hat in *. unfold tick_start.
    destruct (bool_decide _); by split.
  - destruct Hok. by split.
Qed.

Lemma reachable_scheduler_ok s0 st : reachable s0 st -> scheduler_ok st.
Proof. induction 1; [apply start_ok|by eapply step_ok]. Qed.

(** C27: at most two scheduled jobs run at a time, and never two runs of one template: in
    every reachable state of the scheduler, whatever else uses the store meanwhile, and the
    set of jobs in flight is exactly the templates that run or wait for their permit. *)
Theorem scheduler_safe s0 st :
  reachable s0 st ->
  length (running st) <= MAX_CONCURRENT_JOBS /\ NoDup (map template (running st)) /\
  forall id, id ∈ in_flight st <-> exists t, t ∈ pending st /\ template t = id.
Proof.
  intros [Hp Hnd Hin]%reachable_scheduler_ok. split; [lia|]. split.
  - unfold pending in Hnd. rewrite map_app in Hnd. by apply NoDup_app in Hnd as [? _].
  - intros id. rewrite Hin. change (map template (pending st)) with (template <$> pending st).
    rewrite list_elem_of_fmap. naive_solver.
Qed.

(** ** Ticks end *)

Inductive own_steps : nat -> Scheduler -> Scheduler -> Prop :=
| own_refl st : own_steps 0 st st
| own_cons n st st' st'' : own_step st st' -> own_steps n st' st'' -> own_steps (S n) st st''.

Definition work (st : Scheduler) : nat :=
  length (running st) +
  match at_ st with
  | Idle => 0
  | Ticking due _ => 3 * length due + 1
  | Waiting _ due _ => 3 * length due + 3
  end.

Lemma own_step_work st st' : own_step st st' -> work st' < work st.
Proof.
  unfold work. intros [now new_id meta due r st0 Hat|t due r st0 st1 Hat Hs|r st0 Hat|now i st0 st1 Ht].
  - rewrite Hat. unfold tick_next. case_bool_decide; [cbn; lia|]. destruct (advance_schedule _ _ _). cbn; lia.
  - rewrite Hat. unfold tick_spawn in Hs. destruct (permits st0); [done|]. injection Hs as <-.
    cbn. rewrite length_app. cbn. lia.
  - rewrite Hat. cbn. lia.
  - unfold task_end in Ht. destruct (running st0 !! i) as [t|] eqn:Hi; [|done]. injection Ht as <-. cbn.
    rewrite length_delete by done. pose proof (lookup_lt_Some _ _ _ Hi). destruct (at_ st0); lia.
Qed.

Lemma own_steps_work n st st' : own_steps n st st' -> n + work st' <= work st.
Proof. induction 1 as [|n st st' st'' H _ IH]; [lia|]. pose proof (own_step_work _ _ H). lia. Qed.

Lemma own_steps_ok n st st' : scheduler_ok st -> own_steps n st st' -> scheduler_ok st'.
Proof. intros Hok Hs. induction Hs; [done|]. eauto using step_ok, step. Qed.

Lemma own_progress st : scheduler_ok st -> at_ st <> Idle -> exists st', own_step st st'.
Proof.
  intros [Hp _ _] Hat. destruct (at_ st) as [|[|meta due] r|t due r] eqn:E; [done|..].
  - eexists. by eapply own_end.
  - eexists. by eapply (own_next "" "").
  - destruct (permits st) as [|k] eqn:Hk.
    + destruct (running st) as [|t0 l] eqn:Hr; [cbn in Hp; discriminate|].
      eexists. eapply (own_task "" 0). unfold task_end. rewrite Hr. reflexivity.
    + eexists. eapply own_spawn; [done|]. unfold tick_spawn. by rewrite Hk.
Qed.

(** C35: ticks end and the scheduler does not deadlock: from every reachable state, whatever
    order the walk of the due jobs and the ends of the tasks take, at most three steps per
    due job left, three more and one per running task are possible, and the steps can
    only come to a stop when the tick has ended. *)
Theorem tick_completes s0 st n st' :
  reachable s0 st -> own_steps n st st' ->
  n <= length (running st) + match at_ st with
                             | Idle => 0
                             | Ticking due _ => 3 * length due + 1
                             | Waiting _ due _ => 3 * length due + 3
                             end /\
  (at_ st' = Idle \/ exists st'', own_step st' st'').
Proof.
  intros Hok%reachable_scheduler_ok Hs. split; [pose proof (own_steps_work _ _ _ Hs); unfold work in *; lia|].
  assert (at_ st' = Idle \/ at_ st' <> Idle) as [Hat|Hat]
    by (destruct (at_ st'); [by left|right; congruence|right; congruence]); [by left|right].
  apply own_progress; [by eapply own_steps_ok|done].
Qed.

(** ** Runs that never start *)

(** The errors that [execute_scheduled_job] returns without touching the run. *)
Definition unrunnable (meta : JobMeta) : option SchedulerError :=
  match config_json meta with
  | None => Some (MissingConfig (job_id meta))
  | Some config =>
    match resolve_connection meta, kind meta with
    | Err _, _ => None
    | Ok _, Dump => match dump_request config with Err e => Some (BadConfig e) | Ok _ => None end
    | Ok _, Export =>
      match export_request config with
      | Err e => Some (BadConfig e)
      | Ok true => Some UnsupportedDestination
      | Ok false => None
      end
    | Ok _, k => Some (UnsupportedKind k)
    end
  end.

Lemma execute_unrunnable now meta id e s :
  unrunnable meta = Some e -> execute_scheduled_job now meta id s = (Err e, s).
Proof.
  unfold unrunnable, execute_scheduled_job. destruct (config_json meta) as [c|]; [|by intros [= <-]].
  destruct (resolve_connection meta); [|done]. destruct (kind meta).
  - destruct (dump_request c); [done|by intros [= <-]].
  - by intros [= <-].
  - destruct (export_request c) as [[]|]; [by intros [= <-]|done|by intros [= <-]].
  - by intros [= <-].
Qed.

Lemma advance_schedule_get now meta s id j :
  NoDup (map job_id (jobs s)) -> id <> job_id meta -> get id s = Some j ->
  get id (advance_schedule now meta s).1 = Some j.
Proof.
  intros Hn Hid Hj. unfold advance_schedule. destruct (schedule meta) as [sched|]; [|done].
  destruct (enabled sched); [|done].
  assert (forall t, get id (update_next_run (job_id meta) t s) = Some j) as Hu.
  { intros t. unfold update_next_run. rewrite (get_update_job (job_id meta) (set_next_run t) s id j Hn) by done.
    by rewrite decide_False. }
  destruct (next_run_from_cron (cron sched)); exact (Hu _).
Qed.

Lemma advance_schedule_ids now meta s :
  NoDup (map job_id (jobs s)) -> NoDup (map job_id (jobs (advance_schedule now meta s).1)).
Proof.
  intros Hn. unfold advance_schedule. destruct (schedule meta) as [sched|]; [|done].
  destruct (enabled sched); [|done].
  destruct (next_run_from_cron (cron sched)); exact (apply_ids (UpdateNextRun (job_id meta) _) s Hn).
Qed.

(** Retention removes no queued run. *)
Lemma get_cleanup_queued template n s id j :
  NoDup (map job_id (jobs s)) -> get id s = Some j -> status j = Queued ->
  get id (cleanup_retention template n s).2 = Some j.
Proof.
  intros Hn [Hin Hid]%get_iff Hst; [|done].
  apply get_iff; [exact (apply_ids (Cleanup template n) s Hn)|]. split; [|done].
  assert (j ∈ filter (fun j => ~ finished_run template j = true) (jobs s)) as Hq.
  { apply list_elem_of_filter. split; [|done]. unfold finished_run. rewrite Hst, andb_false_r. discriminate. }
  rewrite <-(others_cleanup template n s Hn) in Hq. by apply list_elem_of_filter in Hq as [_ Hq].
Qed.

(** A scheduled run that cannot start stays queued for ever: when the template has no
    stored request, one that does not parse, a clipboard destination or a kind that cannot
    be scheduled, the task of the run returns its error and leaves the store as it is, so
    the run that the tick recorded is still queued, and retention never removes it. *)
Theorem unrunnable_run_stays_queued now new_id meta due r st e now' :
  NoDup (map job_id (jobs (store st))) -> job_id meta ∉ in_flight st -> new_id <> job_id meta ->
  unrunnable meta = Some e ->
  let s := store (tick_next now new_id meta due r st) in
  execute_scheduled_job now' meta new_id s = (Err e, s) /\
  exists run, get new_id s = Some run /\ status run = Queued /\ parent_job_id run = Some (job_id meta) /\
    forall n, get new_id (cleanup_retention (job_id meta) n s).2 = Some run.
Proof.
  intros Hn Hf Hid He s. split; [by apply execute_unrunnable|].
  subst s. unfold tick_next. rewrite bool_decide_eq_false_2 by done.
  set (s0 := log_info _ _ _ _).
  assert (NoDup (map job_id (jobs s0))) as Hn0 by exact (create_job_ids (run_of now new_id meta) _ Hn).
  assert (exists run, get new_id s0 = Some run /\ status run = Queued /\ parent_job_id run = Some (job_id meta))
    as (run & Hget & Hst & Hp).
  { destruct (get_create (run_of now new_id meta) (store st) Hn) as (run & Hget & Hst & Hp).
    exists run. split; [exact Hget|]. split; [exact Hst|]. by rewrite Hp. }
  pose proof (advance_schedule_ids now meta s0 Hn0) as Hn1.
  pose proof (advance_schedule_get now meta s0 new_id run Hn0 Hid Hget) as Hget1.
  destruct (advance_schedule now meta s0) as [s1 q]. cbn [store fst] in *.
  exists run. split; [done|]. split; [done|]. split; [done|]. intros n. by apply get_cleanup_queued.
Qed.
End scheduler.
