(* ===== verification/SchedulerExample.v ===== *)
(** * A concrete job store and scheduler

    Jobs printed on one line each, a runtime whose cron expressions have a next occurrence
    unless they are empty, and a nightly dump: the witnesses of the theorems on the job
    store, its commands and the scheduler. *)

From S2P Require Import Prelude.
From S2P Require Import Bytes.
From S2P Require Import Text.
From S2P Require Import Interfaces.
From S2P Require Import JobStore.
From S2P Require Import JobSpec.
From S2P Require Import JobCommands.
From S2P Require Import Scheduler.
Local Open Scope nat_scope.
Import Concrete.

(** ** Jobs on one line *)

Definition kind_code (k : JobKind) : nat :=
  match k with Dump => 0 | Restore => 1 | Export => 2 | Import => 3 end.
Definition code_kind (n : nat) : JobKind :=
  match n with 0 => Dump | 1 => Restore | 2 => Export | _ => Import end.
#[export] Instance JobKind_countable : Countable JobKind.
Proof. by apply (inj_countable' kind_code code_kind); intros []. Defined.

Definition status_code (k : JobStatus) : nat :=
  match k with Queued => 0 | Running => 1 | Done => 2 | Failed => 3 | Cancelled => 4 end.
Definition code_status (n : nat) : JobStatus :=
  match n with 0 => Queued | 1 => Running | 2 => Done | 3 => Failed | _ => Cancelled end.
#[export] Instance JobStatus_countable : Countable JobStatus.
Proof. by apply (inj_countable' status_code code_status); intros []. Defined.

#[export] Instance ScheduleConfig_eq_dec : EqDecision ScheduleConfig.
Proof. solve_decision. Defined.
#[export] Instance ScheduleConfig_countable : Countable ScheduleConfig.
Proof.
  apply (inj_countable' (fun s => (cron s, enabled s, retention_count s, next_run_at s))
           (fun '(a, b, c, d) => Build_ScheduleConfig a b c d)). by intros [].
Defined.

Definition job_tuple (j : JobMeta) :=
  ((job_id j, kind j, status j, connection_id j, profile_id j, database j, collections j),
   (created_at j, started_at j, finished_at j, output_path j, source_path j, schedule j),
   (parent_job_id j, processed j, total j, errors j, message j, config_json j)).
#[export] Instance JobMeta_eq_dec : EqDecision JobMeta.
Proof. solve_decision. Defined.
#[export] Instance JobMeta_countable : Countable JobMeta.
Proof.
  apply (inj_countable' job_tuple
           (fun '((a, b, c, d, e, f, g), (h, i, j, k, l, m), (n, o, p, q, r, s)) =>
              Build_JobMeta a b c d e f g h i j k l m n o p q r s)). by intros [].
Defined.

#[export] Instance plain_jobs : JobJson :=
  {| job_to_string := plain_print; job_from_str := plain_parse;
     job_round_trip := plain_round_trip; job_one_line := plain_one_line |}.

(** ** The application *)

#[export] Instance plain_cron : Cron :=
  {| schedule_of c := if bool_decide (c = "") then Err "empty"%string else Ok (Some "t2"%string) |}.

#[export] Instance plain_runtime : Runtime :=
  {| next_run_from_cron c := if bool_decide (c = "") then None else Some "t2"%string;
     parse_instant t := if bool_decide (t = "t1") then Some 1%Z else Some 2%Z;
     debug_string s := quote +:+ s +:+ quote;
     resolve_connection m := Ok (connection_id m);
     dump_request c := if bool_decide (c = "{}") then Ok tt else Err "bad"%string;
     export_request c := Ok false;
     run_dump id s := (Ok tt, s);
     run_export id s := (Ok tt, s) |}.

Definition nightly (config : option string) (st : JobStatus) : JobMeta :=
  {| job_id := "nightly"; kind := Dump; status := st; connection_id := "c"; profile_id := "p";
     database := "db"; collections := []; created_at := "t0"; started_at := None;
     finished_at := None; output_path := None; source_path := None;
     schedule := Some {| cron := "0 0 2 * * *"; enabled := true; retention_count := Some 2%N;
                         next_run_at := Some "t1"%string |};
     parent_job_id := None; processed := 0; total := None; errors := 0; message := "";
     config_json := config |}.
Definition holding (j : JobMeta) : JobStore := Build_JobStore ∅ [] [j] ∅ None ∅.

(** ** Witnesses *)

Definition ready := holding (nightly (Some "{}"%string) Done).
Definition ticked := tick_start 1 (start ready).
Definition queued := tick_next "t1" "run-1" (nightly (Some "{}"%string) Done) [] [] ticked.
Definition the_run : task :=
  {| template := "nightly"; run_id := "run-1"; task_meta := nightly (Some "{}"%string) Done |}.
Definition spawned : Scheduler :=
  {| store := store queued; in_flight := in_flight queued; permits := 1; running := [the_run];
     at_ := Ticking [] [("nightly"%string, 2%N)] |}.

Lemma at_ticked : at_ ticked = Ticking [nightly (Some "{}"%string) Done] [].
Proof. by vm_compute. Qed.
Lemma at_queued : at_ queued = Waiting the_run [] [("nightly"%string, 2%N)].
Proof. by vm_compute. Qed.
Lemma spawn_queued : tick_spawn the_run [] [("nightly"%string, 2%N)] queued = Some spawned.
Proof. by vm_compute. Qed.

Lemma reachable_queued : reachable ready queued.
Proof.
  eapply reachable_step; [eapply reachable_step; [apply reachable_start|]|].
  - by apply (step_tick 1).
  - apply step_own, own_next, at_ticked.
Qed.
Lemma own_spawned : own_steps 1 queued spawned.
Proof. eapply own_cons; [|constructor]. eapply own_spawn; [exact at_queued|exact spawn_queued]. Qed.
Lemma reachable_spawned : reachable ready spawned.
Proof.
  eapply reachable_step; [exact reachable_queued|]. apply step_own.
  eapply own_spawn; [exact at_queued|exact spawn_queued].
Qed.

Lemma scheduler_safe_witness :
  length (running spawned) <= 2 /\ NoDup (map template (running spawned)).
Proof. destruct (scheduler_safe ready spawned reachable_spawned) as (H1 & H2 & _). exact (conj H1 H2). Defined.

Lemma tick_completes_witness : at_ spawned = Idle \/ exists st, own_step spawned st.
Proof. destruct (tick_completes ready queued 1 spawned reachable_queued own_spawned) as [_ H]. exact H. Defined.

Definition broken : JobMeta := nightly None Done.
Lemma unrunnable_run_stays_queued_witness :
  exists run, get "run-1" (store (tick_next "t1" "run-1" broken [] [] (start (holding broken)))) = Some run /\
    status run = Queued.
Proof.
  destruct (unrunnable_run_stays_queued "t1" "run-1" broken [] [] (start (holding broken))
              (MissingConfig "nightly") "t1") as (_ & run & H1 & H2 & _).
  - apply NoDup_singleton.
  - apply not_elem_of_empty.
  - discriminate.
  - reflexivity.
  - exact (ex_intro _ run (conj H1 H2)).
Defined.

Definition busy := holding (nightly (Some "{}"%string) Running).
Definition weekly : UpdateScheduleRequest :=
  {| us_job_id := "nightly"; us_cron := "0 0 2 * * 1"; us_enabled := true;
     us_retention_count := None; us_profile_id := None |}.
Definition rescheduled : JobMeta :=
  inherit (Some {| cron := "0 0 2 * * 1"; enabled := true; retention_count := None;
                   next_run_at := Some "t2"%string |}) None "p" (nightly (Some "{}"%string) Running).
Lemma schedule_update_loses_status_witness :
  exists j, get "nightly" (create_job rescheduled (update_status "t1" "nightly" Done "ok" busy)).2 = Some j /\
    status j = Running.
Proof.
  destruct (schedule_update_loses_status parse_instant weekly busy (nightly (Some "{}"%string) Running)
              rescheduled "t1" "ok" 3%Z) as (_ & H & _).
  - apply NoDup_singleton.
  - reflexivity.
  - reflexivity.
  - reflexivity.
  - exact H.
Defined.

Lemma rerun_never_due_witness :
  get "nightly" (rerun_job "t1" "again" "nightly" ready).2 = Some (nightly (Some "{}"%string) Done).
Proof.
  destruct (rerun_never_due parse_instant "t1" "again" "nightly" ready (nightly (Some "{}"%string) Done) 3%Z)
    as (_ & H & _).
  - apply NoDup_singleton.
  - intros [H|H]%list_elem_of_In; [discriminate H|destruct H].
  - reflexivity.
  - exact H.
Defined.
