(* ===== verification/AppError.v ===== *)
(** * Errors of the desktop application (src-tauri/src/error.rs)

    The error every command returns.  The conversions from the errors of libraries only
    wrap their text. *)

From S2P Require Import Prelude.

Inductive AppError :=
| Io (msg : string)
| NotFound (msg : string)
| Validation (msg : string)
| Internal (msg : string)
| Mongo (msg : string)
| ConnectionNotFound (msg : string)
| InvalidBson (msg : string)
| Credential (msg : string)
| ProfileNotFound (msg : string)
| ProfileExists (msg : string)
| Timeout (msg : string)
| SqlParse (msg : string)
| ZkAudit (msg : string).

(** [#[error(...)]] *)
Definition display (e : AppError) : string :=
  match e with
  | Io m => "io error: " +:+ m
  | NotFound m => "not found: " +:+ m
  | Validation m => "validation error: " +:+ m
  | Internal m => "internal error: " +:+ m
  | Mongo m => "mongo error: " +:+ m
  | ConnectionNotFound m => "connection not found: " +:+ m
  | InvalidBson m => "invalid BSON: " +:+ m
  | Credential m => "credential error: " +:+ m
  | ProfileNotFound m => "profile not found: " +:+ m
  | ProfileExists m => "profile already exists: " +:+ m
  | Timeout m => "timeout: " +:+ m
  | SqlParse m => "sql parse error: " +:+ m
  | ZkAudit m => "zk audit error: " +:+ m
  end.

(** [impl From<serde_json::Error>] and [impl From<bson::ser::Error>] *)
Definition from_serde_json (err : string) : AppError := Internal ("serialization error: " +:+ err).
Definition from_bson_ser (err : string) : AppError := InvalidBson err.
