(* ===== verification/Timeline.v ===== *)
(** * Data timeline (src-tauri/src/mongo/timeline_store.rs, operation_recorder.rs)

    The ledger of the operations performed through the application: entries saved as one JSON
    line each, and an index from profiles to positions.  The entries and the index have a lock of
    their own, so the operations that change both are given as their two steps as well.
    [chrono_now()] is an argument, and a write of the file succeeds.  Then the recorder, which
    makes the entry of each command. *)

From coqutil Require Import Datatypes.RecordSetters.
From S2P Require Import Prelude.
From S2P Require Import Bytes.
From S2P Require Import Text.
Import OCamlLikeNotations.
Local Open Scope nat_scope.

(** ** Data *)

Inductive OperationKind :=
| Find | Aggregate | Sql | Explain
| InsertOne | InsertMany | UpdateOne | UpdateMany | DeleteOne | DeleteMany | ReplaceOne
| AggregationWrite
| IndexCreate | IndexDrop | CollectionCreate | CollectionDrop | CollectionRename
| Import | Export | Dump | Restore.
#[export] Instance OperationKind_eq_dec : EqDecision OperationKind.
Proof. solve_decision. Defined.

(** [RollbackLevel::None] is [NoRollback] here. *)
Inductive RollbackLevel := NoRollback | Sample | ChangedFields | Full.
Inductive ApprovalStatus := NotRequired | Pending | Approved | Rejected.

Record TimelineEntry := {
  id : string;
  profile_id : string;
  connection_id : string;
  kind : OperationKind;
  database : string;
  collection : string;
  actor : string;
  environment_tag : string;
  query_json : option string;
  update_json : option string;
  matched_count : option N;
  modified_count : option N;
  inserted_count : option N;
  deleted_count : option N;
  risk_score : option N;
  risk_reasons : option (list string);
  approval_status : ApprovalStatus;
  reviewers : option (list string);
  rollback_level : RollbackLevel;
  rollback_script : option string;
  rollback_archive_path : option string;
  notes : option string;
  created_at : string;
  executed_at : option string;
  execution_ms : option N;
  errored : bool;
  error_message : option string;
  returned_count : option N;
}.

#[export] Instance RollbackLevel_eq_dec : EqDecision RollbackLevel.
Proof. solve_decision. Defined.
#[export] Instance ApprovalStatus_eq_dec : EqDecision ApprovalStatus.
Proof. solve_decision. Defined.
#[export] Instance TimelineEntry_eq_dec : EqDecision TimelineEntry.
Proof. solve_decision. Defined.

(** The builder has the fields of the entry; [build] changes nothing. *)
Definition builder (now id profile_id : string) (kind : OperationKind) : TimelineEntry :=
  {| id := id; profile_id := profile_id; connection_id := ""; kind := kind; database := "";
     collection := ""; actor := "local-user"; environment_tag := ""; query_json := None;
     update_json := None; matched_count := None; modified_count := None; inserted_count := None;
     deleted_count := None; risk_score := None; risk_reasons := None;
     approval_status := NotRequired; reviewers := None; rollback_level := NoRollback;
     rollback_script := None; rollback_archive_path := None; notes := None; created_at := now;
     executed_at := None; execution_ms := None; errored := false; error_message := None;
     returned_count := None |}.
Definition with_connection_id (v : string) (b : TimelineEntry) : TimelineEntry := { b with connection_id := v }.
Definition with_database (v : string) (b : TimelineEntry) : TimelineEntry := { b with database := v }.
Definition with_collection (v : string) (b : TimelineEntry) : TimelineEntry := { b with collection := v }.
Definition with_actor (v : string) (b : TimelineEntry) : TimelineEntry := { b with actor := v }.
Definition with_environment_tag (v : string) (b : TimelineEntry) : TimelineEntry := { b with environment_tag := v }.
Definition with_query_json (v : option string) (b : TimelineEntry) : TimelineEntry := { b with query_json := v }.
Definition with_update_json (v : option string) (b : TimelineEntry) : TimelineEntry := { b with update_json := v }.
Definition with_matched_count (v : N) (b : TimelineEntry) : TimelineEntry := { b with matched_count := Some v }.
Definition with_modified_count (v : N) (b : TimelineEntry) : TimelineEntry := { b with modified_count := Some v }.
Definition with_inserted_count (v : N) (b : TimelineEntry) : TimelineEntry := { b with inserted_count := Some v }.
Definition with_deleted_count (v : N) (b : TimelineEntry) : TimelineEntry := { b with deleted_count := Some v }.
Definition with_risk_score (v : N) (b : TimelineEntry) : TimelineEntry := { b with risk_score := Some v }.
Definition with_risk_reasons (v : list string) (b : TimelineEntry) : TimelineEntry := { b with risk_reasons := Some v }.
Definition with_approval_status (v : ApprovalStatus) (b : TimelineEntry) : TimelineEntry := { b with approval_status := v }.
Definition with_reviewers (v : list string) (b : TimelineEntry) : TimelineEntry := { b with reviewers := Some v }.
Definition with_rollback_level (v : RollbackLevel) (b : TimelineEntry) : TimelineEntry := { b with rollback_level := v }.
Definition with_rollback_script (v : option string) (b : TimelineEntry) : TimelineEntry := { b with rollback_script := v }.
Definition with_rollback_archive_path (v : option string) (b : TimelineEntry) : TimelineEntry := { b with rollback_archive_path := v }.
Definition with_notes (v : option string) (b : TimelineEntry) : TimelineEntry := { b with notes := v }.
Definition with_executed_at (v : string) (b : TimelineEntry) : TimelineEntry := { b with executed_at := Some v }.
Definition with_execution_ms (v : N) (b : TimelineEntry) : TimelineEntry := { b with execution_ms := Some v }.
Definition with_errored (v : bool) (b : TimelineEntry) : TimelineEntry := { b with errored := v }.
Definition with_error_message (v : option string) (b : TimelineEntry) : TimelineEntry := { b with error_message := v }.
Definition with_returned_count (v : N) (b : TimelineEntry) : TimelineEntry := { b with returned_count := Some v }.

Record TimelineFilter := {
  f_profile_id : option string;
  f_database : option string;
  f_collection : option string;
  f_kind : option OperationKind;
  f_from : option string;
  f_to : option string;
  f_limit : option nat;
  f_errored : option bool;
}.

Record TimelineStore := {
  entries : list TimelineEntry;
  persist_path : option string;
  index : gmap string (list nat);
  files : gmap string string;
}.

Definition set_entries es (s : TimelineStore) : TimelineStore :=
  Build_TimelineStore es (persist_path s) (index s) (files s).
Definition set_index ix (s : TimelineStore) : TimelineStore :=
  Build_TimelineStore (entries s) (persist_path s) ix (files s).

(** [serde_json] on an entry: one line of text that parses back. *)
Class EntryJson := {
  entry_to_string : TimelineEntry -> string;
  entry_from_str : string -> option TimelineEntry;
  entry_round_trip e : entry_from_str (entry_to_string e) = Some e;
  entry_one_line e : one_line (entry_to_string e);
}.

(** ** Operations *)

Section store.
Context {EJ : EntryJson}.

Definition build_index (es : list TimelineEntry) : gmap string (list nat) :=
  foldl (fun index ie => push_at (profile_id ie.2) ie.1 index) ∅ (imap pair es).

Definition with_path (path : option string) (files : gmap string string) : TimelineStore :=
  let es := match path with
            | Some p => match files !! p with
                        | Some text => omap entry_from_str (lines text)
                        | None => []
                        end
            | None => []
            end in
  {| entries := es; persist_path := path; index := build_index es; files := files |}.

Definition new (files : gmap string string) : TimelineStore := with_path None files.

Definition save (s : TimelineStore) : TimelineStore :=
  match persist_path s with
  | Some path =>
    Build_TimelineStore (entries s) (persist_path s) (index s)
      (<[path := join newline (map entry_to_string (entries s))]> (files s))
  | None => s
  end.

(** The two halves of [append_batch]: under the lock of the entries, under that of the
    index. *)
Definition push_entries (es : list TimelineEntry) (s : TimelineStore) : TimelineStore :=
  set_entries (entries s ++ es) s.
Definition push_index (start_idx : nat) (es : list TimelineEntry) (s : TimelineStore) : TimelineStore :=
  set_index (foldl (fun index ie => push_at (profile_id ie.2) (start_idx + ie.1) index)
               (index s) (imap pair es)) s.

Definition append_batch (es : list TimelineEntry) (s : TimelineStore) : TimelineStore :=
  if bool_decide (es = []) then s
  else save (push_index (length (entries s)) es (push_entries es s)).

Definition append (e : TimelineEntry) (s : TimelineStore) : TimelineStore := append_batch [e] s.

Definition matches (f : TimelineFilter) (e : TimelineEntry) : bool :=
  match f_database f with Some db => bool_decide (database e = db) | None => true end &&
  match f_collection f with Some col => bool_decide (collection e = col) | None => true end &&
  match f_kind f with Some k => bool_decide (kind e = k) | None => true end &&
  match f_errored f with Some er => bool_decide (errored e = er) | None => true end &&
  match f_from f with Some from => String.leb from (created_at e) | None => true end &&
  match f_to f with Some to => String.leb (created_at e) to | None => true end.

(** [b.created_at.cmp(&a.created_at)]: the later text first. *)
Definition newer (a b : TimelineEntry) : bool := String.leb (created_at b) (created_at a).

Definition list_entries (f : TimelineFilter) (s : TimelineStore) : list TimelineEntry :=
  let candidate_indices := match f_profile_id f with
                           | Some pid => default [] (index s !! pid)
                           | None => seq 0 (length (entries s))
                           end in
  let out := filter (fun e => matches f e = true)
                    (omap (fun idx => entries s !! idx) candidate_indices) in
  let out := sort_by newer out in
  match f_limit f with Some limit => take limit out | None => out end.

Definition get (i : string) (s : TimelineStore) : option TimelineEntry :=
  snd <$> list_find (fun e => id e = i) (entries s).

Definition update_notes (i text : string) (s : TimelineStore) : bool * TimelineStore :=
  match list_find (fun e => id e = i) (entries s) with
  | Some (k, e) => (true, save (set_entries (<[k := with_notes (Some text) e]> (entries s)) s))
  | None => (false, s)
  end.

(** The two halves of [delete] and [prune]. *)
Definition retain (keep : TimelineEntry -> bool) (s : TimelineStore) : TimelineStore :=
  set_entries (filter (fun e => keep e = true) (entries s)) s.
Definition rebuild_index (s : TimelineStore) : TimelineStore := set_index (build_index (entries s)) s.

Definition delete_entry (i : string) (s : TimelineStore) : bool * TimelineStore :=
  let s' := retain (fun e => negb (bool_decide (id e = i))) s in
  let removed := bool_decide (length (entries s') < length (entries s)) in
  (removed, if removed then save (rebuild_index s') else s').

Definition len (s : TimelineStore) : nat := length (entries s).

Definition by_profile (es : list TimelineEntry) : gmap string (list TimelineEntry) :=
  foldl (fun m e => push_at (profile_id e) e m) ∅ es.
Definition keep_ids (retention_count : nat) (es : list TimelineEntry) : gset string :=
  list_to_set (concat (map (fun kl => map id (take retention_count (sort_by newer kl.2)))
                           (map_to_list (by_profile es)))).

Definition prune (cutoff : string) (retention_count : nat) (s : TimelineStore) : nat * TimelineStore :=
  let keep := keep_ids retention_count (entries s) in
  let s' := retain (fun e => String.leb cutoff (created_at e) || bool_decide (id e ∈ keep)) s in
  let removed := length (entries s) - length (entries s') in
  (removed, if bool_decide (0 < removed) then save (rebuild_index s') else s').
End store.

(** ** Operation recorder (src-tauri/src/mongo/operation_recorder.rs)

    One entry of the timeline for every operation that was executed.  The identifier
    ([Uuid::new_v4()]), the creation time of the builder and the execution time are
    arguments. *)

Local Open Scope N_scope.

Record RecordContext := {
  ctx_profile_id : string;
  ctx_connection_id : string;
  ctx_database : string;
  ctx_collection : string;
  ctx_environment_tag : string;
  ctx_actor : string;
}.

Definition new_context (profile_id connection_id database collection : string) : RecordContext :=
  {| ctx_profile_id := profile_id; ctx_connection_id := connection_id; ctx_database := database;
     ctx_collection := collection; ctx_environment_tag := ""; ctx_actor := "local-user" |}.

Definition with_context_tag (tag : string) (c : RecordContext) : RecordContext :=
  {| ctx_profile_id := ctx_profile_id c; ctx_connection_id := ctx_connection_id c;
     ctx_database := ctx_database c; ctx_collection := ctx_collection c; ctx_environment_tag := tag;
     ctx_actor := ctx_actor c |}.

Record SafeChangeMetadata := {
  sc_risk_score : option N;
  sc_risk_reasons : option (list string);
  sc_rollback_script : option string;
  sc_rollback_level : RollbackLevel;
}.
Definition default_metadata : SafeChangeMetadata :=
  {| sc_risk_score := None; sc_risk_reasons := None; sc_rollback_script := None;
     sc_rollback_level := NoRollback |}.

(** The identifier and the two times of an entry. *)
Record Stamp := { entry_id : string; created : string; executed : string }.

Section recorder.
Context {EJ : EntryJson}.

(** The calls every function starts its builder with. *)
Definition begin (t : Stamp) (ctx : RecordContext) (k : OperationKind) : TimelineEntry :=
  with_environment_tag (ctx_environment_tag ctx)
    (with_actor (ctx_actor ctx)
       (with_collection (ctx_collection ctx)
          (with_database (ctx_database ctx)
             (with_connection_id (ctx_connection_id ctx)
                (builder (created t) (entry_id t) (ctx_profile_id ctx) k))))).

(** The calls every function ends it with. *)
Definition finish (t : Stamp) (execution_ms : N) (errored : bool) (b : TimelineEntry) : TimelineEntry :=
  with_executed_at (executed t) (with_errored errored (with_execution_ms execution_ms b)).

Definition record_find (t : Stamp) (ctx : RecordContext) (filter_json : string) (returned_count : N)
    (execution_ms : N) (errored : bool) : TimelineStore -> TimelineStore :=
  append (finish t execution_ms errored
    (with_returned_count returned_count (with_query_json (Some filter_json) (begin t ctx Find)))).

Definition record_aggregate (t : Stamp) (ctx : RecordContext) (pipeline_json : string) (returned_count : N)
    (execution_ms : N) (errored : bool) : TimelineStore -> TimelineStore :=
  append (finish t execution_ms errored
    (with_returned_count returned_count (with_query_json (Some pipeline_json) (begin t ctx Aggregate)))).

Definition record_insert (t : Stamp) (ctx : RecordContext) (kind : OperationKind) (document_json : string) (inserted_count : N)
    (execution_ms : N) (errored : bool) (error_message : option string) : TimelineStore -> TimelineStore :=
  append (finish t execution_ms errored
    (with_error_message error_message (with_inserted_count inserted_count (with_update_json (Some document_json) (begin t ctx kind))))).

(** The score and the reasons are set only when there are any. *)
Definition with_metadata (m : SafeChangeMetadata) (b : TimelineEntry) : TimelineEntry :=
  let b := with_rollback_script (sc_rollback_script m) (with_rollback_level (sc_rollback_level m) b) in
  let b := match sc_risk_score m with Some score => with_risk_score score b | None => b end in
  match sc_risk_reasons m with Some reasons => with_risk_reasons reasons b | None => b end.

Definition record_update (t : Stamp) (ctx : RecordContext) (kind : OperationKind)
    (filter_json update_json : string) (matched_count modified_count execution_ms : N) (errored : bool)
    (error_message : option string) (safe_change : SafeChangeMetadata) : TimelineStore -> TimelineStore :=
  let b := with_query_json (Some filter_json) (begin t ctx kind) in
  let b := with_modified_count modified_count (with_matched_count matched_count (with_update_json (Some update_json) b)) in
  let b := with_error_message error_message (with_errored errored (with_execution_ms execution_ms b)) in
  append (with_executed_at (executed t) (with_metadata safe_change b)).

Definition record_delete (t : Stamp) (ctx : RecordContext) (kind : OperationKind)
    (filter_json : string) (deleted_count execution_ms : N) (errored : bool)
    (error_message : option string) (safe_change : SafeChangeMetadata) : TimelineStore -> TimelineStore :=
  let b := with_deleted_count deleted_count (with_query_json (Some filter_json) (begin t ctx kind)) in
  let b := with_error_message error_message (with_errored errored (with_execution_ms execution_ms b)) in
  append (with_executed_at (executed t) (with_metadata safe_change b)).

Definition record_replace_one (t : Stamp) (ctx : RecordContext) (filter_json replacement_json : string)
    (matched_count modified_count execution_ms : N) (errored : bool) (error_message : option string)
    (safe_change : SafeChangeMetadata) : TimelineStore -> TimelineStore :=
  record_update t ctx ReplaceOne filter_json replacement_json matched_count modified_count execution_ms
    errored error_message safe_change.

Definition record_insert_many (t : Stamp) (ctx : RecordContext) (documents_json : string) (inserted_count : N)
    (execution_ms : N) (errored : bool) (error_message : option string) : TimelineStore -> TimelineStore :=
  record_insert t ctx InsertMany documents_json inserted_count execution_ms errored error_message.

Definition record_collection_create (t : Stamp) (ctx : RecordContext)
    (execution_ms : N) (errored : bool) (error_message : option string) : TimelineStore -> TimelineStore :=
  append (finish t execution_ms errored
    (with_error_message error_message (begin t ctx CollectionCreate))).

Definition record_collection_drop (t : Stamp) (ctx : RecordContext)
    (execution_ms : N) (errored : bool) (error_message : option string) : TimelineStore -> TimelineStore :=
  append (finish t execution_ms errored
    (with_error_message error_message (begin t ctx CollectionDrop))).

Definition record_collection_rename (t : Stamp) (ctx : RecordContext) (target_collection : string)
    (execution_ms : N) (errored : bool) (error_message : option string) : TimelineStore -> TimelineStore :=
  append (finish t execution_ms errored
    (with_error_message error_message (with_query_json (Some target_collection) (begin t ctx CollectionRename)))).

Definition record_import (t : Stamp) (ctx : RecordContext) (source_summary_json : string) (inserted_count : N)
    (execution_ms : N) (errored : bool) (error_message : option string) : TimelineStore -> TimelineStore :=
  append (finish t execution_ms errored
    (with_error_message error_message (with_inserted_count inserted_count (with_query_json (Some source_summary_json) (begin t ctx Timeline.Import))))).

Definition record_export (t : Stamp) (ctx : RecordContext) (source_summary_json : string) (exported_count : N)
    (execution_ms : N) (errored : bool) (error_message : option string) : TimelineStore -> TimelineStore :=
  append (finish t execution_ms errored
    (with_error_message error_message (with_returned_count exported_count (with_query_json (Some source_summary_json) (begin t ctx Timeline.Export))))).

Definition record_dump_collection (t : Stamp) (ctx : RecordContext) (dumped_count : N)
    (execution_ms : N) (errored : bool) (error_message : option string) : TimelineStore -> TimelineStore :=
  append (finish t execution_ms errored
    (with_error_message error_message (with_returned_count dumped_count (begin t ctx Dump)))).

Definition record_restore_collection (t : Stamp) (ctx : RecordContext) (inserted_count : N)
    (execution_ms : N) (errored : bool) (error_message : option string) : TimelineStore -> TimelineStore :=
  append (finish t execution_ms errored
    (with_error_message error_message (with_inserted_count inserted_count (begin t ctx Restore)))).

Definition record_index_create (t : Stamp) (ctx : RecordContext) (index_definition_json : string)
    (execution_ms : N) (errored : bool) (error_message : option string) : TimelineStore -> TimelineStore :=
  append (finish t execution_ms errored
    (with_error_message error_message (with_update_json (Some index_definition_json) (begin t ctx IndexCreate)))).

Definition record_index_drop (t : Stamp) (ctx : RecordContext) (index_name : string)
    (execution_ms : N) (errored : bool) (error_message : option string) : TimelineStore -> TimelineStore :=
  append (finish t execution_ms errored
    (with_error_message error_message (with_query_json (Some index_name) (begin t ctx IndexDrop)))).

End recorder.
