(* ===== verification/TimelineSpec.v ===== *)
(** * What the timeline promises

    The index is a cache: after any sequence of operations a query answers what a scan of the
    entries would, a restart reads the same entries back, and a prune keeps exactly the recent
    and the latest entries.  Two operations at once can break the index.  A concrete text
    format for entries, and the witnesses, are at the end. *)

From S2P Require Import Prelude.
From S2P Require Import Bytes.
From S2P Require Import Text.
From S2P Require Import Timeline.
Local Open Scope nat_scope.

Section spec.
Context {EJ : EntryJson}.
Implicit Types (s : TimelineStore) (e : TimelineEntry).

Inductive op :=
| Append (es : list TimelineEntry)
| UpdateNotes (i text : string)
| Delete (i : string)
| Prune (cutoff : string) (retention_count : nat).

Definition apply (o : op) (s : TimelineStore) : TimelineStore :=
  match o with
  | Append es => append_batch es s
  | UpdateNotes i text => (update_notes i text s).2
  | Delete i => (delete_entry i s).2
  | Prune cutoff n => (prune cutoff n s).2
  end.
Definition apply_all (os : list op) (s : TimelineStore) : TimelineStore := foldl (fun s o => apply o s) s os.

(** ** The index *)

Definition positions (pid : string) (es : list TimelineEntry) : list nat :=
  map fst (filter (fun ie => profile_id ie.2 = pid) (imap pair es)).

Definition index_ok (s : TimelineStore) : Prop :=
  forall pid, default [] (index s !! pid) = positions pid (entries s).

Lemma build_index_ok es pid : default [] (build_index es !! pid) = positions pid es.
Proof.
  unfold build_index. rewrite (lookup_foldl_push_at (fun ie => profile_id ie.2) fst).
  by rewrite lookup_empty.
Qed.

Lemma positions_app pid es es' :
  positions pid (es ++ es') = positions pid es ++ map (fun i => length es + i) (positions pid es').
Proof.
  unfold positions. rewrite imap_app, filter_app, map_app. f_equal.
  replace (imap (fun n => pair (length es + n)) es')
    with (map (fun ie => (length es + ie.1, ie.2)) (imap pair es')).
  - by rewrite filter_map, !map_map.
  - change (map ?f ?l) with (f <$> l). by rewrite fmap_imap.
Qed.

Lemma push_index_ok es s : index_ok s -> index_ok (push_index (length (entries s)) es (push_entries es s)).
Proof.
  intros Hs pid. change (default [] (index (push_index (length (entries s)) es s) !! pid) =
    positions pid (entries s ++ es)). unfold push_index. cbn [index set_index].
  rewrite (lookup_foldl_push_at (fun ie => profile_id ie.2) (fun ie => length (entries s) + ie.1)).
  rewrite Hs, positions_app. unfold positions. by rewrite map_map.
Qed.

Lemma save_eq s : entries (save s) = entries s /\ index (save s) = index s /\ persist_path (save s) = persist_path s.
Proof. unfold save. by destruct (persist_path s) eqn:E. Qed.

Lemma index_ok_save s : index_ok s -> index_ok (save s).
Proof. destruct (save_eq s) as (He & Hi & _). unfold index_ok. by rewrite He, Hi. Qed.

Lemma positions_insert pid es k e e' :
  es !! k = Some e -> profile_id e' = profile_id e -> positions pid (<[k:=e']> es) = positions pid es.
Proof.
  intros Hk Hp. rewrite <-(take_drop_middle es k e Hk) at 2.
  rewrite insert_take_drop by by eapply lookup_lt_Some.
  rewrite !positions_app, !length_take. do 2 f_equal.
  change (e' :: ?l) with ([e'] ++ l). change (e :: ?l) with ([e] ++ l). rewrite !positions_app. f_equal.
  unfold positions. cbn. rewrite Hp. by destruct (decide (profile_id e = pid)).
Qed.

Lemma rebuild_ok s : index_ok (rebuild_index s).
Proof. intros pid. apply build_index_ok. Qed.

Lemma retain_all keep s :
  length (entries s) <= length (entries (retain keep s)) -> entries (retain keep s) = entries s.
Proof. apply list_filter_full. Qed.

Lemma apply_index_ok o s : index_ok s -> index_ok (apply o s).
Proof.
  intros Hs. destruct o as [es|i text|i|cutoff n]; cbn [apply].
  - unfold append_batch. case_bool_decide; [done|]. by apply index_ok_save, push_index_ok.
  - unfold update_notes. destruct (list_find _ _) as [[k e]|] eqn:Hf; [|done]. cbn [snd].
    apply list_find_Some in Hf as (Hk & _ & _). apply index_ok_save. intros pid. cbn [entries index set_entries].
    by rewrite (positions_insert pid _ k e).
  - unfold delete_entry. cbn [snd]. case_bool_decide as Hl; [by apply index_ok_save, rebuild_ok|].
    intros pid. rewrite retain_all by lia. apply Hs.
  - unfold prune. cbn [snd]. case_bool_decide as Hl; [by apply index_ok_save, rebuild_ok|].
    intros pid. rewrite retain_all by lia. apply Hs.
Qed.

Lemma with_path_index_ok path files0 : index_ok (with_path path files0).
Proof. intros pid. apply build_index_ok. Qed.

Lemma apply_all_index_ok os s : index_ok s -> index_ok (apply_all os s).
Proof. revert s. induction os as [|o os IH]; intros s Hs; [done|]. by apply IH, apply_index_ok. Qed.

(** The query without an index. *)
Definition scan (f : TimelineFilter) (s : TimelineStore) : list TimelineEntry :=
  let out := match f_profile_id f with
             | Some pid => filter (fun e => profile_id e = pid) (entries s)
             | None => entries s
             end in
  let out := sort_by newer (filter (fun e => matches f e = true) out) in
  match f_limit f with Some limit => take limit out | None => out end.

Lemma positions_entries pid es :
  omap (fun i => es !! i) (positions pid es) = filter (fun e => profile_id e = pid) es.
Proof.
  unfold positions. rewrite omap_positions.
  etrans; [exact (eq_sym (filter_map snd (fun e => profile_id e = pid) (imap pair es)))|].
  by rewrite map_snd_imap.
Qed.

(** C28: the index is only a cache: after any sequence of operations on a store, loaded from
    a file or new, a query answers exactly what a scan of all entries answers: the entries
    of the profile that match, newest first, up to the limit. *)
Theorem list_is_scan path files0 os f :
  let s := apply_all os (with_path path files0) in list_entries f s = scan f s.
Proof.
  intros s. assert (index_ok s) as Hs by by apply apply_all_index_ok, with_path_index_ok.
  unfold list_entries, scan. destruct (f_profile_id f) as [pid|].
  - by rewrite Hs, positions_entries.
  - by rewrite omap_seq_lookup.
Qed.

(** ** Restarts *)

Definition reload (p : string) (s : TimelineStore) : list TimelineEntry := entries (with_path (Some p) (files s)).
Definition on_disk (p : string) (s : TimelineStore) : Prop :=
  persist_path s = Some p /\ reload p s = entries s.

Lemma timeline_disk_save p s : persist_path s = Some p -> on_disk p (save s).
Proof.
  intros Hp. destruct (save_eq s) as (He & _ & Hp'). split; [congruence|]. rewrite He.
  unfold reload, with_path, save. rewrite Hp. cbn. rewrite lookup_insert_eq.
  apply reload_lines; [apply entry_round_trip|apply entry_one_line].
Qed.

Lemma timeline_disk_same p s s' :
  persist_path s' = persist_path s -> files s' = files s -> entries s' = entries s -> on_disk p s -> on_disk p s'.
Proof. unfold on_disk, reload. by intros -> -> ->. Qed.

Lemma timeline_apply_on_disk p o s : on_disk p s -> on_disk p (apply o s).
Proof.
  intros Hs. pose proof (proj1 Hs) as Hp. destruct o as [es|i text|i|cutoff n]; cbn [apply].
  - unfold append_batch. case_bool_decide; [done|]. by apply timeline_disk_save.
  - unfold update_notes. destruct (list_find _ _) as [[k e]|]; [|done]. by apply timeline_disk_save.
  - unfold delete_entry. cbn [snd]. case_bool_decide as Hl; [by apply timeline_disk_save|].
    apply (timeline_disk_same p s); [done|done|apply retain_all; lia|done].
  - unfold prune. cbn [snd]. case_bool_decide as Hl; [by apply timeline_disk_save|].
    apply (timeline_disk_same p s); [done|done|apply retain_all; lia|done].
Qed.

(** The timeline survives a restart: after any sequence of operations on a store opened
    on a file, opening the file again gives the same entries in the same order, and an
    index that answers every query as before. *)
Theorem timeline_survives_restart path files0 os f :
  let s := apply_all os (with_path (Some path) files0) in
  let s' := with_path (Some path) (files s) in
  entries s' = entries s /\ list_entries f s' = list_entries f s.
Proof.
  intros s s'.
  assert (on_disk path s) as [_ Hr].
  { subst s s'. unfold apply_all. generalize (conj eq_refl eq_refl : on_disk path (with_path (Some path) files0)).
    generalize (with_path (Some path) files0). induction os as [|o os IH]; intros s Hs; [done|].
    apply IH. by apply timeline_apply_on_disk. }
  change (entries s' = entries s) in Hr. split; [done|].
  pose proof (apply_all_index_ok os _ (with_path_index_ok (Some path) files0)) as Hi. fold s in Hi.
  pose proof (with_path_index_ok (Some path) (files s)) as Hi'. fold s' in Hi'.
  unfold list_entries. destruct (f_profile_id f) as [pid|]; [|by rewrite Hr].
  by rewrite Hi, Hi', Hr.
Qed.

(** ** Pruning *)

(** The entries of the profile of [e], newest first. *)
Definition ledger (es : list TimelineEntry) (e : TimelineEntry) : list TimelineEntry :=
  sort_by newer (filter (fun e' => profile_id e' = profile_id e) es).

Lemma lookup_by_profile es pid : default [] (by_profile es !! pid) = filter (fun e => profile_id e = pid) es.
Proof.
  unfold by_profile. rewrite (lookup_foldl_push_at profile_id (fun e => e)), lookup_empty. cbn.
  apply map_id.
Qed.

Lemma keep_ids_iff n es e :
  NoDup (map id es) -> e ∈ es -> id e ∈ keep_ids n es <-> e ∈ take n (ledger es e).
Proof.
  intros Hn He. unfold keep_ids. rewrite elem_of_list_to_set, list_elem_of_In, in_concat. split.
  - intros (ids & (kl & <- & Hkl%list_elem_of_In)%in_map_iff & (e' & Hid & Hin%list_elem_of_In)%in_map_iff).
    destruct kl as [pid l]. apply elem_of_map_to_list in Hkl. cbn [snd] in Hin.
    pose proof (lookup_by_profile es pid) as Hl. rewrite Hkl in Hl. cbn in Hl. subst l.
    pose proof (subseteq_take _ _ _ Hin) as Hes. rewrite sort_by_perm in Hes.
    apply list_elem_of_filter in Hes as [<- Hes]. replace e with e'; [done|].
    by apply (NoDup_map_inj id es).
  - intros Hin. exists (map id (take n (ledger es e))). split.
    + apply in_map_iff. exists (profile_id e, filter (fun e' => profile_id e' = profile_id e) es).
      split; [done|]. apply list_elem_of_In, elem_of_map_to_list.
      pose proof (lookup_by_profile es (profile_id e)) as Hl.
      destruct (by_profile es !! profile_id e) as [l|]; cbn in Hl; [by rewrite Hl|].
      assert (e ∈ filter (fun e' => profile_id e' = profile_id e) es) as Hf by by apply list_elem_of_filter.
      rewrite <-Hl in Hf. by apply not_elem_of_nil in Hf.
    + apply in_map, list_elem_of_In, Hin.
Qed.

(** A prune keeps exactly the entries not older than the cutoff and the latest
    [retention_count] of every profile, in order, and returns how many it removed. *)
Theorem prune_keeps_latest cutoff n s :
  NoDup (map id (entries s)) ->
  let '(removed, s') := prune cutoff n s in
  entries s' = filter (fun e => String.leb cutoff (created_at e) = true \/ e ∈ take n (ledger (entries s) e))
                      (entries s) /\
  removed = length (entries s) - length (entries s').
Proof.
  intros Hn. destruct (prune cutoff n s) as [removed s'] eqn:Hp.
  assert (entries s' = entries (retain (fun e => String.leb cutoff (created_at e) ||
            bool_decide (id e ∈ keep_ids n (entries s))) s)) as He.
  { unfold prune in Hp. injection Hp as _ <-. case_bool_decide; [by rewrite (proj1 (save_eq _))|done]. }
  split; [|unfold prune in Hp; injection Hp as <- _; by rewrite He].
  rewrite He. unfold retain. cbn [entries set_entries]. apply list_filter_ext.
  intros e Hin. rewrite orb_true_iff, bool_decide_eq_true. by rewrite (keep_ids_iff n _ e Hn Hin).
Qed.

(** ** Two operations at once *)

Definition of_profile (pid : string) : TimelineFilter :=
  {| f_profile_id := Some pid; f_database := None; f_collection := None; f_kind := None;
     f_from := None; f_to := None; f_limit := None; f_errored := None |}.

Lemma list_of_profile_elem pid s idx e :
  idx ∈ default [] (index s !! pid) -> entries s !! idx = Some e -> e ∈ list_entries (of_profile pid) s.
Proof.
  intros Hidx He. unfold list_entries. cbn [f_profile_id of_profile f_limit]. rewrite sort_by_perm.
  apply list_elem_of_filter. split; [done|]. apply list_elem_of_omap. by exists idx.
Qed.

Lemma delete_one i s e0 :
  NoDup (map id (entries s)) -> e0 ∈ entries s -> id e0 = i ->
  S (length (entries (delete_entry i s).2)) = length (entries s).
Proof.
  intros Hn He0 Hi. set (keep := fun e => negb (bool_decide (id e = i))).
  assert (S (length (filter (fun e => keep e = true) (entries s))) = length (entries s)) as Hl.
  { apply list_elem_of_split in He0 as (l1 & l2 & Hs). rewrite Hs in Hn |- *.
    rewrite map_app in Hn. cbn in Hn.
    apply NoDup_app in Hn as (_ & Hn1 & Hn2). apply NoDup_cons in Hn2 as [Hn2 _].
    rewrite filter_app, filter_cons_False by (subst keep; cbn; by rewrite bool_decide_eq_true_2).
    rewrite !list_filter_all, !length_app; [cbn; lia|..]; apply Forall_forall; intros e Hin; subst keep; cbn;
      rewrite bool_decide_eq_false_2; try done; intros Heq.
    - apply Hn2. rewrite Hi, <-Heq. by apply (list_elem_of_fmap_2 id).
    - apply (Hn1 i); [rewrite <-Heq; by apply (list_elem_of_fmap_2 id)|]. rewrite Hi. left. }
  unfold delete_entry. cbn [snd]. unfold retain. fold keep. cbn [entries set_entries].
  unfold keep in Hl. rewrite bool_decide_eq_true_2 by (rewrite <-Hl; lia). by rewrite (proj1 (save_eq _)).
Qed.

(** A deletion between the two halves of an append corrupts the index: the new entry is
    indexed one position too high, so the next entry appended, of another profile, is
    listed under the profile of the first. *)
Theorem append_delete_race s e e' e0 :
  NoDup (map id (entries s ++ [e])) -> e0 ∈ entries s -> profile_id e' <> profile_id e ->
  let s1 := push_entries [e] s in
  let s2 := (delete_entry (id e0) s1).2 in
  let s3 := save (push_index (length (entries s)) [e] s2) in
  let s4 := append e' s3 in
  e' ∈ list_entries (of_profile (profile_id e)) s4.
Proof.
  intros Hn He0 Hp s1 s2 s3 s4.
  assert (length (entries s3) = length (entries s)) as Hlen.
  { subst s3. rewrite (proj1 (save_eq _)). change (length (entries s2) = length (entries s)).
    assert (e0 ∈ entries s1) as He1 by by apply elem_of_app; left.
    pose proof (delete_one (id e0) s1 e0 Hn He1 eq_refl) as Hd. fold s2 in Hd.
    assert (length (entries s1) = length (entries s) + 1) as Hl by apply length_app. lia. }
  apply (list_of_profile_elem _ _ (length (entries s))).
  - subst s4. unfold append, append_batch. rewrite bool_decide_eq_false_2 by done.
    rewrite (proj1 (proj2 (save_eq _))). unfold push_index, push_entries. cbn [index set_index set_entries].
    rewrite (lookup_foldl_push_at (fun ie => profile_id ie.2) (fun ie => length (entries s3) + ie.1)).
    apply elem_of_app. left. subst s3. rewrite (proj1 (proj2 (save_eq _))). unfold push_index. cbn [index set_index].
    rewrite (lookup_foldl_push_at (fun ie => profile_id ie.2) (fun ie => length (entries s) + ie.1)).
    apply elem_of_app. right. cbn. rewrite decide_True by done. cbn. rewrite Nat.add_0_r. left.
  - subst s4. unfold append, append_batch. rewrite bool_decide_eq_false_2 by done.
    rewrite (proj1 (save_eq _)). cbn [entries push_index push_entries set_index set_entries].
    by rewrite <-Hlen, lookup_app_r, Nat.sub_diag.
Qed.
End spec.

(** ** A concrete timeline

    Entries printed on one line each, and two profiles: the witnesses of the theorems on
    the timeline. *)

From S2P Require Import Interfaces.
Local Open Scope nat_scope.
Import Concrete.

Definition kinds : list OperationKind :=
  [Find; Aggregate; Sql; Explain; InsertOne; InsertMany; UpdateOne; UpdateMany; DeleteOne; DeleteMany;
   ReplaceOne; AggregationWrite; IndexCreate; IndexDrop; CollectionCreate; CollectionDrop;
   CollectionRename; Timeline.Import; Timeline.Export; Dump; Restore].
Definition kind_code (k : OperationKind) : nat :=
  match k with
  | Find => 0 | Aggregate => 1 | Sql => 2 | Explain => 3 | InsertOne => 4 | InsertMany => 5
  | UpdateOne => 6 | UpdateMany => 7 | DeleteOne => 8 | DeleteMany => 9 | ReplaceOne => 10
  | AggregationWrite => 11 | IndexCreate => 12 | IndexDrop => 13 | CollectionCreate => 14
  | CollectionDrop => 15 | CollectionRename => 16 | Timeline.Import => 17 | Timeline.Export => 18
  | Dump => 19 | Restore => 20
  end.
#[export] Instance OperationKind_countable : Countable OperationKind.
Proof. by apply (inj_countable' kind_code (fun n => nth n kinds Find)); intros []. Defined.

Definition level_code (l : RollbackLevel) : nat :=
  match l with NoRollback => 0 | Sample => 1 | ChangedFields => 2 | Full => 3 end.
#[export] Instance RollbackLevel_countable : Countable RollbackLevel.
Proof.
  by apply (inj_countable' level_code (fun n => nth n [NoRollback; Sample; ChangedFields; Full] Full)); intros [].
Defined.

Definition approval_code (l : ApprovalStatus) : nat :=
  match l with NotRequired => 0 | Pending => 1 | Approved => 2 | Rejected => 3 end.
#[export] Instance ApprovalStatus_countable : Countable ApprovalStatus.
Proof.
  by apply (inj_countable' approval_code (fun n => nth n [NotRequired; Pending; Approved; Rejected] Rejected)); intros [].
Defined.

Definition entry_tuple (e : TimelineEntry) :=
  ((id e, profile_id e, connection_id e, kind e, database e, collection e, actor e),
   (environment_tag e, query_json e, update_json e, matched_count e, modified_count e, inserted_count e, deleted_count e),
   (risk_score e, risk_reasons e, approval_status e, reviewers e, rollback_level e, rollback_script e, rollback_archive_path e),
   (notes e, created_at e, executed_at e, execution_ms e, errored e, error_message e, returned_count e)).
#[export] Instance TimelineEntry_countable : Countable TimelineEntry.
Proof.
  apply (inj_countable' entry_tuple
    (fun '((a1, a2, a3, a4, a5, a6, a7), (b1, b2, b3, b4, b5, b6, b7),
           (c1, c2, c3, c4, c5, c6, c7), (d1, d2, d3, d4, d5, d6, d7)) =>
       Build_TimelineEntry a1 a2 a3 a4 a5 a6 a7 b1 b2 b3 b4 b5 b6 b7 c1 c2 c3 c4 c5 c6 c7 d1 d2 d3 d4 d5 d6 d7)).
  by intros [].
Defined.

#[export] Instance plain_entries : EntryJson :=
  {| entry_to_string := plain_print; entry_from_str := plain_parse;
     entry_round_trip := plain_round_trip; entry_one_line := plain_one_line |}.

(** ** Witnesses *)

Definition entry (i pid at_ : string) : TimelineEntry := builder at_ i pid Find.
Definition small : TimelineStore := append_batch [entry "a" "p" "1"; entry "b" "p" "2"] (new ∅).

Lemma small_ids : NoDup (map id (entries small)).
Proof. apply (bool_decide_eq_true_1 _). by vm_compute. Qed.
Lemma small_more_ids : NoDup (map id (entries small ++ [entry "c" "p" "3"])).
Proof. apply (bool_decide_eq_true_1 _). by vm_compute. Qed.

Lemma prune_keeps_latest_witness :
  exists s', (prune "9" 1 small).2 = s' /\ (prune "9" 1 small).1 = length (entries small) - length (entries s').
Proof.
  pose proof (prune_keeps_latest "9" 1 small small_ids) as H.
  destruct (prune "9" 1 small) as [removed s']. destruct H as [_ H]. exact (ex_intro _ s' (conj eq_refl H)).
Defined.

Definition raced : TimelineStore :=
  append (entry "d" "q" "4")
    (save (push_index 2 [entry "c" "p" "3"] (delete_entry "a" (push_entries [entry "c" "p" "3"] small)).2)).
Lemma append_delete_race_witness : entry "d" "q" "4" ∈ list_entries (of_profile "p") raced.
Proof.
  refine (append_delete_race small (entry "c" "p" "3") (entry "d" "q" "4") (entry "a" "p" "1") small_more_ids _ _).
  - apply list_elem_of_In. left. reflexivity.
  - discriminate.
Defined.
