(* ===== verification/Fields.v ===== *)
(** * Field lists: [bson::Document] and [serde_json::Map]

    Both are insertion-ordered maps: a list of fields with distinct keys.  Inserting
    replaces a value in place or appends; which field takes the place of a removed one is
    left to the library. *)

From S2P Require Import Prelude.

Abbreviation fields V := (list (string * V)).

Section fields.
Context {V : Type}.
Implicit Types (d : fields V) (k : string).

Fixpoint get d k : option V :=
  match d with
  | [] => None
  | (k', v) :: d => if decide (k' = k) then Some v else get d k
  end.

Definition has_key d k : bool := bool_decide (is_Some (get d k)).

Fixpoint insert k (v : V) d : fields V :=
  match d with
  | [] => [(k, v)]
  | (k', v') :: d => if decide (k' = k) then (k, v) :: d else (k', v') :: insert k v d
  end.

Definition keys d : list string := map fst d.

Lemma get_insert k k' v d : get (insert k v d) k' = if decide (k = k') then Some v else get d k'.
Proof.
  induction d as [|[k1 v1] d IH]; cbn; [done|]. destruct (decide (k1 = k)) as [->|Hk]; cbn;
    [by destruct (decide (k = k'))|].
  rewrite IH. destruct (decide (k1 = k')) as [->|]; [by rewrite decide_False|done].
Qed.

Lemma get_insert_eq k v d : get (insert k v d) k = Some v.
Proof. by rewrite get_insert, decide_True. Qed.

Lemma get_insert_ne k k' v d : k <> k' -> get (insert k v d) k' = get d k'.
Proof. intros. by rewrite get_insert, decide_False. Qed.

Lemma get_None d k : get d k = None <-> k ∉ keys d.
Proof.
  induction d as [|[k' v] d IH]; cbn; [split; [by intros _ ?%not_elem_of_nil|done]|].
  rewrite not_elem_of_cons. destruct (decide (k' = k)) as [->|]; [naive_solver|]. rewrite IH. naive_solver.
Qed.

Lemma get_Some_elem d k v : get d k = Some v -> (k, v) ∈ d.
Proof.
  induction d as [|[k' v'] d IH]; cbn; [done|]. destruct (decide (k' = k)) as [->|]; [intros [= ->]; left|].
  intros Hv. right. by apply IH.
Qed.

(** A new field is appended. *)
Lemma insert_fresh k v d : k ∉ keys d -> insert k v d = d ++ [(k, v)].
Proof.
  induction d as [|[k' v'] d IH]; cbn; [done|]. intros [Hk Hd]%not_elem_of_cons.
  rewrite decide_False by congruence. by rewrite IH.
Qed.

Lemma keys_insert k v d : keys (insert k v d) = if bool_decide (k ∈ keys d) then keys d else keys d ++ [k].
Proof.
  case_bool_decide as Hk; [|rewrite insert_fresh by done; apply map_app].
  induction d as [|[k' v'] d IH]; [by apply not_elem_of_nil in Hk|]. cbn in *.
  destruct (decide (k' = k)) as [->|]; [done|]. cbn. f_equal. apply IH.
  by apply elem_of_cons in Hk as [|].
Qed.

Lemma NoDup_keys_insert k v d : NoDup (keys d) -> NoDup (keys (insert k v d)).
Proof.
  intros Hd. rewrite keys_insert. case_bool_decide as Hk; [done|].
  apply NoDup_app. split_and!; [done|set_solver|apply NoDup_singleton].
Qed.

Lemma keys_app d1 d2 : keys (d1 ++ d2) = keys d1 ++ keys d2.
Proof. apply map_app. Qed.

Lemma has_key_spec d k : has_key d k = true <-> k ∈ keys d.
Proof.
  unfold has_key. rewrite bool_decide_eq_true. destruct (get d k) eqn:Hg.
  - split; [|by eauto]. intros _. destruct (decide (k ∈ keys d)) as [|Hn]; [done|]. by apply get_None in Hn; rewrite Hg in Hn.
  - apply get_None in Hg. split; [by intros []|done].
Qed.

(** Inserting new fields one by one appends them. *)
Lemma foldl_insert_fresh d1 d2 :
  NoDup (keys d2) -> (forall k, k ∈ keys d2 -> k ∉ keys d1) ->
  foldl (fun d kv => insert kv.1 kv.2 d) d1 d2 = d1 ++ d2.
Proof.
  revert d1. induction d2 as [|[k v] d2 IH]; intros d1 Hnd Hdis; [by rewrite app_nil_r|].
  cbn in *. apply NoDup_cons in Hnd as [Hk Hnd]. rewrite insert_fresh by (apply Hdis; left).
  rewrite IH, <-app_assoc; [done|done|]. intros k' Hk'. rewrite keys_app, elem_of_app. cbn.
  intros [Hd|Hd%elem_of_cons].
  - by apply (Hdis k'); [right|].
  - destruct Hd as [->|?%not_elem_of_nil]; done.
Qed.
End fields.

(** [Document::remove], [Map::remove] *)
Class Removal := {
  remove : forall {V}, string -> fields V -> fields V;
  get_remove {V} k k' (d : fields V) : get (remove k d) k' = if decide (k = k') then None else get d k';
}.

(** Removing keeps the order of the others. *)
Definition shift_remove {V} (k : string) (d : fields V) : fields V := filter (fun kv => kv.1 <> k) d.
Lemma get_shift_remove {V} k k' (d : fields V) :
  get (shift_remove k d) k' = if decide (k = k') then None else get d k'.
Proof.
  unfold shift_remove. induction d as [|[k1 v1] d IH]; [by destruct (decide (k = k'))|].
  rewrite filter_cons. cbn [fst get]. destruct (decide (k1 <> k)) as [Hk|Hk]; cbn [get]; rewrite IH.
  - destruct (decide (k1 = k')) as [->|]; [by rewrite decide_False|done].
  - assert (k1 = k) as -> by by destruct (decide (k1 = k)). by destruct (decide (k = k')).
Qed.
Definition shift_removal : Removal := {| remove := @shift_remove; get_remove := @get_shift_remove |}.
