(* ===== verification/Json.v ===== *)
(** * JSON values, floats and letters of the desktop application

    [serde_json::Value] as data; the arithmetic of [f64] on its bits and the case mapping of
    Unicode are interfaces. *)

From S2P Require Import Prelude.
From S2P Require Import Fields.
Local Open Scope Z_scope.

(** A number is an integer or the 64 bits of a finite float; an object is its
    insertion-ordered field list. *)
Unset Elimination Schemes.
Inductive Json :=
| JNull
| JBool (b : bool)
| JInt (n : Z)
| JFloat (bits : Z)
| JString (s : string)
| JArray (l : list Json)
| JObject (d : list (string * Json)).
Set Elimination Schemes.

(** Structural induction through the nested lists. *)
Section json_ind.
Context (P : Json -> Prop).
Context (HNull : P JNull) (HBool : forall b, P (JBool b)) (HInt : forall n, P (JInt n))
  (HFloat : forall b, P (JFloat b)) (HString : forall s, P (JString s))
  (HArray : forall l, Forall P l -> P (JArray l))
  (HObject : forall d, Forall (fun kv => P kv.2) d -> P (JObject d)).

Fixpoint Json_nested_ind (v : Json) : P v :=
  match v with
  | JNull => HNull | JBool b => HBool b | JInt n => HInt n | JFloat b => HFloat b | JString s => HString s
  | JArray l =>
    HArray l ((fix go l : Forall P l := match l with
                           | [] => Forall_nil_2 _
                           | v :: l => Forall_cons_2 _ v l (Json_nested_ind v) (go l)
                           end) l)
  | JObject d =>
    HObject d ((fix go d : Forall (fun kv => P kv.2) d := match d with
                            | [] => Forall_nil_2 _
                            | (k, v) :: d =>
                              Forall_cons_2 (fun kv => P kv.2) (k, v) d (Json_nested_ind v) (go d)
                            end) d)
  end.
End json_ind.

Definition as_object (v : Json) : option (fields Json) := match v with JObject d => Some d | _ => None end.
Definition json_get (v : Json) (k : string) : option Json := d ← as_object v; get d k.

(** [f64] on its bits. *)
Class Float64 := {
  f64_add : Z -> Z -> Z;
  f64_mul : Z -> Z -> Z;
  f64_neg : Z -> Z;
  f64_of_int : Z -> Z;           (* [f64::from], [as f64] *)
  f64_parse : string -> result string Z;
  f64_is_finite : Z -> bool;
  f64_as_int : Z -> Z -> Z -> Z; (* [as], saturating between two bounds *)
  f64_as_int_bounds lo hi b : lo <= hi -> lo <= f64_as_int lo hi b <= hi;
}.

(** [serde_json::json!(x)]: a float that is not finite is null. *)
Definition json_f64 `{Float64} (bits : Z) : Json := if f64_is_finite bits then JFloat bits else JNull.
(** [Value::as_f64] *)
Definition as_f64 `{Float64} (v : Json) : option Z :=
  match v with JInt n => Some (f64_of_int n) | JFloat b => Some b | _ => None end.

(** [serde_json]: parsing, the pretty printer, and the equality of values, which ignores the
    order of fields. *)
Class JsonText := {
  json_from_str : string -> result string Json;
  json_to_string_pretty : Json -> string;
  json_eqb : Json -> Json -> bool;
  json_eqb_refl v : json_eqb v v = true;
}.

(** [str::to_lowercase], [str::to_uppercase] *)
Class Letters := {
  to_lowercase : string -> string;
  to_uppercase : string -> string;
}.
