(* ===== verification/BsonJson.v ===== *)
(** * BSON and JSON (src-tauri/src/mongo/bson_json.rs)

    Filters typed by the user, with their date tags, and the display form of documents.
    The conversions of the [bson] crate are an interface. *)

From Stdlib Require Import Ascii.
From stdpp Require Import pretty.
From S2P Require Import Prelude.
From S2P Require Import Bytes.
From S2P Require Import Text.
From S2P Require Import Fields.
From S2P Require Import Json.
From S2P Require Import OplogCanon.
From S2P Require Import AppError.
Local Open Scope Z_scope.

Abbreviation Doc := (fields Bson).

(** [bson::to_bson], [into_relaxed_extjson], [bson::from_bson] *)
Class BsonConvert := {
  to_bson : Json -> result string Bson;
  relaxed_extjson : Bson -> Json;
  bson_value : Bson -> option Json;
}.

Section bson_json.
Context {RM : Removal} {FL : Float64} {JT : JsonText} {LT : Letters} {BC : BsonConvert}.
(** The start of the current day (UTC), in milliseconds. *)
Context (today : Z).

Definition DAY : Z := 86400000.

Definition resolve_date_tag (tag : string) : option Z :=
  let t := to_lowercase tag in
  if bool_decide (t = "today"%string) then Some today
  else if bool_decide (t = "yesterday"%string) then Some (today - DAY)
  else if bool_decide (t = "lastweek"%string \/ t = "last_week"%string) then Some (today - 7 * DAY)
  else if bool_decide (t = "lastmonth"%string \/ t = "last_month"%string) then Some (today - 30 * DAY)
  else None.

Definition date_to_extjson (dt : Z) : Json :=
  JObject [("$date", JObject [("$numberLong", JString (pretty dt))])]%string.

(** [s.strip_prefix('#')] *)
Definition strip_hash (s : string) : option string :=
  match s with String "#"%char rest => Some rest | _ => None end.

Fixpoint expand_date_tags (v : Json) : Json :=
  match v with
  | JString s =>
    match strip_hash s with
    | Some tag => match resolve_date_tag tag with Some dt => date_to_extjson dt | None => v end
    | None => v
    end
  | JObject d => JObject (map (fun kv => (kv.1, expand_date_tags kv.2)) d)
  | JArray l => JArray (map expand_date_tags l)
  | _ => v
  end.

Definition other_element_type (b : Bson) : string :=
  match b with
  | Double _ => "double" | BString _ => "string" | Array _ => "array" | Document _ => "document"
  | Boolean _ => "bool" | Null => "null" | Int32 _ => "int32" | Int64 _ => "int64" | _ => "bson"
  end.

Definition parse_filter (input : string) : result AppError Doc :=
  match json_from_str input with
  | Err e => Err (from_serde_json e)
  | Ok json =>
    match to_bson (expand_date_tags json) with
    | Err e => Err (from_bson_ser e)
    | Ok (Document doc) => Ok doc
    | Ok other => Err (InvalidBson ("filter must be a JSON object, got " +:+ other_element_type other))
    end
  end.

Definition parse_optional_doc (input : option string) : result AppError (option Doc) :=
  match input with
  | None => Ok None
  | Some s => if bool_decide (trim s = ""%string) then Ok None
              else match parse_filter s with Ok d => Ok (Some d) | Err e => Err e end
  end.

(** The four rewritings of [simplify_for_display], each on a field list. *)
Definition display_oid (d : fields Json) : fields Json :=
  match get d "$oid" with
  | Some (JString oid) => insert "_idDisplay" (JString oid) (remove "$oid" d)
  | _ => d
  end.
Definition display_date (d : fields Json) : fields Json :=
  match get d "$date" with
  | Some (JObject inner) =>
    match (match get inner "$numberLong" with Some v => Some v | None => get inner "$numberInt" end) with
    | Some (JString iso) => insert "_dateDisplay" (JString iso) (remove "$date" d)
    | _ => match get inner "$string" with
           | Some (JString s) => insert "_dateDisplay" (JString s) (remove "$date" d)
           | _ => d
           end
    end
  | _ => d
  end.
Definition display_decimal (d : fields Json) : fields Json :=
  match get d "$numberDecimal" with
  | Some (JObject inner) =>
    match get inner "$numberString" with
    | Some (JString s) => insert "_decimalDisplay" (JString s) (remove "$numberDecimal" d)
    | _ => d
    end
  | _ => d
  end.
Definition display_binary (d : fields Json) : fields Json :=
  match get d "$binary" with
  | Some (JString b64) => insert "_binaryDisplay" (JString b64) (remove "$binary" d)
  | _ => d
  end.

Fixpoint simplify_for_display (v : Json) : Json :=
  match v with
  | JObject d =>
    JObject (display_binary (display_decimal (display_date (display_oid
      (map (fun kv => (kv.1, simplify_for_display kv.2)) d)))))
  | JArray l => JArray (map simplify_for_display l)
  | _ => v
  end.

Definition doc_to_extjson (d : Doc) : Json := relaxed_extjson (Document d).
Definition doc_to_display_json (d : Doc) : Json := simplify_for_display (relaxed_extjson (Document d)).
End bson_json.
