(* ===== verification/SafeChange.v ===== *)
(** * Safe change mode (src-tauri/src/mongo/safe_change.rs)

    The preview of a write: the documents it matches, their simulated after-state, a diff,
    a rollback plan built from the documents as they are, and a risk score.  What the
    server answers (counts, documents, the query plan) is an interface. *)

From stdpp Require Import pretty.
From S2P Require Import Prelude.
From S2P Require Import Bytes.
From S2P Require Import Text.
From S2P Require Import Timeline.
From S2P Require Import Fields.
From S2P Require Import Json.
From S2P Require Import OplogCanon.
From S2P Require Import AppError.
From S2P Require Import BsonJson.
Local Open Scope Z_scope.

Definition DEFAULT_SAMPLE_LIMIT : N := 10.
Definition MAX_SAMPLE_LIMIT : N := 50.
Definition ROLLBACK_CAPTURE_LIMIT : N := 100.

(** ** Paths *)

Fixpoint get_at (path : list string) (doc : Doc) : option Bson :=
  match path with
  | [] => None
  | [k] => get doc k
  | k :: path => match get doc k with Some (Document child) => get_at path child | _ => None end
  end.
Definition get_nested_value (doc : Doc) (path : string) : option Bson := get_at (segments path) doc.

Fixpoint set_at (path : list string) (value : Bson) (doc : Doc) : result AppError Doc :=
  match path with
  | [] => Ok doc
  | [k] => Ok (insert k value doc)
  | k :: rest =>
    match default (Document []) (get doc k) with
    | Document child =>
      match set_at rest value child with
      | Ok child => Ok (insert k (Document child) doc)
      | Err e => Err e
      end
    | _ => Err (Validation ("cannot set nested field '" +:+ join "." path +:+
                            "': intermediate is not a document"))
    end
  end.
Definition set_nested (doc : Doc) (path : string) (value : Bson) : result AppError Doc :=
  set_at (segments path) value doc.

Section safe_change.
Context {RM : Removal} {FL : Float64} {JT : JsonText} {LT : Letters} {BC : BsonConvert}.
(** [PartialEq for Bson] *)
Context (bson_eqb : Bson -> Bson -> bool).
Context (today : Z).

Fixpoint unset_at (path : list string) (doc : Doc) : Doc :=
  match path with
  | [] => doc
  | [k] => remove k doc
  | k :: path =>
    match get doc k with
    | Some (Document child) => insert k (Document (unset_at path child)) doc
    | _ => doc
    end
  end.
Definition unset_nested (doc : Doc) (path : string) : Doc := unset_at (segments path) doc.

(** ** Update simulation *)

Definition i32 (n : Z) : bool := (- 2 ^ 31 <=? n) && (n <? 2 ^ 31).
Definition i64 (n : Z) : bool := (- 2 ^ 63 <=? n) && (n <? 2 ^ 63).
Definition overflow : AppError := Validation "integer overflow during update simulation".
(** [checked_add], [checked_mul] *)
Definition checked (in_range : Z -> bool) (c : Z -> Bson) (n : Z) : result AppError (option Bson) :=
  if in_range n then Ok (Some (c n)) else Err overflow.

Definition numeric_add (a b : Bson) : result AppError (option Bson) :=
  match a, b with
  | Int32 x, Int32 y => checked i32 Int32 (x + y)
  | Int32 x, Int64 y | Int64 x, Int32 y | Int64 x, Int64 y => checked i64 Int64 (x + y)
  | Double x, Double y => Ok (Some (Double (f64_add x y)))
  | Double x, Int32 y | Double x, Int64 y => Ok (Some (Double (f64_add x (f64_of_int y))))
  | Null, Int32 y => Ok (Some (Int32 y))
  | Null, Int64 y => Ok (Some (Int64 y))
  | Null, Double y => Ok (Some (Double y))
  | _, _ => Ok None
  end.

Definition numeric_mul (a b : Bson) : result AppError (option Bson) :=
  match a, b with
  | Int32 x, Int32 y => checked i32 Int32 (x * y)
  | Int32 x, Int64 y | Int64 x, Int32 y | Int64 x, Int64 y => checked i64 Int64 (x * y)
  | Double x, Double y => Ok (Some (Double (f64_mul x y)))
  | Double x, Int32 y | Double x, Int64 y => Ok (Some (Double (f64_mul x (f64_of_int y))))
  | Null, Int32 _ => Ok (Some (Int32 0))
  | Null, Int64 _ => Ok (Some (Int64 0))
  | Null, Double _ => Ok (Some (Double 0))
  | _, _ => Ok None
  end.

Definition arith_nested (f : Bson -> Bson -> result AppError (option Bson)) (name : string)
    (doc : Doc) (path : string) (operand : Bson) : result AppError Doc :=
  match f (default Null (get_nested_value doc path)) operand with
  | Err e => Err e
  | Ok None => Err (Validation ("cannot " +:+ name +:+ " non-numeric field '" +:+ path +:+ "'"))
  | Ok (Some v) => set_nested doc path v
  end.
Definition inc_nested := arith_nested numeric_add "$inc".
Definition mul_nested := arith_nested numeric_mul "$mul".

Definition rename_field (doc : Doc) (old_name new_name : string) : Doc :=
  match get doc old_name with
  | Some value => insert new_name value (remove old_name doc)
  | None => doc
  end.

Definition to_array (name : string) (f : list Bson -> list Bson) (doc : Doc) (path : string) (value : Bson) :
    result AppError Doc :=
  match get_nested_value doc path with
  | Some (Array arr) => set_nested doc path (Array (f arr))
  | None => set_nested doc path (Array [value])
  | Some _ => Err (Validation ("cannot " +:+ name +:+ " to non-array field '" +:+ path +:+ "'"))
  end.
(** [arr.contains(&value)] *)
Definition contains (value : Bson) (arr : list Bson) : bool := existsb (fun item => bson_eqb item value) arr.
Definition push_to_array (doc : Doc) (path : string) (value : Bson) : result AppError Doc :=
  to_array "$push" (fun arr => arr ++ [value]) doc path value.
Definition add_to_set (doc : Doc) (path : string) (value : Bson) : result AppError Doc :=
  to_array "$addToSet" (fun arr => if contains value arr then arr else arr ++ [value]) doc path value.

Definition pull_from_array (doc : Doc) (path : string) (value : Bson) : result AppError Doc :=
  match get_nested_value doc path with
  | Some (Array arr) => set_nested doc path (Array (filter (fun item => bson_eqb item value = false) arr))
  | _ => Ok doc
  end.

(** The state of the simulation: the result so far and the warnings. *)
Definition sim := stateR (Doc * list string) AppError unit.
Definition on_doc (f : Doc -> result AppError Doc) : sim :=
  fun s => match f s.1 with Ok d => (Ok tt, (d, s.2)) | Err e => (Err e, s) end.

(** What an operator does with one of its fields; [None] for one that is not simulated. *)
Definition operator (op : string) : option (string -> Bson -> Doc -> result AppError Doc) :=
  if bool_decide (op = "$set")%string then Some (fun k v d => set_nested d k v)
  else if bool_decide (op = "$unset")%string then Some (fun k v d => Ok (unset_nested d k))
  else if bool_decide (op = "$inc")%string then Some (fun k v d => inc_nested d k v)
  else if bool_decide (op = "$mul")%string then Some (fun k v d => mul_nested d k v)
  else if bool_decide (op = "$rename")%string then
    Some (fun k v d => match v with BString new_name => Ok (rename_field d k new_name) | _ => Ok d end)
  else if bool_decide (op = "$push")%string then Some (fun k v d => push_to_array d k v)
  else if bool_decide (op = "$addToSet")%string then Some (fun k v d => add_to_set d k v)
  else if bool_decide (op = "$pull")%string then Some (fun k v d => pull_from_array d k v)
  else None.

Definition apply_operator (kv : string * Bson) : sim :=
  match operator kv.1 with
  | Some f =>
    match kv.2 with
    | Document fs => for_each (fun kv => on_doc (f kv.1 kv.2)) fs
    | _ => mret tt
    end
  | None => fun s => (Ok tt, (s.1, s.2 ++ ["Preview does not fully simulate '" +:+ kv.1 +:+
                                           "'; after-state is approximate."]))
  end.

Definition simulate_update (doc update : Doc) (warnings : list string) : result AppError Doc * list string :=
  let '(r, (d, warnings)) := for_each apply_operator update (doc, warnings) in
  (match r with Ok _ => Ok d | Err e => Err e end, warnings).

(** ** Field diff *)

Inductive ChangeType := Added | Modified | Removed.
Record FieldChange := {
  field : string;
  old_value : option Json;
  new_value : option Json;
  change_type : ChangeType;
}.

Definition field_change (before after : fields Json) (key : string) : option FieldChange :=
  let change t := Some {| field := key; old_value := get before key; new_value := get after key;
                          change_type := t |} in
  match get before key, get after key with
  | None, Some _ => change Added
  | Some _, None => change Removed
  | Some a, Some b => if json_eqb a b then None else change Modified
  | None, None => None
  end.

Definition compute_diff (before after : Doc) : list FieldChange :=
  match as_object (doc_to_display_json before), as_object (doc_to_display_json after) with
  | Some before, Some after => omap (field_change before after) (sort_dedup (keys before ++ keys after))
  | _, _ => []
  end.

(** ** Rollback plan *)

Definition bson_doc_to_json (d : Doc) : Json := default JNull (bson_value (Document d)).

(** [inverse.entry(group).or_insert_with(..)], then an insert when it is a document. *)
Definition add_entry (group k : string) (v : Bson) (inverse : Doc) : Doc :=
  match get inverse group with
  | Some (Document d) => insert group (Document (insert k v d)) inverse
  | Some _ => inverse
  | None => insert group (Document [(k, v)]) inverse
  end.

Definition invert_set (doc : Doc) (k : string) (inverse : Doc) : Doc :=
  match get_nested_value doc k with
  | Some old => add_entry "$set" k old inverse
  | None => add_entry "$unset" k (BString "") inverse
  end.
Definition invert_unset (doc : Doc) (k : string) (inverse : Doc) : Doc :=
  add_entry "$set" k (default Null (get_nested_value doc k)) inverse.

Definition invert_operator (doc : Doc) (inverse : Doc) (kv : string * Bson) : Doc :=
  let '(op, value) := kv in
  if bool_decide (op = "$set")%string then
    match value with
    | Document fs => foldl (fun inv kv => invert_set doc kv.1 inv) inverse fs
    | _ => inverse
    end
  else if bool_decide (op = "$unset")%string then
    match value with
    | Document fs => foldl (fun inv kv => invert_unset doc kv.1 inv) inverse fs
    | _ => inverse
    end
  else add_entry "$set" "__rollback_note" (BString ("operator '" +:+ op +:+ "' requires manual rollback")) inverse.

Definition apply_inverse_update (doc update inverse : Doc) : Doc :=
  foldl (invert_operator doc) inverse update.

(** Without documents, the group is created even for an operator without fields. *)
Definition add_entries (group : string) (v : Bson) (ks : list string) (inverse : Doc) : Doc :=
  match get inverse group with
  | Some (Document d) => insert group (Document (foldl (fun d k => insert k v d) d ks)) inverse
  | Some _ => inverse
  | None => insert group (Document (foldl (fun d k => insert k v d) [] ks)) inverse
  end.
Definition invert_update_metadata (update : Doc) : Doc :=
  foldl (fun inverse kv =>
    match kv.2 with
    | Document fs =>
      if bool_decide (kv.1 = "$set")%string then add_entries "$unset" (BString "") (keys fs) inverse
      else if bool_decide (kv.1 = "$unset")%string then add_entries "$set" Null (keys fs) inverse
      else inverse
    | _ => inverse
    end) [] update.

(** The inverse of the update for every captured document, by its [_id]. *)
Definition inverse_ops (captured_docs : list Doc) (update : Doc) : list (Doc * Doc) :=
  omap (fun doc =>
    id ← get doc "_id";
    let inverse := apply_inverse_update doc update [] in
    if bool_decide (length inverse = 0%nat) then None else Some ([("_id"%string, id)], inverse)) captured_docs.

Definition update_op (name : string) (op : Doc * Doc) : Json :=
  JObject [(name, JObject [("filter", bson_doc_to_json op.1); ("update", bson_doc_to_json op.2)])]%string.

Definition rollback_plan (kind : OperationKind) (filter : Doc) (captured_docs : list Doc)
    (update_or_replacement : option Doc) : option Json :=
  match kind with
  | UpdateOne | UpdateMany =>
    match update_or_replacement with
    | None => None
    | Some update =>
      let ops := map (update_op "updateOne") (inverse_ops captured_docs update) in
      let ops := if bool_decide (length ops = 0%nat)
                 then [update_op "updateMany" (filter, invert_update_metadata update)] else ops in
      Some (JObject [("operation", JString "bulkWrite"); ("operations", JArray ops)]%string)
    end
  | DeleteOne | DeleteMany =>
    Some (if bool_decide (length captured_docs = 0%nat) then
            JObject [("operation", JString "insertMany"); ("documents", JArray []);
                     ("note", JString "No pre-images captured. Restore from an external backup.")]%string
          else
            JObject [("operation", JString "insertMany");
                     ("documents", JArray (map bson_doc_to_json captured_docs))]%string)
  | ReplaceOne =>
    Some match captured_docs with
         | original :: _ =>
           let id_filter := match get original "_id" with
                            | Some id => [("_id"%string, id)]
                            | None => filter
                            end in
           JObject [("operation", JString "replaceOne"); ("filter", bson_doc_to_json id_filter);
                    ("replacement", bson_doc_to_json original)]%string
         | [] =>
           JObject [("operation", JString "replaceOne"); ("filter", bson_doc_to_json filter);
                    ("replacement", JString "No pre-image captured.")]%string
         end
  | _ => Some (JObject [("error", JString "unsupported rollback kind")]%string)
  end.

Definition generate_rollback_script (kind : OperationKind) (filter : Doc) (captured_docs : list Doc)
    (update_or_replacement : option Doc) : string :=
  match rollback_plan kind filter captured_docs update_or_replacement with
  | Some plan => json_to_string_pretty plan
  | None => ""
  end.
End safe_change.

(** ** The preview of a write (src-tauri/src/mongo/safe_change.rs)

    The query plan, the risk score and [preview_operation], which composes the simulation,
    the diff and the rollback plan of [SafeChange]. *)

Local Open Scope N_scope.

(** ** Index check *)

(** The first stage of a plan, depth first. *)
Fixpoint find_stage (v : Bson) : option string :=
  match v with
  | Document d =>
    match get d "stage" with
    | Some (BString s) => Some s
    | _ =>
      (fix in_fields (d : Doc) : option string :=
         match d with
         | [] => None
         | (_, v) :: d =>
           match (match v with
                  | Document _ => find_stage v
                  | Array arr =>
                    (fix in_items (arr : list Bson) : option string :=
                       match arr with
                       | [] => None
                       | Document fs as item :: arr =>
                         match find_stage item with Some s => Some s | None => in_items arr end
                       | _ :: arr => in_items arr
                       end) arr
                  | _ => None
                  end) with
           | Some s => Some s
           | None => in_fields d
           end
         end) d
    end
  | _ => None
  end.
Definition find_stage_in_doc (d : Doc) : option string := find_stage (Document d).

Fixpoint has_ixscan (v : Bson) : bool :=
  match v with
  | Document d =>
    match get d "stage" with Some (BString s) => bool_decide (s = "IXSCAN"%string) | _ => false end ||
    (fix in_fields (d : Doc) : bool :=
       match d with
       | [] => false
       | (_, v) :: d =>
         match v with
         | Document _ => has_ixscan v
         | Array arr =>
           (fix in_items (arr : list Bson) : bool :=
              match arr with
              | [] => false
              | Document fs as item :: arr => has_ixscan item || in_items arr
              | _ :: arr => in_items arr
              end) arr
         | _ => false
         end || in_fields d
       end) d
  | _ => false
  end.
Definition contains_ixscan (d : Doc) : bool := has_ixscan (Document d).

Record IndexInfo := { index_used : bool; stage : string }.

(** The reply to [explain], or nothing when the command fails. *)
Definition check_index_used (reply : option Doc) : IndexInfo :=
  match reply with
  | Some result =>
    let stage := default ""%string (find_stage_in_doc result) in
    {| index_used := bool_decide (stage = "IXSCAN"%string) || contains_ixscan result; stage := stage |}
  | None => {| index_used := false; stage := "UNKNOWN" |}
  end.

(** ** Risk score *)

(** [{:?}] *)
Definition debug_kind (k : OperationKind) : string :=
  match k with
  | Find => "Find" | Aggregate => "Aggregate" | Sql => "Sql" | Explain => "Explain"
  | InsertOne => "InsertOne" | InsertMany => "InsertMany" | UpdateOne => "UpdateOne"
  | UpdateMany => "UpdateMany" | DeleteOne => "DeleteOne" | DeleteMany => "DeleteMany"
  | ReplaceOne => "ReplaceOne" | AggregationWrite => "AggregationWrite" | IndexCreate => "IndexCreate"
  | IndexDrop => "IndexDrop" | CollectionCreate => "CollectionCreate"
  | CollectionDrop => "CollectionDrop" | CollectionRename => "CollectionRename"
  | Timeline.Import => "Import" | Timeline.Export => "Export" | Dump => "Dump" | Restore => "Restore"
  end.

(** [PreviewRollbackLevel::Full] is [FullLevel]. *)
Inductive PreviewRollbackLevel := MetadataOnly | SampleBased | FullLevel.
#[export] Instance PreviewRollbackLevel_eq_dec : EqDecision PreviewRollbackLevel.
Proof. solve_decision. Defined.

(** A score and its reasons, growing. *)
Definition Risk := (N * list string)%type.
Definition raise (points : N) (reason : string) (r : Risk) : Risk := (r.1 + points, r.2 ++ [reason]).

Section preview.
Context {RM : Removal} {FL : Float64} {JT : JsonText} {LT : Letters} {BC : BsonConvert}.
Context (bson_eqb : Bson -> Bson -> bool).
Context (today : Z).

Definition likely_broad_filter (filter : Doc) : bool :=
  if has_key filter "_id" then false
  else forallb (fun k => bool_decide (k ∈ ["$or"; "$and"; "$regex"; "$exists"]%string)) (keys filter).

Definition production_risk (is_production : bool) (r : Risk) : Risk :=
  if is_production then raise 25 "Production environment" r else r.

Definition kind_risk (kind : OperationKind) (r : Risk) : Risk :=
  match kind with
  | DeleteMany => raise 20 "deleteMany operation" r
  | UpdateMany => raise 15 "updateMany operation" r
  | DeleteOne => raise 10 "deleteOne operation" r
  | UpdateOne | ReplaceOne => raise 5 (debug_kind kind +:+ " operation") r
  | _ => r
  end.

Definition filter_risk (filter_json : string) (r : Risk) : Risk :=
  let filter := match parse_optional_doc today (Some filter_json) with Ok (Some d) => d | _ => [] end in
  if bool_decide (length filter = 0%nat) then raise 25 "Empty filter matches the entire collection" r
  else if likely_broad_filter filter then raise 10 "Filter is broad" r
  else r.

Definition index_risk (index_used : bool) (r : Risk) : Risk :=
  if index_used then r else raise 15 "Query does not use an index (collection scan likely)" r.

Definition affected (pct matched_count : N) : string :=
  pretty pct +:+ "% of the collection will be affected (" +:+ pretty matched_count +:+ " docs)".

Definition size_risk (matched_count collection_size : N) (r : Risk) : Risk :=
  if 1 <? matched_count then
    let pct := if 0 <? collection_size then (matched_count * 100) mod 2 ^ 64 / collection_size else 0 in
    if (50 <=? pct) || (1000 <? matched_count) then
      raise 20 (if 50 <=? pct then affected pct matched_count
                else "High matched count: " +:+ pretty matched_count) r
    else if (25 <=? pct) || (100 <? matched_count) then
      raise 10 (if 25 <=? pct then affected pct matched_count
                else "Moderate matched count: " +:+ pretty matched_count) r
    else if 5 <=? matched_count then raise 5 (pretty matched_count +:+ " documents will be affected") r
    else r
  else r.

Definition rollback_risk (level : PreviewRollbackLevel) (r : Risk) : Risk :=
  match level with MetadataOnly => raise 10 "No captured pre-images for rollback" r | _ => r end.

Definition operator_risk (update_json : option string) (r : Risk) : Risk :=
  match update_json with
  | Some update =>
    match parse_optional_doc today (Some update) with
    | Ok (Some update_doc) =>
      foldl (fun r op => if has_key update_doc op then raise 5 ("Update uses " +:+ op) r else r) r
        ["$unset"; "$rename"; "$pull"; "$mul"]%string
    | _ => r
    end
  | None => r
  end.

Definition warning_risk (extra_warnings : list string) (r : Risk) : Risk :=
  foldl (fun r w => raise 2 w r) r extra_warnings.

(** The sum before it is capped; a [u32] that cannot overflow below two billion warnings. *)
Definition raw_risk (kind : OperationKind) (matched_count collection_size : N) (is_production : bool)
    (filter_json : string) (index_used : bool) (level : PreviewRollbackLevel)
    (update_json : option string) (extra_warnings : list string) : Risk :=
  warning_risk extra_warnings
    (operator_risk update_json
       (rollback_risk level
          (size_risk matched_count collection_size
             (index_risk index_used
                (filter_risk filter_json (kind_risk kind (production_risk is_production (0, [])))))))).

Definition score_risk (kind : OperationKind) (matched_count collection_size : N) (is_production : bool)
    (filter_json : string) (index_used : bool) (level : PreviewRollbackLevel)
    (update_json : option string) (extra_warnings : list string) : Risk :=
  let r := raw_risk kind matched_count collection_size is_production filter_json index_used level
             update_json extra_warnings in
  (N.min r.1 100, r.2).

(** ** Confirmation *)

Definition format_confirmation (kind : OperationKind) (matched_count : N) (is_production : bool) : string :=
  let op := match kind with
            | UpdateOne => "UPDATE ONE" | UpdateMany => "UPDATE" | DeleteOne => "DELETE ONE"
            | DeleteMany => "DELETE" | ReplaceOne => "REPLACE ONE" | _ => "APPLY"
            end%string in
  let suffix := if matched_count =? 1 then ""%string else "S"%string in
  op +:+ " " +:+ pretty matched_count +:+ " DOCUMENT" +:+ suffix +:+
    (if is_production then " IN PRODUCTION" else "").

Definition is_dangerous_kind (kind : OperationKind) : bool :=
  match kind with DeleteOne | DeleteMany | UpdateMany | ReplaceOne => true | _ => false end.

(** [str::contains] *)
Definition str_contains (text needle : string) : bool := bool_decide (is_Some (String.index 0 needle text)).

Definition is_production_profile (name : string) : bool :=
  let lower := to_lowercase name in
  str_contains lower "prod" || str_contains lower "production" || str_contains lower "live" ||
  str_contains lower "master".

(** ** The preview *)

Record DocumentDiff := { document_index : nat; field_changes : list FieldChange }.

Record SafeChangePreviewRequest := {
  rq_kind : OperationKind;
  filter_json : string;
  update_json : option string;
  replacement_json : option string;
  sample_limit : option N;
}.

Record SafeChangePreview := {
  p_kind : OperationKind;
  matched_count : N;
  sample_before : list string;
  sample_after : list string;
  diffs : list DocumentDiff;
  risk_score : N;
  risk_reasons : list string;
  warnings : list string;
  rollback_script : string;
  p_rollback_level : PreviewRollbackLevel;
  requires_typed_confirmation : bool;
  confirmation_text : string;
  is_production : bool;
  index_info : IndexInfo;
}.

(** What the server answers for a collection: the number of matches, the first matches up
    to a limit (a limit of zero is none), the query plan and the estimated size. *)
Record Collection := {
  profile_name : string;
  count_documents : Doc -> result AppError N;
  find : Doc -> N -> result AppError (list Doc);
  explain : Doc -> option Doc;
  estimated_document_count : option N;
}.

Definition level_of (matched_count : N) : PreviewRollbackLevel :=
  if matched_count =? 0 then MetadataOnly
  else if matched_count <=? ROLLBACK_CAPTURE_LIMIT then FullLevel
  else SampleBased.

Definition display (d : Doc) : string := json_to_string_pretty (doc_to_display_json d).

(** The samples of an update: each document is simulated in turn. *)
Fixpoint preview_updates (i : nat) (update : Doc) (docs : list Doc) (warnings : list string) :
    result AppError (list string * list string * list DocumentDiff) * list string :=
  match docs with
  | [] => (Ok ([], [], []), warnings)
  | doc :: docs =>
    match simulate_update bson_eqb doc update warnings with
    | (Err e, warnings) => (Err e, warnings)
    | (Ok after_doc, warnings) =>
      match preview_updates (S i) update docs warnings with
      | (Ok (before, after, ds), warnings) =>
        (Ok (display doc :: before, display after_doc :: after,
             {| document_index := i; field_changes := compute_diff doc after_doc |} :: ds), warnings)
      | r => r
      end
    end
  end.

Definition preview_samples (req : SafeChangePreviewRequest) (update_doc replacement_doc : option Doc)
    (docs : list Doc) : result AppError (list string * list string * list DocumentDiff) * list string :=
  match rq_kind req with
  | UpdateOne | UpdateMany =>
    match update_doc with
    | Some update => preview_updates 0 update docs []
    | None => (Err (Validation "update document is required"), [])
    end
  | DeleteOne | DeleteMany =>
    (Ok (map display docs, [],
         imap (fun i _ => {| document_index := i; field_changes := [] |}) docs), [])
  | ReplaceOne =>
    match replacement_doc with
    | Some replacement =>
      (Ok (map display docs, map (fun _ => display replacement) docs,
           imap (fun i doc => {| document_index := i; field_changes := compute_diff doc replacement |}) docs), [])
    | None => (Err (Validation "replacement document is required"), [])
    end
  | _ => (Err (Validation ("Safe Change Mode does not support operation kind: " +:+ debug_kind (rq_kind req))), [])
  end.

Definition option_or {A} (a b : option A) : option A := match a with Some _ => a | None => b end.

Definition preview_operation (coll : Collection) (req : SafeChangePreviewRequest) :
    result AppError SafeChangePreview :=
  let is_production := is_production_profile (profile_name coll) in
  filter ← parse_optional_doc today (Some (filter_json req));
  let filter := default [] filter in
  let display_limit := N.min (default DEFAULT_SAMPLE_LIMIT (sample_limit req)) MAX_SAMPLE_LIMIT in
  matched_count ← count_documents coll filter;
  let capture_limit := N.max (N.min matched_count ROLLBACK_CAPTURE_LIMIT) display_limit in
  captured_docs ← find coll filter capture_limit;
  let rollback_level := level_of matched_count in
  update_doc ← parse_optional_doc today (update_json req);
  replacement_doc ← parse_optional_doc today (replacement_json req);
  let '(samples, warnings) :=
    preview_samples req update_doc replacement_doc (take (N.to_nat display_limit) captured_docs) in
  samples ← samples;
  let '(before, after, ds) := samples in
  let index_info := check_index_used (explain coll filter) in
  let collection_size := default 0 (estimated_document_count coll) in
  let rollback_script :=
    generate_rollback_script (rq_kind req) filter captured_docs (option_or update_doc replacement_doc) in
  let risk := score_risk (rq_kind req) matched_count collection_size is_production (filter_json req)
                (index_used index_info) rollback_level (update_json req) warnings in
  Ok {| p_kind := rq_kind req; matched_count := matched_count; sample_before := before;
        sample_after := after; diffs := ds; risk_score := risk.1; risk_reasons := risk.2;
        warnings := warnings; rollback_script := rollback_script; p_rollback_level := rollback_level;
        requires_typed_confirmation := (60 <=? risk.1) || (is_production && is_dangerous_kind (rq_kind req));
        confirmation_text := format_confirmation (rq_kind req) matched_count is_production;
        is_production := is_production; index_info := index_info |}.
End preview.
