(* ===== verification/DesktopExample.v ===== *)
(** * Concrete libraries for the desktop application

    Plain instances of the interfaces of [Fields], [Json] and [BsonJson], so that the
    theorems about safe changes and translated queries can be applied to values. *)

From S2P Require Import Prelude.
From S2P Require Import Fields.
From S2P Require Import Json.
From S2P Require Import OplogCanon.
From S2P Require Import BsonJson.
Local Open Scope Z_scope.

#[export] Existing Instance shift_removal.

(** Floats as integers, written with decimal digits. *)
Fixpoint plain_digits (acc : Z) (s : string) : result string Z :=
  match s with
  | EmptyString => Ok acc
  | String c s =>
    let d := Z.of_N (Ascii.N_of_ascii c) - 48 in
    if (0 <=? d) && (d <=? 9) then plain_digits (10 * acc + d) s else Err "invalid float literal"%string
  end.
#[export] Program Instance plain_float : Float64 :=
  {| f64_add := Z.add; f64_mul := Z.mul; f64_neg := Z.opp; f64_of_int n := n;
     f64_parse := plain_digits 0; f64_is_finite _ := true;
     f64_as_int lo hi b := Z.max lo (Z.min hi b) |}.
Next Obligation. cbn. lia. Qed.

Fixpoint json_same (a b : Json) : bool :=
  match a, b with
  | JNull, JNull => true
  | JBool x, JBool y => bool_decide (x = y)
  | JInt x, JInt y | JFloat x, JFloat y => bool_decide (x = y)
  | JString x, JString y => bool_decide (x = y)
  | JArray l, JArray l' =>
    (fix go l l' := match l, l' with
                    | [], [] => true
                    | v :: l, v' :: l' => json_same v v' && go l l'
                    | _, _ => false
                    end) l l'
  | JObject d, JObject d' =>
    (fix go d d' := match d, d' with
                    | [], [] => true
                    | (k, v) :: d, (k', v') :: d' => bool_decide (k = k') && json_same v v' && go d d'
                    | _, _ => false
                    end) d d'
  | _, _ => false
  end.
Lemma json_same_refl v : json_same v v = true.
Proof.
  induction v as [|b|n|b|s|l IH|d IH] using Json_nested_ind; cbn; try by apply bool_decide_eq_true_2.
  - done.
  - induction IH as [|v l Hv _ IH]; [done|]. by rewrite Hv.
  - induction IH as [|[k v] d Hv _ IH]; [done|]. cbn in Hv. by rewrite bool_decide_eq_true_2, Hv.
Qed.

(** Only the empty object is written and read. *)
#[export] Instance plain_json : JsonText :=
  {| json_from_str s := if bool_decide (s = "{}"%string) then Ok (JObject []) else Err "expected value"%string;
     json_to_string_pretty _ := "{}"; json_eqb := json_same; json_eqb_refl := json_same_refl |}.

#[export] Instance plain_letters : Letters := {| to_lowercase s := s; to_uppercase s := s |}.

Fixpoint plain_extjson (b : Bson) : Json :=
  match b with
  | Boolean b => JBool b
  | Int32 n | Int64 n => JInt n
  | Double bits => JFloat bits
  | BString s => JString s
  | Array l => JArray (map plain_extjson l)
  | Document d => JObject (map (fun kv => (kv.1, plain_extjson kv.2)) d)
  | _ => JNull
  end.
Fixpoint plain_bson (v : Json) : Bson :=
  match v with
  | JNull => Null
  | JBool b => Boolean b
  | JInt n => Int64 n
  | JFloat bits => Double bits
  | JString s => BString s
  | JArray l => Array (map plain_bson l)
  | JObject d => Document (map (fun kv => (kv.1, plain_bson kv.2)) d)
  end.
#[export] Instance plain_convert : BsonConvert :=
  {| to_bson v := Ok (plain_bson v); relaxed_extjson := plain_extjson; bson_value b := Some (plain_extjson b) |}.
