(* ===== verification/SafeChangeSpec.v ===== *)
(** * What safe change mode promises

    The rollback plan of an update that only sets and unsets: simulating it on the simulated
    result gives back the document, up to the order of its fields, provided the paths do not
    overlap, the documents they go through exist and what is unset exists.  Other operators, and
    unsetting what does not exist, leave a trace.  Then the preview: what it counts, and which
    writes it asks a confirmation for.  Concrete documents are at the end. *)

From S2P Require Import Prelude.
From S2P Require Import Text.
From S2P Require Import Timeline.
From S2P Require Import Fields.
From S2P Require Import Json.
From S2P Require Import OplogCanon.
From S2P Require Import AppError.
From S2P Require Import BsonJson.
From S2P Require Import SafeChange.
From S2P Require Import DesktopExample.

(** ** Reading at a path *)

(** The value at the end of a path that goes on inside a value. *)
Definition inside (v : option Bson) (path : list string) : option Bson :=
  match path with
  | [] => v
  | _ => match v with Some (Document d) => get_at path d | _ => None end
  end.

Lemma get_at_cons k path d : get_at (k :: path) d = inside (get d k) path.
Proof. by destruct path. Qed.

Lemma get_at_app p r d : p <> [] -> get_at (p ++ r) d = inside (get_at p d) r.
Proof.
  revert d. induction p as [|k p IH]; [done|]. intros d _. cbn [app]. rewrite !get_at_cons.
  destruct p as [|k' p]; [done|]. destruct (get d k) as [[]|]; cbn [inside app]; try by destruct r.
  apply IH. done.
Qed.

(** Two paths neither of which goes through the other. *)
Definition apart (p q : list string) : Prop := ~ p `prefix_of` q /\ ~ q `prefix_of` p.
#[export] Instance apart_dec p q : Decision (apart p q).
Proof. unfold apart. apply _. Defined.
#[export] Instance apart_sym : Symmetric apart.
Proof. intros p q []. by split. Qed.

Lemma apart_tail k p q : apart (k :: p) (k :: q) -> apart p q.
Proof. intros [H1 H2]. split; intros H; [apply H1|apply H2]; by apply prefix_cons. Qed.

Lemma apart_app p r q : apart p q -> apart (p ++ r) q.
Proof.
  intros [H1 H2]. split; intros H.
  - apply H1. etrans; [|exact H]. by apply prefix_app_r.
  - destruct (prefix_weak_total p q (p ++ r)); [by apply prefix_app_r|done|done|done].
Qed.

(** Every document that the path goes through is there. *)
Definition parents (p : list string) (d : Doc) : Prop :=
  forall q r, p = q ++ r -> q <> [] -> r <> [] -> exists c, get_at q d = Some (Document c).

Lemma parents_nil d : parents [] d.
Proof. intros q r H Hq. by apply eq_sym, app_eq_nil in H as [-> _]. Qed.

Lemma parents_single k d : parents [k] d.
Proof.
  intros q r H Hq Hr. destruct q as [|k' q]; [done|]. injection H as _ H.
  by apply eq_sym, app_eq_nil in H as [_ ->].
Qed.

Lemma parents_cons k k2 p d :
  parents (k :: k2 :: p) d <-> exists c, get d k = Some (Document c) /\ parents (k2 :: p) c.
Proof.
  split.
  - intros H. destruct (H [k] (k2 :: p)) as [c Hc]; [done..|]. cbn in Hc. exists c. split; [done|].
    intros q r Heq Hq Hr. destruct (H (k :: q) r) as [c' Hc']; [cbn; by rewrite Heq|done..|].
    rewrite get_at_cons, Hc in Hc'. destruct q as [|k3 q]; [done|]. by exists c'.
  - intros (c & Hc & H) q r Heq Hq Hr. destruct q as [|k' q]; [done|]. injection Heq as <- Heq.
    rewrite get_at_cons, Hc. destruct q as [|k3 q]; [by exists c|]. by apply (H (k3 :: q) r).
Qed.

Section spec.
Context {RM : Removal} {FL : Float64} {JT : JsonText} {LT : Letters} {BC : BsonConvert}.
Context (bson_eqb : Bson -> Bson -> bool).

(** ** Writing at a path *)

(** Setting or unsetting. *)
Definition put (p : list string) (o : option Bson) (d : Doc) : result AppError Doc :=
  match o with Some v => set_at p v d | None => Ok (unset_at p d) end.

Lemma set_at_cons k k2 p v d :
  set_at (k :: k2 :: p) v d =
  match default (Document []) (get d k) with
  | Document c => match set_at (k2 :: p) v c with
                  | Ok c' => Ok (insert k (Document c') d)
                  | Err e => Err e
                  end
  | _ => Err (Validation ("cannot set nested field '" +:+ join "." (k :: k2 :: p) +:+
                          "': intermediate is not a document"))
  end.
Proof. reflexivity. Qed.
Lemma unset_at_cons k k2 p d :
  unset_at (k :: k2 :: p) d =
  match get d k with Some (Document c) => insert k (Document (unset_at (k2 :: p) c)) d | _ => d end.
Proof. reflexivity. Qed.

Lemma put_cons k k2 p o d c c' :
  get d k = Some (Document c) -> put (k2 :: p) o c = Ok c' ->
  put (k :: k2 :: p) o d = Ok (insert k (Document c') d).
Proof.
  intros Hk Hp. destruct o as [v|].
  - change (set_at (k2 :: p) v c = Ok c') in Hp.
    change (put (k :: k2 :: p) (Some v) d) with (set_at (k :: k2 :: p) v d).
    rewrite set_at_cons, Hk. cbn [default from_option Datatypes.id]. by rewrite Hp.
  - injection Hp as <-. cbn [put]. by rewrite unset_at_cons, Hk.
Qed.

(** What is at the path, beside it and above it afterwards. *)
Record written (p : list string) (o : option Bson) (d d' : Doc) : Prop := {
  written_at r : get_at (p ++ r) d' = inside o r;
  written_apart q : q <> [] -> apart q p -> get_at q d' = get_at q d;
  written_parents : parents p d';
}.

Lemma put_single k o d :
  exists d', put [k] o d = Ok d' /\ written [k] o d d'.
Proof.
  assert (exists d', put [k] o d = Ok d' /\ forall k', get d' k' = if decide (k = k') then o else get d k')
    as (d' & Hd & Hget).
  { destruct o as [v|]; eexists; (split; [reflexivity|]); intros k'; [apply get_insert|].
    exact (get_remove k k' d). }
  exists d'. split; [done|]. split.
  - intros r. cbn [app]. by rewrite get_at_cons, Hget, decide_True.
  - intros [|k' q] Hq [_ Ha]; [done|]. rewrite !get_at_cons, Hget, decide_False; [done|].
    intros <-. apply Ha. by exists q.
  - apply parents_single.
Qed.

Lemma put_spec p o d :
  p <> [] -> parents p d -> exists d', put p o d = Ok d' /\ written p o d d'.
Proof.
  revert d. induction p as [|k p IH]; [done|]. intros d _ Hp. destruct p as [|k2 p]; [apply put_single|].
  apply parents_cons in Hp as (c & Hc & Hp). destruct (IH c) as (c' & Hput & [W1 W2 W3]); [done|done|].
  exists (insert k (Document c') d). split; [by eapply put_cons|]. split.
  - intros r. cbn [app]. rewrite get_at_cons, get_insert_eq. exact (W1 r).
  - intros [|k' q] Hq Ha; [done|]. rewrite !get_at_cons. destruct (decide (k = k')) as [<-|Hk].
    + apply apart_tail in Ha. rewrite get_insert_eq, Hc.
      destruct q as [|k3 q]; [destruct Ha as [Ha _]; destruct Ha; apply prefix_nil|]. by apply W2.
    + by rewrite get_insert_ne.
  - apply parents_cons. exists c'. by rewrite get_insert_eq.
Qed.

(** ** A list of writes *)

Abbreviation action := (list string * option Bson)%type.

Fixpoint put_all (acts : list action) (d : Doc) : result AppError Doc :=
  match acts with
  | [] => Ok d
  | a :: acts => match put a.1 a.2 d with Ok d => put_all acts d | Err e => Err e end
  end.

Record all_apart (ps : list (list string)) : Prop := {
  apart_distinct : NoDup ps;
  apart_pairs p q : p ∈ ps -> q ∈ ps -> p <> q -> apart p q;
  apart_nonempty p : p ∈ ps -> p <> [];
}.
#[export] Instance all_apart_perm : Proper ((≡ₚ) ==> iff) all_apart.
Proof.
  assert (forall ps ps', ps ≡ₚ ps' -> all_apart ps -> all_apart ps') as H.
  { intros ps ps' Hps [H1 H2 H3]. split; [by rewrite <-Hps|..].
    - intros p q. rewrite <-Hps. apply H2.
    - intros p. rewrite <-Hps. apply H3. }
  intros ps ps' Hps. split; by apply H.
Qed.

Lemma all_apart_decide ps :
  bool_decide (NoDup ps /\ Forall (fun p => Forall (fun q => p = q \/ apart p q) ps) ps /\ [] ∉ ps) = true ->
  all_apart ps.
Proof.
  intros (Hn & Ha & He)%bool_decide_eq_true. rewrite Forall_forall in Ha. split; [done| |].
  - intros p q Hp Hq Hne. specialize (Ha p Hp). rewrite Forall_forall in Ha. by destruct (Ha q Hq).
  - by intros p Hp ->.
Qed.

Lemma all_apart_cons p ps :
  all_apart (p :: ps) -> p <> [] /\ (forall q, q ∈ ps -> apart p q) /\ all_apart ps.
Proof.
  intros [[Hp Hps]%NoDup_cons Ha Hn]. split; [apply Hn; left|]. split.
  - intros q Hq. apply Ha; [left|by right|]. intros ->. done.
  - split; [done| |].
    + intros q q' Hq Hq'. apply Ha; by right.
    + intros q Hq. apply Hn. by right.
Qed.

(** A path that is not above [p] is apart from it or goes through it. *)
Lemma above_or_apart q p r : apart p (q ++ r) -> r <> [] -> q `prefix_of` p \/ apart q p.
Proof.
  intros [H1 H2] Hr. destruct (decide (q `prefix_of` p)) as [|Hq]; [by left|right]. split; [done|].
  intros Hp. apply H1. etrans; [exact Hp|]. by apply prefix_app_r.
Qed.

Lemma prefix_proper q p r : q `prefix_of` p -> apart p (q ++ r) -> exists r', p = q ++ r' /\ r' <> [].
Proof.
  intros [r' ->] [H1 _]. exists r'. split; [done|]. intros ->. apply H1. rewrite app_nil_r.
  by apply prefix_app_r.
Qed.

Lemma written_parents_other p o d d' p' :
  written p o d d' -> apart p p' -> parents p' d -> parents p' d'.
Proof.
  intros [W1 W2 W3] Ha Hp q r -> Hq Hr. destruct (above_or_apart q p r Ha Hr) as [Hpre|Hqp].
  - destruct (prefix_proper q p r Hpre Ha) as (r' & -> & Hr'). by apply (W3 q r').
  - rewrite W2 by done. by apply (Hp q r).
Qed.

Record all_written (acts : list action) (d d' : Doc) : Prop := {
  all_at a r : a ∈ acts -> get_at (a.1 ++ r) d' = inside a.2 r;
  all_beside q : q <> [] -> (forall a, a ∈ acts -> apart q a.1) -> get_at q d' = get_at q d;
  all_parents a : a ∈ acts -> parents a.1 d';
}.

Lemma put_all_spec acts d :
  all_apart (map fst acts) -> (forall a, a ∈ acts -> parents a.1 d) ->
  exists d', put_all acts d = Ok d' /\ all_written acts d d'.
Proof.
  revert d. induction acts as [|[p o] acts IH]; intros d Ha Hp.
  { exists d. split; [done|]. split; [by intros a r ?%not_elem_of_nil|done|by intros a ?%not_elem_of_nil]. }
  cbn [map fst] in Ha. apply all_apart_cons in Ha as (Hne & Hpa & Ha).
  assert (forall a, a ∈ acts -> apart p a.1) as Hpa' by by intros a Hin; apply Hpa, (list_elem_of_fmap_2 fst).
  destruct (put_spec p o d Hne (Hp (p, o) (list_elem_of_here _ _))) as (d1 & Hput & W).
  destruct (IH d1 Ha) as (d' & Hall & [A1 A2 A3]).
  { intros a Hin. eapply written_parents_other; [done|by apply Hpa'|]. apply Hp. by right. }
  exists d'. split; [cbn [put_all fst snd]; by rewrite Hput|]. split.
  - intros a r [->|Hin]%elem_of_cons; [|by apply A1]. cbn [fst snd].
    rewrite A2; [apply (written_at _ _ _ _ W)|by destruct p|].
    intros a Hin. apply apart_app. by apply Hpa'.
  - intros q Hq Hb. rewrite A2; [|done|intros a Hin; apply Hb; by right].
    apply (written_apart _ _ _ _ W); [done|]. apply (Hb (p, o)). left.
  - intros a [->|Hin]%elem_of_cons; [|by apply A3]. cbn [fst].
    intros q r -> Hq Hr.
    destruct (decide (Exists (fun a => q `prefix_of` a.1) acts)) as [(a & Hin & Hpre)%Exists_exists|Hno].
    + destruct (prefix_proper q a.1 r Hpre) as (r' & Heq & Hr'); [by symmetry; apply Hpa'|].
      by apply (A3 a Hin q r').
    + rewrite A2; [by apply (written_parents _ _ _ _ W q r)|done|].
      intros a Hin. destruct (above_or_apart q a.1 r) as [Hpre|]; [by symmetry; apply Hpa'|done| |done].
      destruct Hno. apply Exists_exists. by exists a.
Qed.

(** ** The updates that only set and unset *)

Definition set_or_unset (op : string) : Prop := op = "$set"%string \/ op = "$unset"%string.

(** The writes of an operator, by dotted path. *)
Definition group_actions (kv : string * Bson) : list (string * option Bson) :=
  match kv.2 with
  | Document fs =>
    if bool_decide (kv.1 = "$set"%string) then map (fun f => (f.1, Some f.2)) fs
    else if bool_decide (kv.1 = "$unset"%string) then map (fun f => (f.1, None)) fs
    else []
  | _ => []
  end.
Definition actions (update : Doc) : list (string * option Bson) := concat (map group_actions update).

Definition at_segments (a : string * option Bson) : action := (segments a.1, a.2).

Lemma for_each_writes (f : string * Bson -> string * option Bson) (g : string -> Bson -> Doc -> result AppError Doc) fs d ws :
  (forall kv d, g kv.1 kv.2 d = put (segments (f kv).1) (f kv).2 d) ->
  forall d', put_all (map at_segments (map f fs)) d = Ok d' ->
    for_each (fun kv => on_doc (g kv.1 kv.2)) fs (d, ws) = (Ok tt, (d', ws)).
Proof.
  intros Hg. revert d. induction fs as [|kv fs IH]; intros d d' Hput; cbn in *; [by injection Hput as ->|].
  rewrite <-Hg in Hput. unfold mbind, stateR_bind, on_doc at 1. cbn [fst snd].
  destruct (g kv.1 kv.2 d) as [d1|]; [|done]. by apply IH.
Qed.

Lemma put_all_app acts acts' d d' :
  put_all (acts ++ acts') d = Ok d' <-> exists d1, put_all acts d = Ok d1 /\ put_all acts' d1 = Ok d'.
Proof.
  revert d. induction acts as [|a acts IH]; intros d; cbn; [naive_solver|].
  destruct (put a.1 a.2 d); [apply IH|]. split; [done|by intros (? & ? & _)].
Qed.

Lemma apply_operator_writes kv d d' ws :
  set_or_unset kv.1 -> put_all (map at_segments (group_actions kv)) d = Ok d' ->
  apply_operator bson_eqb kv (d, ws) = (Ok tt, (d', ws)).
Proof.
  destruct kv as [op v]. intros Hop Hput. unfold apply_operator, group_actions in *. cbn [fst snd] in *.
  destruct Hop as [-> | ->]; cbn in *.
  - destruct v as [| | | | | | | | | | | |fs| | | | | | | |]; try (by injection Hput as ->).
    by apply (for_each_writes (fun f => (f.1, Some f.2)) (fun k v d => set_nested d k v)).
  - destruct v as [| | | | | | | | | | | |fs| | | | | | | |]; try (by injection Hput as ->).
    by apply (for_each_writes (fun f => (f.1, None)) (fun k v d => Ok (unset_nested d k))).
Qed.

Lemma simulate_writes update d d' ws :
  Forall (fun kv => set_or_unset kv.1) update -> put_all (map at_segments (actions update)) d = Ok d' ->
  simulate_update bson_eqb d update ws = (Ok d', ws).
Proof.
  intros Hu Hput. unfold simulate_update.
  assert (for_each (apply_operator bson_eqb) update (d, ws) = (Ok tt, (d', ws))) as ->; [|done].
  revert d Hput. induction Hu as [|kv update Hkv _ IH]; intros d Hput; cbn in *; [by injection Hput as ->|].
  unfold actions in Hput. cbn in Hput. rewrite map_app in Hput. apply put_all_app in Hput as (d1 & H1 & H2).
  unfold mbind, stateR_bind. by rewrite (apply_operator_writes kv d d1 ws Hkv H1), IH.
Qed.

(** ** The inverse *)

(** Groups under the two operators only. *)
Definition inverse_shape (inverse : Doc) : Prop :=
  Forall (fun kv => set_or_unset kv.1 /\ exists fs, kv.2 = Document fs) inverse.

Lemma get_split {V} (d : fields V) k v :
  get d k = Some v ->
  exists l1 l2, d = l1 ++ (k, v) :: l2 /\ forall v', insert k v' d = l1 ++ (k, v') :: l2.
Proof.
  induction d as [|[k' v'] d IH]; cbn; [done|]. destruct (decide (k' = k)) as [->|Hk].
  - intros [= ->]. by exists [], d.
  - intros H. destruct (IH H) as (l1 & l2 & -> & Hi). exists ((k', v') :: l1), l2.
    split; [done|]. intros w. cbn. by rewrite Hi.
Qed.

(** What a group says of a value. *)
Definition group_action (group k : string) (v : Bson) : string * option Bson :=
  (k, if bool_decide (group = "$set"%string) then Some v else None).

Lemma group_actions_document group fs :
  set_or_unset group -> group_actions (group, Document fs) = map (fun f => group_action group f.1 f.2) fs.
Proof. by intros [-> | ->]. Qed.

Lemma add_entry_actions group k v inverse :
  inverse_shape inverse -> set_or_unset group -> k ∉ map fst (actions inverse) ->
  inverse_shape (add_entry group k v inverse) /\
  actions (add_entry group k v inverse) ≡ₚ group_action group k v :: actions inverse.
Proof.
  intros Hs Hg Hk. unfold add_entry. destruct (get inverse group) as [w|] eqn:Hget.
  - destruct (get_split _ _ _ Hget) as (l1 & l2 & Heq & Hi).
    pose proof Hs as Hw. rewrite Heq in Hw. apply Forall_app in Hw as [Hl1 [[_ [fs Hfs]] Hl2]%Forall_cons].
    cbn in Hfs. subst w. rewrite Hi.
    assert (k ∉ keys fs) as Hfresh.
    { intros Hin. apply Hk. rewrite Heq. unfold actions. rewrite map_app, concat_app. cbn [map concat].
      rewrite !map_app, !elem_of_app. right. left. rewrite group_actions_document, map_map by done. exact Hin. }
    split; [apply Forall_app; split; [done|]; apply Forall_cons; split; [split; [done|by eexists]|done]|].
    unfold actions. rewrite Heq, !map_app, !concat_app. cbn [map concat].
    rewrite insert_fresh, !group_actions_document, map_app by done. cbn [map].
    rewrite <-!app_assoc. rewrite (app_assoc (concat _) (map _ fs)). cbn [app].
    rewrite <-Permutation_middle. cbn [fst snd]. by rewrite <-app_assoc.
  - split.
    + apply get_None in Hget. rewrite insert_fresh by done.
      apply Forall_app. split; [done|]. apply Forall_singleton. split; [done|by eexists].
    + apply get_None in Hget. rewrite insert_fresh by done. unfold actions.
      rewrite map_app, concat_app. cbn [map concat]. rewrite group_actions_document by done. cbn.
      symmetry. apply Permutation_cons_append.
Qed.

(** The write that undoes a write of [doc]. *)
Definition undo (doc : Doc) (a : string * option Bson) : string * option Bson :=
  (a.1, match a.2 with
        | Some _ => get_nested_value doc a.1
        | None => Some (default Null (get_nested_value doc a.1))
        end).
Definition invert_write (doc inverse : Doc) (a : string * option Bson) : Doc :=
  match a.2 with Some _ => invert_set doc a.1 inverse | None => invert_unset doc a.1 inverse end.

Lemma foldl_map_eq {A B C} (f : C -> B -> C) (g : A -> B) l c :
  foldl f c (map g l) = foldl (fun c x => f c (g x)) c l.
Proof. revert c. induction l as [|x l IH]; intros c; [done|]. apply IH. Qed.

Lemma apply_inverse_writes doc update inverse :
  Forall (fun kv => set_or_unset kv.1) update ->
  apply_inverse_update doc update inverse = foldl (invert_write doc) inverse (actions update).
Proof.
  intros Hu. unfold apply_inverse_update. revert inverse.
  induction Hu as [|[op v] update Hop _ IH]; intros inverse; [done|].
  unfold actions. cbn [map concat foldl]. rewrite foldl_app, IH. f_equal.
  unfold group_actions. cbn [fst snd] in *. destruct Hop as [-> | ->];
    destruct v as [| | | | | | | | | | | |fs| | | | | | | |]; try done.
  - exact (eq_sym (foldl_map_eq (invert_write doc) (fun f => (f.1, Some f.2)) fs inverse)).
  - exact (eq_sym (foldl_map_eq (invert_write doc) (fun f => (f.1, None)) fs inverse)).
Qed.

Lemma invert_write_actions doc inverse a :
  inverse_shape inverse -> a.1 ∉ map fst (actions inverse) ->
  inverse_shape (invert_write doc inverse a) /\ actions (invert_write doc inverse a) ≡ₚ undo doc a :: actions inverse.
Proof.
  intros Hs Hk. destruct a as [k [v|]]; unfold invert_write, undo, invert_set, invert_unset; cbn [fst snd] in *.
  - destruct (get_nested_value doc k) as [old|].
    + apply (add_entry_actions "$set" k old); [done|by left|done].
    + apply (add_entry_actions "$unset" k (BString "")); [done|by right|done].
  - apply (add_entry_actions "$set" k (default Null (get_nested_value doc k))); [done|by left|done].
Qed.

Lemma invert_writes_actions doc acts inverse :
  inverse_shape inverse -> NoDup (map fst acts) ->
  (forall a, a ∈ acts -> a.1 ∉ map fst (actions inverse)) ->
  inverse_shape (foldl (invert_write doc) inverse acts) /\
  actions (foldl (invert_write doc) inverse acts) ≡ₚ map (undo doc) acts ++ actions inverse.
Proof.
  revert inverse. induction acts as [|a acts IH]; intros inverse Hs Hn Hf; [done|]. cbn [foldl map] in *.
  apply NoDup_cons in Hn as [Ha Hn].
  destruct (invert_write_actions doc inverse a) as [Hs' Hp]; [done|apply Hf; left|].
  destruct (IH (invert_write doc inverse a)) as [Hs2 Hp2]; [done|done| |].
  - intros b Hb. rewrite Hp. cbn [map]. intros [Heq|Hin]%elem_of_cons; [|by eapply Hf; [right|]].
    apply Ha. change (b.1 = a.1) in Heq. rewrite <-Heq. by apply (list_elem_of_fmap_2 fst).
  - split; [done|]. rewrite Hp2, Hp. cbn [app]. symmetry. apply Permutation_middle.
Qed.

Lemma inverse_actions doc update :
  Forall (fun kv => set_or_unset kv.1) update -> NoDup (map fst (actions update)) ->
  inverse_shape (apply_inverse_update doc update []) /\
  actions (apply_inverse_update doc update []) ≡ₚ map (undo doc) (actions update).
Proof.
  intros Hu Hn. rewrite apply_inverse_writes by done.
  destruct (invert_writes_actions doc (actions update) []) as [Hs Hp]; [constructor|done|by intros ? _ ?%not_elem_of_nil|].
  split; [done|]. by rewrite Hp, app_nil_r.
Qed.

(** ** Rollback *)

(** The same documents up to the order of fields: the same value at every path, or a
    document in both. *)
Definition same_document (d d' : Doc) : Prop :=
  forall q, q <> [] -> get_at q d' = get_at q d \/
    exists c c', get_at q d = Some (Document c) /\ get_at q d' = Some (Document c').

Lemma segments_nonempty path : segments path <> [].
Proof. destruct path as [|c path]; cbn; [done|]. case_bool_decide; [done|]. by destruct (segments path). Qed.

Lemma undone acts acts' d d1 d2 :
  all_written acts d d1 -> all_written acts' d1 d2 -> (forall a, a ∈ acts -> parents a.1 d) ->
  (forall a', a' ∈ acts' <-> exists a, a ∈ acts /\ a' = (a.1, get_at a.1 d)) ->
  (forall a, a ∈ acts -> a.1 <> []) -> same_document d d2.
Proof.
  intros [_ B1 _] [A2 B2 P2] Hp Hacts Hne q Hq.
  destruct (decide (Exists (fun a => a.1 `prefix_of` q) acts)) as [(a & Hin & r & ->)%Exists_exists|Habove].
  { left. assert ((a.1, get_at a.1 d) ∈ acts') as Ha' by (apply Hacts; by exists a).
    pose proof (A2 _ r Ha') as Hr. cbn [fst snd] in Hr. rewrite Hr, get_at_app; [done|by apply Hne]. }
  destruct (decide (Exists (fun a => q `prefix_of` a.1) acts)) as [(a & Hin & r & Heq)%Exists_exists|Hbelow].
  { right. assert (r <> []) as Hr.
    { intros ->. apply Habove, Exists_exists. exists a. split; [done|]. by rewrite Heq, app_nil_r. }
    destruct (Hp a Hin q r Heq Hq Hr) as [c Hc]. exists c.
    destruct (P2 (a.1, get_at a.1 d)) with (q := q) (r := r) as [c' Hc']; [apply Hacts; by exists a|done..|].
    by exists c'. }
  assert (forall a, a ∈ acts -> apart q a.1) as Hap.
  { intros a Hin. split; intros Hpre; [apply Hbelow|apply Habove]; apply Exists_exists; by exists a. }
  left. rewrite B2, B1; [done|done|done|done|].
  intros a' Ha'. apply Hacts in Ha' as (a & Hin & ->). cbn [fst]. by apply Hap.
Qed.

Lemma undo_at doc a :
  (a.2 = None -> get_nested_value doc a.1 <> None) ->
  at_segments (undo doc a) = (segments a.1, get_at (segments a.1) doc).
Proof.
  unfold at_segments, undo, get_nested_value. cbn [fst snd]. intros H. f_equal.
  destruct a.2; [done|]. by destruct (get_at (segments a.1) doc) eqn:E; [|destruct (H eq_refl)].
Qed.

(** C21: the rollback plan of an update restores the document: for an update of [$set] and
    [$unset] whose paths do not go through one another, with every document on the way
    there and every unset field present, simulating the inverse on the simulated result
    gives the document before, up to the order of its fields. *)
Theorem rollback_restores doc update ws ws' :
  Forall (fun kv => set_or_unset kv.1) update ->
  all_apart (map segments (map fst (actions update))) ->
  (forall a, a ∈ actions update -> parents (segments a.1) doc) ->
  (forall a, a ∈ actions update -> a.2 = None -> get_nested_value doc a.1 <> None) ->
  exists d1 d2,
    simulate_update bson_eqb doc update ws = (Ok d1, ws) /\
    simulate_update bson_eqb d1 (apply_inverse_update doc update []) ws' = (Ok d2, ws') /\
    same_document doc d2.
Proof.
  intros Hu Ha Hp Hex. set (acts := map at_segments (actions update)).
  assert (map fst acts = map segments (map fst (actions update))) as Hfst by (unfold acts; by rewrite !map_map).
  assert (forall a, a ∈ acts -> parents a.1 doc) as Hpa.
  { intros a (b & -> & Hb)%list_elem_of_fmap. by apply (Hp b). }
  destruct (put_all_spec acts doc) as (d1 & Hd1 & W1); [by rewrite Hfst|done|].
  assert (NoDup (map fst (actions update))) as Hn by by eapply NoDup_fmap_1, apart_distinct.
  destruct (inverse_actions doc update Hu Hn) as [Hs Hinv]. set (inverse := apply_inverse_update _ _ _) in *.
  set (acts' := map at_segments (actions inverse)).
  assert (forall a', a' ∈ acts' <-> exists a, a ∈ acts /\ a' = (a.1, get_at a.1 doc)) as Hacts.
  { intros a'. unfold acts', acts. rewrite Hinv, map_map. change (map ?f ?l) with (f <$> l).
    rewrite list_elem_of_fmap. setoid_rewrite list_elem_of_fmap. split.
    - intros (b & -> & Hin). exists (at_segments b). split; [by exists b|]. by apply undo_at, Hex.
    - intros (a & (b & -> & Hin) & ->). exists b. split; [|done]. symmetry. by apply undo_at, Hex. }
  destruct (put_all_spec acts' d1) as (d2 & Hd2 & W2).
  { unfold acts'. rewrite Hinv. unfold at_segments, undo. rewrite !map_map in *. exact Ha. }
  { intros a' Ha'. apply Hacts in Ha' as (a & Hin & ->). by apply (all_parents _ _ _ W1 a). }
  exists d1, d2. split; [by apply simulate_writes|]. split.
  - apply simulate_writes; [|done]. eapply Forall_impl; [exact Hs|]. by intros kv [].
  - apply (undone acts acts' doc d1 d2 W1 W2 Hpa Hacts).
    intros a (b & -> & _)%list_elem_of_fmap. apply segments_nonempty.
Qed.

(** ** Operators without an inverse *)

Lemma add_entry_set_note op : op <> "$set"%string -> op <> "$unset"%string -> forall doc v,
  apply_inverse_update doc [(op, v)] [] =
  [("$set", Document [("__rollback_note", BString ("operator '" +:+ op +:+ "' requires manual rollback"))])]%string.
Proof.
  intros H1 H2 doc v. unfold apply_inverse_update, invert_operator. cbn [foldl].
  by rewrite !bool_decide_eq_false_2.
Qed.

Lemma segments_note : segments "__rollback_note" = ["__rollback_note"]%string.
Proof. reflexivity. Qed.

Lemma simulate_note d v ws :
  simulate_update bson_eqb d [("$set", Document [("__rollback_note", v)])]%string ws =
  (Ok (insert "__rollback_note"%string v d), ws).
Proof. reflexivity. Qed.

(** An operator other than [$set] and [$unset] is not rolled back, and its plan changes
    the document: after an increment the rollback leaves the incremented value in place
    and adds a field [__rollback_note] to the document. *)
Theorem increment_not_rolled_back doc k n m ws ws' :
  segments k = [k] -> k <> "__rollback_note"%string -> get doc k = Some (Int64 n) -> i64 (n + m) = true ->
  let update := [("$inc", Document [(k, Int64 m)])]%string in
  exists d1 d2,
    simulate_update bson_eqb doc update ws = (Ok d1, ws) /\
    simulate_update bson_eqb d1 (apply_inverse_update doc update []) ws' = (Ok d2, ws') /\
    get d2 k = Some (Int64 (n + m)) /\
    get d2 "__rollback_note" = Some (BString "operator '$inc' requires manual rollback").
Proof.
  intros Hk Hne Hget Hr update. exists (insert k (Int64 (n + m)) doc).
  exists (insert "__rollback_note"%string (BString "operator '$inc' requires manual rollback")
            (insert k (Int64 (n + m)) doc)).
  split; [|split; [|split]].
  - unfold simulate_update, update. cbn [for_each]. unfold mbind, stateR_bind, apply_operator.
    cbn [fst snd]. change (operator bson_eqb "$inc") with (Some (fun k v d => inc_nested d k v)). cbn [for_each fst snd].
    unfold mbind, stateR_bind, on_doc. cbn [fst snd]. unfold inc_nested, arith_nested, get_nested_value, set_nested.
    rewrite Hk. cbn [get_at set_at]. rewrite Hget. cbn [default from_option Datatypes.id numeric_add].
    unfold checked. by rewrite Hr.
  - unfold update. rewrite add_entry_set_note by discriminate. apply simulate_note.
  - rewrite get_insert_ne by done. apply get_insert_eq.
  - apply get_insert_eq.
Qed.

(** ** The diff *)

(** Whether two objects differ at a field. *)
Definition differ (before after : fields Json) (k : string) : Prop :=
  match get before k, get after k with
  | None, None => False
  | Some a, Some b => json_eqb a b = false
  | _, _ => True
  end.

Lemma field_change_spec before after k :
  match field_change before after k with
  | Some c => differ before after k /\ field c = k /\ old_value c = get before k /\ new_value c = get after k
  | None => ~ differ before after k
  end.
Proof.
  unfold field_change, differ. destruct (get before k) as [a|], (get after k) as [b|]; cbn; try done; [|tauto].
  by destruct (json_eqb a b); [intros [=]|].
Qed.

Lemma map_field_omap before after ks :
  map field (omap (field_change before after) ks) =
  filter (fun k => is_Some (field_change before after k)) ks.
Proof.
  induction ks as [|k ks IH]; [done|]. rewrite filter_cons. cbn [omap list_omap].
  pose proof (field_change_spec before after k) as Hk.
  destruct (field_change before after k) as [c|].
  - rewrite decide_True by by eexists. cbn [map]. destruct Hk as (_ & -> & _). by f_equal.
  - rewrite decide_False; [done|by intros []].
Qed.

(** The diff is exact: it lists each field whose display value was added, removed or
    changed once, in order, with its two values, and no other field. *)
Theorem compute_diff_exact before after b a :
  as_object (doc_to_display_json before) = Some b -> as_object (doc_to_display_json after) = Some a ->
  let diff := compute_diff before after in
  StronglySorted string_le (map field diff) /\ NoDup (map field diff) /\
  (forall k, k ∈ map field diff <-> differ b a k) /\
  Forall (fun c => old_value c = get b (field c) /\ new_value c = get a (field c)) diff.
Proof.
  intros Hb Ha diff. subst diff. unfold compute_diff. rewrite Hb, Ha.
  destruct (sort_dedup_spec (keys b ++ keys a)) as (Hs & Hn & Hin).
  rewrite map_field_omap. split; [by apply StronglySorted_filter|]. split; [by apply NoDup_filter|]. split.
  - intros k. rewrite list_elem_of_filter, Hin, elem_of_app. pose proof (field_change_spec b a k) as Hk.
    destruct (field_change b a k) as [c|].
    + destruct Hk as (Hd & _). split; [done|]. intros _. split; [by eexists|].
      destruct (decide (k ∈ keys b)) as [|Hkb]; [by left|right].
      destruct (decide (k ∈ keys a)) as [|Hka]; [done|]. apply get_None in Hkb, Hka.
      unfold differ in Hd. by rewrite Hkb, Hka in Hd.
    + split; [by intros [[] _]|done].
  - apply Forall_forall. intros c (k & Hk & Hc)%list_elem_of_omap.
    pose proof (field_change_spec b a k) as Hf. rewrite Hc in Hf. destruct Hf as (_ & -> & ? & ?). done.
Qed.
End spec.

(** ** What the preview of a write promises

    The score is bounded, dangerous writes in production and unfiltered deletions must be
    confirmed, and the diffs of an update are those of its simulation. *)

Local Open Scope N_scope.

Section spec.
Context {RM : Removal} {FL : Float64} {JT : JsonText} {LT : Letters} {BC : BsonConvert}.
Context (bson_eqb : Bson -> Bson -> bool) (today : Z).

(** A step of the score never lowers it. *)
Definition raises (f : Risk -> Risk) : Prop := forall r, r.1 <= (f r).1.

Lemma raise_raises n s : raises (raise n s).
Proof. intros r. cbn. lia. Qed.
Lemma id_raises : raises (fun r => r).
Proof. intros r. lia. Qed.
Lemma if_raises (b : bool) f g : raises f -> raises g -> raises (fun r => if b then f r else g r).
Proof. intros Hf Hg r. destruct b; [apply Hf|apply Hg]. Qed.
Lemma foldl_raises {A} (f : Risk -> A -> Risk) l : (forall a, raises (fun r => f r a)) -> raises (fun r => foldl f r l).
Proof.
  intros Hf. induction l as [|a l IH]; intros r; cbn [foldl]; [lia|].
  etrans; [apply (Hf a)|apply IH].
Qed.
#[local] Hint Resolve raise_raises id_raises if_raises foldl_raises : risk.

Lemma operator_raises u : raises (operator_risk today u).
Proof.
  unfold operator_risk. destruct u as [u|]; [|auto with risk].
  destruct (parse_optional_doc today (Some u)) as [[d|]|]; auto with risk.
Qed.
Lemma warning_raises ws : raises (warning_risk ws).
Proof. unfold warning_risk. auto with risk. Qed.
Lemma rollback_raises level : raises (rollback_risk level).
Proof. unfold rollback_risk. destruct level; auto with risk. Qed.
Lemma size_raises m c : raises (size_risk m c).
Proof. unfold size_risk. auto with risk. Qed.

(** What the kind, the filter and the index contribute is never lost. *)
Lemma raw_risk_least kind m c prod fj idx level u ws :
  (index_risk idx (filter_risk today fj (kind_risk kind (production_risk prod (0, []))))).1 <=
  (raw_risk today kind m c prod fj idx level u ws).1.
Proof.
  unfold raw_risk. etrans; [|apply warning_raises]. etrans; [|apply operator_raises].
  etrans; [|apply rollback_raises]. apply size_raises.
Qed.

(** The filter of a request selects everything. *)
Definition empty_filter (filter_json : string) : Prop :=
  match parse_optional_doc today (Some filter_json) with Ok (Some d) => d = [] | _ => True end.

Lemma empty_filter_risk fj r : empty_filter fj -> (filter_risk today fj r).1 = r.1 + 25.
Proof.
  unfold empty_filter, filter_risk. destruct (parse_optional_doc today (Some fj)) as [[d|]|]; by intros; subst.
Qed.

Lemma level_of_full m : level_of m = FullLevel <-> 1 <= m <= ROLLBACK_CAPTURE_LIMIT.
Proof.
  unfold level_of, ROLLBACK_CAPTURE_LIMIT. destruct (N.eqb_spec m 0) as [->|Hm]; [split; [done|lia]|].
  destruct (N.leb_spec m 100); [split; [lia|done]|split; [done|lia]].
Qed.

Lemma preview_fields coll req p :
  preview_operation bson_eqb today coll req = Ok p ->
  exists m idx size ws r,
    r = score_risk today (rq_kind req) m size (is_production_profile (profile_name coll)) (filter_json req)
          (index_used idx) (level_of m) (update_json req) ws /\
    risk_score p = r.1 /\ matched_count p = m /\ p_rollback_level p = level_of m /\ index_info p = idx /\
    requires_typed_confirmation p =
      (60 <=? r.1) || (is_production_profile (profile_name coll) && is_dangerous_kind (rq_kind req)).
Proof.
  unfold preview_operation, mbind, result_bind. intros H.
  repeat (let E := fresh in match type of H with context [match ?x with Ok _ => _ | Err _ => _ end] =>
            destruct x eqn:E; [|discriminate H] end || destruct (preview_samples _ _ _ _ _) as [[[[before after] ds]|] ws] eqn:?).
  all: try discriminate H. injection H as <-. cbn [risk_score matched_count p_rollback_level index_info requires_typed_confirmation].
  eexists _, _, _, _, _. split; [reflexivity|]. done.
Qed.

(** C36: a preview never lets a dangerous write through unconfirmed: its score is at most
    100; the typed confirmation is required from a score of 60 on and for every delete,
    [updateMany] and replacement in production; a [deleteMany] without a filter requires
    it wherever it runs, unless an index serves it; and full rollback is announced for
    exactly one to a hundred matches. *)
Theorem preview_confirms_dangerous coll req p :
  preview_operation bson_eqb today coll req = Ok p ->
  risk_score p <= 100 /\
  (requires_typed_confirmation p = true <->
     60 <= risk_score p \/ (is_production_profile (profile_name coll) = true /\ is_dangerous_kind (rq_kind req) = true)) /\
  (rq_kind req = DeleteMany -> empty_filter (filter_json req) -> index_used (index_info p) = false ->
     requires_typed_confirmation p = true) /\
  (p_rollback_level p = FullLevel <-> 1 <= matched_count p <= ROLLBACK_CAPTURE_LIMIT).
Proof.
  intros (m & idx & size & ws & r & -> & -> & -> & -> & -> & ->)%preview_fields. rewrite orb_true_iff, andb_true_iff.
  split; [cbn; lia|]. split; [by rewrite N.leb_le|]. split; [|by rewrite level_of_full].
  intros Hk Hf Hi. left. apply N.leb_le. cbn [score_risk fst].
  pose proof (raw_risk_least (rq_kind req) m size (is_production_profile (profile_name coll)) (filter_json req)
                (index_used idx) (level_of m) (update_json req) ws) as Hl.
  rewrite Hi, Hk in Hl. unfold index_risk in Hl. cbn [raise fst] in Hl.
  rewrite empty_filter_risk in Hl by done. cbn in Hl. rewrite Hk, Hi.
  destruct (is_production_profile (profile_name coll)); cbn in Hl |- *; lia.
Qed.
End spec.

(** ** Concrete safe changes

    A document with a nested field: the witnesses of the theorems on rollback plans, diffs
    and previews. *)

Definition eqb (a b : Bson) : bool := false.

Definition person : Doc :=
  [("_id", Int32 1); ("name", BString "Ada"); ("address", Document [("city", BString "London")])].
Definition move : Doc :=
  [("$set", Document [("address.city", BString "Paris"); ("age", Int32 36)]); ("$unset", Document [("name", Null)])].

Lemma actions_move :
  actions move = [("address.city", Some (BString "Paris")); ("age", Some (Int32 36)); ("name", None)].
Proof. by vm_compute. Qed.
Lemma move_apart : all_apart (map segments (map fst (actions move))).
Proof. apply all_apart_decide. by vm_compute. Qed.
Lemma move_operators : Forall (fun kv => set_or_unset kv.1) move.
Proof. apply Forall_cons. split; [by left|]. apply Forall_singleton. by right. Qed.

Lemma city_parents : parents (segments "address.city") person.
Proof.
  change (parents ["address"; "city"] person). apply parents_cons.
  exists [("city", BString "London")]. split; [reflexivity|apply parents_single].
Qed.
Lemma move_parents a : a ∈ actions move -> parents (segments a.1) person.
Proof.
  rewrite actions_move. intros [-> |[-> |[-> |H]%elem_of_cons]%elem_of_cons]%elem_of_cons.
  - exact city_parents.
  - exact (parents_single "age" person).
  - exact (parents_single "name" person).
  - by apply not_elem_of_nil in H.
Qed.
Lemma move_unsets a : a ∈ actions move -> a.2 = None -> get_nested_value person a.1 <> None.
Proof.
  rewrite actions_move. intros [-> |[-> |[-> |H]%elem_of_cons]%elem_of_cons]%elem_of_cons Ha; try discriminate Ha.
  - intros H. vm_compute in H. discriminate H.
  - by apply not_elem_of_nil in H.
Qed.

Lemma rollback_restores_witness :
  exists d1 d2, simulate_update eqb person move [] = (Ok d1, []) /\
    simulate_update eqb d1 (apply_inverse_update person move []) [] = (Ok d2, []) /\ same_document person d2.
Proof. exact (rollback_restores eqb person move [] [] move_operators move_apart move_parents move_unsets). Defined.

Definition counter : Doc := [("_id", Int32 1); ("n", Int64 41)].
Lemma increment_not_rolled_back_witness :
  exists d1 d2,
    simulate_update eqb counter [("$inc", Document [("n", Int64 1)])] [] = (Ok d1, []) /\
    simulate_update eqb d1 (apply_inverse_update counter [("$inc", Document [("n", Int64 1)])] []) [] = (Ok d2, []) /\
    get d2 "n" = Some (Int64 42).
Proof.
  destruct (increment_not_rolled_back eqb counter "n" 41 1 [] []) as (d1 & d2 & H1 & H2 & H3 & _).
  - reflexivity.
  - discriminate.
  - reflexivity.
  - reflexivity.
  - exact (ex_intro _ d1 (ex_intro _ d2 (conj H1 (conj H2 H3)))).
Defined.

Definition person_json : fields Json :=
  [("_id", JInt 1); ("name", JString "Ada"); ("address", JObject [("city", JString "London")])].
Definition counter_json : fields Json := [("_id", JInt 1); ("n", JInt 41)].
Lemma person_display : as_object (doc_to_display_json person) = Some person_json.
Proof. by vm_compute. Qed.
Lemma counter_display : as_object (doc_to_display_json counter) = Some counter_json.
Proof. by vm_compute. Qed.
Lemma compute_diff_exact_witness : NoDup (map field (compute_diff person counter)).
Proof.
  destruct (compute_diff_exact person counter person_json counter_json person_display counter_display) as (_ & H & _).
  exact H.
Defined.

(** Two people, deleted without a filter. *)
Definition people : Collection :=
  {| profile_name := "live"; count_documents _ := Ok 2%N; find _ _ := Ok [person; counter];
     explain _ := None; estimated_document_count := Some 2%N |}.
Definition wipe : SafeChangePreviewRequest :=
  {| rq_kind := DeleteMany; filter_json := ""; update_json := None; replacement_json := None; sample_limit := None |}.
Definition previewed : option SafeChangePreview := ok (preview_operation eqb 0 people wipe).
Lemma wipe_previewed : exists p, preview_operation eqb 0 people wipe = Ok p /\ index_used (index_info p) = false.
Proof. eexists. split; vm_compute; reflexivity. Qed.

Lemma preview_confirms_dangerous_witness :
  exists p, preview_operation eqb 0 people wipe = Ok p /\ requires_typed_confirmation p = true.
Proof.
  destruct wipe_previewed as (p & Hp & Hi).
  destruct (preview_confirms_dangerous eqb 0 people wipe p Hp) as (_ & _ & H & _).
  exact (ex_intro _ p (conj Hp (H eq_refl I Hi))).
Defined.
