(* ===== verification/ShellSource.v ===== *)
(** * The source of a shell script (src-tauri/src/mongo/shell.rs)

    What happens to a script before the engine sees it: a leading [use <db>] line is taken
    off, and the calls of collection methods and of [runCommand] are rewritten to calls of
    host functions.  A character is the list of its UTF-8 bytes.  [rewritten] says what the
    rewriting may change, [transform_source_rewritten] that the scanner does just that. *)

From S2P Require Import Prelude.
From S2P Require Import Bytes.
From S2P Require Import Text.
From S2P Require Import Interfaces.
From S2P Require Import SledStore.
From S2P Require Import Strkey.
Local Open Scope nat_scope.

Abbreviation character := (list byte).
Implicit Types (c q : character) (l : list character).

Definition characters (s : string) : list character := split_chars (length (as_bytes s)) (as_bytes s).
Definition text_of (l : list character) : string := of_bytes (concat l).
Definition is_char (b : byte) (c : character) : bool := bool_decide (c = [b]).

Definition SLASH : byte := x2f.
Definition STAR : byte := x2a.
Definition BACKSLASH : byte := x5c.
Definition DOUBLE_QUOTE : byte := x22.
Definition SINGLE_QUOTE : byte := x27.
Definition BACKTICK : byte := x60.
Definition OPEN_PAREN : byte := x28.
Definition DOT : byte := x2e.
Definition SEMICOLON : byte := x3b.

(** [char::is_alphanumeric] beyond ASCII is a table of Unicode. *)
Class Unicode := { unicode_alphanumeric : character -> bool }.

Definition ascii_letter (b : byte) : bool := in_range 65 90 b || in_range 97 122 b.
Definition ascii_digit (b : byte) : bool := in_range 48 57 b.

(** ** [use <db>] *)

Section source.
Context {Uc : Unicode}.

Definition is_alphanumeric (c : character) : bool :=
  match c with
  | [b] => ascii_letter b || ascii_digit b
  | _ => unicode_alphanumeric c
  end.

(** [splitn(2, '\n')] *)
Fixpoint split_line (l : list byte) : list byte * list byte :=
  match l with
  | [] => ([], [])
  | b :: l => if bool_decide (b = NL) then ([], l) else let '(first, rest) := split_line l in (b :: first, rest)
  end.
Definition trim_bytes (l : list byte) : list byte := trim_end (trim_start l).
(** [trim_end_matches(';')] *)
Fixpoint drop_char (b : byte) (l : list byte) : list byte :=
  match l with [] => [] | x :: l' => if bool_decide (x = b) then drop_char b l' else l end.
Definition trim_end_char (b : byte) (l : list byte) : list byte := reverse (drop_char b (reverse l)).

Definition strip_byte_prefix (b : byte) (l : list byte) : option (list byte) :=
  match l with x :: l => if bool_decide (x = b) then Some l else None | [] => None end.
Definition strip_byte_suffix (b : byte) (l : list byte) : option (list byte) :=
  reverse <$> strip_byte_prefix b (reverse l).
Definition unquoted (b : byte) (l : list byte) : option (list byte) :=
  strip_byte_prefix b l ≫= strip_byte_suffix b.

Definition database_char (c : character) : bool :=
  is_alphanumeric c || is_char x5f c || is_char x2d c.

Definition preprocess_use (script : string) : option string * string :=
  let trimmed := trim_start (as_bytes script) in
  if negb (starts_with (as_bytes "use ") trimmed) then (None, script)
  else
    let '(first, rest) := split_line trimmed in
    let token := trim_bytes (trim_end_char SEMICOLON (trim_bytes first)) in
    if starts_with (as_bytes "use ") token then
      let db := trim_bytes (drop 4 token) in
      let db := match unquoted DOUBLE_QUOTE db with
                | Some s => s
                | None => default db (unquoted SINGLE_QUOTE db)
                end in
      if negb (bool_decide (db = [])) && forallb database_char (split_chars (length db) db)
      then (Some (of_bytes db), of_bytes rest)
      else (None, script)
    else (None, script).

(** ** The heads of the calls: [try_match_db_pattern] *)

Definition ident_start (c : character) : bool :=
  match c with [b] => ascii_letter b || bool_decide (b = x5f) | _ => false end.
Definition ident_char (c : character) : bool :=
  match c with [b] => ascii_letter b || ascii_digit b || bool_decide (b = x5f) | _ => false end.

Fixpoint take_while (p : character -> bool) (l : list character) : list character * list character :=
  match l with
  | [] => ([], [])
  | c :: l' => if p c then let '(xs, rest) := take_while p l' in (c :: xs, rest) else ([], l)
  end.

Definition match_ident (l : list character) : option (list character * list character) :=
  match l with
  | c :: l => if ident_start c then let '(xs, rest) := take_while ident_char l in Some (c :: xs, rest) else None
  | [] => None
  end.
Fixpoint match_text (p : list byte) (l : list character) : option (list character) :=
  match p, l with
  | [], _ => Some l
  | b :: p, c :: l => if is_char b c then match_text p l else None
  | _ :: _, [] => None
  end.
(** [\s*\(] *)
Definition match_paren (l : list character) : option (list character) :=
  match (take_while (fun c => bool_decide (c ∈ white_space)) l).2 with
  | c :: l => if is_char OPEN_PAREN c then Some l else None
  | [] => None
  end.

Definition run_command_re (l : list character) : option (list character) :=
  l ← match_text (as_bytes "db.runCommand") l; match_paren l.
Definition call_db_re (l : list character) : option (list character * list character * list character) :=
  l ← match_text (as_bytes "db.") l;
  '(coll, l) ← match_ident l;
  l ← match_text [DOT] l;
  '(method, l) ← match_ident l;
  l ← match_paren l;
  Some (coll, method, l).

Definition each_byte (l : list byte) : list character := map (fun b => [b]) l.
Definition quoted (l : list character) : list character := [[DOUBLE_QUOTE]] ++ l ++ [[DOUBLE_QUOTE]].

(** The rest after the head, and what replaces the head. *)
Definition try_match_db_pattern (rest : list character) : option (list character * list character) :=
  match run_command_re rest with
  | Some l => Some (l, each_byte (as_bytes "__run_command("))
  | None =>
    match call_db_re rest with
    | Some (coll, method, l) =>
      Some (l, each_byte (as_bytes "__call_db(") ++ quoted coll ++ each_byte (as_bytes ", ") ++
               quoted method ++ each_byte (as_bytes ", "))
    | None => None
    end
  end.

(** [prev] is the character before, if any. *)
Definition is_word_boundary_before (prev : option character) : bool :=
  match prev with
  | None => true
  | Some p => negb (is_alphanumeric p) && negb (is_char x5f p) && negb (is_char x24 p)
  end.

(** A head that starts here: [c == 'd'], the next is [b], and the patterns. *)
Definition head_at (prev : option character) (l : list character) : option (list character * list character) :=
  match l with
  | c :: c2 :: _ =>
    if is_char x64 c && is_char x62 c2 && is_word_boundary_before prev then try_match_db_pattern l else None
  | _ => None
  end.

(** ** The scanner *)

Inductive scan_mode := InCode | InString (quote : character) | InLineComment | InBlockComment.

Definition is_quote (c : character) : bool :=
  is_char DOUBLE_QUOTE c || is_char SINGLE_QUOTE c || is_char BACKTICK c.

(** The state after one step of [while k < n]: what it writes, the mode, the character
    before and the rest. *)
Definition scan_step (m : scan_mode) (prev : option character) (c : character) (l : list character) :
    list character * scan_mode * option character * list character :=
  match m with
  | InLineComment => ([c], (if is_char NL c then InCode else InLineComment), Some c, l)
  | InBlockComment =>
    match l with
    | c2 :: l' => if is_char STAR c && is_char SLASH c2 then ([c; c2], InCode, Some c2, l')
                  else ([c], InBlockComment, Some c, l)
    | [] => ([c], InBlockComment, Some c, l)
    end
  | InString quote =>
    match l with
    | c2 :: l' => if is_char BACKSLASH c then ([c; c2], InString quote, Some c2, l')
                  else ([c], (if bool_decide (c = quote) then InCode else InString quote), Some c, l)
    | [] => ([c], (if bool_decide (c = quote) then InCode else InString quote), Some c, l)
    end
  | InCode =>
    match l with
    | c2 :: l' =>
      if is_char SLASH c && is_char SLASH c2 then ([c; c2], InLineComment, Some c2, l')
      else if is_char SLASH c && is_char STAR c2 then ([c; c2], InBlockComment, Some c2, l')
      else if is_quote c then ([c], InString c, Some c, l)
      else match head_at prev (c :: l) with
           | Some (rest, replacement) => (replacement, InCode, Some [OPEN_PAREN], rest)
           | None => ([c], InCode, Some c, l)
           end
    | [] => ([c], (if is_quote c then InString c else InCode), Some c, l)
    end
  end.

(** Each step takes at least one character, so the length is enough fuel. *)
Fixpoint scan (fuel : nat) (m : scan_mode) (prev : option character) (l : list character) : list character :=
  match fuel, l with
  | S fuel, c :: l =>
    let '(out, m, prev, l) := scan_step m prev c l in out ++ scan fuel m prev l
  | _, _ => []
  end.

Definition transform_source (src : string) : string :=
  text_of (scan (length (characters src)) InCode None (characters src)).

(** ** What the rewriting may change *)

(** The inside of a literal: an escape takes the next character with it. *)
Inductive literal_body q : list character -> Prop :=
| body_nil : literal_body q []
| body_escape c l : literal_body q l -> literal_body q ([BACKSLASH] :: c :: l)
| body_char c l : c <> q -> c <> [BACKSLASH] -> literal_body q l -> literal_body q (c :: l).

(** No [*/] inside. *)
Fixpoint no_close (l : list character) : bool :=
  match l with
  | c :: (c2 :: _) as l' => negb (is_char STAR c && is_char SLASH c2) && no_close l'
  | _ => true
  end.

Inductive copied_verbatim : list character -> Prop :=
| copied_literal q body : is_quote q = true -> literal_body q body -> copied_verbatim (q :: body ++ [q])
| copied_line body : [NL] ∉ body -> copied_verbatim ([SLASH] :: [SLASH] :: body ++ [[NL]])
| copied_block body : no_close (body ++ [[STAR]]) = true ->
    copied_verbatim ([SLASH] :: [STAR] :: body ++ [[STAR]; [SLASH]]).

(** A literal or a comment that the script ends in. *)
Inductive left_open : list character -> Prop :=
| open_literal q body : is_quote q = true -> literal_body q body -> left_open (q :: body)
| open_escape q body : is_quote q = true -> literal_body q body -> left_open (q :: body ++ [[BACKSLASH]])
| open_line body : [NL] ∉ body -> left_open ([SLASH] :: [SLASH] :: body)
| open_block body : no_close body = true -> left_open ([SLASH] :: [STAR] :: body).

(** A comment starts here. *)
Definition opens_comment (l : list character) : bool :=
  match l with
  | c :: c2 :: _ => is_char SLASH c && (is_char SLASH c2 || is_char STAR c2)
  | _ => false
  end.

(** [rewritten prev src out]: [out] may replace [src], which follows [prev]. *)
Inductive rewritten : option character -> list character -> list character -> Prop :=
| rewritten_end prev : rewritten prev [] []
| rewritten_copy prev l c src out :
    copied_verbatim (l ++ [c]) -> rewritten (Some c) src out ->
    rewritten prev ((l ++ [c]) ++ src) ((l ++ [c]) ++ out)
| rewritten_open prev l : left_open l -> rewritten prev l l
| rewritten_head prev src rest replacement out :
    head_at prev src = Some (rest, replacement) -> rewritten (Some [OPEN_PAREN]) rest out ->
    rewritten prev src (replacement ++ out)
| rewritten_char prev c src out :
    is_quote c = false -> opens_comment (c :: src) = false -> head_at prev (c :: src) = None ->
    rewritten (Some c) src out -> rewritten prev (c :: src) (c :: out).

(** ** The heads take characters *)

Lemma take_while_shorter p l : length (take_while p l).2 <= length l.
Proof.
  induction l as [|c l IH]; cbn; [done|]. destruct (p c); [|done].
  destruct (take_while p l) as [xs rest]. cbn in *. lia.
Qed.

Lemma match_ident_shorter l xs rest : match_ident l = Some (xs, rest) -> length rest < length l.
Proof.
  destruct l as [|c l]; [done|]. cbn. destruct (ident_start c); [|done].
  pose proof (take_while_shorter ident_char l). destruct (take_while ident_char l). intros [= <- <-]. cbn in *. lia.
Qed.

Lemma match_text_shorter p l rest : match_text p l = Some rest -> length rest <= length l.
Proof.
  revert l. induction p as [|b p IH]; intros [|c l]; cbn; try (intros [= <-]; cbn; lia).
  destruct (is_char b c); [|done]. intros H%IH. lia.
Qed.

Lemma match_paren_shorter l rest : match_paren l = Some rest -> length rest < length l.
Proof.
  unfold match_paren. pose proof (take_while_shorter (fun c => bool_decide (c ∈ white_space)) l) as H.
  destruct (take_while _ l) as [xs [|c l']]; cbn in *; [done|]. destruct (is_char _ _); [|done]. intros [= <-]. lia.
Qed.

Lemma head_at_shorter prev l rest replacement : head_at prev l = Some (rest, replacement) -> length rest < length l.
Proof.
  destruct l as [|c [|c2 l]]; [done..|]. unfold head_at. destruct (_ && _ && _); [|done].
  set (l0 := c :: c2 :: l). unfold try_match_db_pattern.
  destruct (run_command_re l0) as [l1|] eqn:Hr.
  - intros [= <- ?]. unfold run_command_re in Hr. apply bind_Some in Hr as (l2 & H2%match_text_shorter & H1%match_paren_shorter). lia.
  - destruct (call_db_re l0) as [[[coll method] l1]|] eqn:Hc; [|done]. intros [= <- ?]. unfold call_db_re in Hc.
    apply bind_Some in Hc as (l2 & H2%match_text_shorter & Hc).
    apply bind_Some in Hc as ([i3 l3] & H3%match_ident_shorter & Hc).
    apply bind_Some in Hc as (l4 & H4%match_text_shorter & Hc).
    apply bind_Some in Hc as ([i5 l5] & H5%match_ident_shorter & Hc).
    apply bind_Some in Hc as (l6 & H6%match_paren_shorter & Hc).
    injection Hc as ? ? <-. lia.
Qed.

(** ** One step at a time *)

Lemma scan_step_shorter m prev c l : length (scan_step m prev c l).2 <= length l.
Proof.
  destruct m, l as [|c2 l]; cbn [scan_step]; repeat case_match; cbn; try lia.
  match goal with H : head_at _ _ = _ |- _ => apply head_at_shorter in H end. cbn in *. lia.
Qed.

Lemma scan_fuel f g m prev l : length l <= f -> length l <= g -> scan f m prev l = scan g m prev l.
Proof.
  revert g m prev l. induction f as [|f IH]; intros [|g] m prev [|c l] Hf Hg; cbn in Hf, Hg; try lia; try done.
  cbn [scan]. pose proof (scan_step_shorter m prev c l) as Hs.
  destruct (scan_step m prev c l) as [[[out m'] prev'] l']. cbn in Hs. f_equal. apply IH; lia.
Qed.

Definition scan_all (m : scan_mode) (prev : option character) (l : list character) : list character :=
  scan (length l) m prev l.

Lemma scan_all_cons m prev c l :
  scan_all m prev (c :: l) = let '(out, m, prev, l) := scan_step m prev c l in out ++ scan_all m prev l.
Proof.
  unfold scan_all. cbn [length scan]. pose proof (scan_step_shorter m prev c l) as Hs.
  destruct (scan_step m prev c l) as [[[out m'] prev'] l']. cbn in Hs. f_equal. by apply scan_fuel.
Qed.

(** ** Inside literals and comments *)

Lemma is_quote_not_backslash q : is_quote q = true -> q <> [BACKSLASH].
Proof. by intros Hq ->. Qed.

Lemma scan_string_plain q prev c l :
  c <> [BACKSLASH] \/ l = [] ->
  scan_all (InString q) prev (c :: l) =
    c :: scan_all (if bool_decide (c = q) then InCode else InString q) (Some c) l.
Proof.
  intros Hc. rewrite scan_all_cons. destruct l; [done|]. cbn [scan_step]. unfold is_char.
  rewrite bool_decide_eq_false_2; [done|]. by destruct Hc.
Qed.

Lemma scan_quoted q l (prev : option character) :
  is_quote q = true ->
  (exists body rest : list character, (l = body ++ q :: rest) /\ literal_body q body /\
     scan_all (InString q) prev l = body ++ q :: scan_all InCode (Some q) rest) \/
  (scan_all (InString q) prev l = l /\ left_open (q :: l)).
Proof.
  intros Hq. revert prev. induction l as [l IH] using (induction_ltof1 _ (@length _)). unfold ltof in IH.
  intros prev. assert (left_open [q]) as H0 by by apply (open_literal q []), body_nil.
  destruct l as [|c l]; [by right|]. destruct (decide (c = [BACKSLASH] /\ l <> [])) as [[-> Hl]|Hc].
  - destruct l as [|c2 l]; [done|]. rewrite scan_all_cons. cbn [scan_step].
    change (is_char BACKSLASH [BACKSLASH]) with true. cbn [app].
    destruct (IH l ltac:(cbn; lia) (Some c2)) as [(body & rest & -> & Hbd & ->)|(-> & Hop)].
    + left. exists ([BACKSLASH] :: c2 :: body), rest. split; [done|split; [by constructor|done]].
    + right. split; [done|]. inversion Hop; subst; try done.
      * by apply (open_literal q ([BACKSLASH] :: c2 :: l)), body_escape.
      * by apply (open_escape q ([BACKSLASH] :: c2 :: body)), body_escape.
  - assert (c <> [BACKSLASH] \/ l = []) as Hc'.
    { destruct (decide (c = [BACKSLASH])) as [->|]; [|by left]. right. destruct l; [done|]. by destruct Hc. }
    rewrite scan_string_plain by done. case_bool_decide as Hcq.
    { subst c. left. exists [], l. split; [done|split; [by constructor|done]]. }
    destruct (decide (c = [BACKSLASH])) as [->|Hb].
    { destruct Hc' as [| ->]; [done|]. right. split; [done|]. by apply (open_escape q []), body_nil. }
    destruct (IH l ltac:(cbn; lia) (Some c)) as [(body & rest & -> & Hbd & ->)|(-> & Hop)].
    + left. exists (c :: body), rest. split; [done|split; [by constructor|done]].
    + right. split; [done|]. inversion Hop; subst; try done.
      * by apply (open_literal q (c :: l)), body_char.
      * by apply (open_escape q (c :: body)), body_char.
Qed.

Lemma scan_line l (prev : option character) :
  (exists body rest : list character, l = body ++ [NL] :: rest /\ [NL] ∉ body /\
     scan_all InLineComment prev l = body ++ [NL] :: scan_all InCode (Some [NL]) rest) \/
  (scan_all InLineComment prev l = l /\ [NL] ∉ l).
Proof.
  revert prev. induction l as [|c l IH]; intros prev; [right; split; [done|apply not_elem_of_nil]|].
  rewrite scan_all_cons. cbn [scan_step]. unfold is_char. case_bool_decide as Hc.
  - subst c. left. exists [], l. split_and!; [done|apply not_elem_of_nil|done].
  - destruct (IH (Some c)) as [(body & rest & -> & Hbd & Hs)|(Hs & Hn)]; cbn [app] in *; rewrite Hs.
    + left. exists (c :: body), rest. split_and!; [done|set_solver|done].
    + right. split; [done|set_solver].
Qed.

Lemma no_close_cons c l :
  no_close (c :: l) = match l with c2 :: _ => negb (is_char STAR c && is_char SLASH c2) && no_close l | [] => true end.
Proof. by destruct l. Qed.

Lemma scan_block l (prev : option character) :
  (exists body rest : list character, l = body ++ [STAR] :: [SLASH] :: rest /\ no_close (body ++ [[STAR]]) = true /\
     scan_all InBlockComment prev l = body ++ [STAR] :: [SLASH] :: scan_all InCode (Some [SLASH]) rest) \/
  (scan_all InBlockComment prev l = l /\ no_close l = true).
Proof.
  revert prev. induction l as [|c l IH]; intros prev; [by right|]. rewrite scan_all_cons.
  destruct l as [|c2 l]; [by right|]. cbn [scan_step]. destruct (is_char STAR c && is_char SLASH c2) eqn:Hc.
  - apply andb_true_iff in Hc as [->%bool_decide_eq_true ->%bool_decide_eq_true]. left. by exists [], l.
  - destruct (IH (Some c)) as [(body & rest & Hb & Hbd & Hs)|(Hs & Hn)]; cbn [app] in *; rewrite Hs.
    + left. exists (c :: body), rest. rewrite Hb. split_and!; [done| |done].
      cbn [app]. rewrite no_close_cons, Hbd.
      destruct body as [|c3 body]; cbn [app]; injection Hb as -> _; [by rewrite andb_false_r|by rewrite Hc].
    + right. split; [done|]. by rewrite no_close_cons, Hc.
Qed.

(** ** The scanner rewrites *)

Lemma scan_rewritten l prev : rewritten prev l (scan_all InCode prev l).
Proof.
  revert prev. induction l as [l IH] using (induction_ltof1 _ (@length _)). unfold ltof in IH. intros prev.
  assert (forall c rest, length rest < length l -> rewritten (Some c) rest (scan_all InCode (Some c) rest)) as Hres
    by auto.
  assert (left_open l -> rewritten prev l l) as Hopen by apply rewritten_open.
  destruct l as [|c l]; [constructor|]. rewrite scan_all_cons. cbn [scan_step].
  destruct l as [|c2 l].
  { destruct (is_quote c) eqn:Hq; cbn.
    - apply Hopen. by apply (open_literal c []), body_nil.
    - apply rewritten_char; [done..|constructor]. }
  destruct (is_char SLASH c && is_char SLASH c2) eqn:H1.
  { apply andb_true_iff in H1 as [->%bool_decide_eq_true ->%bool_decide_eq_true]. cbn [app].
    destruct (scan_line l (Some [SLASH])) as [(body & rest & -> & Hb & ->)|[ -> Hn]]; [|by apply Hopen, open_line].
    pose proof (rewritten_copy prev ([SLASH] :: [SLASH] :: body) [NL] rest _ ltac:(by apply copied_line)
      (Hres [NL] rest ltac:(cbn; rewrite length_app; cbn; lia))) as H.
    by rewrite <-!app_assoc in H. }
  destruct (is_char SLASH c && is_char STAR c2) eqn:H2.
  { apply andb_true_iff in H2 as [->%bool_decide_eq_true ->%bool_decide_eq_true]. cbn [app].
    destruct (scan_block l (Some [STAR])) as [(body & rest & -> & Hb & ->)|[ -> Hn]]; [|by apply Hopen, open_block].
    pose proof (rewritten_copy prev ([SLASH] :: [STAR] :: body ++ [[STAR]]) [SLASH] rest _
      ltac:(cbn [app]; rewrite <-app_assoc; by apply copied_block)
      (Hres [SLASH] rest ltac:(cbn; rewrite length_app; cbn; lia))) as H.
    cbn [app] in H. by rewrite <-!app_assoc in H. }
  destruct (is_quote c) eqn:Hq.
  { cbn [app]. destruct (scan_quoted c (c2 :: l) (Some c) Hq) as [(body & rest & Hl & Hb & ->)|[ -> Hn]]; [|by apply Hopen].
    rewrite Hl in *. pose proof (rewritten_copy prev (c :: body) c rest _ ltac:(by apply copied_literal)
      (Hres c rest ltac:(cbn; rewrite length_app; cbn; lia))) as H.
    by rewrite <-!app_assoc in H. }
  destruct (head_at prev (c :: c2 :: l)) as [[rest replacement]|] eqn:Hh.
  - eapply rewritten_head; [done|]. apply Hres. by eapply head_at_shorter.
  - cbn [app]. apply rewritten_char; [done| |done|apply Hres; cbn; lia].
    cbn [opens_comment]. destruct (is_char SLASH c); cbn in *; [|done]. by rewrite H1, H2.
Qed.

(** ** And only the scanner does *)

Lemma scan_literal q body rest prev :
  is_quote q = true -> literal_body q body ->
  scan_all (InString q) prev (body ++ q :: rest) = body ++ q :: scan_all InCode (Some q) rest.
Proof.
  intros Hq Hb. revert prev. induction Hb as [|c l Hb IH|c l Hc Hs Hb IH]; intros prev; cbn [app].
  - rewrite scan_string_plain by (left; by apply is_quote_not_backslash). by rewrite bool_decide_eq_true_2.
  - rewrite scan_all_cons. cbn [scan_step]. change (is_char BACKSLASH [BACKSLASH]) with true. cbn [app]. by rewrite IH.
  - rewrite scan_string_plain by by left. rewrite bool_decide_eq_false_2 by done. by rewrite IH.
Qed.

Lemma scan_open_literal q body tail prev :
  is_quote q = true -> literal_body q body -> tail = [] \/ tail = [[BACKSLASH]] ->
  scan_all (InString q) prev (body ++ tail) = body ++ tail.
Proof.
  intros Hq Hb Ht. revert prev. induction Hb as [|c l Hb IH|c l Hc Hs Hb IH]; intros prev; cbn [app].
  - by destruct Ht as [-> | ->].
  - rewrite scan_all_cons. cbn [scan_step]. change (is_char BACKSLASH [BACKSLASH]) with true. cbn [app]. by rewrite IH.
  - rewrite scan_string_plain by by left. rewrite bool_decide_eq_false_2 by done. by rewrite IH.
Qed.

Lemma scan_line_cons c l prev :
  c <> [NL] -> scan_all InLineComment prev (c :: l) = c :: scan_all InLineComment (Some c) l.
Proof. intros Hc. rewrite scan_all_cons. cbn [scan_step]. unfold is_char. by rewrite bool_decide_eq_false_2. Qed.

Lemma scan_line_closed body rest prev :
  [NL] ∉ body -> scan_all InLineComment prev (body ++ [NL] :: rest) = body ++ [NL] :: scan_all InCode (Some [NL]) rest.
Proof.
  revert prev. induction body as [|c body IH]; intros prev Hn; cbn [app].
  - by rewrite scan_all_cons.
  - rewrite scan_line_cons, IH by set_solver. done.
Qed.
Lemma scan_line_open body prev : [NL] ∉ body -> scan_all InLineComment prev body = body.
Proof.
  revert prev. induction body as [|c body IH]; intros prev Hn; [done|].
  rewrite scan_line_cons, IH by set_solver. done.
Qed.

Lemma scan_block_cons c l prev :
  match l with c2 :: _ => is_char STAR c && is_char SLASH c2 = false | [] => True end ->
  scan_all InBlockComment prev (c :: l) = c :: scan_all InBlockComment (Some c) l.
Proof. intros Hc. rewrite scan_all_cons. destruct l as [|c2 l]; [done|]. cbn [scan_step]. by rewrite Hc. Qed.

Lemma scan_block_closed body rest prev :
  no_close (body ++ [[STAR]]) = true ->
  scan_all InBlockComment prev (body ++ [STAR] :: [SLASH] :: rest) =
    body ++ [STAR] :: [SLASH] :: scan_all InCode (Some [SLASH]) rest.
Proof.
  revert prev. induction body as [|c body IH]; intros prev Hn; cbn [app] in *; [by rewrite scan_all_cons|].
  rewrite no_close_cons in Hn.
  rewrite scan_block_cons, IH; [done|..]; destruct body; cbn [app] in *; try done;
    by apply andb_true_iff in Hn as [?%negb_true_iff ?].
Qed.
Lemma scan_block_open body prev : no_close body = true -> scan_all InBlockComment prev body = body.
Proof.
  revert prev. induction body as [|c body IH]; intros prev Hn; [done|]. rewrite no_close_cons in Hn.
  rewrite scan_block_cons, IH; [done|..]; destruct body; try done; by apply andb_true_iff in Hn as [?%negb_true_iff ?].
Qed.

Lemma scan_quote q l prev : is_quote q = true -> l <> [] -> scan_all InCode prev (q :: l) = q :: scan_all (InString q) (Some q) l.
Proof.
  intros Hq Hl. rewrite scan_all_cons. destruct l as [|c2 l]; [done|]. cbn [scan_step].
  assert (is_char SLASH q = false) as -> by (apply bool_decide_eq_false; by intros ->). cbn [andb]. by rewrite Hq.
Qed.
Lemma scan_line_start l prev : scan_all InCode prev ([SLASH] :: [SLASH] :: l) =
  [SLASH] :: [SLASH] :: scan_all InLineComment (Some [SLASH]) l.
Proof. by rewrite scan_all_cons. Qed.
Lemma scan_block_start l prev : scan_all InCode prev ([SLASH] :: [STAR] :: l) =
  [SLASH] :: [STAR] :: scan_all InBlockComment (Some [STAR]) l.
Proof. by rewrite scan_all_cons. Qed.

Lemma scan_copied text c src prev :
  copied_verbatim (text ++ [c]) ->
  scan_all InCode prev ((text ++ [c]) ++ src) = (text ++ [c]) ++ scan_all InCode (Some c) src.
Proof.
  intros H. inversion H as [q body Hq Hb Ht|body Hb Ht|body Hb Ht].
  - apply (app_inj_tail (q :: body)) in Ht as [_ <-]. cbn [app]. rewrite <-!app_assoc. cbn [app].
    rewrite scan_quote by (done || by destruct body). by rewrite scan_literal.
  - apply (app_inj_tail ([SLASH] :: [SLASH] :: body)) in Ht as [_ <-]. cbn [app]. rewrite <-!app_assoc. cbn [app].
    by rewrite scan_line_start, scan_line_closed.
  - assert ([SLASH] :: [STAR] :: body ++ [[STAR]; [SLASH]] = ([SLASH] :: [STAR] :: body ++ [[STAR]]) ++ [[SLASH]]) as E
      by (cbn [app]; by rewrite <-app_assoc).
    rewrite E in Ht. apply app_inj_tail in Ht as [_ <-]. cbn [app]. rewrite <-!app_assoc. cbn [app].
    by rewrite scan_block_start, scan_block_closed.
Qed.

Lemma scan_open l prev : left_open l -> scan_all InCode prev l = l.
Proof.
  intros H. inversion H as [q body Hq Hb Ht|q body Hq Hb Ht|body Hb Ht|body Hb Ht].
  - destruct body as [|c body]; [rewrite scan_all_cons; cbn [scan_step]; by rewrite Hq|]. rewrite scan_quote by done.
    rewrite <-(app_nil_r (c :: body)). by rewrite scan_open_literal by auto.
  - rewrite scan_quote by (done || by destruct body). by rewrite scan_open_literal by auto.
  - by rewrite scan_line_start, scan_line_open.
  - by rewrite scan_block_start, scan_block_open.
Qed.

Lemma head_not_quote prev c c2 l r :
  head_at prev (c :: c2 :: l) = Some r -> is_char SLASH c = false /\ is_quote c = false.
Proof.
  unfold head_at. destruct (is_char x64 c) eqn:Hc; [|done]. by apply bool_decide_eq_true in Hc as ->.
Qed.

Lemma rewritten_scan prev l out : rewritten prev l out -> out = scan_all InCode prev l.
Proof.
  induction 1 as [prev|prev l c src out Hl H IH|prev l Hl|prev src rest repl out Hh H IH|prev c src out Hq Hc Hh H IH].
  - done.
  - by rewrite scan_copied, IH.
  - by rewrite scan_open.
  - destruct src as [|c [|c2 l]]; [done..|]. destruct (head_not_quote _ _ _ _ _ Hh) as [Hs Hq].
    rewrite scan_all_cons. cbn [scan_step]. rewrite Hs, Hq, Hh. cbn [andb]. by rewrite IH.
  - rewrite scan_all_cons. destruct src as [|c2 l]; cbn [scan_step]; rewrite Hq; [by rewrite IH|].
    cbn [opens_comment] in Hc. rewrite Hh. destruct (is_char SLASH c); cbn [andb] in *; [|by rewrite IH].
    apply orb_false_iff in Hc as [-> ->]. by rewrite IH.
Qed.

(** ** Characters *)

Lemma utf8_step_positive b (l : list byte) : 0 < (utf8_step (b :: l)).2.
Proof. unfold utf8_step. repeat case_match; cbn; lia. Qed.

Lemma concat_split_chars fuel (l : list byte) : length l <= fuel -> concat (split_chars fuel l) = l.
Proof.
  revert l. induction fuel as [|fuel IH]; intros [|b l] Hl; cbn in Hl; try lia; try done.
  cbn [split_chars concat]. pose proof (utf8_step_positive b l) as Hp.
  rewrite IH, take_drop; [done|]. rewrite length_drop. cbn [length]. lia.
Qed.

Lemma text_of_characters s : text_of (characters s) = s.
Proof. unfold text_of, characters. by rewrite concat_split_chars, of_bytes_as_bytes. Qed.

(** C23: The scanner writes exactly the allowed rewriting of a script, for every script: string literals, template
    literals and comments (closed or left open at the end) are copied character by character, as is every other
    character of the code; only the head of a call [db.<coll>.<method>(] or [db.runCommand(] that stands in the code
    after no identifier character is replaced. *)
Theorem transform_source_rewritten src :
  text_of (characters src) = src /\
  forall result, transform_source src = result <->
    exists out, rewritten None (characters src) out /\ result = text_of out.
Proof.
  split; [apply text_of_characters|]. intros result. split.
  - intros <-. eexists. split; [apply scan_rewritten|done].
  - intros (out & Hr & ->). unfold transform_source. by rewrite (rewritten_scan _ _ _ Hr).
Qed.
End source.

(** ** Examples *)

Section examples.
#[local] Instance ascii_only : Unicode := {| unicode_alphanumeric _ := false |}.

Definition quoted_text (s : string) : string := of_bytes ([DOUBLE_QUOTE] ++ as_bytes s ++ [DOUBLE_QUOTE]).
Definition newline : string := of_bytes [NL].

Example use_line :
  preprocess_use ("use shop;" +:+ newline +:+ "db.users.find()") = (Some "shop", "db.users.find()")%string /\
  preprocess_use "db.users.find()" = (None, "db.users.find()")%string /\
  preprocess_use ("use " +:+ quoted_text "a-b" +:+ newline) = (Some "a-b", "")%string /\
  preprocess_use "use a.b" = (None, "use a.b")%string.
Proof. vm_compute. done. Qed.

Example rewrites_calls :
  transform_source "db.users.find({}).toArray() // db.a.b(" =
    ("__call_db(" +:+ quoted_text "users" +:+ ", " +:+ quoted_text "find" +:+ ", {}).toArray() // db.a.b(")%string /\
  transform_source "mydb.a.b(); db.runCommand ({})" = "mydb.a.b(); __run_command({})"%string /\
  transform_source ("print(" +:+ quoted_text "db.a.b(" +:+ ")") = ("print(" +:+ quoted_text "db.a.b(" +:+ ")")%string /\
  transform_source "db.system.profile.find()" = "db.system.profile.find()"%string.
Proof. vm_compute. done. Qed.

(** A quote in a regular expression counts as the start of a literal: the calls after it are not rewritten. *)
Lemma regex_quote_hides_calls : transform_source "x = /'/; db.a.drop()" = "x = /'/; db.a.drop()"%string.
Proof. vm_compute. done. Qed.

(** A call inside a [${}] of a template literal is not rewritten either. *)
Lemma template_hides_calls : transform_source "print(`${db.a.count()}`)" = "print(`${db.a.count()}`)"%string.
Proof. vm_compute. done. Qed.
End examples.
