(* ===== verification/Shell.v ===== *)
(** * The methods of the shell (src-tauri/src/mongo/shell.rs)

    Values of the script, requests to the server, the state of the shell thread, and the
    collection methods: each translates its arguments, sends its requests, writes the change
    to the audit log and notes it for the timeline.  The server is an interface whose state
    may change in every request; the state of the shell also keeps the requests that were
    sent and whether they succeeded, which the code does not.  [clock] gives the times of the
    audit records.

    Reading a property of an object or its text runs no code of the script, and the [toArray]
    of a cursor is not seen as a property.  The errors of the [bson] crate keep their
    constant part. *)

From stdpp Require Import pretty.
From S2P Require Import Prelude.
From S2P Require Import Bytes.
From S2P Require Import Text.
From S2P Require Import Interfaces.
From S2P Require Import CanonicalPayload.
From S2P Require Import SledStore.
From S2P Require Import PoseidonTree.
From S2P Require Import AuditLog.
From S2P Require Import Interceptor.
From S2P Require ChangeStream.
From S2P Require Timeline.
From S2P Require Import Fields.
From S2P Require Import Json.
From S2P Require Import OplogCanon.
From S2P Require Import AppError.
From S2P Require Import BsonJson.
Local Open Scope Z_scope.

(** ** Values *)

(** A number is the bits of a float; the properties of an object are the ones the engine
    enumerates; anything else is its text. *)
Unset Elimination Schemes.
Inductive JsValue :=
| JsUndefined
| JsNull
| JsBoolean (b : bool)
| JsNumber (bits : Z)
| JsString (s : string)
| JsArray (l : list JsValue)
| JsObject (own : list (string * JsValue))
| JsOther (text : string).
Set Elimination Schemes.

(** The value of a float that is an integer: of [n.fract() == 0.0] and [n as i64]. *)
Definition int_of_f64 (bits : Z) : option Z :=
  let exponent := Z.land (Z.shiftr bits 52) 2047 in
  let mantissa := Z.land bits (2 ^ 52 - 1) in
  let magnitude :=
    if exponent =? 2047 then None
    else if exponent =? 0 then (if mantissa =? 0 then Some 0 else None)
    else
      let m := 2 ^ 52 + mantissa in
      let k := exponent - 1075 in
      if 0 <=? k then Some (m * 2 ^ k)
      else if m mod 2 ^ (- k) =? 0 then Some (m / 2 ^ (- k)) else None in
  m ← magnitude; Some (if Z.testbit bits 63 then - m else m).

(** The engine and the [bson] crate: the properties of an object after setting each in
    turn, the text of a value and of a type error; [BsonDateTime::parse_rfc3339_str],
    [try_to_rfc3339_string] and the text of a decimal and of a JSON value; new identifiers
    and the time, by the number of the reading. *)
Class ShellLib := {
  js_properties : fields JsValue -> fields JsValue;
  js_text : JsValue -> string;
  type_error : string -> string;
  parse_rfc3339_str : string -> option Z;
  rfc3339_string : Z -> option string;
  decimal_string : list byte -> string;
  json_text : Json -> string;
  new_object_id : nat -> list byte;
  now_millis : nat -> Z;
}.

Section values.
Context {Hx : Hex} {FL : Float64} {SL : ShellLib}.

Definition is_hex_digit (b : byte) : bool :=
  in_range 48 57 b || in_range 65 70 b || in_range 97 102 b.

Definition js_string_to_bson (raw : string) : Bson :=
  let oid :=
    if (length (as_bytes raw) =? 24)%nat && forallb is_hex_digit (as_bytes raw)
    then hex_decode raw else None in
  match oid, parse_rfc3339_str raw with
  | Some oid, _ => ObjectId oid
  | None, Some dt => DateTime dt
  | None, None => BString raw
  end.

Fixpoint jsvalue_to_bson (value : JsValue) : Bson :=
  match value with
  | JsUndefined | JsNull => Null
  | JsBoolean b => Boolean b
  | JsNumber n =>
    match int_of_f64 n with
    | Some i => if Z.abs i <? 2 ^ 63 then Int64 i else Double n
    | None => Double n
    end
  | JsString s => js_string_to_bson s
  | JsArray l => Array (map jsvalue_to_bson l)
  | JsObject own => Document (foldl (fun d kv => insert kv.1 kv.2 d) []
                               (map (fun kv => (kv.1, jsvalue_to_bson kv.2)) own))
  | JsOther text => BString text
  end.

Fixpoint bson_to_js (b : Bson) : JsValue :=
  match b with
  | Double f => JsNumber f
  | BString s => JsString s
  | Boolean b => JsBoolean b
  | Null => JsNull
  | Int32 i => JsNumber (f64_of_int i)
  | Int64 i => JsNumber (f64_of_int i)
  | ObjectId oid => JsString (hex_encode oid)
  | DateTime dt => JsString (default "" (rfc3339_string dt))
  | Array l => JsArray (map bson_to_js l)
  | Document d => JsObject (js_properties (map (fun kv => (kv.1, bson_to_js kv.2)) d))
  | _ => JsNull
  end.

Fixpoint js_to_json (value : JsValue) : Json :=
  match value with
  | JsUndefined | JsNull => JNull
  | JsBoolean b => JBool b
  | JsNumber n => json_f64 n
  | JsString s => JString s
  | JsArray l => JArray (map js_to_json l)
  | JsObject own => JObject (foldl (fun d kv => insert kv.1 kv.2 d) []
                               (map (fun kv => (kv.1, js_to_json kv.2)) own))
  | JsOther text => JString text
  end.

Fixpoint bson_to_json (b : Bson) : Json :=
  match b with
  | Double f => json_f64 f
  | BString s => JString s
  | Boolean b => JBool b
  | Null => JNull
  | Int32 i => JInt i
  | Int64 i => JInt i
  | ObjectId oid => JString (hex_encode oid)
  | DateTime dt => JString (default "" (rfc3339_string dt))
  | Decimal128 d => JString (decimal_string d)
  | Array l => JArray (map bson_to_json l)
  | Document d => JObject (foldl (fun d kv => insert kv.1 kv.2 d) [] (map (fun kv => (kv.1, bson_to_json kv.2)) d))
  | _ => JNull
  end.
End values.

(** ** The server *)

Inductive UpdateModifications := UpdateDocument (d : Doc) | UpdatePipeline (stages : list Doc).
Inductive ReturnDocument := Before | After.

(** [Collation]; its enumerations by the text of their variants *)
Record Collation := {
  cl_locale : string; cl_strength : option Z; cl_case_level : option bool; cl_case_first : option string;
  cl_numeric_ordering : option bool; cl_alternate : option string; cl_max_variable : option string;
  cl_normalization : option bool; cl_backwards : option bool;
}.
(** [IndexOptions] and [FindOptions], the fields the code sets *)
Record IndexOptions := {
  ix_name : option string; ix_unique : option bool; ix_sparse : option bool; ix_hidden : option bool;
  ix_expire_after : option Z; ix_partial_filter : option Doc; ix_collation : option Collation; ix_wildcard : option Doc;
}.
Record FindOptions := {
  fi_limit : Z; fi_skip : option Z; fi_projection : option Doc; fi_sort : option Doc; fi_batch_size : option N;
}.
(** The options of the three [findOneAnd] methods; what one does not take is [None]. *)
Record FindOneOptions := {
  fo_return_document : option ReturnDocument; fo_upsert : bool; fo_sort : option Doc;
  fo_projection : option Doc; fo_array_filters : option (list Doc);
}.

Inductive request :=
| ReqFind (db coll : string) (filter : Doc) (options : FindOptions)
| ReqFindOne (db coll : string) (filter : Doc)
| ReqCount (db coll : string) (filter : Doc)
| ReqEstimatedCount (db coll : string)
| ReqAggregate (db coll : string) (pipeline : list Doc) (batch_size : option N)
| ReqDistinct (db coll field : string) (filter : Doc)
| ReqInsertOne (db coll : string) (doc : Doc)
| ReqInsertMany (db coll : string) (docs : list Doc)
| ReqUpdate (db coll : string) (multi : bool) (filter : Doc) (update : UpdateModifications) (upsert : option bool)
| ReqReplaceOne (db coll : string) (filter replacement : Doc) (upsert : option bool)
| ReqDelete (db coll : string) (multi : bool) (filter : Doc)
| ReqDropCollection (db coll : string)
| ReqCreateIndex (db coll : string) (index_keys : Doc) (options : IndexOptions)
| ReqDropIndex (db coll name : string)
| ReqDropDatabase (db : string)
| ReqFindOneAndUpdate (db coll : string) (filter : Doc) (update : UpdateModifications) (options : FindOneOptions)
| ReqFindOneAndDelete (db coll : string) (filter : Doc) (options : FindOneOptions)
| ReqFindOneAndReplace (db coll : string) (filter replacement : Doc) (options : FindOneOptions)
| ReqCommand (db : string) (cmd : Doc).

Record UpdateResult := { up_matched : N; up_modified : N; up_upserted : option Bson }.

Definition reply (r : request) : Type :=
  match r with
  | ReqFind _ _ _ _ | ReqAggregate _ _ _ _ => list Doc
  | ReqFindOne _ _ _ | ReqFindOneAndUpdate _ _ _ _ _ | ReqFindOneAndDelete _ _ _ _
  | ReqFindOneAndReplace _ _ _ _ _ => option Doc
  | ReqCount _ _ _ | ReqEstimatedCount _ _ => Z
  | ReqDistinct _ _ _ _ | ReqInsertMany _ _ _ => list Bson
  | ReqInsertOne _ _ _ => Bson
  | ReqDelete _ _ _ _ => N
  | ReqUpdate _ _ _ _ _ _ | ReqReplaceOne _ _ _ _ _ => UpdateResult
  | ReqCreateIndex _ _ _ _ => string
  | ReqCommand _ _ => Doc
  | _ => unit
  end.

Class ShellServer := {
  Srv : Type;
  serve : forall r : request, Srv -> result AppError (reply r) * Srv;
}.

(** ** The state *)

Record ShellTable := { tb_columns : list string; tb_rows : list (list Json); tb_execution_ms : N }.
Inductive ShellOutput :=
| OutText (value : string) | OutJson (value : Json) | OutError (value : string) | OutTable (value : ShellTable).

Record ShellOperation := {
  op_kind : Timeline.OperationKind; op_database : string; op_collection : string;
  op_query_json : option string; op_update_json : option string;
  op_matched_count : option N; op_modified_count : option N; op_inserted_count : option N;
  op_deleted_count : option N; op_execution_ms : option N; op_errored : bool; op_error_message : option string;
}.
(** An operation that succeeded, with its two texts and its counts. *)
Definition operation (kind : Timeline.OperationKind) (db coll : string) (query_json update_json : option string)
    (matched modified inserted deleted : option N) : ShellOperation :=
  {| op_kind := kind; op_database := db; op_collection := coll; op_query_json := query_json;
     op_update_json := update_json; op_matched_count := matched; op_modified_count := modified;
     op_inserted_count := inserted; op_deleted_count := deleted; op_execution_ms := None;
     op_errored := false; op_error_message := None |}.

(** The thread-local state, the server, the audit log and its clock, and the number of new
    identifiers and times the script took. *)
Record ShellWorld `{!ShellServer} {F Db : Type} := {
  sh_srv : Srv;
  sh_requests : list (request * bool);
  sh_audit : bool;          (* [SHELL_AUDIT_LOG] is set *)
  sh_deployment_id : string;
  sh_log : World F Db;
  sh_ticks : nat;
  sh_fresh : nat;
  sh_output : list ShellOutput;
  sh_active_db : string;
  sh_last_pipeline : list Json;
  sh_last_collection : option string;
  sh_operations : list ShellOperation;
}.
Arguments ShellWorld {_} F Db.

Section shell.
Context {F : Type} {PF : PrimeField F} {Pos : Poseidon F}.
Context {Sha : Sha256} {Hm : HmacSha256} {Hx : Hex} {B64 : Base64} {Chr : Chrono}.
Context {AJ : AuditJson} {Db : Type} {SD : SledDb Db} {SP : SerdePair}.
Context {FL : Float64} {SL : ShellLib} {BJ : ChangeStream.BsonJson} {display_bson : BsonDisplay} {Sv : ShellServer}.
Context (clock : nat -> Z).
Abbreviation world := (ShellWorld F Db).

(** A host function ends with a value or throws the text of an error. *)
Definition shell (A : Type) : Type := stateR world string A.

Definition set_srv (x : Srv) (rs : list (request * bool)) (w : world) : world :=
  {| sh_srv := x; sh_requests := rs; sh_audit := sh_audit w; sh_deployment_id := sh_deployment_id w;
     sh_log := sh_log w; sh_ticks := sh_ticks w; sh_fresh := sh_fresh w; sh_output := sh_output w; sh_active_db := sh_active_db w;
     sh_last_pipeline := sh_last_pipeline w; sh_last_collection := sh_last_collection w;
     sh_operations := sh_operations w |}.
Definition set_log (x : World F Db) (ticks : nat) (w : world) : world :=
  {| sh_srv := sh_srv w; sh_requests := sh_requests w; sh_audit := sh_audit w;
     sh_deployment_id := sh_deployment_id w; sh_log := x; sh_ticks := ticks; sh_fresh := sh_fresh w; sh_output := sh_output w;
     sh_active_db := sh_active_db w; sh_last_pipeline := sh_last_pipeline w;
     sh_last_collection := sh_last_collection w; sh_operations := sh_operations w |}.
Definition set_view (out : list ShellOutput) (db : string) (pipeline : list Json) (coll : option string)
    (ops : list ShellOperation) (w : world) : world :=
  {| sh_srv := sh_srv w; sh_requests := sh_requests w; sh_audit := sh_audit w;
     sh_deployment_id := sh_deployment_id w; sh_log := sh_log w; sh_ticks := sh_ticks w; sh_fresh := sh_fresh w; sh_output := out;
     sh_active_db := db; sh_last_pipeline := pipeline; sh_last_collection := coll; sh_operations := ops |}.

Definition set_fresh (n : nat) (w : world) : world :=
  {| sh_srv := sh_srv w; sh_requests := sh_requests w; sh_audit := sh_audit w;
     sh_deployment_id := sh_deployment_id w; sh_log := sh_log w; sh_ticks := sh_ticks w; sh_fresh := n;
     sh_output := sh_output w; sh_active_db := sh_active_db w; sh_last_pipeline := sh_last_pipeline w;
     sh_last_collection := sh_last_collection w; sh_operations := sh_operations w |}.
Definition push_output (o : ShellOutput) : shell unit := modify (fun w =>
  set_view (sh_output w ++ [o]) (sh_active_db w) (sh_last_pipeline w) (sh_last_collection w) (sh_operations w) w).
Definition push_operation (op : ShellOperation) : shell unit := modify (fun w =>
  set_view (sh_output w) (sh_active_db w) (sh_last_pipeline w) (sh_last_collection w) (sh_operations w ++ [op]) w).
Definition set_last_collection (coll : string) : shell unit := modify (fun w =>
  set_view (sh_output w) (sh_active_db w) (sh_last_pipeline w) (Some coll) (sh_operations w) w).
Definition set_last_pipeline (pipeline : list Json) : shell unit := modify (fun w =>
  set_view (sh_output w) (sh_active_db w) pipeline (sh_last_collection w) (sh_operations w) w).

(** [runtime_block_on(..).map_err(|e| js_err(e.to_string()))?] *)
Definition call (r : request) : shell (reply r) := fun w =>
  let '(res, s) := serve r (sh_srv w) in
  (match res with Ok x => Ok x | Err e => Err (display e) end,
   set_srv s (sh_requests w ++ [(r, match res with Ok _ => true | Err _ => false end)]) w).

(** [let _ = interceptor::record_..(..)] *)
Definition record_ignored (dep : string) (op : audited_op) (w : world) : world :=
  let '(_, l) := record_op (clock (sh_ticks w)) dep op (sh_log w) in set_log l (S (sh_ticks w)) w.

(** [try_audit], with the operations its closure records. *)
Definition try_audit (ops : list audited_op) : shell unit := modify (fun w =>
  if sh_audit w && negb (ChangeStream.supports_change_streams (sh_deployment_id w))
  then foldl (fun w op => record_ignored (sh_deployment_id w) op w) w ops
  else w).

(** [serde_json::to_string(..)] *)
Abbreviation to_string := ChangeStream.document_json.
Definition doc_arg (args : list Bson) (idx : nat) : option Doc :=
  match args !! idx with Some (Document d) => Some d | _ => None end.
(** [.and_then(Document).unwrap_or_default()] *)
Definition doc_or_empty (args : list Bson) (idx : nat) : Doc := default [] (doc_arg args idx).
Definition or_throw {A} (o : option A) (msg : string) : shell A :=
  match o with Some a => mret a | None => throw msg end.
Definition documents (l : list Bson) : list Doc :=
  omap (fun b => match b with Document d => Some d | _ => None end) l.

Definition get_str (d : Doc) (k : string) : option string := match get d k with Some (BString s) => Some s | _ => None end.
Definition get_bool (d : Doc) (k : string) : option bool := match get d k with Some (Boolean b) => Some b | _ => None end.
Definition get_i64 (d : Doc) (k : string) : option Z := match get d k with Some (Int64 n) => Some n | _ => None end.
Definition get_document (d : Doc) (k : string) : option Doc := match get d k with Some (Document x) => Some x | _ => None end.
Definition get_array (d : Doc) (k : string) : option (list Bson) := match get d k with Some (Array l) => Some l | _ => None end.

(** ** The methods *)

Definition js_docs (docs : list Doc) : JsValue := JsArray (map (fun d => bson_to_js (Document d)) docs).
Definition js_option (d : option Doc) : JsValue :=
  match d with Some d => bson_to_js (Document d) | None => JsNull end.

(** [.limit(n)] and nothing else *)
Definition limited (n : Z) : FindOptions :=
  {| fi_limit := n; fi_skip := None; fi_projection := None; fi_sort := None; fi_batch_size := None |}.

Definition dispatch_find (db coll : string) (args : list Bson) : shell JsValue :=
  docs ← call (ReqFind db coll (doc_or_empty args 0) (limited 50));
  _ ← set_last_collection coll;
  mret (js_docs docs).

Definition dispatch_find_one (db coll : string) (args : list Bson) : shell JsValue :=
  result_ ← call (ReqFindOne db coll (doc_or_empty args 0));
  _ ← set_last_collection coll;
  mret (js_option result_).

Definition dispatch_count (db coll : string) (args : list Bson) : shell JsValue :=
  n ← call (ReqCount db coll (doc_or_empty args 0));
  mret (JsNumber (f64_of_int n)).

Definition dispatch_aggregate (db coll : string) (args : list Bson) : shell JsValue :=
  let pipeline := match default (Array []) (args !! 0%nat) with Array v => documents v | _ => [] end in
  let pipeline := if existsb (fun s => has_key s "$limit") pipeline then pipeline
                  else pipeline ++ [[("$limit", Int64 50)]]%string in
  _ ← set_last_pipeline (map (fun d => bson_to_json (Document d)) pipeline);
  _ ← set_last_collection coll;
  docs ← call (ReqAggregate db coll pipeline None);
  mret (js_docs docs).

Definition dispatch_distinct (db coll : string) (args : list Bson) : shell JsValue :=
  field ← or_throw (match args !! 0%nat with Some (BString s) => Some s | _ => None end)
            "distinct(field, filter?) requires a field name";
  values ← call (ReqDistinct db coll field (doc_or_empty args 1));
  mret (JsArray (map bson_to_js values)).

Definition id_text (b : Bson) : string :=
  match b with ObjectId oid => hex_encode oid | b => bson_to_string b end.

Definition dispatch_insert_one (db coll : string) (args : list Bson) : shell JsValue :=
  doc ← or_throw (doc_arg args 0) "insertOne requires a document";
  id ← call (ReqInsertOne db coll doc);
  _ ← try_audit (option_list (OpInsert db coll <$> to_string doc));
  _ ← match to_string doc with
      | Some json => push_operation (operation Timeline.InsertOne db coll None (Some json) None None (Some 1%N) None)
      | None => mret tt
      end;
  _ ← push_output (OutText ("Inserted 1 document (id: " +:+ id_text id +:+ ")"));
  mret JsUndefined.

(** [serde_json::to_string(&docs)] of a vector of documents *)
Definition array_json (docs : list Doc) : option string := ChangeStream.bson_json (Array (map Document docs)).

Definition dispatch_insert_many (db coll : string) (args : list Bson) : shell JsValue :=
  let docs := match args !! 0%nat with Some (Array v) => documents v | _ => [] end in
  if bool_decide (docs = []) then throw "insertMany requires a non-empty array of documents"%string
  else
    inserted_ids ← call (ReqInsertMany db coll docs);
    let n := N.of_nat (length inserted_ids) in
    _ ← try_audit (omap (fun doc => OpInsert db coll <$> to_string doc) docs);
    _ ← match array_json docs with
        | Some json => push_operation (operation Timeline.InsertMany db coll None (Some json) None None (Some n) None)
        | None => mret tt
        end;
    _ ← push_output (OutText ("Inserted " +:+ pretty n +:+ " document" +:+ (if (n =? 1)%N then "" else "s")));
    mret JsUndefined.

Definition update_op (db coll : string) (fj uj : option string) : list audited_op :=
  match fj, uj with Some fj, Some uj => [OpUpdate db coll fj uj] | _, _ => [] end.
(** The operation is noted when both texts can be made. *)
Definition push_update (kind : Timeline.OperationKind) (db coll : string) (fj uj : option string)
    (matched modified : N) : shell unit :=
  match fj, uj with
  | Some fj, Some uj =>
    push_operation (operation kind db coll (Some fj) (Some uj) (Some matched) (Some modified) None None)
  | _, _ => mret tt
  end.
Definition show_update (res : UpdateResult) : string :=
  "Matched " +:+ pretty (up_matched res) +:+ " · Modified " +:+ pretty (up_modified res) +:+
    match up_upserted res with
    | Some id => " · Upserted id: " +:+ bson_to_string id
    | None => ""
    end.

Definition dispatch_update (multi : bool) (db coll : string) (args : list Bson) : shell JsValue :=
  let filter := doc_or_empty args 0 in
  update ← or_throw (doc_arg args 1)
    ("db." +:+ coll +:+ "." +:+ (if multi then "updateMany" else "updateOne") +:+
     "(filter, update) requires an update document");
  res ← call (ReqUpdate db coll multi filter (UpdateDocument update) None);
  _ ← try_audit (update_op db coll (to_string filter) (to_string update));
  _ ← push_update (if multi then Timeline.UpdateMany else Timeline.UpdateOne) db coll (to_string filter)
        (to_string update) (up_matched res) (up_modified res);
  _ ← push_output (OutText (show_update res));
  mret JsUndefined.

Definition dispatch_replace_one (db coll : string) (args : list Bson) : shell JsValue :=
  let filter := doc_or_empty args 0 in
  replacement ← or_throw (doc_arg args 1) "replaceOne(filter, doc) requires a replacement document";
  res ← call (ReqReplaceOne db coll filter replacement None);
  _ ← try_audit (update_op db coll (to_string filter) (to_string replacement));
  _ ← push_update Timeline.ReplaceOne db coll (to_string filter) (to_string replacement)
        (up_matched res) (up_modified res);
  _ ← push_output (OutText (show_update res));
  mret JsUndefined.

Definition delete_op (db coll : string) (fj : option string) : list audited_op :=
  option_list (OpDelete db coll <$> fj).
Definition push_delete (kind : Timeline.OperationKind) (db coll : string) (fj : option string) (deleted : N) : shell unit :=
  match fj with
  | Some fj => push_operation (operation kind db coll (Some fj) None None None None (Some deleted))
  | None => mret tt
  end.

Definition dispatch_delete (multi : bool) (db coll : string) (args : list Bson) : shell JsValue :=
  let filter := doc_or_empty args 0 in
  n ← call (ReqDelete db coll multi filter);
  _ ← try_audit (delete_op db coll (to_string filter));
  _ ← push_delete (if multi then Timeline.DeleteMany else Timeline.DeleteOne) db coll (to_string filter) n;
  _ ← push_output (OutText ("Deleted " +:+ pretty n +:+ " document" +:+ (if (n =? 1)%N then "" else "s")));
  mret JsUndefined.

(** An operation on a collection itself. *)
Definition push_plain (kind : Timeline.OperationKind) (db coll : string) (query update : option string) : shell unit :=
  push_operation (operation kind db coll query update None None None None).

Definition dispatch_drop (db coll : string) : shell JsValue :=
  _ ← call (ReqDropCollection db coll);
  _ ← try_audit [OpDropCollection db coll];
  _ ← push_plain Timeline.CollectionDrop db coll None None;
  _ ← push_output (OutText ("Dropped collection " +:+ db +:+ "." +:+ coll));
  mret JsUndefined.

(** [v as u64] *)
Definition as_u64_wrap (v : Z) : Z := v mod 2 ^ 64.
Definition index_options (opts : option Doc) : IndexOptions :=
  match opts with
  | Some opts =>
    {| ix_name := get_str opts "name"; ix_unique := get_bool opts "unique"; ix_sparse := get_bool opts "sparse";
       ix_hidden := get_bool opts "hidden"; ix_expire_after := as_u64_wrap <$> get_i64 opts "expireAfterSeconds";
       ix_partial_filter := None; ix_collation := None; ix_wildcard := None |}
  | None => {| ix_name := None; ix_unique := None; ix_sparse := None; ix_hidden := None; ix_expire_after := None;
               ix_partial_filter := None; ix_collation := None; ix_wildcard := None |}
  end.

Definition dispatch_create_index (db coll : string) (args : list Bson) : shell JsValue :=
  let keys_doc := match args !! 0%nat with
                  | Some (Document d) => d
                  | Some (BString s) => [(s, BString "text")]
                  | _ => []
                  end in
  let opts_for_audit := default Null (args !! 1%nat) in
  index_name ← call (ReqCreateIndex db coll keys_doc (index_options (doc_arg args 1)));
  _ ← try_audit (match to_string keys_doc, ChangeStream.bson_json opts_for_audit with
                 | Some kj, Some oj => [OpCreateIndex db coll kj oj]
                 | _, _ => []
                 end);
  _ ← match to_string keys_doc, ChangeStream.bson_json opts_for_audit with
      | Some kj, Some _ => push_plain Timeline.IndexCreate db coll None (Some kj)
      | _, _ => mret tt
      end;
  _ ← push_output (OutText ("Created index '" +:+ index_name +:+ "'"));
  mret JsUndefined.

Definition dispatch_drop_index (db coll : string) (args : list Bson) : shell JsValue :=
  name ← or_throw (match args !! 0%nat with Some (BString s) => Some s | _ => None end)
           "dropIndex(name) requires the index name as a string";
  _ ← call (ReqDropIndex db coll name);
  _ ← try_audit [OpDropIndex db coll name];
  _ ← push_plain Timeline.IndexDrop db coll (Some name) None;
  _ ← push_output (OutText ("Dropped index '" +:+ name +:+ "'"));
  mret JsUndefined.

Definition dispatch_rename (db coll : string) (args : list Bson) : shell JsValue :=
  new_name ← or_throw (match args !! 0%nat with Some (BString s) => Some s | _ => None end)
               "rename(newName) requires the new collection name as a string";
  _ ← call (ReqCommand "admin" [("renameCollection", BString (db +:+ "." +:+ coll));
                                ("to", BString (db +:+ "." +:+ new_name))]%string);
  _ ← try_audit [OpRename db coll new_name];
  _ ← push_plain Timeline.CollectionRename db coll (Some new_name) None;
  _ ← push_output (OutText ("Renamed " +:+ db +:+ "." +:+ coll +:+ " → " +:+ db +:+ "." +:+ new_name));
  mret JsUndefined.

Definition dispatch_drop_database (db : string) : shell JsValue :=
  _ ← call (ReqDropDatabase db);
  _ ← try_audit [OpDropDatabase db];
  _ ← push_output (OutText ("Dropped database " +:+ db));
  mret JsUndefined.

(** [bson_to_update_mods], without the printed value of its error *)
Definition bson_to_update_mods (value : Bson) : option UpdateModifications :=
  match value with
  | Document d => Some (UpdateDocument d)
  | Array arr => Some (UpdatePipeline (documents arr))
  | _ => None
  end.
Definition not_an_update : string := "expected update document or pipeline array".

Definition extract_return_document (opts : Doc) : option ReturnDocument :=
  match get_bool opts "returnNewDocument" with
  | Some true => Some After
  | _ =>
    match get_str opts "returnDocument" with
    | Some s => if bool_decide (s = "after" \/ s = "After")%string then Some After
                else if bool_decide (s = "before" \/ s = "Before")%string then Some Before
                else None
    | None => None
    end
  end.

Definition find_one_options (return_document upsert filters : bool) (opts : option Doc) : FindOneOptions :=
  match opts with
  | Some o =>
    {| fo_return_document := if return_document then extract_return_document o else None;
       fo_upsert := upsert && match get_bool o "upsert" with Some true => true | _ => false end;
       fo_sort := get_document o "sort"; fo_projection := get_document o "projection";
       fo_array_filters := if filters then documents <$> get_array o "arrayFilters" else None |}
  | None => {| fo_return_document := None; fo_upsert := false; fo_sort := None; fo_projection := None;
               fo_array_filters := None |}
  end.

Definition one_if_some {A} (o : option A) : N := match o with Some _ => 1 | None => 0 end.

Definition dispatch_find_one_and_update (db coll : string) (args : list Bson) : shell JsValue :=
  let filter := doc_or_empty args 0 in
  update ← or_throw (args !! 1%nat)
    "findOneAndUpdate(filter, update, options?) requires an update document";
  update_mods ← or_throw (bson_to_update_mods update) not_an_update;
  result_ ← call (ReqFindOneAndUpdate db coll filter update_mods (find_one_options true true true (doc_arg args 2)));
  _ ← try_audit (update_op db coll (to_string filter) (ChangeStream.bson_json update));
  _ ← push_update Timeline.UpdateOne db coll (to_string filter) (ChangeStream.bson_json update)
        (one_if_some result_) (one_if_some result_);
  _ ← set_last_collection coll;
  _ ← push_output (OutText ("findOneAndUpdate: " +:+ match result_ with Some _ => "matched 1" | None => "matched 0" end));
  mret (js_option result_).

Definition dispatch_find_one_and_delete (db coll : string) (args : list Bson) : shell JsValue :=
  let filter := doc_or_empty args 0 in
  result_ ← call (ReqFindOneAndDelete db coll filter (find_one_options false false false (doc_arg args 1)));
  _ ← try_audit (delete_op db coll (to_string filter));
  _ ← push_delete Timeline.DeleteOne db coll (to_string filter) (one_if_some result_);
  _ ← set_last_collection coll;
  _ ← push_output (OutText ("findOneAndDelete: " +:+ match result_ with Some _ => "deleted 1" | None => "matched 0" end));
  mret (js_option result_).

Definition dispatch_find_one_and_replace (db coll : string) (args : list Bson) : shell JsValue :=
  let filter := doc_or_empty args 0 in
  replacement ← or_throw (doc_arg args 1)
    "findOneAndReplace(filter, replacement, options?) requires a replacement document";
  result_ ← call (ReqFindOneAndReplace db coll filter replacement
                    (find_one_options true true false (doc_arg args 2)));
  _ ← try_audit (update_op db coll (to_string filter) (to_string replacement));
  _ ← push_update Timeline.ReplaceOne db coll (to_string filter) (to_string replacement)
        (one_if_some result_) (one_if_some result_);
  _ ← set_last_collection coll;
  _ ← push_output (OutText ("findOneAndReplace: " +:+ match result_ with Some _ => "matched 1" | None => "matched 0" end));
  mret (js_option result_).

(** *** Bulk writes *)

Record BulkCounts := { bk_inserted : N; bk_matched : N; bk_modified : N; bk_deleted : N; bk_upserted : N }.
Definition bulk_inserted (c : BulkCounts) : BulkCounts :=
  {| bk_inserted := bk_inserted c + 1; bk_matched := bk_matched c; bk_modified := bk_modified c;
     bk_deleted := bk_deleted c; bk_upserted := bk_upserted c |}%N.
Definition bulk_updated (res : UpdateResult) (c : BulkCounts) : BulkCounts :=
  {| bk_inserted := bk_inserted c; bk_matched := bk_matched c + up_matched res;
     bk_modified := bk_modified c + up_modified res; bk_deleted := bk_deleted c;
     bk_upserted := bk_upserted c + one_if_some (up_upserted res) |}%N.
Definition bulk_deleted (n : N) (c : BulkCounts) : BulkCounts :=
  {| bk_inserted := bk_inserted c; bk_matched := bk_matched c; bk_modified := bk_modified c;
     bk_deleted := bk_deleted c + n; bk_upserted := bk_upserted c |}%N.

Definition bulk_insert_one (db coll : string) (payload : Doc) (c : BulkCounts) : shell BulkCounts :=
  doc ← or_throw (get_document payload "document") "bulkWrite insertOne";
  _ ← call (ReqInsertOne db coll doc);
  _ ← try_audit (option_list (OpInsert db coll <$> to_string doc));
  mret (bulk_inserted c).
Definition bulk_update (multi : bool) (db coll : string) (payload : Doc) (c : BulkCounts) : shell BulkCounts :=
  let filter := default [] (get_document payload "filter") in
  update ← or_throw (get payload "update") "bulkWrite update: missing update";
  update_mods ← or_throw (bson_to_update_mods update) not_an_update;
  let upsert := default false (get_bool payload "upsert") in
  res ← call (ReqUpdate db coll multi filter update_mods (Some upsert));
  _ ← try_audit (update_op db coll (to_string filter) (ChangeStream.bson_json update));
  mret (bulk_updated res c).
Definition bulk_replace_one (db coll : string) (payload : Doc) (c : BulkCounts) : shell BulkCounts :=
  let filter := default [] (get_document payload "filter") in
  replacement ← or_throw (get_document payload "replacement") "bulkWrite replaceOne";
  let upsert := default false (get_bool payload "upsert") in
  res ← call (ReqReplaceOne db coll filter replacement (Some upsert));
  _ ← try_audit (update_op db coll (to_string filter) (to_string replacement));
  mret (bulk_updated res c).
Definition bulk_delete (multi : bool) (db coll : string) (payload : Doc) (c : BulkCounts) : shell BulkCounts :=
  let filter := default [] (get_document payload "filter") in
  n ← call (ReqDelete db coll multi filter);
  _ ← try_audit (delete_op db coll (to_string filter));
  mret (bulk_deleted n c).

Definition bulk_op (db coll kind : string) (payload : Doc) (c : BulkCounts) : shell BulkCounts :=
  if bool_decide (kind = "insertOne"%string) then bulk_insert_one db coll payload c
  else if bool_decide (kind = "updateOne"%string) then bulk_update false db coll payload c
  else if bool_decide (kind = "updateMany"%string) then bulk_update true db coll payload c
  else if bool_decide (kind = "replaceOne"%string) then bulk_replace_one db coll payload c
  else if bool_decide (kind = "deleteOne"%string) then bulk_delete false db coll payload c
  else if bool_decide (kind = "deleteMany"%string) then bulk_delete true db coll payload c
  else throw ("bulkWrite: unsupported operation '" +:+ kind +:+ "'")%string.

(** The first key of an operation names it; what is not a document is skipped. *)
Fixpoint bulk_ops (db coll : string) (ops : list Bson) (c : BulkCounts) : shell BulkCounts :=
  match ops with
  | [] => mret c
  | Document ((kind, payload) :: _) :: ops =>
    match payload with
    | Document payload => c ← bulk_op db coll kind payload c; bulk_ops db coll ops c
    | _ => throw ("bulkWrite: " +:+ kind +:+ " payload must be a document")%string
    end
  | _ :: ops => bulk_ops db coll ops c
  end.

Definition dispatch_bulk_write (db coll : string) (args : list Bson) : shell JsValue :=
  ops ← or_throw (match args !! 0%nat with Some (Array v) => Some v | _ => None end)
          "bulkWrite requires an array of operation documents";
  c ← bulk_ops db coll ops {| bk_inserted := 0; bk_matched := 0; bk_modified := 0; bk_deleted := 0; bk_upserted := 0 |}%N;
  _ ← push_output (OutText ("bulkWrite: inserted " +:+ pretty (bk_inserted c) +:+ " · matched " +:+ pretty (bk_matched c) +:+
        " · modified " +:+ pretty (bk_modified c) +:+ " · deleted " +:+ pretty (bk_deleted c) +:+
        " · upserted " +:+ pretty (bk_upserted c)));
  mret JsUndefined.

(** *** The table of the methods *)

Definition COLL_HELP_TEXT : string := "db.<coll> methods".

Definition dispatch_sync (db coll method : string) (args : list Bson) : shell JsValue :=
  let named s := bool_decide (method = s) in
  if named "find" then dispatch_find db coll args
  else if named "findOne" then dispatch_find_one db coll args
  else if named "countDocuments" || named "count" then dispatch_count db coll args
  else if named "aggregate" then dispatch_aggregate db coll args
  else if named "distinct" then dispatch_distinct db coll args
  else if named "insertOne" then dispatch_insert_one db coll args
  else if named "insertMany" then dispatch_insert_many db coll args
  else if named "updateOne" || named "updateMany" then dispatch_update (named "updateMany") db coll args
  else if named "replaceOne" then dispatch_replace_one db coll args
  else if named "deleteOne" || named "deleteMany" then dispatch_delete (named "deleteMany") db coll args
  else if named "drop" then dispatch_drop db coll
  else if named "createIndex" then dispatch_create_index db coll args
  else if named "dropIndex" then dispatch_drop_index db coll args
  else if named "rename" || named "renameCollection" then dispatch_rename db coll args
  else if named "dropDatabase" then dispatch_drop_database db
  else if named "findOneAndUpdate" then dispatch_find_one_and_update db coll args
  else if named "findOneAndDelete" then dispatch_find_one_and_delete db coll args
  else if named "findOneAndReplace" then dispatch_find_one_and_replace db coll args
  else if named "bulkWrite" then dispatch_bulk_write db coll args
  else if named "help" then _ ← push_output (OutText COLL_HELP_TEXT); mret JsUndefined
  else throw ("db." +:+ coll +:+ "." +:+ method +:+ ": not implemented").
End shell.
