(* ===== verification/ShellHost.v ===== *)
(** * The shell thread and its commands (src-tauri/src/mongo/shell.rs, commands/shell.rs and
    commands/rollback.rs)

    The host functions, the engine as a program that is suspended at each of their calls,
    one message of the shell thread and the command [eval_shell], which notes the changes of
    the script in the timeline; and the command that runs the rollback script of an entry.  A host function that fails gives the message of a type
    error to the script, which may catch it. *)

From stdpp Require Import pretty.
From S2P Require Import Prelude.
From S2P Require Import Bytes.
From S2P Require Import Text.
From S2P Require Import Interfaces.
From S2P Require Import CanonicalPayload.
From S2P Require Import SledStore.
From S2P Require Import PoseidonTree.
From S2P Require Import AuditLog.
From S2P Require Import Interceptor.
From S2P Require ChangeStream.
From S2P Require Timeline.
From S2P Require Import Fields.
From S2P Require Import Json.
From S2P Require Import OplogCanon.
From S2P Require Import AppError.
From S2P Require Import BsonJson.
From S2P Require ShellSource.
From S2P Require Import Shell.
Local Open Scope Z_scope.

Section host.
Context {F : Type} {PF : PrimeField F} {Pos : Poseidon F}.
Context {Sha : Sha256} {Hm : HmacSha256} {Hx : Hex} {B64 : Base64} {Chr : Chrono}.
Context {AJ : AuditJson} {Db : Type} {SD : SledDb Db} {SP : SerdePair}.
Context {FL : Float64} {SL : ShellLib} {BJ : ChangeStream.BsonJson} {display_bson : BsonDisplay} {Sv : ShellServer}.
Context (clock : nat -> Z).
Abbreviation world := (ShellWorld F Db).
Abbreviation shell := (Shell.shell (F := F) (Db := Db)).

(** ** The host functions *)

(** [__call_db] and [__run_command] are the targets of the rewriting; [db.help] and
    [db.runCommand] are the functions of the object [db]. *)
Inductive host_call :=
| HostPrint (args : list JsValue)
| HostPrintjson (args : list JsValue)
| HostObjectId (args : list JsValue)
| HostISODate (args : list JsValue)
| HostCallDb (args : list JsValue)
| HostRunCommand (args : list JsValue)
| HostHelp
| HostDbHelp.

Definition get_or_undefined (args : list JsValue) (n : nat) : JsValue := default JsUndefined (args !! n).

Definition host_print (args : list JsValue) : shell JsValue :=
  _ ← push_output (OutText (join " " (map js_text args) +:+ of_bytes [NL]));
  mret JsUndefined.

Definition host_printjson (args : list JsValue) : shell JsValue :=
  _ ← for_each (fun a => push_output (OutJson (js_to_json a))) args;
  mret JsUndefined.

(** The number of this reading. *)
Definition fresh : shell nat := fun w => (Ok (sh_fresh w), set_fresh (S (sh_fresh w)) w).

Definition asks_new (s : string) : bool := bool_decide (s = "" \/ s = "undefined")%string.

(** [ObjectId::parse_str], without the texts of its errors *)
Definition parse_object_id (s : string) : option (list byte) :=
  oid ← hex_decode s; if (length oid =? 12)%nat then Some oid else None.

Definition host_object_id (args : list JsValue) : shell JsValue :=
  let s := js_text (get_or_undefined args 0) in
  oid ← (if asks_new s then n ← fresh; mret (new_object_id n)
         else or_throw (parse_object_id s) "invalid ObjectId");
  mret (JsString (hex_encode oid)).

Definition host_iso_date (args : list JsValue) : shell JsValue :=
  let s := js_text (get_or_undefined args 0) in
  dt ← (if asks_new s then n ← fresh; mret (now_millis n)
        else or_throw (parse_rfc3339_str s) "invalid date");
  mret (JsString (default "" (rfc3339_string dt))).

(** An error of the method is thrown again, as the message of another type error. *)
Definition rethrown {A} (m : shell A) : shell A := fun w => let '(r, w) := m w in (map_err type_error r, w).

Definition host_call_db (args : list JsValue) : shell JsValue :=
  match args with
  | collection :: method :: method_args =>
    active_db ← gets sh_active_db;
    rethrown (dispatch_sync clock active_db (js_text collection) (js_text method) (map jsvalue_to_bson method_args))
  | _ => throw "__call_db: missing collection or method"%string
  end.

Definition host_run_command (args : list JsValue) : shell JsValue :=
  let cmd_doc := match jsvalue_to_bson (get_or_undefined args 0) with
                 | Document d => d
                 | Null => []
                 | other => [("value", other)]%string
                 end in
  active_db ← gets sh_active_db;
  doc ← call (ReqCommand active_db cmd_doc);
  mret (bson_to_js (Document doc)).

Definition HELP_TEXT : string := "
NoSQLBuddy Shell — quick reference
  use <db>                       Switch database
  show dbs                      List databases (via runCommand)
  show collections               List collections
  db.help()                     List database methods
  db.<coll>.help()              List collection methods
  print(...)                    Print values (joins with spaces)
  printjson(...)                Print values as JSON
  ObjectId('...') / ISODate('...')   BSON constructors
".
Definition DB_HELP_TEXT : string := "
db methods:
  db.runCommand(cmd)            Run an admin / database command
  db.help()                     This help
  db.<coll>.<method>(...)       Collection methods
".

Definition host (h : host_call) : shell JsValue :=
  match h with
  | HostPrint args => host_print args
  | HostPrintjson args => host_printjson args
  | HostObjectId args => host_object_id args
  | HostISODate args => host_iso_date args
  | HostCallDb args => host_call_db args
  | HostRunCommand args => host_run_command args
  | HostHelp => _ ← push_output (OutText HELP_TEXT); mret JsUndefined
  | HostDbHelp => _ ← push_output (OutText DB_HELP_TEXT); mret JsUndefined
  end.

(** ** The engine *)

(** A context that is suspended at a call of a host function, or between two steps of the
    script. *)
Inductive turn (C : Type) :=
| Finished (r : result string JsValue) (context : C)
| Calls (h : host_call) (context : C)
| Runs (context : C).
Global Arguments Finished {C} r context.
Global Arguments Calls {C} h context.
Global Arguments Runs {C} context.

Class JsEngine := {
  Context_ : Type;
  context_default : Context_;
  js_eval : string -> Context_ -> turn Context_;
  js_continue : Context_ -> turn Context_;
  js_return : Context_ -> result string JsValue -> turn Context_;
}.
Context {En : JsEngine}.

(** [context.eval]: [fuel] bounds the turns that are followed; [None] is a script that
    still runs. *)
Fixpoint run_turns (fuel : nat) (t : turn Context_) (w : world) : option (result string JsValue * Context_) * world :=
  match t, fuel with
  | Finished r c, _ => (Some (r, c), w)
  | _, O => (None, w)
  | Calls h c, S fuel => let '(r, w) := host h w in run_turns fuel (js_return c r) w
  | Runs c, S fuel => run_turns fuel (js_continue c) w
  end.

(** ** One message of the shell thread *)

Record ShellResponse := {
  rs_outputs : list ShellOutput;
  rs_last_pipeline : option (list Json);
  rs_last_collection : option string;
  rs_last_database : option string;
  rs_active_database : string;
  rs_execution_ms : N;
  rs_operations : list ShellOperation;
}.

(** The value of the script: undefined and null show nothing, an array of objects is a
    table with the columns of its first. *)
Definition show_value (execution_ms : N) (value : JsValue) : list ShellOutput :=
  match value with
  | JsUndefined | JsNull => []
  | _ =>
    match js_to_json value with
    | JArray items =>
      match mapM as_object items with
      | Some objects =>
        let columns := match objects with first :: _ => keys first | [] => [] end in
        [OutTable {| tb_columns := columns;
                     tb_rows := map (fun obj => map (fun c => default JNull (get obj c)) columns) objects;
                     tb_execution_ms := execution_ms |}]
      | None => [OutJson (JArray items)]
      end
    | json => [OutJson json]
    end
  end.

Definition wrap (body : string) : string :=
  let nl := of_bytes [NL] in
  "(function() {" +:+ nl +:+ "try {" +:+ nl +:+ body +:+ nl +:+ "} catch (e) {" +:+ nl +:+ "throw e;" +:+ nl +:+ "}" +:+ nl +:+ "})()".

Context {Uc : ShellSource.Unicode}.

(** What a shell thread keeps between messages: its context, and whether [SHELL_AUDIT_LOG] was
    ever set, which is not taken back. *)
Record ShellThread := { th_context : Context_; th_audit : bool }.
Definition new_thread : ShellThread := {| th_context := context_default; th_audit := false |}.

(** The state a message starts with. *)
Definition attach (deployment_id active_db : string) (audit : bool) (w : world) : world :=
  let w := set_view [] active_db [] None [] w in
  {| sh_srv := sh_srv w; sh_requests := sh_requests w; sh_audit := audit;
     sh_deployment_id := deployment_id; sh_log := sh_log w; sh_ticks := sh_ticks w; sh_fresh := sh_fresh w;
     sh_output := sh_output w; sh_active_db := sh_active_db w; sh_last_pipeline := sh_last_pipeline w;
     sh_last_collection := sh_last_collection w; sh_operations := sh_operations w |}.

(** [elapsed] is the time on the clock of the thread when the script ended. *)
Definition eval (fuel : nat) (elapsed : N) (deployment_id script active_db : string) (audit_log : bool)
    (thread : ShellThread) (w : world) : option (ShellResponse * ShellThread) * world :=
  let '(db_override, body) := ShellSource.preprocess_use script in
  let audit := audit_log || th_audit thread in
  let w := attach deployment_id (default active_db db_override) audit w in
  match run_turns fuel (js_eval (wrap (ShellSource.transform_source body)) (th_context thread)) w with
  | (None, w) => (None, w)
  | (Some (r, context), w) =>
    let outputs := sh_output w ++ match r with Ok value => show_value elapsed value | Err e => [OutError e] end in
    let response :=
      {| rs_outputs := outputs;
         rs_last_pipeline := match sh_last_pipeline w with [] => None | p => Some p end;
         rs_last_collection := sh_last_collection w;
         rs_last_database := Some (sh_active_db w);
         rs_active_database := sh_active_db w;
         rs_execution_ms := elapsed;
         rs_operations := sh_operations w |} in
    (Some (response, {| th_context := context; th_audit := audit |}), set_view [] (sh_active_db w) (sh_last_pipeline w) (sh_last_collection w) [] w)
  end.

(** ** The command [eval_shell] *)

Record ShellRequestDto := {
  rq_connection_id : string; rq_script : string; rq_active_database : option string; rq_fallback_database : option string;
}.

Context {EJ : Timeline.EntryJson}.

(** One operation of the response, noted in the timeline. *)
Definition record_operation (profile_id connection_id : string) (t : Timeline.Stamp) (op : ShellOperation) :
    Timeline.TimelineStore -> Timeline.TimelineStore :=
  let ctx := Timeline.new_context profile_id connection_id (op_database op) (op_collection op) in
  let query := default "" (op_query_json op) in
  let update := default "" (op_update_json op) in
  let ms := default 0%N (op_execution_ms op) in
  let errored := op_errored op in
  let message := op_error_message op in
  match op_kind op with
  | Timeline.InsertOne => Timeline.record_insert t ctx (op_kind op) update (default 1%N (op_inserted_count op)) ms errored message
  | Timeline.InsertMany => Timeline.record_insert_many t ctx update (default 0%N (op_inserted_count op)) ms errored message
  | Timeline.UpdateOne | Timeline.UpdateMany | Timeline.ReplaceOne =>
    Timeline.record_update t ctx (op_kind op) query update (default 0%N (op_matched_count op))
      (default 0%N (op_modified_count op)) ms errored message Timeline.default_metadata
  | Timeline.DeleteOne | Timeline.DeleteMany =>
    Timeline.record_delete t ctx (op_kind op) query (default 0%N (op_deleted_count op)) ms errored message Timeline.default_metadata
  | Timeline.IndexCreate => Timeline.record_index_create t ctx update ms errored message
  | Timeline.IndexDrop => Timeline.record_index_drop t ctx query ms errored message
  | Timeline.CollectionCreate => Timeline.record_collection_create t ctx ms errored message
  | Timeline.CollectionDrop => Timeline.record_collection_drop t ctx ms errored message
  | Timeline.CollectionRename => Timeline.record_collection_rename t ctx query ms errored message
  | _ => id
  end.

Record ClientEntry := { en_profile_id : string; en_deployment_id : string }.

(** The clients, the shells, the timeline and the rest of the state. *)
Record AppState := {
  st_clients : gmap string ClientEntry;
  st_shells : gmap string ShellThread;
  st_timeline : Timeline.TimelineStore;
  st_world : world;
}.

(** [stamps] gives the entry of each operation its identifier and times. *)
Definition record_operations (profile_id connection_id : string) (stamps : nat -> Timeline.Stamp)
    (ops : list ShellOperation) (s : Timeline.TimelineStore) : Timeline.TimelineStore :=
  foldl (fun s p => record_operation profile_id connection_id (stamps p.1) p.2 s) s (imap pair ops).

Definition eval_shell (fuel : nat) (elapsed : N) (stamps : nat -> Timeline.Stamp) (request : ShellRequestDto)
    (s : AppState) : option (result AppError ShellResponse) * AppState :=
  match st_clients s !! rq_connection_id request with
  | None => (Some (Err (ConnectionNotFound (rq_connection_id request))), s)
  | Some entry =>
    let initial_db := match rq_active_database request with
                      | Some db => db
                      | None => default "admin"%string (rq_fallback_database request)
                      end in
    let thread := default new_thread (st_shells s !! rq_connection_id request) in
    match eval fuel elapsed (en_deployment_id entry) (rq_script request) (default initial_db (rq_active_database request))
            true thread (st_world s) with
    | (None, w) =>
      (None, {| st_clients := st_clients s; st_shells := st_shells s; st_timeline := st_timeline s; st_world := w |})
    | (Some (response, thread), w) =>
      (Some (Ok {| rs_outputs := rs_outputs response; rs_last_pipeline := rs_last_pipeline response;
                   rs_last_collection := rs_last_collection response; rs_last_database := rs_last_database response;
                   rs_active_database := rs_active_database response; rs_execution_ms := rs_execution_ms response;
                   rs_operations := [] |}),
       {| st_clients := st_clients s; st_shells := <[rq_connection_id request := thread]> (st_shells s);
          st_timeline := record_operations (en_profile_id entry) (rq_connection_id request) stamps
                           (rs_operations response) (st_timeline s);
          st_world := w |})
    end
  end.

(** ** The command [execute_rollback] (src-tauri/src/commands/rollback.rs)

    The rollback script of an entry of the timeline is run through the shell, without the
    audit log. *)

Record ExecuteRollbackRequest := { xr_timeline_entry_id : string; xr_connection_id : string }.
Record ExecuteRollbackResult := {
  xs_script : string; xs_output : string; xs_errored : bool; xs_error_message : option string;
}.

Definition output_line (o : ShellOutput) : string :=
  match o with
  | OutText value | OutError value => value
  | OutJson value => json_text value
  | OutTable value => join (of_bytes [x09]) (tb_columns value)
  end.
Definition is_error (o : ShellOutput) : bool := match o with OutError _ => true | _ => false end.

Definition rollback_result (script : string) (outputs : list ShellOutput) : ExecuteRollbackResult :=
  let output := join (of_bytes [NL]) (map output_line outputs) in
  let errored := existsb is_error outputs in
  {| xs_script := script; xs_output := output; xs_errored := errored;
     xs_error_message := if errored then last (lines output) else None |}.

Definition execute_rollback (fuel : nat) (elapsed : N) (request : ExecuteRollbackRequest) (s : AppState) :
    option (result AppError ExecuteRollbackResult) * AppState :=
  match Timeline.get (xr_timeline_entry_id request) (st_timeline s) with
  | None => (Some (Err (NotFound ("timeline entry '" +:+ xr_timeline_entry_id request +:+ "' not found"))), s)
  | Some entry =>
    match Timeline.rollback_script entry with
    | None => (Some (Err (Validation ("this timeline entry has no rollback script; the operation was " +:+
                 "either a read, had rollback_level=none, or pre-image capture " +:+ "was not available"))), s)
    | Some script =>
      match st_clients s !! xr_connection_id request with
      | None => (Some (Err (ConnectionNotFound (xr_connection_id request))), s)
      | Some client_entry =>
        let thread := default new_thread (st_shells s !! xr_connection_id request) in
        match eval fuel elapsed (en_deployment_id client_entry) script (Timeline.database entry) false thread (st_world s) with
        | (None, w) =>
          (None, {| st_clients := st_clients s; st_shells := st_shells s; st_timeline := st_timeline s; st_world := w |})
        | (Some (shell_response, thread), w) =>
          (Some (Ok (rollback_result script (rs_outputs shell_response))),
           {| st_clients := st_clients s; st_shells := <[xr_connection_id request := thread]> (st_shells s);
              st_timeline := st_timeline s; st_world := w |})
        end
      end
    end
  end.
End host.
