(* ===== verification/ShellSpec.v ===== *)
(** * The shell: what it leaves in the audit log and in the timeline

    [method_plan] lists, for a method and its arguments, the requests in order, each with the
    operations it is to leave in the audit log and in the timeline.  [follows] is the
    contract of a part of the shell with a plan: whatever the server answers, the log holds
    exactly the operations of the requests it accepted, in order. *)

From S2P Require Import Prelude.
From S2P Require Import Bytes.
From S2P Require Import Text.
From S2P Require Import Interfaces.
From S2P Require Import CanonicalPayload.
From S2P Require Import SledStore.
From S2P Require Import PoseidonTree.
From S2P Require Import AuditLog.
From S2P Require Import Interceptor.
From S2P Require Import AuditSession.
From S2P Require AuditExample.
From S2P Require ChangeStream.
From S2P Require ChangeStreamSpec.
From S2P Require Timeline.
From S2P Require TimelineSpec.
From S2P Require Import Fields.
From S2P Require Import Json.
From S2P Require Import OplogCanon.
From S2P Require Import AppError.
From S2P Require Import BsonJson.
From S2P Require Import DesktopExample.
From S2P Require ShellSource.
From S2P Require Import Shell.
From S2P Require Import ShellHost.

Section spec.
Context {F : Type} {PF : PrimeField F} {Pos : Poseidon F}.
Context {Sha : Sha256} {Hm : HmacSha256} {Hx : Hex} {B64 : Base64} {Chr : Chrono}.
Context {AJ : AuditJson} {Db : Type} {SD : SledDb Db} {SP : SerdePair}.
Context {FL : Float64} {SL : ShellLib} {BJ : ChangeStream.BsonJson} {display_bson : BsonDisplay} {Sv : ShellServer}.
Context (clock : nat -> Z).
Abbreviation world := (ShellWorld F Db).
Abbreviation shell := (Shell.shell (F := F) (Db := Db)).
Implicit Types (w : world).

(** ** Plans *)

(** An entry of the timeline: kind, database and collection. *)
Definition note : Type := Timeline.OperationKind * string * string.
Definition note_of (op : ShellOperation) : note := (op_kind op, op_database op, op_collection op).

(** One request: what it leaves in the log and in the timeline. *)
Definition step : Type := list audited_op * list note.

Abbreviation to_string := ChangeStream.document_json.
Abbreviation value_to_string := ChangeStream.bson_json.

Definition plan_insert_one (db coll : string) (d : Doc) (noted : bool) : step :=
  match to_string d with
  | Some json => ([OpInsert db coll json], if noted then [(Timeline.InsertOne, db, coll)] else [])
  | None => ([], [])
  end.
Definition plan_update (kind : option Timeline.OperationKind) (db coll : string) (filter : Doc) (update : option string) : step :=
  match to_string filter, update with
  | Some fj, Some uj => ([OpUpdate db coll fj uj], match kind with Some k => [(k, db, coll)] | None => [] end)
  | _, _ => ([], [])
  end.
Definition plan_delete (kind : option Timeline.OperationKind) (db coll : string) (filter : Doc) : step :=
  match to_string filter with
  | Some fj => ([OpDelete db coll fj], match kind with Some k => [(k, db, coll)] | None => [] end)
  | None => ([], [])
  end.
Definition plan_create_index (db coll : string) (index_keys : Doc) (options : Bson) : step :=
  match to_string index_keys, value_to_string options with
  | Some kj, Some oj => ([OpCreateIndex db coll kj oj], [(Timeline.IndexCreate, db, coll)])
  | _, _ => ([], [])
  end.
(** A request that changes nothing the shell keeps a record of. *)
Definition plan_read : list step := [([], [])].

(** Bulk writes leave nothing in the timeline; an operation that is not well formed ends
    the plan. *)
Definition plan_bulk_op (db coll kind : string) (payload : Doc) : option step :=
  let filter := default [] (get_document payload "filter") in
  if bool_decide (kind = "insertOne"%string) then
    doc ← get_document payload "document"; Some (plan_insert_one db coll doc false)
  else if bool_decide (kind = "updateOne"%string) || bool_decide (kind = "updateMany"%string) then
    update ← get payload "update"; _ ← bson_to_update_mods update;
    Some (plan_update None db coll filter (value_to_string update))
  else if bool_decide (kind = "replaceOne"%string) then
    replacement ← get_document payload "replacement"; Some (plan_update None db coll filter (to_string replacement))
  else if bool_decide (kind = "deleteOne"%string) || bool_decide (kind = "deleteMany"%string) then
    Some (plan_delete None db coll filter)
  else None.
Fixpoint plan_bulk (db coll : string) (ops : list Bson) : list step :=
  match ops with
  | [] => []
  | Document ((kind, Document payload) :: _) :: ops =>
    match plan_bulk_op db coll kind payload with
    | Some s => s :: plan_bulk db coll ops
    | None => []
    end
  | Document (_ :: _) :: _ => []
  | _ :: ops => plan_bulk db coll ops
  end.

Definition string_arg (args : list Bson) : option string :=
  match args !! 0%nat with Some (BString s) => Some s | _ => None end.
Definition array_arg (args : list Bson) : list Bson := match args !! 0%nat with Some (Array l) => l | _ => [] end.

Definition method_plan (db coll method : string) (args : list Bson) : list step :=
  let named s := bool_decide (method = s) in
  let filter := doc_or_empty args 0 in
  if named "find" || named "findOne" || named "countDocuments" || named "count" || named "aggregate" then plan_read
  else if named "distinct" then (if string_arg args then plan_read else [])
  else if named "insertOne" then
    match doc_arg args 0 with Some d => [plan_insert_one db coll d true] | None => [] end
  else if named "insertMany" then
    match documents (array_arg args) with
    | [] => []
    | docs => [(omap (fun d => OpInsert db coll <$> to_string d) docs,
                match array_json docs with Some _ => [(Timeline.InsertMany, db, coll)] | None => [] end)]
    end
  else if named "updateOne" || named "updateMany" then
    match doc_arg args 1 with
    | Some u => [plan_update (Some (if named "updateMany" then Timeline.UpdateMany else Timeline.UpdateOne)) db coll filter (to_string u)]
    | None => []
    end
  else if named "replaceOne" then
    match doc_arg args 1 with
    | Some r => [plan_update (Some Timeline.ReplaceOne) db coll filter (to_string r)]
    | None => []
    end
  else if named "deleteOne" || named "deleteMany" then
    [plan_delete (Some (if named "deleteMany" then Timeline.DeleteMany else Timeline.DeleteOne)) db coll filter]
  else if named "drop" then [([OpDropCollection db coll], [(Timeline.CollectionDrop, db, coll)])]
  else if named "createIndex" then
    [plan_create_index db coll
       (match args !! 0%nat with Some (Document d) => d | Some (BString s) => [(s, BString "text")] | _ => [] end)
       (default Null (args !! 1%nat))]
  else if named "dropIndex" then
    match string_arg args with
    | Some name => [([OpDropIndex db coll name], [(Timeline.IndexDrop, db, coll)])]
    | None => []
    end
  else if named "rename" || named "renameCollection" then
    match string_arg args with
    | Some new_name => [([OpRename db coll new_name], [(Timeline.CollectionRename, db, coll)])]
    | None => []
    end
  else if named "dropDatabase" then [([OpDropDatabase db], [])]
  else if named "findOneAndUpdate" then
    match args !! 1%nat with
    | Some update => match bson_to_update_mods update with
                     | Some _ => [plan_update (Some Timeline.UpdateOne) db coll filter (value_to_string update)]
                     | None => []
                     end
    | None => []
    end
  else if named "findOneAndDelete" then [plan_delete (Some Timeline.DeleteOne) db coll filter]
  else if named "findOneAndReplace" then
    match doc_arg args 1 with
    | Some r => [plan_update (Some Timeline.ReplaceOne) db coll filter (to_string r)]
    | None => []
    end
  else if named "bulkWrite" then plan_bulk db coll (array_arg args)
  else [].

(** Of the host functions, [__call_db] runs a method on the active database; a command is
    one request that leaves nothing. *)
Definition host_plan (active_db : string) (h : host_call) : list step :=
  match h with
  | HostCallDb (collection :: method :: args) =>
    method_plan active_db (js_text collection) (js_text method) (map jsvalue_to_bson args)
  | HostRunCommand _ => plan_read
  | _ => []
  end.

(** ** The contract *)

Definition records (n : nat) (dep : string) (ops : list audited_op) : list AuditSession.command :=
  imap (fun i op => Record (clock (n + i)) dep op) ops.

Definition audits w : bool := sh_audit w && negb (ChangeStream.supports_change_streams (sh_deployment_id w)).

(** [w'] is [w] after the steps were recorded. *)
Record recorded (s : step) w w' : Prop := {
  rec_same : sh_audit w' = sh_audit w /\ sh_deployment_id w' = sh_deployment_id w /\ sh_active_db w' = sh_active_db w;
  rec_log : if audits w
            then sh_log w' = run (records (sh_ticks w) (sh_deployment_id w) s.1) (sh_log w) /\
                 sh_ticks w' = (sh_ticks w + length s.1)%nat
            else sh_log w' = sh_log w /\ sh_ticks w' = sh_ticks w;
  rec_notes : map note_of (sh_operations w') = map note_of (sh_operations w) ++ s.2;
}.

(** The requests since [w] that the server accepted. *)
Definition accepted (reqs : list (request * bool)) : nat := length (filter (fun r => r.2 = true) reqs).

(** Several steps together. *)
Definition total (steps : list step) : step := (concat (map fst steps), concat (map snd steps)).

Definition follows_at {A} (plan : list step) (m : shell A) w : Prop :=
  let '(r, w') := m w in
  exists reqs, sh_requests w' = sh_requests w ++ reqs /\
    (accepted reqs <= length plan)%nat /\ (is_ok r = true -> accepted reqs = length plan) /\
    recorded (total (take (accepted reqs) plan)) w w'.
Definition follows {A} (plan : list step) (m : shell A) : Prop := forall w, follows_at plan m w.

(** A part that makes no request, cannot fail and leaves this. *)
Definition leaves {A} (s : step) (m : shell A) : Prop := forall w,
  is_ok (m w).1 = true /\ sh_requests (m w).2 = sh_requests w /\ recorded s w (m w).2.
Abbreviation nothing := (([], []) : step).

(** ** Its laws *)

Lemma run_app (l1 l2 : list AuditSession.command) (l : World F Db) : run (l1 ++ l2) l = run l2 (run l1 l).
Proof. unfold run. apply foldl_app. Qed.

Lemma records_app n dep ops1 ops2 :
  records n dep (ops1 ++ ops2) = records n dep ops1 ++ records (n + length ops1) dep ops2.
Proof.
  unfold records. rewrite imap_app. f_equal. apply imap_ext. intros i op _. by rewrite Nat.add_assoc.
Qed.

Lemma recorded_refl w : recorded ([], []) w w.
Proof. split; [done| |by rewrite app_nil_r]. cbn. rewrite Nat.add_0_r. by destruct (audits w). Qed.

Lemma recorded_trans s1 s2 w1 w2 w3 :
  recorded s1 w1 w2 -> recorded s2 w2 w3 -> recorded (s1.1 ++ s2.1, s1.2 ++ s2.2) w1 w3.
Proof.
  intros [(Ha & Hd & Hb) Hl Hn] [(Ha' & Hd' & Hb') Hl' Hn'].
  assert (audits w2 = audits w1) as Haud by (unfold audits; by rewrite Ha, Hd).
  split; cbn [fst snd]; [by rewrite Ha', Hd', Hb'| |by rewrite Hn', Hn, app_assoc].
  rewrite Haud in Hl'. destruct (audits w1).
  - destruct Hl as [Hl Ht], Hl' as [Hl' Ht']. rewrite records_app, run_app, <-Hl, <-Ht, <-Hd, length_app. split; [done|lia].
  - destruct Hl, Hl'. split; congruence.
Qed.

Lemma total_app p1 p2 : total (p1 ++ p2) = ((total p1).1 ++ (total p2).1, (total p1).2 ++ (total p2).2).
Proof. unfold total. cbn. by rewrite !map_app, !concat_app. Qed.

Lemma accepted_app r1 r2 : accepted (r1 ++ r2) = (accepted r1 + accepted r2)%nat.
Proof. unfold accepted. by rewrite filter_app, length_app. Qed.

Lemma follows_bind {A B} p1 p2 (m : shell A) (k : A -> shell B) :
  follows p1 m -> (forall a, follows p2 (k a)) -> follows (p1 ++ p2) (m ≫= k).
Proof.
  intros Hp Hk w. unfold follows_at, mbind, stateR_bind. specialize (Hp w). unfold follows_at in Hp.
  destruct (m w) as [[a|e] w1]; destruct Hp as (r1 & Hr1 & Hle1 & Hok1 & Hrec1).
  - specialize (Hk a w1). unfold follows_at in Hk. destruct (k a w1) as [r w2].
    destruct Hk as (r2 & Hr2 & Hle2 & Hok2 & Hrec2). specialize (Hok1 eq_refl). exists (r1 ++ r2).
    rewrite accepted_app, length_app, Hok1, take_app_add.
    rewrite Hok1, firstn_all in Hrec1. split_and!; [by rewrite Hr2, Hr1, app_assoc|lia|by intros ->%Hok2|].
    rewrite total_app. by eapply recorded_trans.
  - exists r1. rewrite length_app. rewrite take_app_le by lia. split_and!; [done|lia|done|done].
Qed.

Lemma follows_throw {A} p (e : string) : follows (A := A) p (throw e).
Proof. intros w. exists []. cbn. rewrite app_nil_r. split_and!; [done|lia|done|apply recorded_refl]. Qed.

Lemma follows_leaves {A} (m : shell A) : leaves nothing m -> follows [] m.
Proof.
  intros Hp w. unfold follows_at. specialize (Hp w). destruct (m w) as [r w']. destruct Hp as (Hok & Hr & Hrec).
  exists []. rewrite app_nil_r. split_and!; [done|cbn; lia|done|done].
Qed.

Lemma follows_quiet {A B} p (m : shell A) (k : A -> shell B) :
  leaves nothing m -> (forall a, follows p (k a)) -> follows p (m ≫= k).
Proof. intros Hp Hk. apply (follows_bind [] p); [by apply follows_leaves|done]. Qed.

Lemma follows_or_throw {A B} p (o : option A) msg (k : A -> shell B) :
  (forall a, o = Some a -> follows p (k a)) -> follows p (or_throw o msg ≫= k).
Proof.
  intros Hk. destruct o as [a|]; cbn [or_throw]; [|apply follows_throw].
  intros w. exact (Hk a eq_refl w).
Qed.

(** Recording an operation is a command of a session of the log. *)
Lemma record_ignored_run dep op w :
  record_ignored clock dep op w = set_log (run (records (sh_ticks w) dep [op]) (sh_log w)) (S (sh_ticks w)) w.
Proof.
  unfold record_ignored. cbn. rewrite Nat.add_0_r. by destruct (record_op (clock (sh_ticks w)) dep op (sh_log w)).
Qed.

Lemma leaves_audit ops : leaves (ops, []) (try_audit clock ops).
Proof.
  intros w. split; [done|]. unfold try_audit, modify. cbn [snd].
  change (sh_audit w && negb (ChangeStream.supports_change_streams (sh_deployment_id w))) with (audits w).
  destruct (audits w) eqn:Ha.
  2: { split; [done|]. split; cbn; [done|by rewrite Ha|by rewrite app_nil_r]. }
  assert (forall w1, audits w1 = true ->
    let w2 := foldl (fun w1 op => record_ignored clock (sh_deployment_id w1) op w1) w1 ops in
    sh_requests w2 = sh_requests w1 /\ recorded (ops, []) w1 w2) as H; [|exact (H w Ha)].
  clear Ha w. induction ops as [|op ops IH]; intros w Ha; cbn [foldl]; [by split; [|apply recorded_refl]|].
  set (w2 := record_ignored clock (sh_deployment_id w) op w).
  assert (w2 = set_log (run (records (sh_ticks w) (sh_deployment_id w) [op]) (sh_log w)) (S (sh_ticks w)) w) as E
    by apply record_ignored_run.
  destruct (IH w2) as [Hr Hrec]; [by rewrite E|]. split; [by rewrite Hr, E|].
  eapply (recorded_trans ([op], []) (ops, [])); [|exact Hrec]. rewrite E.
  split; cbn [fst snd]; [done| |by rewrite app_nil_r].
  rewrite Ha. split; [done|]. cbn. lia.
Qed.

Lemma call_recorded r w :
  exists b, sh_requests (call r w).2 = sh_requests w ++ [(r, b)] /\ is_ok (call (F := F) (Db := Db) r w).1 = b /\
    recorded ([], []) w (call r w).2.
Proof.
  unfold call. destruct (serve r (sh_srv w)) as [res s].
  exists (match res with Ok _ => true | Err _ => false end). split; [done|]. split; [by destruct res|].
  split; cbn; [done| |by rewrite app_nil_r]. change (audits _) with (audits w). rewrite Nat.add_0_r. by destruct (audits w).
Qed.

Lemma follows_call {A} s r (k : reply r -> shell A) :
  (forall x, leaves s (k x)) -> follows [s] (call r ≫= k).
Proof.
  intros Hk w. unfold follows_at. unfold mbind, stateR_bind. destruct (call_recorded r w) as (b & Hr & Hok & Hrec).
  destruct (call r w) as [[x|e] w1]; cbn [fst snd is_ok] in *; subst b.
  - destruct (Hk x w1) as (Hok3 & Hr3 & Hrec3). destruct (k x w1) as [res w3]. cbn [fst snd] in Hok3, Hr3, Hrec3.
    exists [(r, true)]. split_and!; [by rewrite Hr3, Hr|done|done|].
    refine (eq_ind _ (fun s => recorded s w w3) (recorded_trans _ _ _ _ _ Hrec Hrec3) _ _).
    change (accepted [(r, true)]) with 1%nat. unfold total. cbn. by rewrite !app_nil_r.
  - exists [(r, false)]. split_and!; [done|apply Nat.le_0_l|done|done].
Qed.

(** ** Parts that only note *)

Lemma leaves_ret {A} (a : A) : leaves nothing (mret a).
Proof. intros w. split_and!; [done|done|apply recorded_refl]. Qed.

Lemma leaves_bind {A B} s1 s2 (m : shell A) (k : A -> shell B) :
  leaves s1 m -> (forall a, leaves s2 (k a)) -> leaves (s1.1 ++ s2.1, s1.2 ++ s2.2) (m ≫= k).
Proof.
  intros Hp Hk w. unfold mbind, stateR_bind. destruct (Hp w) as (Hok & Hr & Hrec).
  destruct (m w) as [[a|e] w1]; [|done]. destruct (Hk a w1) as (Hok2 & Hr2 & Hrec2).
  destruct (k a w1) as [r w2]. cbn [fst snd] in *. split_and!; [done|congruence|]. exact (recorded_trans _ _ _ _ _ Hrec Hrec2).
Qed.
Lemma leaves_quiet {A B} s (m : shell A) (k : A -> shell B) :
  leaves nothing m -> (forall a, leaves s (k a)) -> leaves s (m ≫= k).
Proof. destruct s. apply (leaves_bind nothing). Qed.
Lemma leaves_audit_then {A} ops ns (k : unit -> shell A) :
  (forall a, leaves ([], ns) (k a)) -> leaves (ops, ns) (try_audit clock ops ≫= k).
Proof.
  intros Hk. pose proof (leaves_bind _ _ _ _ (leaves_audit ops) Hk) as H. cbn in H. by rewrite app_nil_r in H.
Qed.

Lemma leaves_view ns (f : world -> world) :
  (forall w, sh_requests (f w) = sh_requests w /\ sh_log (f w) = sh_log w /\ sh_ticks (f w) = sh_ticks w /\
             sh_audit (f w) = sh_audit w /\ sh_deployment_id (f w) = sh_deployment_id w /\
             sh_active_db (f w) = sh_active_db w /\ map note_of (sh_operations (f w)) = map note_of (sh_operations w) ++ ns) ->
  leaves ([], ns) (modify f).
Proof.
  intros Hf w. destruct (Hf w) as (Hr & Hl & Ht & Ha & Hd & Hb & Hn). split_and!; [done|done|].
  unfold modify. split; cbn [fst snd length]; [done| |done]. rewrite Hl, Ht. cbn. rewrite Nat.add_0_r. by destruct (audits w).
Qed.
Lemma leaves_output o : leaves nothing (push_output o).
Proof. apply leaves_view. intros w. cbn. by rewrite app_nil_r. Qed.
Lemma leaves_collection coll : leaves nothing (set_last_collection coll).
Proof. apply leaves_view. intros w. cbn. by rewrite app_nil_r. Qed.
Lemma leaves_pipeline p : leaves nothing (set_last_pipeline p).
Proof. apply leaves_view. intros w. cbn. by rewrite app_nil_r. Qed.
Lemma leaves_operation {A} op n (k : unit -> shell A) :
  note_of op = n -> (forall a, leaves nothing (k a)) -> leaves ([], [n]) (push_operation op ≫= k).
Proof.
  intros <- Hk. apply (leaves_bind ([], [note_of op]) nothing); [|done]. apply leaves_view. intros w. cbn. by rewrite map_app.
Qed.

(** Closes what a method does after its request. *)
Ltac leaves_step :=
  lazymatch goal with
  | |- leaves _ (mret _) => apply leaves_ret
  | |- leaves _ (push_output _) => apply leaves_output
  | |- leaves _ (set_last_collection _) => apply leaves_collection
  | |- leaves _ (set_last_pipeline _) => apply leaves_pipeline
  | |- leaves _ (try_audit _ _ ≫= _) => apply leaves_audit_then; intros ?
  | |- leaves _ (push_operation _ ≫= _) => apply leaves_operation; [done|intros ?]
  | |- leaves _ (_ ≫= _) => apply leaves_quiet; [|intros ?]
  end.
Ltac request := lazymatch goal with |- follows _ (call ?r ≫= ?k) => refine (follows_call _ r k _); intros ? end.
Ltac solve_leaves := repeat leaves_step; try done.

(** ** The methods *)

Lemma for_each_leaves {A} (f : A -> shell unit) (l : list A) : (forall x, leaves nothing (f x)) -> leaves nothing (for_each f l).
Proof. intros Hf. induction l as [|x l IH]; [apply leaves_ret|]. by apply leaves_quiet. Qed.

Lemma insert_one_follows db coll args :
  follows (match doc_arg args 0 with Some d => [plan_insert_one db coll d true] | None => [] end)
    (dispatch_insert_one clock db coll args).
Proof.
  unfold dispatch_insert_one. apply follows_or_throw. intros d ->. unfold plan_insert_one.
  destruct (to_string d) as [json|]; request; cbn [option_list fmap option_fmap option_map]; solve_leaves.
Qed.

Lemma insert_many_follows db coll args :
  follows (match documents (array_arg args) with
           | [] => []
           | docs => [(omap (fun d => OpInsert db coll <$> to_string d) docs,
                       match array_json docs with Some _ => [(Timeline.InsertMany, db, coll)] | None => [] end)]
           end)
    (dispatch_insert_many clock db coll args).
Proof.
  unfold dispatch_insert_many, array_arg.
  destruct (args !! 0%nat) as [[]|]; try apply follows_throw.
  destruct (documents l) as [|d docs] eqn:Hd; [apply follows_throw|]. rewrite bool_decide_eq_false_2 by done.
  rewrite <-Hd. request. leaves_step. destruct (array_json _); solve_leaves.
Qed.

Lemma plan_update_leaves {A} kind db coll filter uj matched modified (k : unit -> shell A) :
  (forall a, leaves nothing (k a)) ->
  leaves (plan_update (Some kind) db coll filter uj)
    (_ ← try_audit clock (update_op db coll (to_string filter) uj);
     _ ← push_update kind db coll (to_string filter) uj matched modified; k tt).
Proof.
  intros Hk. unfold plan_update, update_op, push_update. destruct (to_string filter), uj; solve_leaves; apply Hk.
Qed.

Lemma plan_delete_leaves {A} kind db coll filter deleted (k : unit -> shell A) :
  (forall a, leaves nothing (k a)) ->
  leaves (plan_delete (Some kind) db coll filter)
    (_ ← try_audit clock (delete_op db coll (to_string filter));
     _ ← push_delete kind db coll (to_string filter) deleted; k tt).
Proof. intros Hk. unfold plan_delete, delete_op, push_delete. destruct (to_string filter); solve_leaves; apply Hk. Qed.

Lemma update_follows multi db coll args :
  follows (match doc_arg args 1 with
           | Some u => [plan_update (Some (if multi : bool then Timeline.UpdateMany else Timeline.UpdateOne)) db coll
                          (doc_or_empty args 0) (to_string u)]
           | None => []
           end) (dispatch_update clock multi db coll args).
Proof.
  unfold dispatch_update. apply follows_or_throw. intros u ->. request.
  apply (plan_update_leaves _ _ _ _ _ _ _ (fun _ => _ ← push_output _; mret JsUndefined)). intros ?; solve_leaves.
Qed.

Lemma replace_one_follows db coll args :
  follows (match doc_arg args 1 with
           | Some r => [plan_update (Some Timeline.ReplaceOne) db coll (doc_or_empty args 0) (to_string r)]
           | None => []
           end) (dispatch_replace_one clock db coll args).
Proof.
  unfold dispatch_replace_one. apply follows_or_throw. intros u ->. request.
  apply (plan_update_leaves _ _ _ _ _ _ _ (fun _ => _ ← push_output _; mret JsUndefined)). intros ?; solve_leaves.
Qed.

Lemma delete_follows multi db coll args :
  follows [plan_delete (Some (if multi : bool then Timeline.DeleteMany else Timeline.DeleteOne)) db coll (doc_or_empty args 0)]
    (dispatch_delete clock multi db coll args).
Proof.
  unfold dispatch_delete. request.
  apply (plan_delete_leaves _ _ _ _ _ (fun _ => _ ← push_output _; mret JsUndefined)). intros ?; solve_leaves.
Qed.

Lemma drop_follows db coll :
  follows [([OpDropCollection db coll], [(Timeline.CollectionDrop, db, coll)])] (dispatch_drop clock db coll).
Proof. unfold dispatch_drop, push_plain. request. solve_leaves. Qed.

Lemma create_index_follows db coll args :
  follows [plan_create_index db coll
             (match args !! 0%nat with Some (Document d) => d | Some (BString s) => [(s, BString "text")] | _ => [] end)
             (default Null (args !! 1%nat))] (dispatch_create_index clock db coll args).
Proof.
  unfold dispatch_create_index, plan_create_index, push_plain. request.
  match goal with |- context [to_string ?d] => destruct (to_string d) end;
    destruct (value_to_string (default Null (args !! 1%nat))); solve_leaves.
Qed.

Lemma drop_index_follows db coll args :
  follows (match string_arg args with
           | Some name => [([OpDropIndex db coll name], [(Timeline.IndexDrop, db, coll)])]
           | None => []
           end) (dispatch_drop_index clock db coll args).
Proof.
  unfold dispatch_drop_index, push_plain, string_arg. apply follows_or_throw. intros name ->. request. solve_leaves.
Qed.

Lemma rename_follows db coll args :
  follows (match string_arg args with
           | Some new_name => [([OpRename db coll new_name], [(Timeline.CollectionRename, db, coll)])]
           | None => []
           end) (dispatch_rename clock db coll args).
Proof.
  unfold dispatch_rename, push_plain, string_arg. apply follows_or_throw. intros name ->. request. solve_leaves.
Qed.

Lemma drop_database_follows db : follows [([OpDropDatabase db], [])] (dispatch_drop_database clock db).
Proof. unfold dispatch_drop_database. request. solve_leaves. Qed.

Lemma find_one_and_update_follows db coll args :
  follows (match args !! 1%nat with
           | Some update => match bson_to_update_mods update with
                            | Some _ => [plan_update (Some Timeline.UpdateOne) db coll (doc_or_empty args 0) (value_to_string update)]
                            | None => []
                            end
           | None => []
           end) (dispatch_find_one_and_update clock db coll args).
Proof.
  unfold dispatch_find_one_and_update. apply follows_or_throw. intros u ->. apply follows_or_throw. intros m ->. request.
  apply (plan_update_leaves _ _ _ _ _ _ _ (fun _ => _ ← set_last_collection coll; _ ← push_output _; mret (js_option _))).
  intros ?; solve_leaves.
Qed.

Lemma find_one_and_delete_follows db coll args :
  follows [plan_delete (Some Timeline.DeleteOne) db coll (doc_or_empty args 0)] (dispatch_find_one_and_delete clock db coll args).
Proof.
  unfold dispatch_find_one_and_delete. request.
  apply (plan_delete_leaves _ _ _ _ _ (fun _ => _ ← set_last_collection coll; _ ← push_output _; mret (js_option _))).
  intros ?; solve_leaves.
Qed.

Lemma find_one_and_replace_follows db coll args :
  follows (match doc_arg args 1 with
           | Some r => [plan_update (Some Timeline.ReplaceOne) db coll (doc_or_empty args 0) (to_string r)]
           | None => []
           end) (dispatch_find_one_and_replace clock db coll args).
Proof.
  unfold dispatch_find_one_and_replace. apply follows_or_throw. intros u ->. request.
  apply (plan_update_leaves _ _ _ _ _ _ _ (fun _ => _ ← set_last_collection coll; _ ← push_output _; mret (js_option _))).
  intros ?; solve_leaves.
Qed.

Lemma find_follows db coll args : follows plan_read (dispatch_find db coll args).
Proof. unfold dispatch_find. request. solve_leaves. Qed.
Lemma find_one_follows db coll args : follows plan_read (dispatch_find_one db coll args).
Proof. unfold dispatch_find_one. request. solve_leaves. Qed.
Lemma count_follows db coll args : follows plan_read (dispatch_count db coll args).
Proof. unfold dispatch_count. request. solve_leaves. Qed.
Lemma aggregate_follows db coll args : follows plan_read (dispatch_aggregate db coll args).
Proof.
  unfold dispatch_aggregate. apply follows_quiet; [apply leaves_pipeline|intros ?].
  apply follows_quiet; [apply leaves_collection|intros ?]. request. solve_leaves.
Qed.
Lemma distinct_follows db coll args : follows (if string_arg args then plan_read else []) (dispatch_distinct db coll args).
Proof.
  unfold dispatch_distinct, string_arg. apply follows_or_throw. intros field ->. request. solve_leaves.
Qed.

(** *** Bulk writes *)

Lemma plan_insert_bulk_leaves {A} db coll d (a : A) :
  leaves (plan_insert_one db coll d false) (_ ← try_audit clock (option_list (OpInsert db coll <$> to_string d)); mret a).
Proof. unfold plan_insert_one. destruct (to_string d); cbn [option_list fmap option_fmap option_map]; solve_leaves. Qed.
Lemma plan_update_bulk_leaves {A} db coll filter uj (a : A) :
  leaves (plan_update None db coll filter uj) (_ ← try_audit clock (update_op db coll (to_string filter) uj); mret a).
Proof. unfold plan_update, update_op. destruct (to_string filter), uj; solve_leaves. Qed.
Lemma plan_delete_bulk_leaves {A} db coll filter (a : A) :
  leaves (plan_delete None db coll filter) (_ ← try_audit clock (delete_op db coll (to_string filter)); mret a).
Proof. unfold plan_delete, delete_op. destruct (to_string filter); solve_leaves. Qed.

Lemma bulk_op_follows db coll kind payload c :
  follows (option_list (plan_bulk_op db coll kind payload)) (bulk_op clock db coll kind payload c).
Proof.
  unfold bulk_op, plan_bulk_op.
  destruct (bool_decide (kind = "insertOne"%string)).
  { unfold bulk_insert_one. apply follows_or_throw. intros d ->. request. apply plan_insert_bulk_leaves. }
  assert (forall multi, follows (option_list (update ← get payload "update"; _ ← bson_to_update_mods update;
    Some (plan_update None db coll (default [] (get_document payload "filter")) (value_to_string update))))
    (bulk_update clock multi db coll payload c)) as Hu.
  { intros multi. unfold bulk_update. apply follows_or_throw. intros u ->. cbn [mbind option_bind].
    apply follows_or_throw. intros m ->. request. apply plan_update_bulk_leaves. }
  assert (forall multi, follows (option_list (Some (plan_delete None db coll (default [] (get_document payload "filter")))))
    (bulk_delete clock multi db coll payload c)) as Hd.
  { intros multi. unfold bulk_delete. request. apply plan_delete_bulk_leaves. }
  destruct (bool_decide (kind = "updateOne"%string)); [apply Hu|]. destruct (bool_decide (kind = "updateMany"%string)); [apply Hu|].
  cbn [orb]. destruct (bool_decide (kind = "replaceOne"%string)).
  { unfold bulk_replace_one. apply follows_or_throw. intros r ->. request. apply plan_update_bulk_leaves. }
  destruct (bool_decide (kind = "deleteOne"%string)); [apply Hd|]. destruct (bool_decide (kind = "deleteMany"%string)); [apply Hd|].
  apply follows_throw.
Qed.

(** An operation without a plan fails before its request. *)
Lemma bulk_op_unplanned db coll kind payload c w :
  plan_bulk_op db coll kind payload = None -> exists e, bulk_op clock db coll kind payload c w = (Err e, w).
Proof.
  unfold bulk_op, plan_bulk_op, bulk_insert_one, bulk_update, bulk_replace_one, bulk_delete.
  repeat (case_match; cbn [orb]; try done); intros Hn; try (by eexists).
  - destruct (get_document payload "document"); [done|]. by eexists.
  - destruct (get payload "update") as [u|]; [|by eexists]. cbn in Hn. destruct (bson_to_update_mods u) eqn:E; [done|].
    cbn [or_throw]. unfold mbind, stateR_bind, mret, stateR_ret. cbv beta iota. rewrite E. by eexists.
  - destruct (get payload "update") as [u|]; [|by eexists]. cbn in Hn. destruct (bson_to_update_mods u) eqn:E; [done|].
    cbn [or_throw]. unfold mbind, stateR_bind, mret, stateR_ret. cbv beta iota. rewrite E. by eexists.
  - destruct (get_document payload "replacement"); [done|]. by eexists.
Qed.

Lemma bulk_ops_follows db coll ops c : follows (plan_bulk db coll ops) (bulk_ops clock db coll ops c).
Proof.
  revert c. induction ops as [|op ops IH]; intros c; cbn [bulk_ops plan_bulk]; [apply follows_leaves, leaves_ret|].
  destruct op; try apply IH. destruct d as [|[kind payload] d]; [apply IH|].
  destruct payload; try apply follows_throw.
  destruct (plan_bulk_op db coll kind d0) as [s|] eqn:Hp.
  - apply (follows_bind [s]); [|intros; apply IH]. pose proof (bulk_op_follows db coll kind d0 c) as H. by rewrite Hp in H.
  - intros w. destruct (bulk_op_unplanned db coll kind d0 c w Hp) as [e He].
    unfold follows_at, mbind, stateR_bind. rewrite He. exact (follows_throw [] e w).
Qed.

Lemma bulk_write_follows db coll args : follows (plan_bulk db coll (array_arg args)) (dispatch_bulk_write clock db coll args).
Proof.
  unfold dispatch_bulk_write, array_arg. apply follows_or_throw. intros ops Ho.
  assert (array_arg args = ops) as Ha.
  { unfold array_arg. destruct (args !! 0%nat) as [[]|]; naive_solver. }
  unfold array_arg in Ha. rewrite Ha. rewrite <-(app_nil_r (plan_bulk _ _ _)).
  apply follows_bind; [apply bulk_ops_follows|]. intros c. apply follows_leaves. solve_leaves.
Qed.

(** ** The table of methods, the host functions *)

Lemma dispatch_follows db coll method args : follows (method_plan db coll method args) (dispatch_sync clock db coll method args).
Proof.
  unfold dispatch_sync, method_plan. cbv zeta beta.
  repeat match goal with
  | |- context [bool_decide (method = ?s)] => destruct (bool_decide (method = s)); cbn [orb]
  end;
  first [ apply find_follows | apply find_one_follows | apply count_follows | apply aggregate_follows | apply distinct_follows
        | apply insert_one_follows | apply insert_many_follows | apply update_follows | apply replace_one_follows
        | apply delete_follows | apply drop_follows | apply create_index_follows | apply drop_index_follows | apply rename_follows
        | apply drop_database_follows | apply find_one_and_update_follows | apply find_one_and_delete_follows
        | apply find_one_and_replace_follows | apply bulk_write_follows
        | apply follows_throw | apply follows_leaves; solve_leaves ].
Qed.

Lemma rethrown_follows {A} plan (m : shell A) w : follows_at plan m w -> follows_at plan (rethrown m) w.
Proof.
  unfold follows_at, rethrown. destruct (m w) as [r w']. intros (reqs & H1 & H2 & H3 & H4). exists reqs.
  split_and!; [done|done|by destruct r|done].
Qed.

Lemma fresh_leaves : leaves nothing fresh.
Proof.
  intros w. split_and!; [done|done|]. split; cbn; [done| |by rewrite app_nil_r].
  rewrite Nat.add_0_r. change (audits _) with (audits w). by destruct (audits w).
Qed.

(** A new value, or one that is read from the argument. *)
Lemma new_or_parsed_follows {A B} (b : bool) (new : nat -> A) (o : option A) msg (k : A -> B) :
  follows [] (x ← (if b then n ← fresh; mret (new n) else or_throw o msg); mret (k x)).
Proof.
  apply (follows_bind [] []); [|intros; apply follows_leaves, leaves_ret]. destruct b.
  - apply follows_leaves, leaves_quiet; [apply fresh_leaves|intros; apply leaves_ret].
  - destruct o; [apply follows_leaves, leaves_ret|apply follows_throw].
Qed.

Lemma follows_gets {A B} plan (f : world -> A) (k : A -> shell B) w :
  follows_at plan (k (f w)) w -> follows_at plan (gets f ≫= k) w.
Proof. done. Qed.

Lemma host_follows h w : follows_at (host_plan (sh_active_db w) h) (host clock h) w.
Proof.
  destruct h as [args|args|args|args|args|args| |]; cbn [host host_plan].
  - apply follows_leaves. unfold host_print. solve_leaves.
  - apply follows_leaves. unfold host_printjson. leaves_step; [|solve_leaves].
    apply for_each_leaves. intros a. apply leaves_output.
  - apply new_or_parsed_follows.
  - apply new_or_parsed_follows.
  - destruct args as [|collection [|method args]]; [apply follows_throw..|].
    unfold host_call_db. apply follows_gets, rethrown_follows, dispatch_follows.
  - unfold host_run_command. cbv zeta. apply follows_gets.
    match goal with |- follows_at _ (call ?r ≫= ?k) _ => exact (follows_call nothing r k (fun x => leaves_ret _) w) end.
  - apply follows_leaves. solve_leaves.
  - apply follows_leaves. solve_leaves.
Qed.

(** ** What is never audited *)

Lemma follows_read_log {A} (m : shell A) w : follows_at plan_read m w -> sh_log (m w).2 = sh_log w.
Proof.
  unfold follows_at. destruct (m w) as [r w']. intros (reqs & _ & _ & _ & [_ Hl _]). cbn [snd].
  assert (total (take (accepted reqs) plan_read) = nothing) as E by (by destruct (accepted reqs) as [|[]]).
  rewrite E in Hl. destruct (audits w); by destruct Hl.
Qed.

(** A write made with [db.runCommand], and the collection an [$out] or [$merge] stage writes. *)
Lemma run_command_unaudited args w : sh_log (host clock (HostRunCommand args) w).2 = sh_log w.
Proof. apply follows_read_log, (host_follows (HostRunCommand args)). Qed.
Lemma aggregate_unaudited db coll args w : sh_log (dispatch_aggregate db coll args w).2 = sh_log w.
Proof. apply follows_read_log, aggregate_follows. Qed.

(** A filter that is not a document deletes everything. *)
Lemma delete_many_any_filter db coll arg w :
  (forall d, arg <> Document d) ->
  exists accepted, sh_requests (dispatch_delete clock true db coll [arg] w).2 =
                   sh_requests w ++ [(ReqDelete db coll true [], accepted)].
Proof.
  intros Ha. unfold dispatch_delete.
  assert (doc_or_empty [arg] 0 = []) as -> by (destruct arg; try done; by destruct (Ha d)).
  unfold mbind at 1, stateR_bind at 1. destruct (call_recorded (ReqDelete db coll true []) w) as (b & Hr & _ & _).
  exists b. destruct (call _ w) as [[n|e] w1]; [|done]. cbn [snd] in Hr. rewrite <-Hr.
  match goal with |- sh_requests (?m w1).2 = _ => assert (leaves (plan_delete (Some Timeline.DeleteMany) db coll []) m) as Hl end.
  { apply (plan_delete_leaves _ _ _ _ _ (fun _ => _ ← push_output _; mret JsUndefined)). intros ?; solve_leaves. }
  by destruct (Hl w1) as (_ & -> & _).
Qed.

Lemma quiet_then_requests {A B} s (m : shell A) (k : A -> shell B) w r :
  leaves s m ->
  (forall a w1, sh_requests w1 = sh_requests w -> exists b, sh_requests (k a w1).2 = sh_requests w1 ++ [(r, b)]) ->
  exists b, sh_requests ((m ≫= k) w).2 = sh_requests w ++ [(r, b)].
Proof.
  intros Hl Hk. destruct (Hl w) as (Hok & Hr & _). unfold mbind, stateR_bind.
  destruct (m w) as [[a|e] w1]; [|done]. cbn [snd] in Hr. rewrite <-Hr. by apply Hk.
Qed.

(** A [$limit] stage is added after a final [$out], which the server refuses anywhere but at
    the end. *)
Lemma aggregate_limit_after_out db coll target w :
  exists accepted, sh_requests (dispatch_aggregate db coll [Array [Document [("$out", BString target)]]] w).2 =
    sh_requests w ++ [(ReqAggregate db coll [[("$out", BString target)]; [("$limit", Int64 50)]]%string None, accepted)].
Proof.
  unfold dispatch_aggregate. cbv zeta.
  eapply quiet_then_requests; [apply leaves_pipeline|]. intros a w1 _.
  eapply quiet_then_requests; [apply leaves_collection|]. intros a' w2 _.
  destruct (call_recorded (ReqAggregate db coll [[("$out", BString target)]; [("$limit", Int64 50)]]%string None) w2) as (b & Hr & _).
  exists b. rewrite <-Hr. cbn [documents omap list_omap lookup list_lookup default].
  unfold mbind, stateR_bind. by destruct (call _ w2) as [[n|e] w3].
Qed.

(** Values the engine cannot hold come back as null. *)
Lemma decimal_becomes_null d : jsvalue_to_bson (bson_to_js (Decimal128 d)) = Null.
Proof. done. Qed.

(** ** A run of the engine *)

Context {En : JsEngine}.

(** The calls of host functions a run makes, each with the number of its requests that were
    accepted. *)
Fixpoint transcript (fuel : nat) (t : turn Context_) w : list (host_call * nat) :=
  match t, fuel with
  | Calls h c, S fuel =>
    let '(r, w') := host clock h w in
    (h, accepted (drop (length (sh_requests w)) (sh_requests w'))) :: transcript fuel (js_return c r) w'
  | Runs c, S fuel => transcript fuel (js_continue c) w
  | _, _ => []
  end.

(** What the transcript is to leave. *)
Definition call_step (db : string) (call : host_call * nat) : step := total (take call.2 (host_plan db call.1)).
Definition script_step (db : string) (calls : list (host_call * nat)) : step := total (map (call_step db) calls).

Lemma total_cons s l : total (s :: l) = (s.1 ++ (total l).1, s.2 ++ (total l).2).
Proof. done. Qed.

Lemma run_recorded fuel t w :
  recorded (script_step (sh_active_db w) (transcript fuel t w)) w (run_turns clock fuel t w).2.
Proof.
  revert t w. induction fuel as [|fuel IH]; intros [r c|h c|c] w; cbn [run_turns transcript snd]; try apply recorded_refl.
  - pose proof (host_follows h w) as H. unfold follows_at in H. destruct (host clock h w) as [r w1].
    destruct H as (reqs & Hr & Hle & Hok & Hrec). rewrite Hr, drop_app_length.
    specialize (IH (js_return c r) w1). destruct Hrec as [(Ha & Hd & Hb) Hlog Hn] eqn:E. rewrite Hb in IH.
    cbn [map]. unfold script_step. cbn [map]. rewrite total_cons. eapply recorded_trans; [|exact IH]. done.
  - apply IH.
Qed.

Context {Uc : ShellSource.Unicode}.

(** The database a script runs on, and the calls it makes from there. *)
Definition script_db (script active_db : string) : string := default active_db (ShellSource.preprocess_use script).1.
Definition script_calls (fuel : nat) (dep script active_db : string) (audit_log : bool) (thread : ShellThread) w :
    list (host_call * nat) :=
  transcript fuel (js_eval (wrap (ShellSource.transform_source (ShellSource.preprocess_use script).2)) (th_context thread))
    (attach dep (script_db script active_db) (audit_log || th_audit thread) w).

Lemma attach_recorded dep db audit w s w' :
  recorded s (attach dep db audit w) w' ->
  (sh_log w' = if audit && negb (ChangeStream.supports_change_streams dep)
               then run (records (sh_ticks w) dep s.1) (sh_log w) else sh_log w) /\
  map note_of (sh_operations w') = s.2.
Proof.
  intros [_ Hl Hn]. split; [|exact Hn].
  change (audits (attach dep db audit w)) with (audit && negb (ChangeStream.supports_change_streams dep)) in Hl.
  destruct (_ && _); by destruct Hl.
Qed.

Lemma eval_leaves fuel elapsed dep script active_db audit_log thread w :
  let s := script_step (script_db script active_db) (script_calls fuel dep script active_db audit_log thread w) in
  let res := eval clock fuel elapsed dep script active_db audit_log thread w in
  (sh_log res.2 = if (audit_log || th_audit thread) && negb (ChangeStream.supports_change_streams dep)
                  then run (records (sh_ticks w) dep s.1) (sh_log w) else sh_log w) /\
  (forall response c, res.1 = Some (response, c) -> map note_of (rs_operations response) = s.2).
Proof.
  unfold eval, script_calls, script_db.
  destruct (ShellSource.preprocess_use script) as [db_override body]. cbn [fst snd].
  set (start := attach _ _ _ _). set (t := js_eval _ _).
  pose proof (run_recorded fuel t start) as H. apply attach_recorded in H as [Hl Hn].
  change (sh_active_db start) with (default active_db db_override) in *.
  destruct (run_turns clock fuel t start) as [[[r c]|] w']; cbn [fst snd] in *; split; try done.
  intros response c' [= <- _]. exact Hn.
Qed.

(** ** The timeline *)

Definition recordable (k : Timeline.OperationKind) : bool :=
  match k with
  | Timeline.InsertOne | Timeline.InsertMany | Timeline.UpdateOne | Timeline.UpdateMany | Timeline.ReplaceOne
  | Timeline.DeleteOne | Timeline.DeleteMany | Timeline.IndexCreate | Timeline.IndexDrop
  | Timeline.CollectionCreate | Timeline.CollectionDrop | Timeline.CollectionRename => true
  | _ => false
  end.
Definition step_recordable (s : step) : Prop := Forall (fun n : note => recordable n.1.1 = true) s.2.

Lemma total_recordable plan : Forall step_recordable plan -> step_recordable (total plan).
Proof.
  unfold step_recordable, total. cbn [snd]. induction 1 as [|s plan Hs H IH]; [constructor|]. cbn. by apply Forall_app.
Qed.

Lemma plan_insert_recordable db coll d noted : step_recordable (plan_insert_one db coll d noted).
Proof. unfold plan_insert_one. destruct (to_string d), noted; by repeat constructor. Qed.
Lemma plan_update_recordable k db coll filter uj :
  match k with Some k => recordable k = true | None => True end -> step_recordable (plan_update k db coll filter uj).
Proof. unfold plan_update. intros Hk. destruct (to_string filter), uj, k; by repeat constructor. Qed.
Lemma plan_delete_recordable k db coll filter :
  match k with Some k => recordable k = true | None => True end -> step_recordable (plan_delete k db coll filter).
Proof. unfold plan_delete. intros Hk. destruct (to_string filter), k; by repeat constructor. Qed.

Lemma plan_bulk_recordable db coll ops : Forall step_recordable (plan_bulk db coll ops).
Proof.
  induction ops as [|op ops IH]; [constructor|]. cbn [plan_bulk]. destruct op; try done.
  destruct d as [|[kind payload] d]; [done|]. destruct payload; try constructor.
  destruct (plan_bulk_op db coll kind d0) as [s|] eqn:Hs; [|constructor]. constructor; [|done].
  unfold plan_bulk_op in Hs. repeat case_match; simplify_option_eq;
    first [apply plan_insert_recordable|by apply plan_update_recordable|by apply plan_delete_recordable].
Qed.

Lemma plan_recordable db h : Forall step_recordable (host_plan db h).
Proof.
  destruct h as [args|args|args|args|args|args| |]; cbn [host_plan]; try (by repeat constructor).
  destruct args as [|collection [|method args]]; [constructor..|].
  generalize (js_text method) (js_text collection) (map jsvalue_to_bson args). clear.
  intros method coll args. unfold method_plan, plan_read. cbv zeta beta.
  repeat match goal with
  | |- context [bool_decide (method = ?s)] => destruct (bool_decide (method = s)); cbn [orb]
  end; try apply plan_bulk_recordable; unfold plan_create_index; repeat case_match; repeat constructor;
  first [apply plan_insert_recordable|by apply plan_update_recordable|by apply plan_delete_recordable|done].
Qed.

Lemma script_recordable db calls : step_recordable (script_step db calls).
Proof.
  apply total_recordable, Forall_map, Forall_forall. intros call _. apply total_recordable, Forall_take, plan_recordable.
Qed.

Context {EJ : Timeline.EntryJson}.

Definition noted (e : Timeline.TimelineEntry) : note := (Timeline.kind e, Timeline.database e, Timeline.collection e).

Lemma append_entries e s : Timeline.entries (Timeline.append e s) = Timeline.entries s ++ [e].
Proof.
  unfold Timeline.append, Timeline.append_batch. rewrite bool_decide_eq_false_2 by done.
  unfold Timeline.save. by destruct (Timeline.persist_path _).
Qed.

Lemma record_operation_noted profile_id connection_id t op s :
  recordable (op_kind op) = true ->
  map noted (Timeline.entries (record_operation profile_id connection_id t op s)) =
    map noted (Timeline.entries s) ++ [note_of op].
Proof.
  unfold record_operation, note_of, Timeline.record_insert_many, Timeline.record_insert, Timeline.record_update, Timeline.record_delete,
    Timeline.record_index_create, Timeline.record_index_drop, Timeline.record_collection_create,
    Timeline.record_collection_drop, Timeline.record_collection_rename.
  destruct (op_kind op); intros Hk; try done; rewrite append_entries, map_app; done.
Qed.

Lemma record_operations_noted profile_id connection_id stamps ops s :
  Forall (fun n : note => recordable n.1.1 = true) (map note_of ops) ->
  map noted (Timeline.entries (record_operations profile_id connection_id stamps ops s)) =
    map noted (Timeline.entries s) ++ map note_of ops.
Proof.
  intros H. unfold record_operations.
  assert (forall ps s, Forall (fun n : note => recordable n.1.1 = true) (map (fun p => note_of p.2) ps) ->
    map noted (Timeline.entries (foldl (fun s (p : nat * ShellOperation) =>
      record_operation profile_id connection_id (stamps p.1) p.2 s) s ps)) =
    map noted (Timeline.entries s) ++ map (fun p => note_of p.2) ps) as Hps.
  { clear. intros ps. induction ps as [|[i op] ps IH]; intros s H; [by rewrite app_nil_r|].
    apply Forall_cons in H as [Hop H]. cbn [foldl map]. rewrite IH, record_operation_noted, <-app_assoc by done. done. }
  assert (map (fun p => note_of p.2) (imap pair ops) = map note_of ops) as E.
  { change (map ?f (imap pair ops)) with (f <$> imap pair ops). rewrite fmap_imap. apply (imap_const note_of). }
  rewrite <-E in *. by apply Hps.
Qed.

(** ** The command *)

Definition shell_db (request : ShellRequestDto) : string :=
  match rq_active_database request with Some db => db | None => default "admin"%string (rq_fallback_database request) end.

(** The calls the script of a request makes on a connection. *)
Definition request_calls (fuel : nat) (request : ShellRequestDto) (entry : ClientEntry)
    (s : AppState (F := F) (Db := Db)) : list (host_call * nat) :=
  script_calls fuel (en_deployment_id entry) (rq_script request) (shell_db request) true
    (default new_thread (st_shells s !! rq_connection_id request)) (st_world s).
Definition request_step (fuel : nat) (request : ShellRequestDto) (entry : ClientEntry) (s : AppState (F := F) (Db := Db)) : step :=
  script_step (script_db (rq_script request) (shell_db request)) (request_calls fuel request entry s).

(** The evaluation of a request, and what the command does with it. *)
Definition request_eval (fuel : nat) (elapsed : N) (request : ShellRequestDto) (entry : ClientEntry)
    (s : AppState (F := F) (Db := Db)) : option (ShellResponse * ShellThread) * world :=
  eval clock fuel elapsed (en_deployment_id entry) (rq_script request) (shell_db request) true
    (default new_thread (st_shells s !! rq_connection_id request)) (st_world s).

Lemma request_eval_leaves fuel elapsed request entry s :
  let left := request_step fuel request entry s in
  let res := request_eval fuel elapsed request entry s in
  (sh_log res.2 =
     if ChangeStream.supports_change_streams (en_deployment_id entry) then sh_log (st_world s)
     else run (records (sh_ticks (st_world s)) (en_deployment_id entry) left.1) (sh_log (st_world s))) /\
  (forall response c, res.1 = Some (response, c) -> map note_of (rs_operations response) = left.2) /\
  step_recordable left.
Proof.
  unfold request_eval, request_step, request_calls. cbv zeta.
  destruct (eval_leaves fuel elapsed (en_deployment_id entry) (rq_script request) (shell_db request) true
    (default new_thread (st_shells s !! rq_connection_id request)) (st_world s)) as [Hl Hn].
  split_and!; [|done|apply script_recordable]. rewrite Hl. by destruct (ChangeStream.supports_change_streams _).
Qed.

Lemma eval_shell_eq fuel elapsed stamps request entry s :
  st_clients s !! rq_connection_id request = Some entry ->
  let '(outcome, s') := eval_shell clock fuel elapsed stamps request s in
  let res := request_eval fuel elapsed request entry s in
  st_world s' = res.2 /\
  match res.1 with
  | Some (response, _) =>
    (exists shown, outcome = Some (Ok shown) /\ rs_operations shown = []) /\
    st_timeline s' = record_operations (en_profile_id entry) (rq_connection_id request) stamps
                       (rs_operations response) (st_timeline s)
  | None => outcome = None /\ st_timeline s' = st_timeline s
  end.
Proof.
  intros Hc. unfold eval_shell, request_eval. rewrite Hc.
  assert (default (shell_db request) (rq_active_database request) = shell_db request) as Hdb
    by (unfold shell_db; by destruct (rq_active_database request)).
  unfold shell_db at 1 in Hdb. rewrite Hdb. clear Hdb.
  destruct (eval _ _ _ _ _ _ _ _ _) as [[[response c']|] w']; cbn [fst snd]; [|done].
  split; [done|]. split; [|done]. eexists. by split.
Qed.

(** C16: For every engine, script and server, however many turns of the script are followed and whether it ends, fails
    or still runs: on a deployment without change streams the audit log after [eval_shell] is the log before with
    exactly the operations recorded that the server accepted from the audited methods the script called, in their
    order, one for each document of an [insertMany]; where the change stream listens the shell adds nothing.  When the
    script ended, the timeline has gained one entry for each accepted call of these methods, an [insertMany] included,
    but none for bulk writes and dropped databases, in order, and the response shows none.  What is not audited is
    [method_plan]'s to say: commands, pipelines with [$out] or [$merge], and an [insertMany] that fails. *)
Theorem eval_shell_leaves fuel elapsed stamps request entry s :
  st_clients s !! rq_connection_id request = Some entry ->
  let left := request_step fuel request entry s in
  let '(outcome, s') := eval_shell clock fuel elapsed stamps request s in
  (sh_log (st_world s') =
     if ChangeStream.supports_change_streams (en_deployment_id entry) then sh_log (st_world s)
     else run (records (sh_ticks (st_world s)) (en_deployment_id entry) left.1) (sh_log (st_world s))) /\
  match outcome with
  | Some (Ok response) =>
    rs_operations response = [] /\
    map noted (Timeline.entries (st_timeline s')) = map noted (Timeline.entries (st_timeline s)) ++ left.2
  | _ => st_timeline s' = st_timeline s
  end.
Proof.
  intros Hc. pose proof (eval_shell_eq fuel elapsed stamps request entry s Hc) as H.
  destruct (eval_shell clock fuel elapsed stamps request s) as [outcome s'].
  destruct (request_eval_leaves fuel elapsed request entry s) as (Hl & Hn & Hrec).
  destruct (request_eval fuel elapsed request entry s) as [[[response c]|] w']; cbn [fst snd] in *; destruct H as [-> H].
  - destruct H as [(shown & -> & Hs) ->]. split; [done|]. split; [done|]. specialize (Hn _ _ eq_refl).
    rewrite <-Hn. apply record_operations_noted. by rewrite Hn.
  - destruct H as [-> ->]. done.
Qed.

(** C15: A write that the server accepted from an audited method is in the audit log for good: run over the log of any
    session on a deployment without change streams, any script leaves the log of the session extended by one recorded
    operation for each change it made with these methods (even when it fails in the middle or never ends), and a
    restart on the disk it leaves restores exactly that log.  Not audited are the writes of [runCommand], of [$out]
    and [$merge], and of an [insertMany] that fails in the middle. *)
Theorem shell_writes_survive_restart dir key cs fuel elapsed stamps request entry s :
  session dir key cs (sh_log (st_world s)) ->
  st_clients s !! rq_connection_id request = Some entry ->
  ChangeStream.supports_change_streams (en_deployment_id entry) = false ->
  let cs' := cs ++ records (sh_ticks (st_world s)) (en_deployment_id entry) (request_step fuel request entry s).1 in
  (Z.of_nat (length cs') < 2 ^ 64)%Z ->
  let log' := sh_log (st_world (eval_shell clock fuel elapsed stamps request s).2) in
  session dir key cs' log' /\
  set_persistence_dir dir (started key (disk log')) = (Ok tt, log').
Proof.
  intros Hs Hc Hcs cs' Hlen log'. pose proof (eval_shell_eq fuel elapsed stamps request entry s Hc) as H.
  destruct (request_eval_leaves fuel elapsed request entry s) as (Hl & _). rewrite Hcs in Hl.
  assert (log' = run (records (sh_ticks (st_world s)) (en_deployment_id entry) (request_step fuel request entry s).1)
                   (sh_log (st_world s))) as Hlog.
  { unfold log'. destruct (eval_shell clock fuel elapsed stamps request s) as [outcome s'].
    destruct H as [H _]. cbn [snd]. by rewrite H. }
  assert (session dir key cs' log') as Hs'.
  { destruct Hs as (_ & w0 & H0 & Hw). split; [done|]. exists w0. split; [done|]. unfold cs'. by rewrite run_app, <-Hw. }
  split; [done|]. destruct (session_persisted dir key cs' log' Hs') as (es & ls & jl & Hp & Hl').
  by eapply persisted_restarts.
Qed.
(** ** Rollbacks *)

(** A rollback on a connection whose shell has run no script yet is not audited, on any
    deployment; no rollback is noted in the timeline. *)
Lemma rollback_unaudited fuel elapsed request s :
  th_audit (default new_thread (st_shells s !! xr_connection_id request)) = false ->
  let s' := (execute_rollback clock fuel elapsed request s).2 in
  sh_log (st_world s') = sh_log (st_world s) /\ st_timeline s' = st_timeline s.
Proof.
  intros Hn. unfold execute_rollback. destruct (Timeline.get _ _) as [entry|]; [|done].
  destruct (Timeline.rollback_script entry) as [script|]; [|done].
  destruct (st_clients s !! _) as [client|]; [|done].
  pose proof (eval_leaves fuel elapsed (en_deployment_id client) script (Timeline.database entry) false
    (default new_thread (st_shells s !! xr_connection_id request)) (st_world s)) as [Hl _].
  rewrite Hn in Hl. destruct (eval _ _ _ _ _ _ _ _ _) as [[[response thread]|] w]; done.
Qed.
End spec.

(** ** A script on a concrete engine *)

Local Open Scope string_scope.
Import Concrete MemoryDb.
#[local] Existing Instance PayloadExample.plain_pair.
#[local] Existing Instance ChangeStreamSpec.toy_bson_json.
#[local] Existing Instance AuditExample.plain_json.
#[local] Existing Instance OplogExample.plain_display.
#[local] Existing Instance TimelineSpec.plain_entries.

#[local] Instance plain_lib : ShellLib :=
  {| js_properties d := d; js_text v := match v with JsString s => s | _ => "object" end;
     type_error msg := "TypeError: " +:+ msg; parse_rfc3339_str _ := None; rfc3339_string _ := None;
     decimal_string _ := ""; json_text _ := ""; new_object_id _ := []; now_millis _ := 0%Z |}.
#[local] Instance ascii_letters : ShellSource.Unicode := {| ShellSource.unicode_alphanumeric _ := false |}.

(** It accepts inserts, deletes and commands. *)
#[local] Instance small_server : ShellServer :=
  {| Srv := unit;
     serve r s := match r return result AppError (reply r) * unit with
                  | ReqInsertOne _ _ _ => (Ok (BString "1"), s)
                  | ReqDelete _ _ _ _ => (Ok 1%N, s)
                  | ReqCommand _ _ => (Ok [], s)
                  | _ => (Err (Mongo "not supported"), s)
                  end |}.

(** A program is the calls it makes; a failed call that is not caught ends it. *)
Definition program_step (calls : list host_call) : turn (list host_call) :=
  match calls with
  | [] => Finished (Ok JsUndefined) []
  | h :: calls => Calls h calls
  end.
Definition call_text (coll method args : string) : string :=
  "__call_db(" +:+ ShellSource.quoted_text coll +:+ ", " +:+ ShellSource.quoted_text method +:+ ", " +:+ args.
Definition method_call (coll method : string) (args : list JsValue) : host_call :=
  HostCallDb (JsString coll :: JsString method :: args).
Definition users_doc : JsValue := JsObject [("a", JsBoolean true)].

(** It knows one source: the script below, rewritten. *)
Definition script : string :=
  "use shop;" +:+ ShellSource.newline +:+
  "db.users.insertOne({a: true}); db.users.deleteMany('all'); db.runCommand({}); db.users.drop()".
Definition rewritten_script : string :=
  call_text "users" "insertOne" "{a: true}); " +:+ call_text "users" "deleteMany" "'all'); " +:+
  "__run_command({}); " +:+ call_text "users" "drop" ")".
Definition program : list host_call :=
  [method_call "users" "insertOne" [users_doc]; method_call "users" "deleteMany" [JsString "all"];
   HostRunCommand [JsObject []]; method_call "users" "drop" []].
#[local] Instance one_script : JsEngine :=
  {| Context_ := list host_call; context_default := [];
     js_eval src _ := if bool_decide (src = wrap rewritten_script) then program_step program
                      else Finished (Err "SyntaxError") [];
     js_continue := program_step;
     js_return calls r := match r with Ok _ => program_step calls | Err e => Finished (Err e) [] end |}.

Definition shell_clock (n : nat) : Z := 1000000000 * Z.of_nat (S n).
Definition shell_stamps (n : nat) : Timeline.Stamp :=
  {| Timeline.entry_id := ""; Timeline.created := "t"; Timeline.executed := "t" |}.
Definition start_world : ShellWorld Fp mem :=
  {| sh_srv := tt; sh_requests := []; sh_audit := false; sh_deployment_id := ""; sh_log := AuditExample.fresh None;
     sh_ticks := 0; sh_fresh := 0; sh_output := []; sh_active_db := ""; sh_last_pipeline := [];
     sh_last_collection := None; sh_operations := [] |}.
Definition laptop : ClientEntry := {| en_profile_id := "profile"; en_deployment_id := "standalone" |}.
Definition start_state : AppState :=
  {| st_clients := {["c1" := laptop]}; st_shells := ∅; st_timeline := Timeline.new ∅; st_world := start_world |}.
Definition request : ShellRequestDto :=
  {| rq_connection_id := "c1"; rq_script := script; rq_active_database := None; rq_fallback_database := Some "test" |}.

Abbreviation shell_end := (eval_shell shell_clock 10 7 shell_stamps request start_state).
Definition left_commands : list AuditSession.command :=
  [Record 1000000000 "standalone" (OpInsert "shop" "users" "{..}");
   Record 2000000000 "standalone" (OpDelete "shop" "users" "{}")].

Lemma request_leaves :
  request_step shell_clock 10 request laptop start_state =
    ([OpInsert "shop" "users" "{..}"; OpDelete "shop" "users" "{}"],
     [(Timeline.InsertOne, "shop", "users"); (Timeline.DeleteMany, "shop", "users")]).
Proof. vm_compute. reflexivity. Qed.

Lemma request_ends : match shell_end.1 with Some (Ok _) => True | _ => False end.
Proof. vm_compute. exact I. Qed.

(** The insert and the delete are recorded (the delete with an empty filter: the argument was
    not a document); the command is not, and dropping the collection failed. *)
Lemma eval_shell_leaves_witness :
  sh_log (st_world shell_end.2) = run left_commands (AuditExample.fresh None) /\
  match shell_end.1 with
  | Some (Ok response) =>
    rs_operations response = [] /\
    map noted (Timeline.entries (st_timeline shell_end.2)) =
      [(Timeline.InsertOne, "shop", "users"); (Timeline.DeleteMany, "shop", "users")]
  | _ => False
  end.
Proof.
  pose proof (eval_shell_leaves shell_clock 10 7 shell_stamps request laptop start_state eq_refl) as H.
  rewrite request_leaves in H. pose proof request_ends as He.
  destruct shell_end as [[[response|e]|] s']; try destruct He. exact H.
Defined.

Lemma shell_writes_survive_restart_witness :
  session "d" None left_commands (sh_log (st_world shell_end.2)) /\
  set_persistence_dir "d" (started None (disk (sh_log (st_world shell_end.2)))) = (Ok tt, sh_log (st_world shell_end.2)).
Proof.
  assert (session "d" None [] (sh_log (st_world start_state))) as Hs by (apply (AuditExample.session_after [] None); done).
  pose proof (shell_writes_survive_restart shell_clock "d" None [] 10 7 shell_stamps request laptop start_state Hs
                eq_refl eq_refl) as H.
  rewrite request_leaves in H. apply H. done.
Defined.
