(* ===== verification/SqlAst.v ===== *)
(** * Parsed SQL

    The part of the syntax trees of the [sqlparser] crate that
    src-tauri/src/mongo/sql_to_mongo.rs takes apart: one constructor for each one it
    matches, one for the rest.  Parsing, the tokenizer and the printing of what is not
    supported are an interface. *)

From Stdlib Require Import Ascii.
From S2P Require Import Prelude.

Record Ident := { ident_value : string; quote_style : option ascii }.

Inductive BinaryOperator :=
| OpEq | OpSpaceship | OpNotEq | OpLt | OpLtEq | OpGt | OpGtEq | OpAnd | OpOr
| OpPlus | OpMinus | OpMultiply | OpDivide | OpModulo | OpOther (text : string).
#[export] Instance BinaryOperator_eq_dec : EqDecision BinaryOperator.
Proof. solve_decision. Defined.

Inductive UnaryOperator := UMinus | UPlus | UNot | UOther.

Inductive SqlValue :=
| Number (s : string)
| SingleQuotedString (s : string)
| DoubleQuotedString (s : string)
| EscapedStringLiteral (s : string)
| NationalStringLiteral (s : string)
| SqlBoolean (b : bool)
| SqlNull
| OtherValue (text : string).

(** An argument of a function is an expression or, as in [COUNT] of a star, something the
    translation skips; [None] stands for arguments that are a subquery. *)
Unset Elimination Schemes.
Inductive SqlExpr :=
| Identifier (i : Ident)
| CompoundIdentifier (is_ : list Ident)
| Nested (e : SqlExpr)
| Value (v : SqlValue)
| UnaryOp (op : UnaryOperator) (e : SqlExpr)
| BinaryOp (left : SqlExpr) (op : BinaryOperator) (right : SqlExpr)
| InList (e : SqlExpr) (l : list SqlExpr) (negated : bool)
| IsNull (e : SqlExpr)
| IsNotNull (e : SqlExpr)
| Between (e : SqlExpr) (negated : bool) (low high : SqlExpr)
| Like (negated : bool) (e pattern : SqlExpr)
| ILike (negated : bool) (e pattern : SqlExpr)
| Function (name : string) (args : option (list (option SqlExpr)))
| OtherExpr (text : string).
Set Elimination Schemes.

(** Structural induction through the nested lists. *)
Definition on_arg {A} (P : A -> Prop) (a : option A) : Prop := match a with Some e => P e | None => True end.

Section sql_expr_ind.
Context (P : SqlExpr -> Prop).
Context (HIdentifier : forall i, P (Identifier i)) (HCompound : forall l, P (CompoundIdentifier l))
  (HNested : forall e, P e -> P (Nested e)) (HValue : forall v, P (Value v))
  (HUnary : forall op e, P e -> P (UnaryOp op e))
  (HBinary : forall l op r, P l -> P r -> P (BinaryOp l op r))
  (HInList : forall e l negated, P e -> Forall P l -> P (InList e l negated))
  (HIsNull : forall e, P e -> P (IsNull e)) (HIsNotNull : forall e, P e -> P (IsNotNull e))
  (HBetween : forall e negated low high, P e -> P low -> P high -> P (Between e negated low high))
  (HLike : forall negated e pattern, P e -> P pattern -> P (Like negated e pattern))
  (HILike : forall negated e pattern, P e -> P pattern -> P (ILike negated e pattern))
  (HNoArgs : forall name, P (Function name None))
  (HFunction : forall name l, Forall (on_arg P) l -> P (Function name (Some l)))
  (HOther : forall text, P (OtherExpr text)).

Fixpoint SqlExpr_nested_ind (e : SqlExpr) : P e :=
  match e with
  | Identifier i => HIdentifier i
  | CompoundIdentifier l => HCompound l
  | Nested e => HNested e (SqlExpr_nested_ind e)
  | Value v => HValue v
  | UnaryOp op e => HUnary op e (SqlExpr_nested_ind e)
  | BinaryOp l op r => HBinary l op r (SqlExpr_nested_ind l) (SqlExpr_nested_ind r)
  | InList e l negated =>
    HInList e l negated (SqlExpr_nested_ind e)
      ((fix go l : Forall P l := match l with
         | [] => Forall_nil_2 _
         | e :: l => Forall_cons_2 _ e l (SqlExpr_nested_ind e) (go l)
         end) l)
  | IsNull e => HIsNull e (SqlExpr_nested_ind e)
  | IsNotNull e => HIsNotNull e (SqlExpr_nested_ind e)
  | Between e negated low high =>
    HBetween e negated low high (SqlExpr_nested_ind e) (SqlExpr_nested_ind low) (SqlExpr_nested_ind high)
  | Like negated e pattern => HLike negated e pattern (SqlExpr_nested_ind e) (SqlExpr_nested_ind pattern)
  | ILike negated e pattern => HILike negated e pattern (SqlExpr_nested_ind e) (SqlExpr_nested_ind pattern)
  | Function name None => HNoArgs name
  | Function name (Some l) =>
    HFunction name l
      ((fix go l : Forall (on_arg P) l := match l with
         | [] => Forall_nil_2 _
         | None :: l => Forall_cons_2 _ None l I (go l)
         | Some e :: l => Forall_cons_2 (on_arg P) (Some e) l (SqlExpr_nested_ind e) (go l)
         end) l)
  | OtherExpr text => HOther text
  end.
End sql_expr_ind.

Inductive TableFactor := Table (name : string) | OtherFactor.
Inductive JoinConstraint := On (e : SqlExpr) | OtherConstraint.
Inductive JoinOperator :=
| PlainJoin (c : JoinConstraint) | InnerJoin (c : JoinConstraint)
| LeftJoin (c : JoinConstraint) | LeftOuterJoin (c : JoinConstraint)
| OtherJoin (text : string).
Record Join := { join_relation : TableFactor; join_operator : JoinOperator }.
Record TableWithJoins := { relation : TableFactor; joins : list Join }.

Inductive SqlSelectItem :=
| Wildcard
| UnnamedExpr (e : SqlExpr)
| ExprWithAlias (e : SqlExpr) (alias : string)
| QualifiedWildcard
| ExprWithAliases.

Inductive Distinct := DistinctRows | DistinctOn | DistinctOther.
Inductive GroupByExpr := GroupBy (exprs : list SqlExpr) (modifiers : bool) | GroupByAll.

Record Select := {
  distinct : option Distinct;
  projection : list SqlSelectItem;
  from : list TableWithJoins;
  selection : option SqlExpr;
  group_by : GroupByExpr;
  having : option SqlExpr;
}.

Inductive SetExpr :=
| SelectBody (s : Select)
| QueryBody (body : SetExpr)
| ValuesBody (rows : list (list SqlExpr))
| OtherBody.

(** [asc] is the written direction. *)
Record OrderByExpr := { order_expr : SqlExpr; asc : option bool }.
Inductive OrderBy := OrderByExprs (l : list OrderByExpr) | OrderByAll.
Inductive LimitClause :=
| LimitOffset (limit offset : option SqlExpr) (limit_by : bool)
| OffsetCommaLimit (offset limit : SqlExpr).

Record Query := {
  with_ : bool;
  body : SetExpr;
  order_by : option OrderBy;
  limit_clause : option LimitClause;
}.

Inductive AssignmentTarget := ColumnName (name : string) | TupleTarget.
Record SqlUpdate := {
  update_table : TableWithJoins;
  assignments : list (AssignmentTarget * SqlExpr);
  update_selection : option SqlExpr;
}.
Inductive TableObject := TableName (name : string) | TableFunction | TableQuery.
Record SqlInsert := {
  insert_table : TableObject;
  source : option SetExpr;
  columns : list string;
}.
Record SqlDelete := { delete_from : list TableWithJoins; delete_selection : option SqlExpr }.

Inductive Statement :=
| QueryStatement (q : Query)
| UpdateStatement (u : SqlUpdate)
| InsertStatement (i : SqlInsert)
| DeleteStatement (d : SqlDelete)
| OtherStatement (text : string).

(** A token is blank space, a semicolon, an unquoted word or something else. *)
Inductive Token := Whitespace (text : string) | SemiColon | Word (text : string) | OtherToken (text : string).
Definition token_text (t : Token) : string :=
  match t with Whitespace s | Word s | OtherToken s => s | SemiColon => ";" end.

Class SqlParser := {
  parse_sql : string -> result string (list Statement);
  tokenize : string -> option (list Token);
  expr_text : SqlExpr -> string;
  regex_escape : ascii -> string;
}.
