(* ===== verification/SqlExpr.v ===== *)
(** * SQL expressions as MongoDB expressions and filters
    (src-tauri/src/mongo/sql_to_mongo.rs)

    [expr_to_agg_expr] gives the aggregation expression of a SQL expression,
    [expr_to_filter] the filter document of a WHERE clause.  A translation collects
    warnings and can fail. *)

From Stdlib Require Import Ascii.
From S2P Require Import Prelude.
From S2P Require Import Bytes.
From S2P Require Import Text.
From S2P Require Import AppError.
From S2P Require Import Fields.
From S2P Require Import Json.
From S2P Require Import OplogCanon.
From S2P Require Import BsonJson.
From S2P Require Import SqlAst.
Local Open Scope string_scope.
Local Open Scope list_scope.

(** ** Identifiers and literals *)

(** The double quote. *)
Definition dquote : ascii := ascii_of_nat 34.

Inductive IdentKind := IField (f : string) | DateTag (tag : string) | StringLiteral (s : string).

Definition classify_ident (i : Ident) : IdentKind :=
  match strip_hash (ident_value i) with
  | Some tag => DateTag tag
  | None => if bool_decide (quote_style i = Some dquote) then StringLiteral (ident_value i)
            else IField (ident_value i)
  end.

Definition ident_chain (is_ : list Ident) : string := join "." (map ident_value is_).

Fixpoint field_name (e : SqlExpr) : option string :=
  match e with
  | Identifier i => match classify_ident i with IField f => Some f | _ => None end
  | CompoundIdentifier is_ => Some (ident_chain is_)
  | Nested inner => field_name inner
  | _ => None
  end.

Fixpoint is_literal (e : SqlExpr) : bool :=
  match e with
  | Value _ => true
  | Identifier i => match classify_ident i with IField _ => false | _ => true end
  | UnaryOp (UMinus | UPlus) e => is_literal e
  | Nested inner => is_literal inner
  | _ => false
  end.

(** The regular expression of a [LIKE] pattern.  The text is read byte by byte: [regex::escape]
    changes ASCII characters only, and a byte of a longer character is none of the special
    ones. *)
Section like.
Context {SP : SqlParser}.

Definition backslash : ascii := ascii_of_nat 92.

Fixpoint like_chars (s : string) : string :=
  match s with
  | "" => ""
  | String c rest =>
    if bool_decide (c = "%"%char) then ".*" +:+ like_chars rest
    else if bool_decide (c = "_"%char) then "." +:+ like_chars rest
    else if bool_decide (c = backslash) then
      match rest with
      | String next rest => regex_escape next +:+ like_chars rest
      | "" => String backslash (String backslash "")
      end
    else regex_escape c +:+ like_chars rest
  end.

Definition like_pattern_to_regex (pattern : string) : string := "^" +:+ like_chars pattern +:+ "$".
End like.

(** ** Aggregation expressions *)

Section sql_expr.
Context {FL : Float64} {LT : Letters} {SP : SqlParser}.
(** The start of the current day, for date tags. *)
Context (today : Z).

(** A translation with the warnings collected so far. *)
Definition sql (A : Type) : Type := stateR (list string) AppError A.
Definition warn (w : string) : sql unit := modify (fun ws => ws ++ [w]).

(** [json!({ op: v })], [json!({ op: [..] })] *)
Definition op1 (op : string) (v : Json) : Json := JObject [(op, v)].
Definition opn (op : string) (vs : list Json) : Json := op1 op (JArray vs).

Definition value_to_json (v : SqlValue) : sql Json :=
  match v with
  | Number s =>
    match f64_parse s with
    | Ok n => mret (json_f64 n)
    | Err e => throw (SqlParse ("invalid number `" +:+ s +:+ "`: " +:+ e))
    end
  | SingleQuotedString s | DoubleQuotedString s | EscapedStringLiteral s | NationalStringLiteral s =>
    mret (JString s)
  | SqlBoolean b => mret (JBool b)
  | SqlNull => mret JNull
  | OtherValue text => _ ← warn ("unsupported literal value, treated as null: " +:+ text); mret JNull
  end.

Definition not_a_pattern : sql string :=
  _ ← warn "LIKE pattern must be a string literal; treated as empty"; mret "".

Definition like_pattern_string (pattern : SqlExpr) : sql string :=
  match pattern with
  | Value (SingleQuotedString s | DoubleQuotedString s) => mret s
  | Identifier i => if bool_decide (quote_style i = Some dquote) then mret (ident_value i) else not_a_pattern
  | _ => not_a_pattern
  end.

Definition negate (negated : bool) (m : Json) : Json := if negated then opn "$not" [m] else m.

Definition regex_match (input regex : Json) (options : option Json) : Json :=
  op1 "$regexMatch" (JObject ([("input", input); ("regex", regex)] ++
    match options with Some o => [("options", o)] | None => [] end)).

(** [inner] is the translation of the operand. *)
Definition like_to_agg_expr (inner : sql Json) (pattern : SqlExpr) (case_insensitive negated : bool) : sql Json :=
  input ← inner;
  p ← like_pattern_string pattern;
  mret (negate negated (regex_match input (JString (like_pattern_to_regex p))
    (if case_insensitive then Some (JString "i") else None))).

(** The translations of the arguments, to be run by the function that uses them. *)
Definition function_args (args : option (list (option (sql Json)))) : sql (list (sql Json)) :=
  match args with
  | None => throw (SqlParse "subqueries as function arguments are not supported")
  | Some l => mret (omap id l)
  end.

Definition one_arg (upper : string) (args : list (sql Json)) : sql Json :=
  match args with
  | inner :: _ => inner
  | [] => throw (SqlParse (upper +:+ "() needs an argument"))
  end.

(** The accumulators and the functions of one argument. *)
Definition unary_function (upper : string) : option string :=
  if bool_decide (upper = "SUM") then Some "$sum"
  else if bool_decide (upper = "AVG") then Some "$avg"
  else if bool_decide (upper = "MIN") then Some "$min"
  else if bool_decide (upper = "MAX") then Some "$max"
  else if bool_decide (upper = "LOWER") then Some "$toLower"
  else if bool_decide (upper = "UPPER") then Some "$toUpper"
  else if bool_decide (upper = "ABS") then Some "$abs"
  else if bool_decide (upper = "CEIL") then Some "$ceil"
  else if bool_decide (upper = "FLOOR") then Some "$floor"
  else if bool_decide (upper = "SQRT") then Some "$sqrt"
  else None.

Definition function_to_agg_expr (name : string) (fargs : option (list (option (sql Json)))) : sql Json :=
  let upper := to_uppercase name in
  args ← function_args fargs;
  if bool_decide (upper = "COUNT") then mret (op1 "$sum" (JInt 1))
  else if bool_decide (upper = "REGEX" \/ upper = "REGEXMATCH") then
    match args with
    | input :: pattern :: rest =>
      input ← input;
      pattern ← pattern;
      options ← match rest with opts :: _ => o ← opts; mret (Some o) | [] => mret None end;
      mret (regex_match input pattern options)
    | _ => throw (SqlParse "REGEX requires at least 2 arguments: input, pattern")
    end
  else if bool_decide (upper = "COALESCE") then vals ← collect args; mret (opn "$ifNull" vals)
  else if bool_decide (upper = "TRIM") then
    inner ← one_arg upper args; mret (op1 "$trim" (op1 "input" inner))
  else
    match unary_function upper with
    | Some op => inner ← one_arg upper args; mret (op1 op inner)
    | None => _ ← warn ("unhandled function " +:+ upper); mret JNull
    end.

Definition mongo_operator (op : BinaryOperator) : sql string :=
  match op with
  | OpEq | OpSpaceship => mret "$eq"
  | OpNotEq => mret "$ne"
  | OpLt => mret "$lt"
  | OpLtEq => mret "$lte"
  | OpGt => mret "$gt"
  | OpGtEq => mret "$gte"
  | OpAnd => mret "$and"
  | OpOr => mret "$or"
  | OpPlus => mret "$add"
  | OpMinus => mret "$subtract"
  | OpMultiply => mret "$multiply"
  | OpDivide => mret "$divide"
  | OpModulo => mret "$mod"
  | OpOther text => _ ← warn ("unsupported operator `" +:+ text +:+ "`, treated as `=`"); mret "$eq"
  end.

Definition binary_op_to_agg_expr (left : sql Json) (op : BinaryOperator) (right : sql Json) : sql Json :=
  mongo_op ← mongo_operator op;
  l ← left;
  r ← right;
  mret (opn mongo_op [l; r]).

Definition ident_to_agg_expr (i : Ident) : sql Json :=
  match classify_ident i with
  | IField f => mret (JString ("$" +:+ f))
  | StringLiteral s => mret (JString s)
  | DateTag tag =>
    match resolve_date_tag today tag with
    | Some dt => mret (date_to_extjson dt)
    | None => _ ← warn ("unknown date tag #" +:+ tag); mret (JString ("#" +:+ tag))
    end
  end.

Definition between_agg (e l h : Json) : Json := opn "$and" [opn "$gte" [e; l]; opn "$lte" [e; h]].

Fixpoint expr_to_agg_expr (e : SqlExpr) : sql Json :=
  match e with
  | Identifier i => ident_to_agg_expr i
  | CompoundIdentifier is_ => mret (JString ("$" +:+ ident_chain is_))
  | Nested inner => expr_to_agg_expr inner
  | Value v => value_to_json v
  | UnaryOp UMinus inner =>
    v ← expr_to_agg_expr inner;
    mret (match as_f64 v with Some n => json_f64 (f64_neg n) | None => opn "$multiply" [v; JInt (-1)] end)
  | UnaryOp UPlus inner => expr_to_agg_expr inner
  | UnaryOp UNot inner => v ← expr_to_agg_expr inner; mret (opn "$not" [v])
  | BinaryOp lft op rgt => binary_op_to_agg_expr (expr_to_agg_expr lft) op (expr_to_agg_expr rgt)
  | InList inner l negated =>
    arr ← collect (map expr_to_agg_expr l);
    v ← expr_to_agg_expr inner;
    mret (negate negated (opn "$in" [v; JArray arr]))
  | IsNull inner => v ← expr_to_agg_expr inner; mret (opn "$eq" [v; JNull])
  | IsNotNull inner => v ← expr_to_agg_expr inner; mret (opn "$ne" [v; JNull])
  | Between inner negated low high =>
    e ← expr_to_agg_expr inner;
    l ← expr_to_agg_expr low;
    h ← expr_to_agg_expr high;
    mret (negate negated (between_agg e l h))
  | Like negated inner pattern => like_to_agg_expr (expr_to_agg_expr inner) pattern false negated
  | ILike negated inner pattern => like_to_agg_expr (expr_to_agg_expr inner) pattern true negated
  | Function name args =>
    function_to_agg_expr name (option_map (map (option_map expr_to_agg_expr)) args)
  | _ => _ ← warn ("unsupported expression, treated as null: " +:+ expr_text e); mret JNull
  end.

(** ** Filters *)

(** [{field: value}] for [$eq], otherwise [{field: {op: value}}]. *)
Definition simple_field_filter (op field : string) (value : Json) : Json :=
  if bool_decide (op = "$eq") then op1 field value else op1 field (op1 op value).

Definition swapped (op : string) : string :=
  if bool_decide (op = "$lt") then "$gt"
  else if bool_decide (op = "$gt") then "$lt"
  else if bool_decide (op = "$lte") then "$gte"
  else if bool_decide (op = "$gte") then "$lte"
  else op.

Definition comparison_to_filter (op : string) (l r : SqlExpr) : sql Json :=
  match field_name l, is_literal r with
  | Some field, true => lit ← expr_to_agg_expr r; mret (simple_field_filter op field lit)
  | _, _ =>
    match is_literal l, field_name r with
    | true, Some field => lit ← expr_to_agg_expr l; mret (simple_field_filter (swapped op) field lit)
    | _, _ =>
      lft ← expr_to_agg_expr l;
      rgt ← expr_to_agg_expr r;
      mret (op1 "$expr" (opn op [lft; rgt]))
    end
  end.

(** [k.starts_with('$')] *)
Definition dollar (k : string) : bool := match k with String "$"%char _ => true | _ => false end.

Definition merge_and (lft rgt : Json) : Json :=
  match lft, rgt with
  | JObject l, JObject r =>
    if forallb (fun k => negb (dollar k)) (keys l) && forallb (fun k => negb (dollar k)) (keys r)
       && negb (existsb (has_key r) (keys l))
    then JObject (foldl (fun merged kv => insert kv.1 kv.2 merged) l r)
    else opn "$and" [lft; rgt]
  | _, _ => opn "$and" [lft; rgt]
  end.

Definition comparison_operator (op : BinaryOperator) : option string :=
  match op with
  | OpEq => Some "$eq" | OpNotEq => Some "$ne" | OpLt => Some "$lt" | OpLtEq => Some "$lte"
  | OpGt => Some "$gt" | OpGtEq => Some "$gte" | _ => None
  end.

Fixpoint expr_to_filter (e : SqlExpr) : sql Json :=
  match e with
  | Nested inner => expr_to_filter inner
  | BinaryOp lft OpAnd rgt =>
    l ← expr_to_filter lft; r ← expr_to_filter rgt; mret (merge_and l r)
  | BinaryOp lft OpOr rgt =>
    l ← expr_to_filter lft; r ← expr_to_filter rgt; mret (opn "$or" [l; r])
  | BinaryOp lft op rgt =>
    match comparison_operator op with
    | Some mongo_op => comparison_to_filter mongo_op lft rgt
    | None => agg ← expr_to_agg_expr e; mret (op1 "$expr" agg)
    end
  | InList inner l negated =>
    arr ← collect (map expr_to_agg_expr l);
    match field_name inner with
    | Some field => mret (simple_field_filter (if negated then "$nin" else "$in") field (JArray arr))
    | None =>
      lft ← expr_to_agg_expr inner;
      mret (op1 "$expr" (negate negated (opn "$in" [lft; JArray arr])))
    end
  | IsNull inner =>
    match field_name inner with
    | Some field => mret (op1 field JNull)
    | None => v ← expr_to_agg_expr inner; mret (op1 "$expr" (opn "$eq" [v; JNull]))
    end
  | IsNotNull inner =>
    match field_name inner with
    | Some field => mret (op1 field (op1 "$ne" JNull))
    | None => v ← expr_to_agg_expr inner; mret (op1 "$expr" (opn "$ne" [v; JNull]))
    end
  | Between inner negated low high =>
    match field_name inner with
    | Some field =>
      l ← expr_to_agg_expr low;
      h ← expr_to_agg_expr high;
      mret (if negated then opn "$or" [op1 field (op1 "$lt" l); op1 field (op1 "$gt" h)]
            else op1 field (JObject [("$gte", l); ("$lte", h)]))
    | None => agg ← expr_to_agg_expr e; mret (op1 "$expr" agg)
    end
  | _ => agg ← expr_to_agg_expr e; mret (op1 "$expr" agg)
  end.
End sql_expr.
