(* ===== verification/JsonText.v ===== *)
(** * JSON as text

    The bytes that scanners look for, and what they rely on: outside strings the brackets
    are balanced, and a string ends at the first quote that is not escaped. *)

From S2P Require Import Prelude.
From S2P Require Import Bytes.

Definition DQUOTE : byte := x22.
Definition BACKSLASH : byte := x5c.
Definition LBRACE : byte := x7b.
Definition RBRACE : byte := x7d.
Definition LBRACKET : byte := x5b.
Definition RBRACKET : byte := x5d.
Definition COMMA : byte := x2c.

(** What is between the quotes of a string. *)
Inductive string_body : list byte -> Prop :=
| string_nil : string_body []
| string_byte c s : c <> DQUOTE -> c <> BACKSLASH -> string_body s -> string_body (c :: s)
| string_escape c s : string_body s -> string_body (BACKSLASH :: c :: s).

(** What is between the braces of an object, for a scanner that counts braces only. *)
Inductive object_body : list byte -> Prop :=
| body_nil : object_body []
| body_byte c t : c <> DQUOTE -> c <> LBRACE -> c <> RBRACE -> object_body t -> object_body (c :: t)
| body_string s t : string_body s -> object_body t -> object_body (DQUOTE :: s ++ DQUOTE :: t)
| body_object u t : object_body u -> object_body t -> object_body (LBRACE :: u ++ RBRACE :: t).

Definition object_text (l : list byte) : Prop := exists b, l = LBRACE :: b ++ [RBRACE] /\ object_body b.

(** The same for a scanner that counts both kinds of brackets. *)
Inductive value_body : list byte -> Prop :=
| value_nil : value_body []
| value_byte c t : c ∉ [DQUOTE; LBRACE; RBRACE; LBRACKET; RBRACKET] -> value_body t -> value_body (c :: t)
| value_string s t : string_body s -> value_body t -> value_body (DQUOTE :: s ++ DQUOTE :: t)
| value_nested o u c t : o ∈ [LBRACE; LBRACKET] -> c ∈ [RBRACE; RBRACKET] -> value_body u -> value_body t ->
    value_body (o :: u ++ c :: t).

Definition value_text (l : list byte) : Prop := exists b, l = LBRACE :: b ++ [RBRACE] /\ value_body b.
