(* ===== verification/SqlToMongo.v ===== *)
(** * SQL statements as MongoDB operations (src-tauri/src/mongo/sql_to_mongo.rs)

    [translate] and what it calls: the raw-JSON INSERT shorthand, the keyword aliases, and
    the translation of the four statements to a filter, a pipeline, the [find] shortcut, or
    documents.  The generated driver code is text for display and is left out. *)

From Stdlib Require Import Ascii.
From stdpp Require Import pretty.
From S2P Require Import Prelude.
From S2P Require Import Bytes.
From S2P Require Import Text.
From S2P Require Import AppError.
From S2P Require Import Fields.
From S2P Require Import Json.
From S2P Require Import JsonText.
From S2P Require Import SqlAst.
From S2P Require Import SqlExpr.
Local Open Scope string_scope.
Local Open Scope list_scope.

Inductive SqlOperation :=
| Aggregate
| Find
| Update (filter update : Json) (multi upsert : bool)
| Insert (documents : list Json)
| Delete (filter : Json) (multi : bool)
| Replace (filter replacement : Json) (upsert : bool).

(** [translation_database], [translation_collection], ...: [code] is left out. *)
Record SqlTranslation := {
  database : string;
  collection : string;
  operation : SqlOperation;
  pipeline : list Json;
  find : option Json;
  warnings : list string;
}.

(** ** Keywords *)

(** [c.is_ascii_alphanumeric() || c == '_'] *)
Definition word_byte (b : byte) : bool :=
  let z := Z.of_N (Byte.to_N b) in
  bool_decide (48 <= z <= 57 \/ 65 <= z <= 90 \/ 97 <= z <= 122 \/ z = 95)%Z.

(** The bytes of [kw], at a word boundary. *)
Definition keyword_at (kw : string) (rest : list byte) : bool :=
  let n := length (as_bytes kw) in
  bool_decide (n <= length rest)%nat && eq_ignore_ascii_case (take n rest) (as_bytes kw) &&
  match rest !! n with Some c => negb (word_byte c) | None => true end.

Definition is_leading_keyword (sql_ kw : string) : bool := keyword_at kw (trim_start (as_bytes sql_)).

Definition rewrite_leading_alias (sql_ : string) : string :=
  let rest := trim_start (as_bytes sql_) in
  let prefix := take (length (as_bytes sql_) - length rest) (as_bytes sql_) in
  if keyword_at "REMOVE" rest then of_bytes (prefix ++ as_bytes "DELETE" ++ drop 6 rest)
  else if keyword_at "UPSERT" rest then of_bytes (prefix ++ as_bytes "INSERT" ++ drop 6 rest)
  else sql_.

(** The tokens are read from the last one. *)
Fixpoint drop_blank (tokens : list Token) : list Token :=
  match tokens with (Whitespace _ | SemiColon) :: tokens => drop_blank tokens | _ => tokens end.

Definition strip_trailing_word `{SqlParser} (sql_ word : string) : string * bool :=
  match tokenize sql_ with
  | None => (sql_, false)
  | Some tokens =>
    match drop_blank (reverse tokens) with
    | Word w :: before =>
      if eq_ignore_ascii_case (as_bytes w) (as_bytes word)
      then (join "" (map token_text (reverse before)), true)
      else (sql_, false)
    | _ => (sql_, false)
    end
  end.

(** ** The raw-JSON INSERT shorthand *)

(** [JsonScan]: the text from [pos] on. *)
Definition scan (A : Type) : Type := stateR (list byte) AppError A.

Definition skip_ws : scan unit := modify trim_start.
Definition peek_char : scan (option byte) := gets head.
Definition consume_keyword (kw : string) : scan bool :=
  fun rest => if keyword_at kw rest then (Ok true, drop (length (as_bytes kw)) rest) else (Ok false, rest).

Fixpoint word_prefix (l : list byte) : list byte * list byte :=
  match l with
  | b :: l' => if word_byte b then let '(w, r) := word_prefix l' in (b :: w, r) else ([], l)
  | [] => ([], [])
  end.

Definition parse_identifier : scan (option string) :=
  fun rest => let '(w, r) := word_prefix rest in
              (Ok (match w with [] => None | _ => Some (of_bytes w) end), r).

(** The loop of [parse_json_value]: the depth it ends with and the text after the value. *)
Fixpoint skip_json (open close : byte) (depth : nat) (in_string escape : bool) (l : list byte) : nat * list byte :=
  match l with
  | [] => (depth, [])
  | c :: l =>
    if in_string then
      if escape then skip_json open close depth true false l
      else if bool_decide (c = BACKSLASH) then skip_json open close depth true true l
      else skip_json open close depth (negb (bool_decide (c = DQUOTE))) false l
    else if bool_decide (c = DQUOTE) then skip_json open close depth true escape l
    else if bool_decide (c = open) then skip_json open close (S depth) false escape l
    else if bool_decide (c = close) then
      let depth := (depth - 1)%nat in
      if bool_decide (depth = 0%nat) then (depth, l) else skip_json open close depth false escape l
    else skip_json open close depth false escape l
  end.

Definition parse_json_value `{JsonText} : scan Json :=
  _ ← skip_ws;
  start ← get_state;
  close ← match head start with
          | Some b => if bool_decide (b = LBRACE) then mret RBRACE
                      else if bool_decide (b = LBRACKET) then mret RBRACKET
                      else throw (SqlParse "expected `{` or `[` to start a JSON value")
          | None => throw (SqlParse "expected `{` or `[` to start a JSON value")
          end;
  let open := if bool_decide (close = RBRACE) then LBRACE else LBRACKET in
  let '(depth, rest) := skip_json open close 0 false false start in
  _ ← modify (fun _ => rest);
  if negb (bool_decide (depth = 0%nat)) then throw (SqlParse "unterminated JSON value")
  else
    match json_from_str (of_bytes (take (length start - length rest) start)) with
    | Ok v => mret v
    | Err e => throw (SqlParse ("invalid JSON value: " +:+ e))
    end.

(** Every round consumes a value, so the length of the text is enough fuel. *)
Fixpoint parse_documents `{JsonText} (fuel : nat) (documents : list Json) : scan (list Json) :=
  match fuel with
  | O => throw (Internal "out of fuel")
  | S fuel =>
    v ← parse_json_value;
    _ ← skip_ws;
    c ← peek_char;
    if bool_decide (c = Some COMMA) then
      _ ← modify (drop 1);
      _ ← skip_ws;
      parse_documents fuel (documents ++ [v])
    else mret (documents ++ [v])
  end.

(** From the name of the collection on. *)
Definition scan_values `{JsonText} (src : list byte) (collection_ : string) : scan (option (string * list Json)) :=
  _ ← skip_ws;
  values ← consume_keyword "VALUES";
  _ ← (if (values : bool) then skip_ws else mret tt);
  c ← peek_char;
  if negb (bool_decide (c = Some LBRACE)) then mret None else
  rest ← get_state;
  documents ← parse_documents (length rest) [];
  _ ← skip_ws;
  rest ← get_state;
  if bool_decide (rest = []) then mret (Some (collection_, documents))
  else throw (SqlParse ("unexpected trailing input at position " +:+ pretty (length src - length rest)%nat)).

Definition scan_insert `{JsonText} (src : list byte) : scan (option (string * list Json)) :=
  _ ← skip_ws;
  insert_ ← consume_keyword "INSERT";
  found ← (if (insert_ : bool) then mret true else consume_keyword "UPSERT");
  if negb found then mret None else
  _ ← skip_ws;
  into ← consume_keyword "INTO";
  if negb into then mret None else
  _ ← skip_ws;
  c ← parse_identifier;
  match c with
  | None => mret None
  | Some collection_ => scan_values src collection_
  end.

Definition detect_json_insert `{JsonText} (sql_ : string) : result AppError (option (string * list Json)) :=
  (scan_insert (as_bytes sql_) (as_bytes sql_)).1.

(** ** SELECT *)

Inductive ProjItem := Star | Item (e : SqlExpr) (alias : option string).
Record OrderItem := { item_expr : SqlExpr; desc : bool }.
Inductive JoinKind := Inner | Left.
Record JoinClause := { join_collection : string; local_field : string; foreign_field : string; kind : JoinKind }.

Fixpoint unwrap_query_body (b : SetExpr) : result AppError Select :=
  match b with
  | SelectBody s => Ok s
  | QueryBody inner => unwrap_query_body inner
  | _ => Err (SqlParse "only simple SELECT statements are supported (no UNION/EXCEPT/INTERSECT)")
  end.

Definition table_factor_name (tf : TableFactor) : result AppError string :=
  match tf with
  | Table name => Ok name
  | OtherFactor => Err (SqlParse "FROM/JOIN must reference a simple table name (subqueries and table functions are not supported)")
  end.

Definition convert_item (item : SqlSelectItem) : result AppError ProjItem :=
  match item with
  | Wildcard => Ok Star
  | UnnamedExpr e => Ok (Item e None)
  | ExprWithAlias e alias => Ok (Item e (Some alias))
  | QualifiedWildcard => Err (SqlParse "qualified wildcards (table.*) are not supported")
  | ExprWithAliases => Err (SqlParse "multi-alias projections are not supported")
  end.
Definition convert_projection (items : list SqlSelectItem) : result AppError (list ProjItem) :=
  mapR convert_item items.

Definition projection_name (e : SqlExpr) (alias : option string) : string :=
  default (default "expr" (field_name e)) alias.

Definition join_side_field (e : SqlExpr) : result AppError string :=
  match e with
  | Identifier i => Ok (ident_value i)
  | CompoundIdentifier is_ =>
    match last is_ with
    | Some i => Ok (ident_value i)
    | None => Err (SqlParse "empty identifier in JOIN ON clause")
    end
  | _ => Err (SqlParse "JOIN ON clause must compare simple field references")
  end.

Fixpoint join_condition_fields (e : SqlExpr) : result AppError (string * string) :=
  match e with
  | BinaryOp l OpEq r => a ← join_side_field l; b ← join_side_field r; Ok (a, b)
  | Nested inner => join_condition_fields inner
  | _ => Err (SqlParse "JOIN ON clause must be a simple equality: <field> = <field>")
  end.

Definition join_kind (op : JoinOperator) : result AppError (JoinKind * JoinConstraint) :=
  match op with
  | PlainJoin c | InnerJoin c => Ok (Inner, c)
  | LeftJoin c | LeftOuterJoin c => Ok (Left, c)
  | OtherJoin text =>
    Err (SqlParse ("unsupported join type `" +:+ text +:+ "`; only INNER/LEFT JOIN ... ON <a> = <b> is supported"))
  end.

Definition build_join (j : Join) : result AppError JoinClause :=
  c ← table_factor_name (join_relation j);
  '(k, constraint) ← join_kind (join_operator j);
  match constraint with
  | On e =>
    '(l, f) ← join_condition_fields e;
    Ok {| join_collection := c; local_field := l; foreign_field := f; kind := k |}
  | OtherConstraint => Err (SqlParse "JOIN requires an ON <field> = <field> condition")
  end.

Definition join_to_lookup (j : JoinClause) : list Json :=
  let as_name := join_collection j +:+ "_joined" in
  let lookup_ := op1 "$lookup" (JObject [("from", JString (join_collection j));
    ("localField", JString (local_field j)); ("foreignField", JString (foreign_field j));
    ("as", JString as_name)]) in
  match kind j with
  | Left => [lookup_]
  | Inner => [lookup_; op1 "$match" (op1 as_name (op1 "$ne" (JArray [])))]
  end.

Section sql_to_mongo.
Context {FL : Float64} {LT : Letters} {SP : SqlParser} {JT : JsonText}.
Context (today : Z).

Definition I64_MIN : Z := (- 2 ^ 63)%Z.
Definition I64_MAX : Z := (2 ^ 63 - 1)%Z.
Definition U64_MAX : Z := (2 ^ 64 - 1)%Z.

Definition expr_to_i64 (e : SqlExpr) : sql Z :=
  v ← expr_to_agg_expr today e;
  match as_f64 v with
  | Some n => mret (f64_as_int I64_MIN I64_MAX n)
  | None => throw (SqlParse "LIMIT must be a numeric literal")
  end.
Definition expr_to_u64 (e : SqlExpr) : sql Z :=
  v ← expr_to_agg_expr today e;
  match as_f64 v with
  | Some n => mret (f64_as_int 0 U64_MAX n)
  | None => throw (SqlParse "OFFSET must be a numeric literal")
  end.

Fixpoint project_items (out : fields Json) (projection_ : list ProjItem) : sql (fields Json) :=
  match projection_ with
  | [] => mret out
  | Star :: l => project_items out l
  | Item e alias :: l =>
    value ← expr_to_agg_expr today e;
    project_items (insert (projection_name e alias) value out) l
  end.
Definition build_project_stage (projection_ : list ProjItem) : sql (fields Json) := project_items [] projection_.

Definition build_distinct_group_key (projection_ : list ProjItem) : result AppError Json :=
  let items := omap (fun p => match p with Star => None | Item e alias => Some (projection_name e alias) end) projection_ in
  let has_star := existsb (fun p => match p with Star => true | _ => false end) projection_ in
  if has_star || bool_decide (items = [])
  then Err (SqlParse "SELECT DISTINCT requires at least one named column")
  else Ok (JObject (foldl (fun out name => insert name (JString ("$" +:+ name)) out) [] items)).

Definition is_grouping_key (e : SqlExpr) (group_keys : list SqlExpr) : bool :=
  match field_name e with
  | Some name => existsb (fun k => bool_decide (field_name k = Some name)) group_keys
  | None => false
  end.

Fixpoint group_items (group_keys : list SqlExpr) (group : fields Json) (projection_ : list ProjItem) : sql (fields Json) :=
  match projection_ with
  | [] => mret group
  | Star :: l => group_items group_keys group l
  | Item e alias :: l =>
    match alias, field_name e with
    | None, None => group_items group_keys group l
    | Some key_name, _ | None, Some key_name =>
      if is_grouping_key e group_keys then group_items group_keys group l
      else
        value ← expr_to_agg_expr today e;
        group_items group_keys
          (insert key_name (match e with Function _ _ => value | _ => op1 "$first" value end) group) l
    end
  end.
Definition build_group_stage (group_keys : list SqlExpr) (projection_ : list ProjItem) : sql Json :=
  let id_doc := foldl (fun d k => let name := default "_key" (field_name k) in
                                  insert name (JString ("$" +:+ name)) d) [] group_keys in
  group ← group_items group_keys [("_id", JObject id_doc)] projection_;
  mret (JObject group).

Definition build_sort_stage (order : list OrderItem) : Json :=
  JObject (foldl (fun m item => insert (default "_id" (field_name (item_expr item)))
                                  (JInt (if desc item then -1 else 1)) m) [] order).

(** What WHERE adds to the pipeline, and the filter of [find]. *)
Definition where_stage (selection_ : option SqlExpr) : sql (list Json * option Json) :=
  match selection_ with
  | Some e => value ← expr_to_filter today e; mret ([op1 "$match" value], Some value)
  | None => mret ([], None)
  end.

Definition group_by_exprs (g : GroupByExpr) : sql (list SqlExpr) :=
  match g with
  | GroupBy exprs modifiers =>
    _ ← (if modifiers then warn "GROUP BY modifiers (ROLLUP/CUBE/etc.) are ignored" else mret tt);
    mret exprs
  | GroupByAll => throw (SqlParse "GROUP BY ALL is not supported")
  end.

(** DISTINCT, GROUP BY or the projection, and the projection of [find]. *)
Definition shape_stage (distinct_ : bool) (group_keys : list SqlExpr) (projection_ : list ProjItem)
    : sql (list Json * option Json) :=
  if distinct_ && bool_decide (length group_keys = 0%nat) then
    key ← liftR (build_distinct_group_key projection_);
    mret ([op1 "$group" (op1 "_id" key); op1 "$replaceRoot" (op1 "newRoot" (JString "$_id"))], None)
  else if negb (bool_decide (length group_keys = 0%nat)) then
    group ← build_group_stage group_keys projection_;
    mret ([op1 "$group" group], None)
  else
    project ← build_project_stage projection_;
    mret (match project with [] => ([], None) | _ => ([op1 "$project" (JObject project)], Some (JObject project)) end).

Definition having_stage (having_ : option SqlExpr) : sql (list Json) :=
  match having_ with
  | Some e => value ← expr_to_agg_expr today e; mret [op1 "$match" (op1 "$expr" value)]
  | None => mret []
  end.

Definition order_items (o : option OrderBy) : sql (list OrderItem) :=
  match o with
  | Some (OrderByExprs l) =>
    mret (map (fun oe => {| item_expr := order_expr oe; desc := bool_decide (asc oe = Some false) |}) l)
  | Some OrderByAll => throw (SqlParse "ORDER BY ALL is not supported")
  | None => mret []
  end.
Definition sort_stage (o : option OrderBy) : sql (list Json * option Json) :=
  order ← order_items o;
  mret (match order with
        | [] => ([], None)
        | _ => ([op1 "$sort" (build_sort_stage order)], Some (build_sort_stage order))
        end).

(** The stages, the limit and the number of skipped documents. *)
Definition limit_stage (l : option LimitClause) : sql (list Json * option Z * option Z) :=
  match l with
  | None => mret ([], None, None)
  | Some (LimitOffset limit offset limit_by) =>
    _ ← (if limit_by then warn "LIMIT BY is not supported and was ignored" else mret tt);
    n ← match limit with Some e => n ← expr_to_i64 e; mret (Some n) | None => mret None end;
    m ← match offset with Some e => m ← expr_to_u64 e; mret (Some m) | None => mret None end;
    mret (match n with Some n => [op1 "$limit" (JInt n)] | None => [] end ++
          match m with Some m => [op1 "$skip" (JInt m)] | None => [] end, n, m)
  | Some (OffsetCommaLimit offset limit) =>
    m ← expr_to_u64 offset;
    n ← expr_to_i64 limit;
    mret ([op1 "$skip" (JInt m); op1 "$limit" (JInt n)], Some n, Some m)
  end.

Definition find_stage (s : Json) : bool :=
  existsb (fun k => bool_decide (is_Some (json_get s k))) ["$match"; "$sort"; "$project"; "$limit"; "$skip"].

Definition optional_field (k : string) (v : option Json) : fields Json :=
  match v with Some v => [(k, v)] | None => [] end.

(** The [find] shortcut. *)
Definition find_of (stages : list Json) (filter_ projection_ sort_ : option Json) (limit skip : option Z) : option Json :=
  match filter_ with
  | Some _ =>
    if forallb find_stage stages then
      Some (JObject (optional_field "filter" filter_ ++ optional_field "projection" projection_ ++
        optional_field "sort" sort_ ++ optional_field "limit" (option_map JInt limit) ++
        optional_field "skip" (option_map JInt skip)))
    else None
  | None => None
  end.

Definition translate_select (database_ : string) (q : Query) : sql SqlTranslation :=
  if with_ q then throw (SqlParse "WITH (common table expressions) is not supported") else
  select ← liftR (unwrap_query_body (body q));
  if bool_decide (1 < length (from select))%nat
  then throw (SqlParse "comma-separated FROM tables are not supported; use JOIN instead") else
  twj ← liftR (ok_or (head (from select)) (SqlParse "FROM clause with at least one table is required"));
  collection_ ← liftR (table_factor_name (relation twj));
  joins_ ← liftR (mapR build_join (joins twj));
  projection_ ← liftR (convert_projection (projection select));
  '(where_stages, find_filter) ← where_stage (selection select);
  match distinct select with
  | Some DistinctOn => throw (SqlParse "DISTINCT ON (...) is not supported")
  | distinct_ =>
    group_keys ← group_by_exprs (group_by select);
    '(shape_stages, find_projection) ←
      shape_stage (match distinct_ with Some DistinctRows => true | _ => false end) group_keys projection_;
    having_stages ← having_stage (having select);
    '(sort_stages, find_sort) ← sort_stage (order_by q);
    '(limit_stages, find_limit, find_skip) ← limit_stage (limit_clause q);
    let stages := where_stages ++ concat (map join_to_lookup joins_) ++ shape_stages ++
                  having_stages ++ sort_stages ++ limit_stages in
    let find_ := find_of stages find_filter find_projection find_sort find_limit find_skip in
    ws ← get_state;
    mret {| database := database_; collection := collection_;
            operation := match find_ with Some _ => Find | None => Aggregate end;
            pipeline := stages; find := find_; warnings := ws |}
  end.

(** ** UPDATE, INSERT, DELETE *)

Definition where_filter (selection_ : option SqlExpr) : sql Json :=
  match selection_ with Some e => expr_to_filter today e | None => mret (JObject []) end.

Definition assignment_target_to_field (target : AssignmentTarget) : result AppError string :=
  match target with
  | ColumnName name => Ok name
  | TupleTarget => Err (SqlParse "tuple assignment targets are not supported")
  end.

Fixpoint set_fields (out : fields Json) (l : list (AssignmentTarget * SqlExpr)) : sql (fields Json) :=
  match l with
  | [] => mret out
  | (target, e) :: l =>
    field ← liftR (assignment_target_to_field target);
    value ← expr_to_agg_expr today e;
    set_fields (insert field value out) l
  end.

(** The translation of a statement that is not a SELECT. *)
Definition write_translation (database_ collection_ : string) (op : SqlOperation) : sql SqlTranslation :=
  ws ← get_state;
  mret {| database := database_; collection := collection_; operation := op; pipeline := [];
          find := None; warnings := ws |}.

Definition translate_update (database_ : string) (u : SqlUpdate) (upsert : bool) : sql SqlTranslation :=
  match joins (update_table u) with
  | _ :: _ => throw (SqlParse "UPDATE ... JOIN is not supported")
  | [] =>
    collection_ ← liftR (table_factor_name (relation (update_table u)));
    set ← set_fields [] (assignments u);
    filter_ ← where_filter (update_selection u);
    write_translation database_ collection_ (Update filter_ (op1 "$set" (JObject set)) true upsert)
  end.

Fixpoint row_fields (out : fields Json) (names : list string) (row : list SqlExpr) : sql (fields Json) :=
  match names, row with
  | name :: names, e :: row => v ← expr_to_agg_expr today e; row_fields (insert name v out) names row
  | _, _ => mret out
  end.
Definition row_document (names : list string) (row : list SqlExpr) : sql Json :=
  if negb (bool_decide (length row = length names))
  then throw (SqlParse ("expected " +:+ pretty (length names) +:+ " value(s) but got " +:+ pretty (length row)))
  else d ← row_fields [] names row; mret (JObject d).

Definition NO_COLUMNS : string :=
  "INSERT ... VALUES (...) requires an explicit column list, e.g. INSERT INTO t (a, b) VALUES (1, 2); or paste a document directly: INSERT INTO t VALUES { "
  +:+ quote +:+ "a" +:+ quote +:+ ": 1, " +:+ quote +:+ "b" +:+ quote +:+ ": 2 }".

Definition translate_insert (database_ : string) (i : SqlInsert) : sql SqlTranslation :=
  collection_ ← match insert_table i with
                | TableName name => mret name
                | TableFunction => throw (SqlParse "table-valued functions are not supported in INSERT")
                | TableQuery => throw (SqlParse "INSERT INTO (query)-form table targets are not supported")
                end;
  source_ ← liftR (ok_or (source i) (SqlParse "INSERT requires a VALUES clause"));
  match source_ with
  | ValuesBody rows =>
    match columns i with
    | [] => throw (SqlParse NO_COLUMNS)
    | column_names =>
      documents ← collect (map (row_document column_names) rows);
      write_translation database_ collection_ (Insert documents)
    end
  | _ => throw (SqlParse "INSERT ... SELECT is not supported; use VALUES or a raw JSON document")
  end.

Definition translate_delete (database_ : string) (d : SqlDelete) : sql SqlTranslation :=
  match delete_from d with
  | [twj] =>
    match joins twj with
    | _ :: _ => throw (SqlParse "DELETE ... JOIN is not supported")
    | [] =>
      collection_ ← liftR (table_factor_name (relation twj));
      filter_ ← where_filter (delete_selection d);
      write_translation database_ collection_ (Delete filter_ true)
    end
  | _ => throw (SqlParse "DELETE must reference exactly one table")
  end.

Definition translate_statement (database_ : string) (upsert : bool) (s : Statement) : sql SqlTranslation :=
  match s with
  | QueryStatement q => translate_select database_ q
  | UpdateStatement u => translate_update database_ u upsert
  | InsertStatement i => translate_insert database_ i
  | DeleteStatement d => translate_delete database_ d
  | OtherStatement text =>
    throw (SqlParse ("expected SELECT, UPDATE, INSERT, or DELETE statement, got: " +:+ text))
  end.

Definition translate (database_ sql_ : string) : result AppError SqlTranslation :=
  let trimmed := trim sql_ in
  match detect_json_insert trimmed with
  | Err e => Err e
  | Ok (Some (collection_, documents)) =>
    Ok {| database := database_; collection := collection_; operation := Insert documents;
          pipeline := []; find := None; warnings := [] |}
  | Ok None =>
    let normalized := rewrite_leading_alias trimmed in
    let '(normalized, upsert) :=
      if is_leading_keyword normalized "UPDATE" then strip_trailing_word normalized "UPSERT"
      else (normalized, false) in
    match parse_sql normalized with
    | Err e => Err (SqlParse e)
    | Ok [statement] => (translate_statement database_ upsert statement []).1
    | Ok _ => Err (SqlParse "expected exactly one SQL statement")
    end
  end.
End sql_to_mongo.
