(* ===== verification/SqlSpec.v ===== *)
(** * What the filters of WHERE clauses mean

    A translation only adds warnings, and its result does not depend on the earlier ones;
    the filter of a WHERE clause has the shape MongoDB accepts and selects by the boolean
    structure of the clause. *)

From S2P Require Import Prelude.
From S2P Require Import AppError.
From S2P Require Import Fields.
From S2P Require Import Json.
From S2P Require Import SqlAst.
From S2P Require Import SqlExpr.
Local Open Scope string_scope.
Local Open Scope list_scope.

(** ** Translations as writers *)

(** One result and one list of new warnings, whatever came before. *)
Definition logged {A} (m : sql A) : Prop := exists r w, forall ws, m ws = (r, ws ++ w).

Lemma logged_ret {A} (a : A) : logged (mret a).
Proof. exists (Ok a), []. intros ws. by rewrite app_nil_r. Qed.
Lemma logged_throw {A} e : logged (throw (A := A) e).
Proof. exists (Err e), []. intros ws. by rewrite app_nil_r. Qed.
Lemma logged_warn w : logged (warn w).
Proof. by exists (Ok tt), [w]. Qed.
Lemma logged_bind {A B} (m : sql A) (f : A -> sql B) :
  logged m -> (forall a, logged (f a)) -> logged (m ≫= f).
Proof.
  intros (r & w & Hm) Hf. destruct r as [a|e].
  - destruct (Hf a) as (r & w' & Ha). exists r, (w ++ w'). intros ws.
    unfold mbind, stateR_bind. by rewrite Hm, Ha, app_assoc.
  - exists (Err e), w. intros ws. unfold mbind, stateR_bind. by rewrite Hm.
Qed.
Lemma logged_collect {A} (l : list (sql A)) : Forall logged l -> logged (collect l).
Proof.
  induction 1 as [|m l Hm Hl IH]; cbn; [apply logged_ret|]. apply logged_bind; [done|].
  intros a. apply logged_bind; [done|]. intros. apply logged_ret.
Qed.
(** Binding a value that is there. *)
Lemma logged_let {A B} (a : A) (f : A -> sql B) : logged (f a) -> logged (mret a ≫= f).
Proof. done. Qed.

(** The warnings that a translation starts from do not change its result. *)
Lemma logged_result {A} (m : sql A) ws : logged m -> (m ws).1 = (m []).1.
Proof. intros (r & w & Hm). by rewrite !Hm. Qed.

(** Case analysis through a translation. *)
Ltac logged :=
  repeat first
    [ done
    | apply logged_ret | apply logged_throw | apply logged_warn
    | apply logged_bind; [|intros]
    | apply logged_collect
    | match goal with |- logged (match ?x with _ => _ end) => destruct x end
    | match goal with |- logged (if ?x then _ else _) => destruct x end ].

Section sql_spec.
Context {FL : Float64} {LT : Letters} {SP : SqlParser} (today : Z).

Lemma value_to_json_logged v : logged (value_to_json v).
Proof. unfold value_to_json. logged. Qed.
Lemma like_pattern_logged p : logged (like_pattern_string p).
Proof. unfold like_pattern_string, not_a_pattern. logged. Qed.
Lemma like_logged m p ci n : logged m -> logged (like_to_agg_expr m p ci n).
Proof. intros Hm. unfold like_to_agg_expr. logged. apply like_pattern_logged. Qed.
Lemma binary_logged l op r : logged l -> logged r -> logged (binary_op_to_agg_expr l op r).
Proof. intros Hl Hr. unfold binary_op_to_agg_expr, mongo_operator. logged. Qed.
Lemma one_arg_logged upper args : Forall logged args -> logged (one_arg upper args).
Proof. intros []; cbn; logged. Qed.
Lemma function_logged name args :
  (forall l, args = Some l -> Forall (on_arg logged) l) ->
  logged (function_to_agg_expr name args).
Proof.
  intros Hargs. unfold function_to_agg_expr. destruct args as [l|]; cbn [function_args]; [|logged].
  assert (Forall logged (omap id l)) as Hl.
  { specialize (Hargs l eq_refl). induction Hargs as [|[m|] l Hm Hl IH]; cbn; [constructor| |done].
    by constructor. }
  apply logged_let. revert Hl. generalize (omap id l). clear. intros args Hargs.
  assert (forall upper, logged (one_arg upper args)) by (intros; by apply one_arg_logged).
  repeat case_bool_decide.
  - logged.
  - destruct Hargs as [|m1 ? Hm1 Hargs]; [logged|]. destruct Hargs as [|m2 ? Hm2 Hargs]; [logged|].
    destruct Hargs; logged.
  - logged.
  - logged.
  - logged.
Qed.

Lemma expr_to_agg_expr_logged e : logged (expr_to_agg_expr today e).
Proof.
  induction e as [i| | |v|op|l op r IHl IHr|e l negated IHe IHl| | | |negated e p IH|negated e p IH|name|name l IHl|]
    using SqlExpr_nested_ind; cbn [expr_to_agg_expr]; try by logged.
  - unfold ident_to_agg_expr. logged.
  - apply value_to_json_logged.
  - destruct op; logged.
  - logged. by apply Forall_map.
  - by apply like_logged.
  - by apply like_logged.
  - apply function_logged. intros l' [= <-]. apply Forall_map. eapply Forall_impl; [done|].
    by intros [e|] He.
Qed.

Lemma comparison_logged op l r : logged (comparison_to_filter today op l r).
Proof.
  unfold comparison_to_filter.
  destruct (field_name l), (is_literal r), (is_literal l), (field_name r); logged; apply expr_to_agg_expr_logged.
Qed.

Lemma expr_to_filter_logged e : logged (expr_to_filter today e).
Proof.
  assert (forall e, logged (agg ← expr_to_agg_expr today e; mret (op1 "$expr" agg))) as Hagg.
  { intros e'. logged. apply expr_to_agg_expr_logged. }
  induction e as [i| | |v|op|l op r IHl IHr|e l negated IHe IHl|e IH|e IH|e negated low high| | | | |]
    using SqlExpr_nested_ind; cbn [expr_to_filter]; try apply Hagg.
  - done.
  - destruct op; cbn [comparison_operator]; try apply comparison_logged; try apply Hagg; logged.
  - apply logged_bind; [|intros; destruct (field_name e); logged; apply expr_to_agg_expr_logged].
    apply logged_collect, Forall_map, Forall_true. intros; apply expr_to_agg_expr_logged.
  - destruct (field_name e); logged; apply expr_to_agg_expr_logged.
  - destruct (field_name e); logged; apply expr_to_agg_expr_logged.
  - destruct (field_name e); [|apply Hagg]. logged; apply expr_to_agg_expr_logged.
Qed.

(** ** The shape of filters *)

(** The fields that the conditions of a WHERE clause are about. *)
Fixpoint columns_of (e : SqlExpr) : list string :=
  match e with
  | Nested e => columns_of e
  | BinaryOp l (OpAnd | OpOr) r => columns_of l ++ columns_of r
  | BinaryOp l _ r => option_list (field_name l) ++ option_list (field_name r)
  | InList e _ _ | IsNull e | IsNotNull e | Between e _ _ _ => option_list (field_name e)
  | _ => []
  end.

(** An object with distinct keys, each an operator MongoDB knows at the top of a filter, or
    one of [cols]. *)
Definition filter_shape (cols : list string) (f : Json) : Prop :=
  exists d, f = JObject d /\ NoDup (keys d) /\
            forall k, k ∈ keys d -> k ∈ ["$and"; "$or"; "$expr"] \/ k ∈ cols.

Lemma shape_op1 cols k v : k ∈ ["$and"; "$or"; "$expr"] \/ k ∈ cols -> filter_shape cols (op1 k v).
Proof.
  intros Hk. eexists. split_and!; [done|apply NoDup_singleton|]. by intros k' ->%list_elem_of_singleton.
Qed.
Lemma shape_simple cols op k v : k ∈ cols -> filter_shape cols (simple_field_filter op k v).
Proof. intros. unfold simple_field_filter. case_bool_decide; apply shape_op1; by right. Qed.

(** [merge_and] either appends the fields or falls back to [$and]. *)
Lemma merge_and_cases d1 d2 :
  NoDup (keys d2) ->
  (merge_and (JObject d1) (JObject d2) = JObject (d1 ++ d2) /\ (forall k, k ∈ keys d2 -> k ∉ keys d1) /\
   Forall (fun k => dollar k = false) (keys d1 ++ keys d2)) \/
  merge_and (JObject d1) (JObject d2) = opn "$and" [JObject d1; JObject d2].
Proof.
  intros Hnd. unfold merge_and. destruct (_ && _ && _) eqn:Hc; [left|by right].
  apply andb_true_iff in Hc as [[Hl Hr]%andb_true_iff Hdis].
  assert (forall k, k ∈ keys d2 -> k ∉ keys d1) as Hd.
  { intros k Hk Hk1. apply negb_true_iff in Hdis. enough (existsb (has_key d2) (keys d1) = true) by congruence.
    apply existsb_exists. exists k. split; [by apply list_elem_of_In|by apply has_key_spec]. }
  split_and!; [by rewrite foldl_insert_fresh|done|].
  apply Forall_app. split; apply Forall_forall; intros k Hk%list_elem_of_In;
    [rewrite forallb_forall in Hl; specialize (Hl k Hk)|rewrite forallb_forall in Hr; specialize (Hr k Hk)];
    by apply negb_true_iff.
Qed.

Lemma shape_merge cols1 cols2 f g :
  filter_shape cols1 f -> filter_shape cols2 g -> filter_shape (cols1 ++ cols2) (merge_and f g).
Proof.
  intros (d1 & -> & Hn1 & H1) (d2 & -> & Hn2 & H2).
  destruct (merge_and_cases d1 d2 Hn2) as [(-> & Hdis & _)| ->]; [|by apply shape_op1; left; left].
  eexists. split_and!; [done| |].
  - rewrite keys_app. apply NoDup_app. split_and!; [done| |done]. intros k Hk1 Hk2. by apply (Hdis k).
  - intros k. rewrite keys_app. intros [Hk|Hk]%elem_of_app; [apply H1 in Hk|apply H2 in Hk]; set_solver.
Qed.

(** Through a translation: every result has the property. *)
Definition yields {A} (P : A -> Prop) (m : sql A) : Prop := forall ws a ws', m ws = (Ok a, ws') -> P a.
Lemma yields_ret {A} (P : A -> Prop) a : P a -> yields P (mret a).
Proof. by intros Ha ws a' ws' [= <- _]. Qed.
Lemma yields_bind {A B} (Q : A -> Prop) (P : B -> Prop) (m : sql A) f :
  yields Q m -> (forall a, Q a -> yields P (f a)) -> yields P (m ≫= f).
Proof. intros Hm Hf ws b ws' (a & ws1 & Ha & Hb)%stateR_bind_Ok. eapply Hf; [by eapply Hm|done]. Qed.
Lemma yields_any {A} (m : sql A) : yields (fun _ => True) m.
Proof. done. Qed.
Lemma yields_then {A B} (P : B -> Prop) (m : sql A) f : (forall a, yields P (f a)) -> yields P (m ≫= f).
Proof. intros Hf. eapply yields_bind; [apply yields_any|]. intros; apply Hf. Qed.

Lemma yields_expr cols e : yields (filter_shape cols) (agg ← expr_to_agg_expr today e; mret (op1 "$expr" agg)).
Proof. apply yields_then. intros. apply yields_ret, shape_op1. left; by repeat constructor. Qed.

Lemma field_column e f : field_name e = Some f -> f ∈ option_list (field_name e).
Proof. intros ->. left. Qed.

Lemma comparison_shape op l r :
  yields (filter_shape (option_list (field_name l) ++ option_list (field_name r))) (comparison_to_filter today op l r).
Proof.
  unfold comparison_to_filter.
  assert (yields (filter_shape (option_list (field_name l) ++ option_list (field_name r)))
    (lft ← expr_to_agg_expr today l; rgt ← expr_to_agg_expr today r; mret (op1 "$expr" (opn op [lft; rgt])))) as He.
  { apply yields_then; intros; apply yields_then; intros. apply yields_ret, shape_op1. left; by repeat constructor. }
  destruct (field_name l) as [f|] eqn:Hl, (is_literal r), (is_literal l), (field_name r) as [g|] eqn:Hr;
    try exact He; apply yields_then; intros; apply yields_ret, shape_simple; set_solver.
Qed.

Lemma expr_to_filter_shape e : yields (filter_shape (columns_of e)) (expr_to_filter today e).
Proof.
  induction e as [i| | |v|op|l op r IHl IHr|e l negated IHe IHl|e IH|e IH|e negated low high| | | | |]
    using SqlExpr_nested_ind; cbn [expr_to_filter columns_of]; try apply yields_expr.
  - done.
  - destruct op; cbn [comparison_operator]; try apply comparison_shape; try apply yields_expr;
      (eapply yields_bind; [exact IHl|]; intros f Hf; eapply yields_bind; [exact IHr|]; intros g Hg; apply yields_ret).
    + by apply shape_merge.
    + apply shape_op1. left; by repeat constructor.
  - apply yields_then; intros arr. destruct (field_name e) as [f|] eqn:Hf.
    + apply yields_ret, shape_simple. left.
    + apply yields_then; intros. apply yields_ret, shape_op1. left; by repeat constructor.
  - destruct (field_name e) as [f|] eqn:Hf; [apply yields_ret, shape_op1; right; left|].
    apply yields_then; intros. apply yields_ret, shape_op1. left; by repeat constructor.
  - destruct (field_name e) as [f|] eqn:Hf; [apply yields_ret, shape_op1; right; left|].
    apply yields_then; intros. apply yields_ret, shape_op1. left; by repeat constructor.
  - destruct (field_name e) as [f|] eqn:Hf; [|apply yields_expr]. do 2 (apply yields_then; intros).
    apply yields_ret. destruct negated; apply shape_op1; [left; by repeat constructor|right; left].
Qed.
End sql_spec.

(** ** What a filter selects *)

(** Whether MongoDB's [find] selects a given document by a filter: the documented laws of the
    logical operators, and of a filter of several fields, which is their conjunction. *)
Class Matching := {
  selects : Json -> bool;
  selects_and f g : selects (opn "$and" [f; g]) = selects f && selects g;
  selects_or f g : selects (opn "$or" [f; g]) = selects f || selects g;
  selects_fields d1 d2 :
    NoDup (keys (d1 ++ d2)) -> Forall (fun k => dollar k = false) (keys (d1 ++ d2)) ->
    selects (JObject (d1 ++ d2)) = selects (JObject d1) && selects (JObject d2);
}.

Section where_.
Context {FL : Float64} {LT : Letters} {SP : SqlParser} {MA : Matching} (today : Z).

(** The WHERE clause by its boolean structure: conditions other than AND and OR by their own
    filter. *)
Fixpoint where_value (e : SqlExpr) : option bool :=
  match e with
  | Nested e => where_value e
  | BinaryOp l OpAnd r => a ← where_value l; b ← where_value r; Some (a && b)
  | BinaryOp l OpOr r => a ← where_value l; b ← where_value r; Some (a || b)
  | _ => selects <$> ok (expr_to_filter today e []).1
  end.

Lemma selects_merge d1 d2 :
  NoDup (keys d1) -> NoDup (keys d2) ->
  selects (merge_and (JObject d1) (JObject d2)) = selects (JObject d1) && selects (JObject d2).
Proof.
  intros H1 H2. destruct (merge_and_cases d1 d2 H2) as [(-> & Hdis & Hdol)| ->]; [|apply selects_and].
  apply selects_fields; rewrite keys_app; [|done].
  apply NoDup_app. split_and!; [done| |done]. intros k Hk1 Hk2. by apply (Hdis k).
Qed.

(** Both operands translated, one after the other. *)
Lemma both_filters (h : Json -> Json -> Json) l r ws :
  ok ((f ← expr_to_filter today l; g ← expr_to_filter today r; mret (h f g)) ws).1 =
  (f ← ok (expr_to_filter today l []).1; g ← ok (expr_to_filter today r []).1; Some (h f g)).
Proof.
  destruct (expr_to_filter_logged today l) as (rl & wl & Hl), (expr_to_filter_logged today r) as (rr & wr & Hr).
  unfold mbind, stateR_bind. rewrite Hl, Hl. destruct rl as [f|e]; [|done]. rewrite Hr, Hr. by destruct rr.
Qed.

(** C22: The filter of a WHERE clause selects a document exactly when the boolean combination
    of its conditions does: neither merging the fields of two filters into one object nor
    falling back to `$and` loses a condition, whatever the nesting, and the translation
    fails exactly when that of a condition fails. *)
Theorem where_structure e ws :
  where_value e = selects <$> ok (expr_to_filter today e ws).1.
Proof.
  assert (forall e, (expr_to_filter today e ws).1 = (expr_to_filter today e []).1) as Hws.
  { intros e'. apply logged_result, expr_to_filter_logged. }
  rewrite Hws. clear Hws. induction e using SqlExpr_nested_ind; try done.
  destruct op; try done; cbn [where_value expr_to_filter]; rewrite both_filters, IHe1, IHe2.
  - destruct (expr_to_filter today e1 []) as [[f|?] ws1] eqn:H1; [|done].
    destruct (expr_to_filter today e2 []) as [[g|?] ws2] eqn:H2; [|done]. cbn. f_equal.
    apply expr_to_filter_shape in H1 as (d1 & -> & Hn1 & _), H2 as (d2 & -> & Hn2 & _).
    symmetry. by apply selects_merge.
  - destruct (expr_to_filter today e1 []) as [[f|?] ws1]; [|done].
    destruct (expr_to_filter today e2 []) as [[g|?] ws2]; [|done]. cbn. f_equal. symmetry. apply selects_or.
Qed.

(** The filter of a WHERE clause is one MongoDB accepts at its top level: an object with
    distinct keys, where a key that begins with a dollar is `$and`, `$or` or `$expr`, when
    no column of the clause begins with a dollar. *)
Theorem filter_top_level e ws f ws' :
  expr_to_filter today e ws = (Ok f, ws') -> Forall (fun c => dollar c = false) (columns_of e) ->
  exists d, f = JObject d /\ NoDup (keys d) /\
            forall k, k ∈ keys d -> dollar k = true -> k ∈ ["$and"; "$or"; "$expr"].
Proof.
  intros (d & -> & Hn & Hk)%expr_to_filter_shape Hc. exists d. split_and!; [done|done|]. intros k Hin Hd.
  destruct (Hk k Hin) as [|Hcol]; [done|]. rewrite Forall_forall in Hc. by rewrite (Hc k Hcol) in Hd.
Qed.

(** The comparison read from right to left. *)
Definition mirror (op : BinaryOperator) : BinaryOperator :=
  match op with OpLt => OpGt | OpGt => OpLt | OpLtEq => OpGtEq | OpGtEq => OpLtEq | op => op end.

Lemma literal_no_field e : is_literal e = true -> field_name e = None.
Proof.
  induction e using SqlExpr_nested_ind; cbn; try done. by destruct (classify_ident i).
Qed.

(** A literal on the left of a comparison gives the filter of the mirrored comparison, with
    the field on the left. *)
Theorem literal_on_the_left lit field op :
  is_literal lit = true -> is_Some (field_name field) -> is_Some (comparison_operator op) ->
  expr_to_filter today (BinaryOp lit op field) = expr_to_filter today (BinaryOp field (mirror op) lit).
Proof.
  intros Hl [f Hf] [o Ho]. pose proof (literal_no_field lit Hl) as Hn.
  destruct op; try done; cbn [expr_to_filter mirror comparison_operator];
    unfold comparison_to_filter; by rewrite Hl, Hf, Hn.
Qed.
End where_.
