(* ===== verification/SqlSelectSpec.v ===== *)
(** * What the pipelines of SELECT statements do

    The parts of a translated SELECT, one by one; what the pipeline and the [find] shortcut
    do with LIMIT, OFFSET and HAVING. *)

From S2P Require Import Prelude.
From S2P Require Import AppError.
From S2P Require Import Fields.
From S2P Require Import Json.
From S2P Require Import SqlAst.
From S2P Require Import SqlExpr.
From S2P Require Import SqlToMongo.
From S2P Require Import SqlSpec.
Local Open Scope string_scope.
Local Open Scope list_scope.

Section select_spec.
Context {FL : Float64} {LT : Letters} {SP : SqlParser} (today : Z).

(** The result of a translation, whatever the warnings before it. *)
Definition result_of {A} (m : sql A) : result AppError A := (m []).1.

Lemma logged_liftR {A} (r : result AppError A) : logged (liftR r).
Proof. exists r, []. intros ws. by rewrite app_nil_r. Qed.

Lemma expr_to_i64_logged e : logged (expr_to_i64 today e).
Proof. unfold expr_to_i64. logged. apply expr_to_agg_expr_logged. Qed.
Lemma expr_to_u64_logged e : logged (expr_to_u64 today e).
Proof. unfold expr_to_u64. logged. apply expr_to_agg_expr_logged. Qed.

Lemma project_items_logged out l : logged (project_items today out l).
Proof.
  revert out. induction l as [|[|e a] l IH]; intros out; cbn; [apply logged_ret|done|].
  apply logged_bind; [apply expr_to_agg_expr_logged|by intros].
Qed.
Lemma group_items_logged ks g l : logged (group_items today ks g l).
Proof.
  revert g. induction l as [|[|e a] l IH]; intros g; cbn; [apply logged_ret|done|].
  destruct a, (field_name e), (is_grouping_key e ks);
    first [done | apply logged_bind; [apply expr_to_agg_expr_logged|by intros]].
Qed.

Lemma where_stage_logged s : logged (where_stage today s).
Proof. destruct s; cbn; logged. apply expr_to_filter_logged. Qed.
Lemma group_by_logged g : logged (group_by_exprs g).
Proof. destruct g as [l [|]|]; cbn; logged. Qed.
Lemma shape_stage_logged d ks l : logged (shape_stage today d ks l).
Proof.
  unfold shape_stage, build_group_stage. logged;
    [apply logged_liftR|apply group_items_logged|apply project_items_logged].
Qed.
Lemma having_stage_logged h : logged (having_stage today h).
Proof. destruct h; cbn; logged. apply expr_to_agg_expr_logged. Qed.
Lemma sort_stage_logged o : logged (sort_stage o).
Proof. destruct o as [[l|]|]; cbn; logged. Qed.
Lemma limit_stage_logged l : logged (limit_stage today l).
Proof.
  destruct l as [[[e|] [o|] [|]|o e]|]; cbn; logged; apply expr_to_agg_expr_logged.
Qed.

Lemma logged_Ok {A} (m : sql A) ws a ws' : logged m -> m ws = (Ok a, ws') -> result_of m = Ok a.
Proof. intros Hm Ha. unfold result_of. rewrite <-(logged_result m ws Hm). by rewrite Ha. Qed.

Lemma result_of_inv {A} (m : sql A) a : result_of m = Ok a -> exists w, m [] = (Ok a, w).
Proof. unfold result_of. destruct (m []) as [r w]. cbn. intros ->. by eexists. Qed.

(** A successful SELECT, taken apart. *)
Lemma translate_select_inv db q ws t ws' :
  translate_select today db q ws = (Ok t, ws') ->
  exists select joins_ where_ff shape_fp having_ sort_fs limit_ns group_keys projection_,
    unwrap_query_body (body q) = Ok select /\
    (twj ← ok_or (head (from select)) (SqlParse "FROM clause with at least one table is required");
     mapR build_join (joins twj)) = Ok joins_ /\
    result_of (where_stage today (selection select)) = Ok where_ff /\
    result_of (group_by_exprs (group_by select)) = Ok group_keys /\
    result_of (shape_stage today (match distinct select with Some DistinctRows => true | _ => false end)
                 group_keys projection_) = Ok shape_fp /\
    convert_projection (projection select) = Ok projection_ /\
    result_of (having_stage today (having select)) = Ok having_ /\
    result_of (sort_stage (order_by q)) = Ok sort_fs /\
    result_of (limit_stage today (limit_clause q)) = Ok limit_ns /\
    pipeline t = where_ff.1 ++ concat (map join_to_lookup joins_) ++ shape_fp.1 ++ having_ ++ sort_fs.1 ++ limit_ns.1.1 /\
    find t = find_of (pipeline t) where_ff.2 shape_fp.2 sort_fs.2 limit_ns.1.2 limit_ns.2.
Proof.
  unfold translate_select. destruct (with_ q); [done|].
  intros (select & w1 & [= Hsel <-] & H)%stateR_bind_Ok. case_bool_decide; [done|].
  apply stateR_bind_Ok in H as (twj & w2 & [= Htwj <-] & H).
  apply stateR_bind_Ok in H as (coll & w3 & [= _ <-] & H).
  apply stateR_bind_Ok in H as (js & w4 & [= Hjs <-] & H).
  apply stateR_bind_Ok in H as (proj & w5 & [= Hproj <-] & H).
  apply stateR_bind_Ok in H as ([ws_ ff] & w6 & Hwhere%logged_Ok & H); [|apply where_stage_logged].
  assert (exists d, match distinct select with Some DistinctRows => true | _ => false end = d /\
    exists w, (group_keys ← group_by_exprs (group_by select);
      '(shape_stages, find_projection) ← shape_stage today d group_keys proj;
      having_stages ← having_stage today (having select);
      '(sort_stages, find_sort) ← sort_stage (order_by q);
      '(limit_stages, find_limit, find_skip) ← limit_stage today (limit_clause q);
      let stages := ws_ ++ concat (map join_to_lookup js) ++ shape_stages ++
                    having_stages ++ sort_stages ++ limit_stages in
      let find_ := find_of stages ff find_projection find_sort find_limit find_skip in
      ws ← get_state;
      mret {| database := db; collection := coll;
              operation := match find_ with Some _ => Find | None => Aggregate end;
              pipeline := stages; find := find_; warnings := ws |}) w6 = (Ok t, w)) as (d & Hd & w & H').
  { destruct (distinct select) as [[]|]; try discriminate H; eexists; (split; [done|]); eexists; exact H. }
  clear H. apply stateR_bind_Ok in H' as (ks & w7 & Hks%logged_Ok & H); [|apply group_by_logged].
  apply stateR_bind_Ok in H as ([sh fp] & w8 & Hsh%logged_Ok & H); [|apply shape_stage_logged].
  apply stateR_bind_Ok in H as (hv & w9 & Hhv%logged_Ok & H); [|apply having_stage_logged].
  apply stateR_bind_Ok in H as ([so fs] & w10 & Hso%logged_Ok & H); [|apply sort_stage_logged].
  apply stateR_bind_Ok in H as ([[li n] m] & w11 & Hli%logged_Ok & H); [|apply limit_stage_logged].
  injection H as <- _. subst d.
  exists select, js, (ws_, ff), (sh, fp), hv, (so, fs), (li, n, m), ks, proj.
  split_and!; try done. by rewrite Htwj.
Qed.

(** ** LIMIT and OFFSET *)

(** An aggregation runs its stages in order; the documented behaviour of the two stages. *)
Class Aggregation (D : Type) := {
  run_stage : Json -> list D -> list D;
  run_limit n docs : (0 < n)%Z -> run_stage (op1 "$limit" (JInt n)) docs = take (Z.to_nat n) docs;
  run_skip n docs : (0 <= n)%Z -> run_stage (op1 "$skip" (JInt n)) docs = drop (Z.to_nat n) docs;
  run_empty s : run_stage s [] = [];
}.
Definition aggregate `{Aggregation D} (pipeline_ : list Json) (docs : list D) : list D :=
  foldl (fun docs s => run_stage s docs) docs pipeline_.

(** The pipeline of a SELECT with LIMIT n OFFSET m limits before it skips: when the offset is
    at least the limit, as for every page but the first, it returns no document at all,
    whatever the collection holds. *)
Theorem offset_page_empty `{Aggregation D} db q ws t ws' limit offset lb n m (docs : list D) :
  translate_select today db q ws = (Ok t, ws') ->
  limit_clause q = Some (LimitOffset (Some limit) (Some offset) lb) ->
  result_of (expr_to_i64 today limit) = Ok n -> result_of (expr_to_u64 today offset) = Ok m ->
  (0 < n <= m)%Z ->
  aggregate (pipeline t) docs = [].
Proof.
  intros (sel & js & wf & sf & hv & so & li & ks & pr & _ & _ & _ & _ & _ & _ & _ & _ & Hli & -> & _)%translate_select_inv
    Hq Hn Hm Hle.
  assert (li.1.1 = [op1 "$limit" (JInt n); op1 "$skip" (JInt m)]) as ->.
  { rewrite Hq in Hli. apply result_of_inv in Hli as [w Hr]. cbn [limit_stage] in Hr.
    apply stateR_bind_Ok in Hr as ([] & w1 & _ & Hr).
    apply stateR_bind_Ok in Hr as (n' & w2 & Hn' & Hr). apply stateR_bind_Ok in Hn' as (n0 & w3 & Hn0 & Hn').
    apply stateR_bind_Ok in Hr as (m' & w4 & Hm' & Hr). apply stateR_bind_Ok in Hm' as (m0 & w5 & Hm0 & Hm').
    injection Hn' as <- _. injection Hm' as <- _.
    apply logged_Ok in Hn0; [|apply expr_to_i64_logged]. apply logged_Ok in Hm0; [|apply expr_to_u64_logged].
    injection Hr as <- _. cbn. congruence. }
  unfold aggregate. rewrite !app_assoc, foldl_app. cbn [foldl].
  rewrite run_limit, run_skip by lia. apply drop_ge. rewrite length_take. lia.
Qed.

(** ** HAVING *)

Definition with_having (h : option SqlExpr) (q : Query) (s : Select) : Query :=
  {| with_ := with_ q;
     body := SelectBody {| distinct := distinct s; projection := projection s; from := from s;
                           selection := selection s; group_by := group_by s; having := h |};
     order_by := order_by q; limit_clause := limit_clause q |}.

Lemma having_find_stages h stages : result_of (having_stage today h) = Ok stages -> forallb find_stage stages = true.
Proof.
  intros [w Hw]%result_of_inv. destruct h as [e|]; cbn in Hw; [|by injection Hw as <- _].
  by apply stateR_bind_Ok in Hw as (v & w' & _ & [= <- _]).
Qed.

(** When a SELECT has the [find] shortcut, that shortcut is the same with any other HAVING
    clause: HAVING without GROUP BY is dropped from it. *)
Theorem having_not_in_find db q s h ws t ws1 t' ws2 :
  translate_select today db (with_having (having s) q s) ws = (Ok t, ws1) ->
  translate_select today db (with_having h q s) ws = (Ok t', ws2) ->
  find t = find t'.
Proof.
  intros (sel & js & wf & sf & hv & so & li & ks & pr & Hs & Hj & Hw & Hk & Hsh & Hp & Hh & Hso & Hli & Ht & Hf)%translate_select_inv
    (sel' & js' & wf' & sf' & hv' & so' & li' & ks' & pr' & Hs' & Hj' & Hw' & Hk' & Hsh' & Hp' & Hh' & Hso' & Hli' & Ht' & Hf')%translate_select_inv.
  injection Hs as <-. injection Hs' as <-. cbn in *.
  assert (pr' = pr) as -> by congruence. assert (ks' = ks) as -> by congruence.
  assert (wf' = wf) as -> by congruence. assert (js' = js) as -> by congruence.
  assert (sf' = sf) as -> by congruence. assert (so' = so) as -> by congruence.
  assert (li' = li) as -> by congruence.
  rewrite Hf, Hf', Ht, Ht'. unfold find_of. destruct wf.2; [|done].
  by rewrite !forallb_app, (having_find_stages _ _ Hh), (having_find_stages _ _ Hh').
Qed.
End select_spec.
