(* ===== verification/SqlInsertSpec.v ===== *)
(** * The raw-JSON INSERT shorthand

    The scanner always comes to an end, and reads back the documents of a written
    statement. *)

From S2P Require Import Prelude.
From S2P Require Import Bytes.
From S2P Require Import Text.
From S2P Require Import AppError.
From S2P Require Import Json.
From S2P Require Import JsonText.
From S2P Require Import SqlAst.
From S2P Require Import SqlExpr.
From S2P Require Import SqlToMongo.
From S2P Require Import Fields.
From S2P Require Import SqlSpec.
From S2P Require Import SqlSelectSpec.
From S2P Require Import DesktopExample.
Local Open Scope list_scope.

(** ** Blank space and words *)

Definition white_heads : list byte := omap head white_space.

Lemma strip_stop ps fuel b l : b ∉ omap head ps -> [] ∉ ps -> strip ps fuel (b :: l) = b :: l.
Proof.
  intros Hb Hne. destruct fuel as [|fuel]; [done|]. cbn.
  enough (List.find (fun p => starts_with p (b :: l)) ps = None) as -> by done.
  induction ps as [|p ps IH]; [done|]. cbn. destruct p as [|c p]; [by destruct Hne; left|]. cbn in *.
  rewrite bool_decide_eq_false_2 by (intros ->; apply Hb; left). cbn. apply IH; [|set_solver].
  intros Hin. apply Hb. by right.
Qed.

Lemma trim_start_stop b l : b ∉ white_heads -> trim_start (b :: l) = b :: l.
Proof. intros Hb. apply strip_stop; [done|]. by apply (bool_decide_eq_false_1 ([] ∈ white_space)). Qed.
Lemma trim_start_space l : trim_start (x20 :: l) = trim_start l.
Proof. done. Qed.

Lemma strip_length ps fuel l : length (strip ps fuel l) <= length l.
Proof.
  revert l. induction fuel as [|fuel IH]; intros l; cbn; [done|]. destruct (List.find _ _); [|done].
  etrans; [apply IH|]. rewrite length_drop. lia.
Qed.
Lemma trim_start_length l : length (trim_start l) <= length l.
Proof. apply strip_length. Qed.

Lemma keyword_at_app kw c rest : word_byte c = false -> keyword_at kw (as_bytes kw ++ c :: rest) = true.
Proof.
  intros Hc. unfold keyword_at. rewrite take_app_length, list_lookup_middle by done. rewrite Hc.
  unfold eq_ignore_ascii_case. rewrite !bool_decide_eq_true_2; [done|done|]. rewrite length_app. lia.
Qed.

Lemma word_prefix_app w c rest :
  Forall (fun b => word_byte b = true) w -> word_byte c = false -> word_prefix (w ++ c :: rest) = (w, c :: rest).
Proof. intros Hw Hc. induction Hw as [|b w Hb _ IH]; cbn; [by rewrite Hc|]. by rewrite Hb, IH. Qed.

Lemma word_not_white b : word_byte b = true -> b ∉ white_heads.
Proof.
  intros Hb. apply (bool_decide_eq_true_1 (b ∉ white_heads)). revert Hb. by destruct b.
Qed.

(** ** The end of a value *)

Lemma skip_json_length op cl depth s e l : length (skip_json op cl depth s e l).2 <= length l.
Proof.
  revert depth s e. induction l as [|c l IH]; intros depth s e; cbn; [done|].
  repeat case_match; cbn; try (etrans; [apply IH|]; lia); lia.
Qed.

Lemma skip_json_shorter op cl depth s e c l : length (skip_json op cl depth s e (c :: l)).2 <= length l.
Proof. cbn. repeat case_match; cbn; try apply skip_json_length; lia. Qed.

(** ** The scanner comes to an end *)

Section scanner.
Context {JT : JsonText}.

(** A value that is read takes at least one byte. *)
Lemma parse_json_value_shorter l v l' : parse_json_value l = (Ok v, l') -> length l' < length l.
Proof.
  unfold parse_json_value. intros (u & l1 & [= _ <-] & H)%stateR_bind_Ok.
  apply stateR_bind_Ok in H as (st & l2 & [= <- <-] & H).
  apply stateR_bind_Ok in H as (close & l3 & Hc & H).
  pose proof (trim_start_length l) as Hl.
  destruct (trim_start l) as [|c rest] eqn:Ht; [done|]. cbn [head] in Hc.
  revert H. pose proof (skip_json_shorter (if bool_decide (close = RBRACE) then LBRACE else LBRACKET) close 0 false false c rest) as Hs.
  destruct (skip_json _ _ _ _ _ _) as [depth rest']. intros (u' & l4 & [= _ <-] & H)%stateR_bind_Ok.
  cbn in Hs, Hl. destruct (negb _); [done|]. destruct (json_from_str _); [|done]. injection H as _ <-. lia.
Qed.

Lemma parse_json_value_error l e : (parse_json_value l).1 = Err e -> exists msg, e = SqlParse msg.
Proof.
  unfold parse_json_value, mbind, stateR_bind, skip_ws, modify, get_state. cbn.
  destruct (head (trim_start l)) as [b|]; cbn; [|intros [= <-]; by eexists].
  repeat case_bool_decide; cbn; try (intros [= <-]; by eexists);
    destruct (skip_json _ _ _ _ _ _) as [depth rest]; cbn;
    (destruct (negb _); cbn; [intros [= <-]; by eexists|]);
    (destruct (json_from_str _); cbn; [done|intros [= <-]; by eexists]).
Qed.

Lemma parse_documents_error fuel docs l e :
  length l <= fuel -> 0 < fuel -> (parse_documents fuel docs l).1 = Err e -> exists msg, e = SqlParse msg.
Proof.
  revert docs l. induction fuel as [|fuel IH]; intros docs l Hl Hf; [lia|].
  cbn [parse_documents]. unfold mbind at 1, stateR_bind at 1. destruct (parse_json_value l) as [[v|e'] l1] eqn:Hv.
  - apply parse_json_value_shorter in Hv. pose proof (trim_start_length l1) as H1.
    unfold skip_ws, peek_char, modify, gets, mbind, stateR_bind, mret, stateR_ret.
    case_bool_decide as Hc; [|done]. pose proof (trim_start_length (drop 1 (trim_start l1))) as H2.
    revert Hc H1 H2. destruct (trim_start l1) as [|b l2]; [done|]. intros _ H1 H2.
    change (drop 1 (b :: l2)) with l2 in *. cbn [length] in H1. apply IH; lia.
  - intros [= ->]. apply (parse_json_value_error l). by rewrite Hv.
Qed.

Lemma scan_values_error src c l e : (scan_values src c l).1 = Err e -> exists msg, e = SqlParse msg.
Proof.
  assert (forall l, head l = Some LBRACE -> 0 < length l) as Hpos by (intros []; cbn; [done|lia]).
  unfold scan_values, skip_ws, consume_keyword, peek_char, get_state, gets, modify, throw,
    mbind, stateR_bind, mret, stateR_ret.
  destruct (keyword_at _ _); (case_bool_decide as Hb; cbn [negb]; [|done]);
    destruct (parse_documents _ _ _) as [[v|e'] l'] eqn:Hd;
    try (case_bool_decide; [done|intros [= <-]; by eexists]);
    intros [= <-]; (eapply parse_documents_error; [| |by rewrite Hd]; [done|by apply Hpos]).
Qed.

(** The scanner of the raw-JSON shorthand comes to an end on every text: it finds an INSERT,
    finds none, or reports a parse error. *)
Theorem detect_json_insert_ends sql_ e : detect_json_insert sql_ = Err e -> exists msg, e = SqlParse msg.
Proof.
  unfold detect_json_insert, scan_insert, skip_ws, consume_keyword, parse_identifier, modify,
    mbind, stateR_bind, mret, stateR_ret.
  repeat match goal with |- context [keyword_at ?k ?l] => destruct (keyword_at k l); cbn [negb fst]; try done end;
    destruct (word_prefix _) as [[|b w] r]; try done; apply scan_values_error.
Qed.
End scanner.

(** ** Objects are cut out whole *)

Lemma skip_string depth s rest :
  string_body s ->
  skip_json LBRACE RBRACE depth true false (s ++ DQUOTE :: rest) = skip_json LBRACE RBRACE depth false false rest.
Proof.
  induction 1 as [|c s Hq Hb _ IH|c s _ IH]; [done| |done].
  cbn. by rewrite !bool_decide_eq_false_2.
Qed.

Lemma skip_body depth b rest :
  object_body b ->
  skip_json LBRACE RBRACE (S depth) false false (b ++ rest) = skip_json LBRACE RBRACE (S depth) false false rest.
Proof.
  intros Hb. revert depth rest. induction Hb as [|c t Hq Hl Hr _ IH|s t Hs _ IH|u t _ IHu _ IHt]; intros depth rest.
  - done.
  - cbn. rewrite !bool_decide_eq_false_2 by done. apply IH.
  - cbn [app]. rewrite <-app_assoc. cbn [app].
    transitivity (skip_json LBRACE RBRACE (S depth) true false (s ++ DQUOTE :: t ++ rest)); [done|].
    by rewrite skip_string.
  - cbn [app]. rewrite <-app_assoc. cbn [app].
    transitivity (skip_json LBRACE RBRACE (S (S depth)) false false (u ++ RBRACE :: t ++ rest)); [done|].
    rewrite IHu. transitivity (skip_json LBRACE RBRACE (S depth) false false (t ++ rest)); [done|]. apply IHt.
Qed.

Lemma skip_object l rest : object_text l -> skip_json LBRACE RBRACE 0 false false (l ++ rest) = (0, rest).
Proof.
  intros (b & -> & Hb). cbn [app]. rewrite <-app_assoc.
  transitivity (skip_json LBRACE RBRACE 1 false false (b ++ RBRACE :: rest)); [done|]. by rewrite skip_body.
Qed.

Section written.
Context {JT : JsonText}.

Lemma lbrace_not_white : LBRACE ∉ white_heads.
Proof. by apply (bool_decide_eq_false_1 (LBRACE ∈ white_heads)). Qed.

Lemma parse_object l v rest :
  object_text l -> json_from_str (of_bytes l) = Ok v -> parse_json_value (l ++ rest) = (Ok v, rest).
Proof.
  intros Hl Hv. pose proof (skip_object l rest Hl) as Hs. destruct Hl as (b & -> & Hb).
  unfold parse_json_value, skip_ws, get_state, modify, mbind, stateR_bind, mret, stateR_ret.
  cbn [app] in *. rewrite trim_start_stop by apply lbrace_not_white. cbn [head].
  rewrite bool_decide_eq_true_2 by done. cbv zeta iota beta.
  change (if bool_decide (RBRACE = RBRACE) then LBRACE else LBRACKET) with LBRACE. rewrite Hs.
  cbn [negb bool_decide]. rewrite bool_decide_eq_true_2 by done. cbn [negb].
  change (LBRACE :: (b ++ [RBRACE]) ++ rest) with ((LBRACE :: b ++ [RBRACE]) ++ rest).
  rewrite length_app, Nat.add_sub, take_app_length. by rewrite Hv.
Qed.

(** Documents separated by a comma and a space. *)
Fixpoint documents_text (ts : list (list byte)) : list byte :=
  match ts with
  | [] => []
  | [t] => t
  | t :: ts => t ++ COMMA :: x20 :: documents_text ts
  end.

Lemma documents_text_head t ts : object_text t -> exists rest, documents_text (t :: ts) = LBRACE :: rest.
Proof. intros (b & -> & _). destruct ts; cbn; by eexists. Qed.

Lemma parse_written fuel acc ts vs :
  Forall2 (fun t v => object_text t /\ json_from_str (of_bytes t) = Ok v) ts vs -> ts <> [] ->
  length ts <= fuel -> parse_documents fuel acc (documents_text ts) = (Ok (acc ++ vs), []).
Proof.
  intros Hts. revert fuel acc. induction Hts as [|t v ts vs [Ht Hv] Hts IH]; [done|].
  intros [|fuel] acc _ Hf; [cbn in Hf; lia|]. cbn [parse_documents]. unfold mbind at 1, stateR_bind at 1.
  destruct ts as [|t' ts].
  - apply Forall2_nil_inv_l in Hts as ->. cbn [documents_text].
    pose proof (parse_object t v [] Ht Hv) as Hp. rewrite app_nil_r in Hp. by rewrite Hp.
  - change (documents_text (t :: t' :: ts)) with (t ++ COMMA :: x20 :: documents_text (t' :: ts)).
    rewrite (parse_object t v) by done.
    unfold skip_ws, peek_char, modify, gets, mbind, stateR_bind, mret, stateR_ret.
    rewrite trim_start_stop by by apply (bool_decide_eq_false_1 (COMMA ∈ white_heads)).
    cbn [head]. rewrite bool_decide_eq_true_2 by done. cbn [drop]. rewrite trim_start_space.
    destruct (Forall2_cons_inv_l _ _ _ _ Hts) as (v' & vs' & [Ht' _] & _ & ->).
    destruct (documents_text_head t' ts Ht') as [rest Hr].
    rewrite Hr, trim_start_stop, <-Hr by apply lbrace_not_white.
    rewrite IH by (done || (cbn in *; lia)). by rewrite <-app_assoc.
Qed.

Lemma documents_text_length ts : Forall object_text ts -> length ts <= length (documents_text ts).
Proof.
  induction 1 as [|t ts (b & -> & _) _ IH]; [done|]. destruct ts; cbn in *; [lia|]. rewrite length_app. cbn. lia.
Qed.

Lemma trim_start_keyword kw rest :
  match as_bytes kw with b :: _ => bool_decide (b ∉ white_heads) | [] => false end = true ->
  trim_start (as_bytes kw ++ rest) = as_bytes kw ++ rest.
Proof. destruct (as_bytes kw) as [|b t]; [done|]. intros Hb%bool_decide_eq_true_1. by apply trim_start_stop. Qed.

(** One step of the scanner. *)
Lemma then_skip {B} (k : unit -> scan B) l : (skip_ws ≫= k) l = k tt (trim_start l).
Proof. done. Qed.
Lemma then_ret {A B} (a : A) (k : A -> scan B) l : (mret a ≫= k) l = k a l.
Proof. done. Qed.
Lemma then_keyword {B} kw (k : bool -> scan B) c rest :
  word_byte c = false -> (consume_keyword kw ≫= k) (as_bytes kw ++ c :: rest) = k true (c :: rest).
Proof.
  intros Hc. unfold mbind, stateR_bind, consume_keyword. by rewrite keyword_at_app, drop_app_length.
Qed.
Lemma then_identifier {B} (k : option string -> scan B) w c rest :
  Forall (fun b => word_byte b = true) w -> w <> [] -> word_byte c = false ->
  (parse_identifier ≫= k) (w ++ c :: rest) = k (Some (of_bytes w)) (c :: rest).
Proof.
  intros Hw Hne Hc. unfold mbind, stateR_bind, parse_identifier. rewrite word_prefix_app by done. by destruct w.
Qed.

Lemma scan_values_written whole c ts vs :
  Forall2 (fun t v => object_text t /\ json_from_str (of_bytes t) = Ok v) ts vs -> ts <> [] ->
  (scan_values whole c (x20 :: as_bytes "VALUES" ++ x20 :: documents_text ts)).1 = Ok (Some (c, vs)).
Proof.
  intros Hts Hne. unfold scan_values. rewrite then_skip, trim_start_space, trim_start_keyword, then_keyword by done.
  rewrite then_skip, trim_start_space.
  assert (Forall object_text ts) as Ho by (clear -Hts; induction Hts as [|???? []]; by constructor).
  assert (exists rest, documents_text ts = LBRACE :: rest) as [rest Hr].
  { destruct ts; [done|]. inversion Ho; subst. by apply documents_text_head. }
  rewrite Hr, trim_start_stop, <-Hr by apply lbrace_not_white.
  assert (head (documents_text ts) = Some LBRACE) as Hh by by rewrite Hr.
  unfold peek_char, get_state, gets, mbind, stateR_bind. rewrite Hh, bool_decide_eq_true_2 by done. cbn [negb].
  by rewrite (parse_written _ [] ts vs) by (done || by apply documents_text_length).
Qed.

(** C37: A raw-JSON INSERT of any documents into a collection is read back: whatever the
    documents hold, braces and quotes in strings included, each is cut out whole and parsed
    on its own. *)
Theorem json_insert_read w ts vs :
  Forall (fun b => word_byte b = true) w -> w <> [] ->
  Forall2 (fun t v => object_text t /\ json_from_str (of_bytes t) = Ok v) ts vs -> ts <> [] ->
  detect_json_insert (of_bytes (as_bytes "INSERT INTO " ++ w ++ as_bytes " VALUES " ++ documents_text ts))
  = Ok (Some (of_bytes w, vs)).
Proof.
  intros Hw Hne Hts Htne. unfold detect_json_insert. rewrite as_bytes_of_bytes.
  generalize (as_bytes "INSERT INTO " ++ w ++ as_bytes " VALUES " ++ documents_text ts) at 1. intros whole.
  change (as_bytes "INSERT INTO " ++ w ++ as_bytes " VALUES " ++ documents_text ts) with
    (as_bytes "INSERT" ++ x20 :: as_bytes "INTO" ++ x20 :: w ++ x20 :: as_bytes "VALUES" ++ x20 :: documents_text ts).
  unfold scan_insert. rewrite then_skip, trim_start_keyword, then_keyword by done.
  rewrite then_ret. cbn [negb]. rewrite then_skip, trim_start_space, trim_start_keyword, then_keyword by done.
  cbn [negb]. rewrite then_skip, trim_start_space.
  destruct w as [|b w]; [done|]. inversion Hw as [|? ? Hb _]; subst.
  cbn [app]. rewrite trim_start_stop by by apply word_not_white. rewrite app_comm_cons, then_identifier by done.
  by apply scan_values_written.
Qed.
End written.

(** ** SQL translation at concrete values

    Witnesses for the theorems about WHERE clauses, SELECT and the raw-JSON INSERT. *)

#[local] Instance plain_parser : SqlParser :=
  {| parse_sql _ := Err "no statement"; tokenize _ := None; expr_text _ := "expression";
     regex_escape c := String c "" |}.

(** ** A document of numbers, and the filters it is selected by *)

Definition person : fields Z := [("age", 30%Z); ("visits", 4%Z)].

Definition condition (k : string) (v : Json) : bool :=
  match get person k, v with
  | Some x, (JInt n | JFloat n) => bool_decide (x = n)
  | Some x, JObject [(op, JFloat n)] =>
    if bool_decide (op = "$gt") then bool_decide (n < x)%Z else bool_decide (x < n)%Z
  | _, _ => false
  end.

Fixpoint selected (f : Json) : bool :=
  match f with
  | JObject d =>
    forallb (fun kv : string * Json =>
      match kv.2 with
      | JArray l => if bool_decide (kv.1 = "$and") then forallb selected l
                    else if bool_decide (kv.1 = "$or") then existsb selected l else false
      | v => condition kv.1 v
      end) d
  | _ => false
  end.

#[local] Program Instance person_matching : Matching := {| selects := selected |}.
Next Obligation. intros f g. cbn. by rewrite !andb_true_r. Qed.
Next Obligation. intros f g. cbn. by rewrite orb_false_r, andb_true_r. Qed.
Next Obligation. intros d1 d2 _ _. cbn [selected]. apply forallb_app. Qed.

Definition field (s : string) : SqlExpr := Identifier {| ident_value := s; quote_style := None |}.
Definition number (s : string) : SqlExpr := Value (Number s).

(** [age > 18 AND (visits = 4 OR age < 10)] *)
Definition clause : SqlExpr :=
  BinaryOp (BinaryOp (field "age") OpGt (number "18")) OpAnd
    (Nested (BinaryOp (BinaryOp (field "visits") OpEq (number "4")) OpOr
       (BinaryOp (number "10") OpGt (field "age")))).

Lemma where_structure_witness :
  where_value 0 clause = Some true /\
  where_value 0 clause = selects <$> ok (expr_to_filter 0 clause []).1.
Proof. split; [by vm_compute|]. exact (where_structure 0 clause []). Defined.

Lemma filter_top_level_witness :
  exists f ws', expr_to_filter 0 clause [] = (Ok f, ws') /\
  exists d, f = JObject d /\ NoDup (keys d) /\ forall k, k ∈ keys d -> dollar k = true -> k ∈ ["$and"; "$or"; "$expr"].
Proof.
  eexists _, _. split; [by vm_compute|].
  eapply (filter_top_level 0 clause []); [by vm_compute|]. by repeat constructor.
Defined.

(** A column may begin with a dollar, and is then taken for an operator. *)
Example dollar_column :
  (expr_to_filter 0 (BinaryOp (field "$where") OpEq (Value (SingleQuotedString "true"))) []).1
  = Ok (JObject [("$where", JString "true")]).
Proof. by vm_compute. Qed.

Lemma literal_on_the_left_witness :
  expr_to_filter 0 (BinaryOp (number "18") OpLt (field "age")) [] =
    (Ok (JObject [("age", JObject [("$gt", JFloat 18)])]), []) /\
  expr_to_filter 0 (BinaryOp (number "18") OpLt (field "age")) =
    expr_to_filter 0 (BinaryOp (field "age") OpGt (number "18")).
Proof.
  split; [by vm_compute|].
  by apply (literal_on_the_left 0 (number "18") (field "age") OpLt); [|eexists|eexists].
Defined.

(** ** SELECT *)

Definition select_all (having_ : option SqlExpr) : Select :=
  {| distinct := None; projection := [Wildcard];
     from := [{| relation := Table "people"; joins := [] |}];
     selection := Some clause; group_by := GroupBy [] false; having := having_ |}.
Definition page : LimitClause := LimitOffset (Some (number "10")) (Some (number "20")) false.
Definition page_query : Query :=
  {| with_ := false; body := SelectBody (select_all None); order_by := None; limit_clause := Some page |}.

Definition run_paging (s : Json) (docs : list Z) : list Z :=
  match s with
  | JObject [(op, JInt n)] => if bool_decide (op = "$limit") then take (Z.to_nat n) docs
                              else drop (Z.to_nat n) docs
  | _ => docs
  end.
#[local] Program Instance paging : Aggregation Z := {| run_stage := run_paging |}.
Next Obligation. done. Qed.
Next Obligation. done. Qed.
Next Obligation. intros s. unfold run_paging. repeat case_match; by rewrite ?take_nil, ?drop_nil. Qed.

Lemma offset_page_empty_witness :
  exists t ws', translate_select 0 "db" page_query [] = (Ok t, ws') /\
  forall docs : list Z, aggregate (pipeline t) docs = [].
Proof.
  eexists _, _. split; [by vm_compute|]. intros docs.
  eapply (offset_page_empty 0 "db" page_query [] _ _ (number "10") (number "20") false 10 20);
    [by vm_compute|done|by vm_compute|by vm_compute|lia].
Defined.

Definition frequent : SqlExpr := BinaryOp (Function "COUNT" (Some [None])) OpGt (number "5").

Lemma having_not_in_find_witness :
  exists t ws1 t' ws2,
    translate_select 0 "db" (with_having None page_query (select_all None)) [] = (Ok t, ws1) /\
    translate_select 0 "db" (with_having (Some frequent) page_query (select_all None)) [] = (Ok t', ws2) /\
    is_Some (find t) /\ pipeline t <> pipeline t' /\ find t = find t'.
Proof.
  eexists _, _, _, _. split; [by vm_compute|]. split; [by vm_compute|].
  split; [by eexists|]. split; [by vm_compute|].
  eapply (having_not_in_find 0 "db" page_query (select_all None) (Some frequent) []); by vm_compute.
Defined.

(** ** INSERT *)

(** A parser that keeps the text. *)
#[local] Instance text_json : JsonText :=
  {| json_from_str s := Ok (JString s); json_to_string_pretty _ := "{}"; json_eqb := json_same;
     json_eqb_refl := json_same_refl |}.

(** An object whose string holds a closing brace. *)
Definition tricky : list byte := [LBRACE; DQUOTE; RBRACE; DQUOTE; RBRACE].
Lemma tricky_object : object_text tricky.
Proof.
  exists [DQUOTE; RBRACE; DQUOTE]. split; [done|].
  apply (body_string [RBRACE] []); [|constructor]. by repeat constructor.
Qed.

Lemma json_insert_read_witness :
  detect_json_insert (of_bytes (as_bytes "INSERT INTO " ++ as_bytes "people" ++ as_bytes " VALUES " ++
                                documents_text [tricky; tricky]))
  = Ok (Some ("people", [JString (of_bytes tricky); JString (of_bytes tricky)])).
Proof.
  apply (json_insert_read (as_bytes "people") [tricky; tricky]); [|done| |done].
  - by repeat constructor.
  - repeat constructor; apply tricky_object.
Defined.

Lemma detect_json_insert_ends_witness :
  exists e, detect_json_insert "INSERT INTO people {" = Err e /\ exists msg, e = SqlParse msg.
Proof.
  eexists. split; [by vm_compute|]. eapply (detect_json_insert_ends "INSERT INTO people {"). by vm_compute.
Defined.
