(* ===== verification/Pipeline.v ===== *)
(** * The import and export pipeline (src-tauri/src/mongo/import_export/core.rs)

    A source of rows, a list of transforms and a sink: [run_pipeline] drives them, counts
    rows and errors, and ends by finishing or aborting the sink.  Sources and sinks are type
    classes, as they are traits in the code; the files after this one give the instances. *)

From stdpp Require Import pretty.
From S2P Require Import Prelude.
From S2P Require Import AppError.
From S2P Require Import BsonJson.
Local Open Scope N_scope.

Record RowError := { row : option N; message : string }.

Inductive RowResult := RowDoc (d : Doc) | Skipped | RowFailed (e : RowError).

(** [next_doc]: nothing at the end of the source. *)
Class DocumentSource (Src : Type) := {
  size_hint : Src -> option N;
  next_doc : stateR Src AppError (option RowResult);
}.

(** Dropping the document is [None]. *)
Definition Transform : Type := Doc -> result AppError (option Doc).

Class DocumentSink (Snk : Type) := {
  start : stateR Snk AppError unit;
  write : Doc -> stateR Snk AppError unit;
  finish : stateR Snk AppError unit;
  abort : stateR Snk AppError unit;
}.

(** The cancel flag at the [n]-th time it is loaded, and whether the throttle interval has
    passed when the [n]-th row is done. *)
Record JobContext := {
  job_id : string;
  max_errors : N;
  max_error_samples : nat;
  cancel_flag : nat -> bool;
  throttle_over : nat -> bool;
}.

Record ImportExportProgressPayload := {
  pg_job_id : string;
  phase : string;
  pg_processed : N;
  total : option N;
  pg_message : string;
}.

Record JobReport := {
  rp_job_id : string;
  rp_processed : N;
  rp_errors : N;
  cancelled : bool;
  rp_row_errors : list RowError;
}.

(** The counters of the loop, and the progress events emitted so far. *)
Record Progress := {
  processed : N;
  errors : N;
  row_errors : list RowError;
  events : list ImportExportProgressPayload;
}.

Definition emit (ctx : JobContext) (phase_ : string) (size : option N) (msg : string) (p : Progress) : Progress :=
  {| processed := processed p; errors := errors p; row_errors := row_errors p;
     events := events p ++ [{| pg_job_id := job_id ctx; phase := phase_; pg_processed := processed p;
                               total := size; pg_message := msg |}] |}.

Definition add_error (ctx : JobContext) (e : RowError) (p : Progress) : Progress :=
  {| processed := processed p; errors := errors p + 1;
     row_errors := if bool_decide (length (row_errors p) < max_error_samples ctx)%nat
                   then row_errors p ++ [e] else row_errors p;
     events := events p |}.

Definition count_row (p : Progress) : Progress :=
  {| processed := processed p + 1; errors := errors p; row_errors := row_errors p; events := events p |}.

(** The transforms one after the other; a dropped document ends them. *)
Fixpoint apply_transforms (ts : list Transform) (d : Doc) : result AppError (option Doc) :=
  match ts with
  | [] => Ok (Some d)
  | t :: ts =>
    match t d with
    | Ok (Some d) => apply_transforms ts d
    | Ok None => Ok None
    | Err e => Err e
    end
  end.

Section pipeline.
Context {Src Snk : Type} {DS : DocumentSource Src} {DK : DocumentSink Snk}.
Context (ctx : JobContext) (transforms : list Transform).

(** [sink.abort().await?; return Err(e)] *)
Definition fail_with {A} (e : AppError) : stateR Snk AppError A := _ ← abort; throw e.

Definition handle_row (r : RowResult) (p : Progress) : stateR Snk AppError Progress :=
  match r with
  | RowDoc doc =>
    match apply_transforms transforms doc with
    | Ok (Some doc) =>
      w ← catch (write doc);
      match w with
      | Ok _ => mret p
      | Err e => fail_with e
      end
    | Ok None => mret p
    | Err e => mret (add_error ctx {| row := Some (processed p + 1); message := display e |} p)
    end
  | Skipped => mret p
  | RowFailed e => mret (add_error ctx e p)
  end.

(** One row: handled, counted, checked against the limit, reported. *)
Definition one_row (size : option N) (n : nat) (r : RowResult) (p : Progress) : stateR Snk AppError Progress :=
  p ← handle_row r p;
  let p := count_row p in
  if max_errors ctx <? errors p then
    fail_with (Validation ("Job aborted: error count exceeded maximum of " +:+ pretty (max_errors ctx)))
  else mret (if throttle_over ctx n then emit ctx "processing" size ("Processed " +:+ pretty (processed p)) p else p).

(** The loop, with the number of loads of the cancel flag so far; no result without fuel. *)
Fixpoint pump (fuel : nat) (size : option N) (n : nat) (p : Progress) (s : Src) (k : Snk) :
    option (result AppError (nat * Progress) * Src * Snk) :=
  match fuel with
  | O => None
  | S fuel =>
    if cancel_flag ctx n then Some (Ok (S n, p), s, k)
    else match next_doc s with
         | (Err e, s) => let '(r, k) := fail_with e k in Some (r, s, k)
         | (Ok None, s) => Some (Ok (S n, p), s, k)
         | (Ok (Some r), s) =>
           match one_row size n r p k with
           | (Err e, k) => Some (Err e, s, k)
           | (Ok p, k) => pump fuel size (S n) p s k
           end
         end
  end.

(** After the loop: the flag is loaded once more. *)
Definition conclude (size : option N) (n : nat) (p : Progress) : stateR Snk AppError (JobReport * Progress) :=
  let report (c : bool) := {| rp_job_id := job_id ctx; rp_processed := processed p; rp_errors := errors p;
                              cancelled := c; rp_row_errors := row_errors p |} in
  if cancel_flag ctx n then
    _ ← abort;
    mret (report true, emit ctx "cancelled" size "Cancelled" p)
  else
    _ ← finish;
    mret (report false, emit ctx "done" size "Completed" p).

Definition no_progress : Progress := {| processed := 0; errors := 0; row_errors := []; events := [] |}.

Definition run_pipeline (fuel : nat) (s : Src) (k : Snk) :
    option (result AppError (JobReport * Progress) * Src * Snk) :=
  match start k with
  | (Err e, k) => Some (Err e, s, k)
  | (Ok _, k) =>
    match pump fuel (size_hint s) 0 no_progress s k with
    | None => None
    | Some (Err e, s, k) => Some (Err e, s, k)
    | Some (Ok (n, p), s', k) => let '(r, k) := conclude (size_hint s) n p k in Some (r, s', k)
    end
  end.
End pipeline.

(** ** Sources in memory (source_mem.rs) and from a cursor (source_cursor.rs) *)

Record VecSource := { docs : list Doc; total_docs : N }.
Definition new_vec_source (l : list Doc) : VecSource := {| docs := l; total_docs := N.of_nat (length l) |}.
Definition vec_next (s : VecSource) : result AppError (option RowResult) * VecSource :=
  match docs s with
  | d :: l => (Ok (Some (RowDoc d)), {| docs := l; total_docs := total_docs s |})
  | [] => (Ok None, s)
  end.
#[export] Instance vec_source : DocumentSource VecSource :=
  {| size_hint s := Some (total_docs s); next_doc := vec_next |}.

(** What the cursor still yields. *)
Record CursorSource := { cursor : list (result AppError Doc); total_count : option N }.
Definition cursor_next (s : CursorSource) : result AppError (option RowResult) * CursorSource :=
  match cursor s with
  | Ok d :: l => (Ok (Some (RowDoc d)), {| cursor := l; total_count := total_count s |})
  | Err e :: l => (Err e, {| cursor := l; total_count := total_count s |})
  | [] => (Ok None, s)
  end.
#[export] Instance cursor_source : DocumentSource CursorSource :=
  {| size_hint := total_count; next_doc := cursor_next |}.
