(* ===== verification/PipelineSpec.v ===== *)
(** * What the pipeline promises

    Over a source that delivers a list of rows: an undisturbed run writes exactly the
    transformed documents, in order, and reports every row; whatever happens, the sink is
    either finished or aborted last, and finished only when every row was handled. *)

From S2P Require Import Prelude.
From S2P Require Import AppError.
From S2P Require Import BsonJson.
From S2P Require Import Pipeline.
Local Open Scope N_scope.

Section pipeline_spec.
Context {Src Snk : Type} {DS : DocumentSource Src} {DK : DocumentSink Snk}.
Context (ctx : JobContext) (ts : list Transform).

(** What a source delivers until its end or its failure, and the state it is left in. *)
Inductive delivers : Src -> list RowResult -> option AppError -> Src -> Prop :=
| delivers_end s s' : next_doc s = (Ok None, s') -> delivers s [] None s'
| delivers_error s e s' : next_doc s = (Err e, s') -> delivers s [] (Some e) s'
| delivers_row s r s1 rows e s' :
    next_doc s = (Ok (Some r), s1) -> delivers s1 rows e s' -> delivers s (r :: rows) e s'.

(** What becomes of a row that is [i]-th, counted from zero. *)
Definition written (r : RowResult) : option Doc :=
  match r with
  | RowDoc d => match apply_transforms ts d with Ok o => o | Err _ => None end
  | _ => None
  end.
Definition failure (i : N) (r : RowResult) : option RowError :=
  match r with
  | RowDoc d => match apply_transforms ts d with
                | Err e => Some {| row := Some (i + 1); message := display e |} | Ok _ => None end
  | Skipped => None
  | RowFailed e => Some e
  end.
Fixpoint failures (i : N) (rows : list RowResult) : list RowError :=
  match rows with [] => [] | r :: rows => option_list (failure i r) ++ failures (i + 1) rows end.

(** ** An undisturbed run *)

(** The samples kept of the errors so far. *)
Definition samples (es : list RowError) : list RowError := take (max_error_samples ctx) es.

Lemma samples_snoc es e :
  samples (es ++ [e]) = if bool_decide (length (samples es) < max_error_samples ctx)%nat then samples es ++ [e] else samples es.
Proof.
  unfold samples. rewrite length_take. case_bool_decide as H.
  - rewrite take_app_ge by lia. rewrite (take_ge es) by lia.
    by rewrite (take_ge [e]) by (cbn; lia).
  - by rewrite take_app_le by lia.
Qed.

(** The counters after the rows with the errors [es]. *)
Definition counts (n : nat) (es : list RowError) (p : Progress) : Prop :=
  processed p = N.of_nat n /\ errors p = N.of_nat (length es) /\ row_errors p = samples es.

Lemma handle_row_counts n es r p k :
  counts n es p -> (forall d, written r = Some d -> exists k', write d k = (Ok tt, k')) ->
  exists p' k', handle_row ctx ts r p k = (Ok p', k') /\ for_each write (option_list (written r)) k = (Ok tt, k') /\
                counts n (es ++ option_list (failure (N.of_nat n) r)) p'.
Proof.
  intros (Hp & He & Hr) Hw.
  assert (forall e, counts n (es ++ [e]) (add_error ctx e p)) as Hadd.
  { intros e. split_and!; [done|cbn; rewrite He, length_app; cbn; lia|]. cbn. by rewrite Hr, samples_snoc. }
  destruct r as [d| |e]; cbn in *.
  - destruct (apply_transforms ts d) as [[d'|]|e].
    + destruct (Hw d' eq_refl) as [k' Hk]. exists p, k'. unfold mbind, stateR_bind, catch.
      rewrite Hk. split_and!; [done| |by rewrite app_nil_r]. cbn. unfold mbind, stateR_bind. by rewrite Hk.
    + exists p, k. split_and!; [done|done|by rewrite app_nil_r].
    + eexists _, k. split_and!; [done|done|]. rewrite <-Hp. apply Hadd.
  - exists p, k. split_and!; [done|done|by rewrite app_nil_r].
  - eexists _, k. split_and!; [done|done|]. apply Hadd.
Qed.

Lemma for_each_app {A} (f : A -> stateR Snk AppError unit) l1 l2 k k' :
  for_each f (l1 ++ l2) k = (Ok tt, k') <-> exists k1, for_each f l1 k = (Ok tt, k1) /\ for_each f l2 k1 = (Ok tt, k').
Proof.
  revert k. induction l1 as [|x l1 IH]; intros k; cbn.
  - split; [by eauto|]. by intros (k1 & [= <-] & H).
  - rewrite stateR_bind_Ok. split.
    + intros ([] & k1 & Hx & (k2 & H1 & H2)%IH). exists k2. split; [|done].
      apply stateR_bind_Ok. by eauto.
    + intros (k2 & ([] & k1 & Hx & H1)%stateR_bind_Ok & H2). exists tt, k1. split; [done|]. apply IH. by eauto.
Qed.

Lemma pump_writes fuel size n p es s rows s' k k' :
  delivers s rows None s' -> (forall i, cancel_flag ctx i = false) -> counts n es p ->
  (N.of_nat (length (es ++ failures (N.of_nat n) rows)) <= max_errors ctx) ->
  for_each write (omap written rows) k = (Ok tt, k') -> (length rows < fuel)%nat ->
  exists p', pump ctx ts fuel size n p s k = Some (Ok (S (n + length rows), p'), s', k') /\
             counts (n + length rows) (es ++ failures (N.of_nat n) rows) p'.
Proof.
  intros Hs Hc. revert fuel n p es k. remember None as fin eqn:Hfin.
  induction Hs as [s s' Hn|s e s' Hn|s r s1 rows fin s' Hn Hs IH]; intros fuel n p es k Hp Hmax Hw Hf;
    destruct fuel as [|fuel]; try (cbn in Hf; lia); cbn [pump]; rewrite Hc, Hn.
  - injection Hw as <-. exists p. rewrite Nat.add_0_r. split; [done|]. by rewrite app_nil_r.
  - done.
  - assert (exists k1, for_each write (option_list (written r)) k = (Ok tt, k1) /\
                       for_each write (omap written rows) k1 = (Ok tt, k')) as (k1 & Hk1 & Hrest).
    { cbn in Hw. destruct (written r) as [d|]; [|by exists k]. apply (for_each_app write [d]). exact Hw. }
    assert (forall d, written r = Some d -> exists k', write d k = (Ok tt, k')) as Hok.
    { intros d Hd. rewrite Hd in Hk1. cbn in Hk1. apply stateR_bind_Ok in Hk1 as ([] & k2 & Hk2 & _). by eauto. }
    destruct (handle_row_counts n es r p k Hp Hok) as (p' & k2 & Hh & Hk2 & Hp').
    rewrite Hk1 in Hk2. injection Hk2 as <-. cbn [failures] in Hmax. rewrite app_assoc in Hmax.
    set (es1 := es ++ option_list (failure (N.of_nat n) r)) in *.
    assert (counts (S n) es1 (count_row p')) as Hc'.
    { destruct Hp' as (Hp1 & Hp2 & Hp3). split_and!; [cbn; lia|done|done]. }
    assert (exists q, one_row ctx ts size n r p k = (Ok q, k1) /\ counts (S n) es1 q) as (q & Hq & Hcq).
    { unfold one_row, mbind, stateR_bind. rewrite Hh.
      replace (max_errors ctx <? errors (count_row p')) with false; [|].
      - eexists. split; [done|]. by destruct (throttle_over ctx n).
      - symmetry. apply N.ltb_ge. destruct Hc' as (_ & -> & _). rewrite length_app in Hmax. lia. }
    rewrite Hq. destruct (IH Hfin fuel (S n) q es1 k1) as (p2 & Hr & Hp2); [done| |done|cbn in Hf; lia|].
    + replace (N.of_nat (S n)) with (N.of_nat n + 1) by lia. done.
    + exists p2. cbn [length]. rewrite Hr, Nat.add_succ_r. split; [done|].
      cbn [failures]. rewrite app_assoc. fold es1. replace (N.of_nat n + 1) with (N.of_nat (S n)) by lia.
      exact Hp2.
Qed.

(** A run that is not cancelled, over a source that ends, with a sink that succeeds and no
    more errors than allowed, writes exactly the transformed documents in the order of the
    source and finishes the sink; its report counts every row and every error, and keeps the
    first of the errors up to the sample limit. *)
Theorem pipeline_writes_all fuel s rows s' k k0 k1 k2 :
  delivers s rows None s' -> (forall n, cancel_flag ctx n = false) ->
  N.of_nat (length (failures 0 rows)) <= max_errors ctx -> (length rows < fuel)%nat ->
  start k = (Ok tt, k0) -> for_each write (omap written rows) k0 = (Ok tt, k1) -> finish k1 = (Ok tt, k2) ->
  exists p, run_pipeline ctx ts fuel s k =
    Some (Ok ({| rp_job_id := job_id ctx; rp_processed := N.of_nat (length rows);
                 rp_errors := N.of_nat (length (failures 0 rows)); cancelled := false;
                 rp_row_errors := samples (failures 0 rows) |}, p), s', k2).
Proof.
  intros Hs Hc Hmax Hf H0 H1 H2. unfold run_pipeline. rewrite H0.
  destruct (pump_writes fuel (size_hint s) 0 no_progress [] s rows s' k0 k1) as (p & Hp & Hp1 & Hp2 & Hp3);
    try done. { split_and!; [done|done|]. unfold samples. by rewrite take_nil. }
  rewrite Hp. unfold conclude, mbind, stateR_bind. rewrite Hc, H2. eexists. do 4 f_equal.
  cbn. rewrite Hp1, Hp2, Hp3. done.
Qed.

(** ** How a run ends *)

(** The sink after some writes, successful or not. *)
Inductive after_writes : Snk -> Snk -> Prop :=
| after_none k : after_writes k k
| after_write d k r k1 k2 : write d k = (r, k1) -> after_writes k1 k2 -> after_writes k k2.

Lemma after_trans k1 k2 k3 : after_writes k1 k2 -> after_writes k2 k3 -> after_writes k1 k3.
Proof. induction 1; [done|]. intros. eapply after_write; by eauto. Qed.

(** A run of the sink that either goes on after writes or aborts, with an error. *)
Definition goes_on {A} (m : stateR Snk AppError A) : Prop :=
  forall k r k', m k = (r, k') ->
    match r with
    | Ok _ => after_writes k k'
    | Err _ => exists k1 r1, after_writes k k1 /\ abort k1 = (r1, k')
    end.

Lemma goes_on_ret {A} (a : A) : goes_on (mret a).
Proof. intros k r k' [= <- <-]. constructor. Qed.
Lemma goes_on_fail {A} e : goes_on (fail_with (A := A) e).
Proof.
  intros k r k'. unfold fail_with, mbind, stateR_bind. destruct (abort k) as [[u|e'] k1] eqn:Ha;
    intros [= <- <-]; exists k; eexists; (split; [constructor|done]).
Qed.
Lemma goes_on_bind {A B} (m : stateR Snk AppError A) (f : A -> stateR Snk AppError B) :
  goes_on m -> (forall a, goes_on (f a)) -> goes_on (m ≫= f).
Proof.
  intros Hm Hf k r k'. unfold mbind, stateR_bind. destruct (m k) as [[a|e] k1] eqn:Ha; specialize (Hm _ _ _ Ha); cbn in Hm.
  - intros Hr. specialize (Hf a _ _ _ Hr). destruct r; [by eapply after_trans|].
    destruct Hf as (k2 & r2 & H1 & H2). exists k2, r2. split; [by eapply after_trans|done].
  - by intros [= <- <-].
Qed.
Lemma goes_on_write d : goes_on (catch (write d)).
Proof.
  intros k r k'. unfold catch. destruct (write d k) as [w k1] eqn:Hw. intros [= <- <-].
  eapply after_write; [done|constructor].
Qed.

Lemma one_row_goes_on size n r p : goes_on (one_row ctx ts size n r p).
Proof.
  unfold one_row, handle_row. apply goes_on_bind.
  - destruct r as [d| |e]; try apply goes_on_ret. destruct (apply_transforms ts d) as [[d'|]|e]; try apply goes_on_ret.
    apply goes_on_bind; [apply goes_on_write|]. intros []; [apply goes_on_ret|apply goes_on_fail].
  - intros p'. destruct (_ <? _); [apply goes_on_fail|apply goes_on_ret].
Qed.

Lemma pump_goes_on fuel size n p s k r s' k' :
  pump ctx ts fuel size n p s k = Some (r, s', k') ->
  match r with
  | Ok _ => after_writes k k'
  | Err _ => exists k1 r1, after_writes k k1 /\ abort k1 = (r1, k')
  end.
Proof.
  revert n p s k. induction fuel as [|fuel IH]; intros n p s k; [done|]. cbn [pump].
  destruct (cancel_flag ctx n); [intros [= <- _ <-]; constructor|].
  destruct (next_doc s) as [[[row|]|e] s1]; [|intros [= <- _ <-]; constructor|].
  - destruct (one_row ctx ts size n row p k) as [[p1|e] k1] eqn:Hrow; pose proof (one_row_goes_on _ _ _ _ _ _ _ Hrow) as H1; cbn in H1.
    + intros H2%IH. destruct r; [by eapply after_trans|]. destruct H2 as (k2 & r2 & H3 & H4).
      exists k2, r2. split; [by eapply after_trans|done].
    + by intros [= <- _ <-].
  - destruct (fail_with e k) as [r' k1] eqn:Hf. intros [= <- _ <-]. by apply (goes_on_fail e _ _ _ Hf).
Qed.

(** The three ends of a run: the sink does not start, is finished, or is aborted. *)
Definition ends (r : result AppError (JobReport * Progress)) (k k' : Snk) : Prop :=
  (exists e, start k = (Err e, k') /\ r = Err e) \/
  exists k0 k1, start k = (Ok tt, k0) /\ after_writes k0 k1 /\
    match r with
    | Ok (rep, _) => if cancelled rep then exists u, abort k1 = (Ok u, k') else exists u, finish k1 = (Ok u, k')
    | Err e => (exists r1, abort k1 = (r1, k')) \/ finish k1 = (Err e, k')
    end.

Lemma run_pipeline_ends fuel s k r s' k' : run_pipeline ctx ts fuel s k = Some (r, s', k') -> ends r k k'.
Proof.
  unfold run_pipeline. destruct (start k) as [[[]|e] k0] eqn:Hst; [|intros [= <- _ <-]; left; by eexists].
  intros H. right. exists k0.
  destruct (pump _ _ _ _ _ _ _ _) as [[[r1 s1] k1]|] eqn:Hp; [|done]. apply pump_goes_on in Hp.
  destruct r1 as [[n p]|e].
  - exists k1. split; [done|]. split; [done|]. revert H. unfold conclude, mbind, stateR_bind.
    destruct (cancel_flag ctx n).
    + destruct (abort k1) as [[u|e] k2] eqn:Ha; intros [= <- _ <-]; [by eexists|left; by eexists].
    + destruct (finish k1) as [[u|e] k2] eqn:Ha; intros [= <- _ <-]; [by eexists|by right].
  - injection H as <- _ <-. destruct Hp as (k2 & r2 & H1 & H2). exists k2. split; [done|]. split; [done|]. left. by eexists.
Qed.

(** The report of a run that was not cancelled. *)
Definition reports_done (r : result AppError (JobReport * Progress)) : bool :=
  match r with Ok (rep, _) => negb (cancelled rep) | Err _ => false end.

(** ** A finished run is complete *)

Lemma for_each_cons_ret {A} (f : A -> stateR Snk AppError unit) x l k k1 k2 :
  f x k = (Ok tt, k1) -> for_each f l k1 = (Ok tt, k2) -> for_each f (x :: l) k = (Ok tt, k2).
Proof. intros H1 H2. cbn. apply stateR_bind_Ok. by eauto. Qed.

Lemma fail_with_not_ok {A} e k (a : A) k' : fail_with e k <> (Ok a, k').
Proof. unfold fail_with, mbind, stateR_bind. by destruct (abort k) as [[]]. Qed.

Lemma fail_with_aborts {A} e k (r : result AppError A) k' :
  fail_with e k = (r, k') -> exists e' r2, r = Err e' /\ abort k = (r2, k').
Proof. unfold fail_with, mbind, stateR_bind. destruct (abort k) as [[u|e'] k2]; intros [= <- <-]; by eexists _, _. Qed.

(** The sink is given the document of the row, if it has one; after a failure it is
    aborted. *)
Definition writes_row (row : RowResult) k (r : result AppError Progress) k' : Prop :=
  exists r1 k1, for_each write (option_list (written row)) k = (r1, k1) /\
    match r with Ok _ => r1 = Ok tt /\ k' = k1 | Err _ => exists r2, abort k1 = (r2, k') end.

Lemma handle_row_writes row p k r k' : handle_row ctx ts row p k = (r, k') -> writes_row row k r k'.
Proof.
  assert (forall q, (Ok (E := AppError) q, k) = (r, k') -> written row = None -> writes_row row k r k') as H0.
  { intros q [= <- <-] Hw. exists (Ok tt), k. by rewrite Hw. }
  destruct row as [d| |e]; cbn; [|by intros; eapply H0..].
  destruct (apply_transforms ts d) as [[d'|]|e] eqn:Ht; [|intros; eapply H0; [done|cbn; by rewrite Ht]..].
  unfold mbind, stateR_bind, catch. destruct (write d' k) as [[[]|e] k1] eqn:Hw.
  - intros [= <- <-]. exists (Ok tt), k1. split; [|done]. cbn. rewrite Ht. by apply (for_each_cons_ret write d' [] k k1 k1).
  - intros (e' & r2 & -> & Ha)%fail_with_aborts. exists (Err e), k1. split; [|by eexists].
    cbn. rewrite Ht. cbn. unfold mbind, stateR_bind. by rewrite Hw.
Qed.

Lemma one_row_writes size n row p k r k' : one_row ctx ts size n row p k = (r, k') -> writes_row row k r k'.
Proof.
  unfold one_row, mbind, stateR_bind. destruct (handle_row ctx ts row p k) as [[p1|e] k1] eqn:Hh;
    apply handle_row_writes in Hh as Hw; [|by intros [= <- <-]].
  destruct Hw as (r1 & k2 & Hw & -> & ->). destruct (_ <? _).
  - intros (e & r2 & -> & Ha)%fail_with_aborts. exists (Ok tt), k2. split; [done|by eexists].
  - intros [= <- <-]. by exists (Ok tt), k2.
Qed.

Lemma one_row_written size n r p k p' k' :
  one_row ctx ts size n r p k = (Ok p', k') -> for_each write (option_list (written r)) k = (Ok tt, k').
Proof. by intros (r1 & k1 & Hw & -> & ->)%one_row_writes. Qed.

Lemma one_row_processed size n r p k p' k' : one_row ctx ts size n r p k = (Ok p', k') -> processed p' = processed p + 1.
Proof.
  unfold one_row. intros (p1 & k1 & Hh & H)%stateR_bind_Ok.
  assert (processed p1 = processed p) as Hp1.
  { destruct r as [d| |e]; cbn in Hh; [|by injection Hh as <- _..].
    destruct (apply_transforms ts d) as [[d'|]|e]; [|by injection Hh as <- _..].
    apply stateR_bind_Ok in Hh as ([u|e] & k2 & _ & H2); [by injection H2 as <- _|by apply fail_with_not_ok in H2]. }
  destruct (_ <? _); [by apply fail_with_not_ok in H|]. injection H as <- _. destruct (throttle_over ctx n); cbn; lia.
Qed.

Lemma pump_done fuel size n p s k m q s' k' :
  pump ctx ts fuel size n p s k = Some (Ok (m, q), s', k') ->
  (exists i, (i < m)%nat /\ cancel_flag ctx i = true) \/
  exists rows, delivers s rows None s' /\ for_each write (omap written rows) k = (Ok tt, k') /\
               processed q = processed p + N.of_nat (length rows).
Proof.
  revert n p s k. induction fuel as [|fuel IH]; intros n p s k; [done|]. cbn [pump].
  destruct (cancel_flag ctx n) eqn:Hc; [intros [= <- _ <- <-]; left; exists n; split; [lia|done]|].
  destruct (next_doc s) as [[[row|]|e] s1] eqn:Hn.
  - destruct (one_row ctx ts size n row p k) as [[p1|e] k1] eqn:Hrow; [|done]. intros [Hi|(rows & Hd & Hw & Hq)]%IH; [by left|].
    right. exists (row :: rows). split; [by eapply delivers_row|].
    apply one_row_processed in Hrow as Hp1. apply one_row_written in Hrow. split; [|cbn [length]; lia].
    cbn. destruct (written row); [|by injection Hrow as ->].
    apply (for_each_app write [_]). by eauto.
  - intros [= <- <- <- <-]. right. exists []. split_and!; [by constructor|done|cbn; lia].
  - destruct (fail_with e k) as [r k1] eqn:Hf. intros [= -> _ _]. by apply fail_with_not_ok in Hf.
Qed.

(** Whatever ends the run, the sink has been given a first part of the documents; its last
    write may have failed. *)
Lemma pump_writes_prefix fuel size n p s rows e s0 k r s' k' :
  delivers s rows e s0 -> pump ctx ts fuel size n p s k = Some (r, s', k') ->
  exists ds r1 k1, ds `prefix_of` omap written rows /\ for_each write ds k = (r1, k1) /\
    match r with Ok _ => r1 = Ok tt /\ k' = k1 | Err _ => exists r2, abort k1 = (r2, k') end.
Proof.
  intros Hs. revert fuel n p k. induction Hs as [s s0 Hn|s e s0 Hn|s row s1 rows e s0 Hn _ IH]; intros fuel n p k;
    (destruct fuel as [|fuel]; [done|]; cbn [pump]; destruct (cancel_flag ctx n);
      [intros [= <- _ <-]; by exists [], (Ok tt), k; split; [apply prefix_nil|]|]); rewrite Hn.
  - intros [= <- _ <-]. by exists [], (Ok tt), k; split; [apply prefix_nil|].
  - destruct (fail_with e k) as [r1 k1] eqn:Hf. apply fail_with_aborts in Hf as (e' & r2 & -> & Ha).
    intros [= <- _ <-]. exists [], (Ok tt), k. split_and!; [apply prefix_nil|done|by eexists].
  - destruct (one_row ctx ts size n row p k) as [[p1|e1] k1] eqn:Hr; apply one_row_writes in Hr as (r1 & k2 & Hw & Hk2).
    + destruct Hk2 as [-> ->]. intros (ds & r3 & k3 & Hp & Hw3 & Hr3)%IH.
      exists (option_list (written row) ++ ds), r3, k3. split_and!; [| |done].
      * cbn. destruct (written row); [by apply prefix_cons|done].
      * destruct (written row) as [d|]; cbn in *; [|by injection Hw as ->].
        unfold mbind, stateR_bind in *. destruct (write d k) as [[[]|e2] k4]; [|done]. by injection Hw as ->.
    + intros [= <- _ <-]. exists (option_list (written row)), r1, k2. split_and!; [|done|done].
      cbn. destruct (written row) as [d|]; cbn; [apply prefix_cons|]; apply prefix_nil.
Qed.

(** The source determines what it delivers. *)
Lemma delivers_fun s rows e s' : delivers s rows e s' ->
  forall rows2 e2 s2, delivers s rows2 e2 s2 -> rows = rows2 /\ e = e2 /\ s' = s2.
Proof.
  induction 1 as [s s' Hn|s e s' Hn|s r s1 rows e s' Hn _ IH]; intros rows2 e2 s2 H2; inversion H2 as
    [? ? H|? ? ? H|? ? ? ? ? ? H Hd]; subst; rewrite Hn in H; try done; try by injection H; intros; subst.
  injection H as <- <-. by destruct (IH _ _ _ Hd) as (-> & -> & ->).
Qed.

(** A report of a run that was not cancelled means the run was complete, once a cancellation
    cannot be taken back: the source was read to its end, every transformed document was
    written with success, in order, and the sink was finished. *)
Lemma run_done fuel s k rep p s' k' :
  (forall i j, (i <= j)%nat -> cancel_flag ctx i = true -> cancel_flag ctx j = true) ->
  run_pipeline ctx ts fuel s k = Some (Ok (rep, p), s', k') -> cancelled rep = false ->
  exists rows k0 k1, delivers s rows None s' /\ start k = (Ok tt, k0) /\
    for_each write (omap written rows) k0 = (Ok tt, k1) /\ finish k1 = (Ok tt, k') /\
    rp_processed rep = N.of_nat (length rows).
Proof.
  intros Hmono. unfold run_pipeline. destruct (start k) as [[[]|e] k0] eqn:Hst; [|done].
  destruct (pump _ _ _ _ _ _ _ _) as [[[[[n q]|e] s1] k1]|] eqn:Hp; [|done|done].
  unfold conclude. destruct (cancel_flag ctx n) eqn:Hc.
  - unfold mbind, stateR_bind. destruct (abort k1) as [[[]|e] k2]; [|done]. by intros [= <- _ _ _].
  - unfold mbind, stateR_bind. destruct (finish k1) as [[[]|e] k2] eqn:Hf; [|done].
    intros [= <- _ <- <-] _. apply pump_done in Hp as [(i & Hi & Hci)|(rows & Hd & Hw & Hq)].
    + by rewrite (Hmono i n) in Hc by (done || lia).
    + by exists rows, k0, k1.
Qed.

(** A run: the sink does not start, or it is given a first part of the documents and is then
    aborted or finished. *)
Lemma run_writes fuel s rows e s0 k r s' k' :
  delivers s rows e s0 -> run_pipeline ctx ts fuel s k = Some (r, s', k') ->
  (exists e', start k = (Err e', k') /\ r = Err e') \/
  exists k0 ds r1 k1, start k = (Ok tt, k0) /\ ds `prefix_of` omap written rows /\ for_each write ds k0 = (r1, k1) /\
    ((exists r2, abort k1 = (r2, k')) \/ exists r2, r1 = Ok tt /\ finish k1 = (r2, k')).
Proof.
  intros Hs. unfold run_pipeline. destruct (start k) as [[[]|e1] k0] eqn:Hst; [|intros [= <- _ <-]; left; by eexists].
  intros H. right. exists k0. destruct (pump _ _ _ _ _ _ _ _) as [[[r1 s1] k1]|] eqn:Hp; [|done].
  destruct (pump_writes_prefix _ _ _ _ _ _ _ _ _ _ _ _ Hs Hp) as (ds & r2 & k2 & Hpre & Hw & Hr).
  exists ds, r2, k2. split_and!; [done..|]. destruct r1 as [[n p]|e1].
  - destruct Hr as [-> ->]. unfold conclude, mbind, stateR_bind in H. destruct (cancel_flag ctx n).
    + left. destruct (abort k2) as [[u|e2] k3]; injection H as _ _ <-; by eexists.
    + right. destruct (finish k2) as [[u|e2] k3]; injection H as _ _ <-; by eexists.
  - left. injection H as _ _ <-. done.
Qed.

(** A run whose flag is never up is not cancelled. *)
Lemma run_not_cancelled fuel s k rep p s' k' :
  (forall i, cancel_flag ctx i = false) -> run_pipeline ctx ts fuel s k = Some (Ok (rep, p), s', k') -> cancelled rep = false.
Proof.
  intros Hc. unfold run_pipeline. destruct (start k) as [[[]|e] k0]; [|done].
  destruct (pump _ _ _ _ _ _ _ _) as [[[[[n q]|e] s1] k1]|]; [|done|done].
  unfold conclude. rewrite Hc. unfold mbind, stateR_bind. destruct (finish k1) as [[[]|e] k2]; [|done].
  by intros [= <- _ _ _].
Qed.

(** A source that gets smaller with every row ends, and so does the run over it. *)
Lemma pump_ends (m : Src -> nat) fuel size n p s k :
  (forall s r s', next_doc s = (Ok (Some r), s') -> (m s' < m s)%nat) -> (m s < fuel)%nat ->
  exists o, pump ctx ts fuel size n p s k = Some o.
Proof.
  intros Hm. revert n p s k. induction fuel as [|fuel IH]; intros n p s k Hf; [lia|]. cbn [pump].
  destruct (cancel_flag ctx n); [by eexists|]. destruct (next_doc s) as [[[r|]|e] s1] eqn:Hn; [|by eexists|].
  - apply Hm in Hn. destruct (one_row ctx ts size n r p k) as [[q|e] k1]; [|by eexists]. apply IH. lia.
  - destruct (fail_with e k). by eexists.
Qed.

Lemma run_pipeline_ends_some (m : Src -> nat) fuel s k :
  (forall s r s', next_doc s = (Ok (Some r), s') -> (m s' < m s)%nat) -> (m s < fuel)%nat ->
  exists o, run_pipeline ctx ts fuel s k = Some o.
Proof.
  intros Hm Hf. unfold run_pipeline. destruct (start k) as [[[]|e] k0]; [|by eexists].
  destruct (pump_ends m fuel (size_hint s) 0 no_progress s k0 Hm Hf) as [[[[[n p]|e] s1] k1] ->]; [|by eexists].
  destruct (conclude ctx (size_hint s) n p k1). by eexists.
Qed.
End pipeline_spec.

(** ** Sources of documents *)

Lemma omap_written docs : omap (written []) (map RowDoc docs) = docs.
Proof. induction docs as [|d docs IH]; [done|]. cbn. by rewrite IH. Qed.
Lemma no_failures i docs : failures [] i (map RowDoc docs) = [].
Proof. revert i. induction docs as [|d docs IH]; intros i; [done|]. apply IH. Qed.

Lemma vec_delivers l n :
  delivers {| docs := l; total_docs := n |} (map RowDoc l) None {| docs := []; total_docs := n |}.
Proof.
  induction l as [|d l IH]; cbn [map]; [by constructor|]. eapply delivers_row; [|exact IH]. done.
Qed.

Lemma cursor_delivers l n :
  delivers {| cursor := map Ok l; total_count := n |} (map RowDoc l) None {| cursor := []; total_count := n |}.
Proof.
  induction l as [|d l IH]; cbn [map]; [by constructor|]. eapply delivers_row; [|exact IH]. done.
Qed.
Lemma cursor_shrinks s r s' : next_doc s = (Ok (Some r), s') -> (length (cursor s') < length (cursor s))%nat.
Proof. destruct s as [[|[d|e] l] n]; cbn; [done| |done]. intros [= _ <-]. cbn. lia. Qed.
