(* ===== verification/WriteTarget.v ===== *)
(** * Where an export is written (src-tauri/src/mongo/import_export/io_util.rs)

    The file behind an export is written beside its final place and renamed at the end; an
    export to the clipboard is a buffer; both can be compressed.  The disk is a map from paths
    to contents whose operations can fail (a write that fails is taken to leave no bytes), and
    the encoders are an interface.  The last section is the check that a path a user names is
    under one of the directories the application may use. *)

From S2P Require Import Prelude.
From S2P Require Import Bytes.
From S2P Require Import AppError.
Local Open Scope string_scope.
Local Open Scope list_scope.

(** [faults] says of the next operations whether they fail. *)
Record Disk := { files : gmap string (list byte); faults : list bool }.
Definition set_files (f : gmap string (list byte)) (d : Disk) : Disk := {| files := f; faults := faults d |}.

Definition fallible (what : string) : stateR Disk AppError unit := fun d =>
  let d' := {| files := files d; faults := tail (faults d) |} in
  (if default false (head (faults d)) then Err (Io what) else Ok tt, d').

(** [final_path], [part_path], and whether the writer is there. *)
Record AtomicFileWriter := { final_path : string; part_path : string; writer : bool }.

Definition part_path_for (final : string) : string := final +:+ ".part".

Definition create (final : string) : stateR Disk AppError AtomicFileWriter :=
  _ ← fallible "create";
  _ ← modify (fun d => set_files (<[part_path_for final := []]> (files d)) d);
  mret {| final_path := final; part_path := part_path_for final; writer := true |}.

Definition append_part (p : string) (bytes : list byte) : stateR Disk AppError unit :=
  modify (fun d => set_files (<[p := default [] (files d !! p) ++ bytes]> (files d)) d).

(** [std::fs::rename] *)
Definition rename (from to : string) : stateR Disk AppError unit := fun d =>
  match fallible "rename" d with
  | (Err e, d) => (Err e, d)
  | (Ok _, d) =>
    match files d !! from with
    | Some c => (Ok tt, set_files (<[to := c]> (delete from (files d))) d)
    | None => (Err (Io "rename"), d)
    end
  end.

Definition commit (f : AtomicFileWriter) : stateR Disk AppError unit :=
  _ ← (if writer f then
         _ ← fallible "flush"; _ ← fallible "into_inner"; fallible "sync_all"
       else mret tt);
  rename (part_path f) (final_path f).

(** [AtomicFileWriter::abort]: a failure to remove the file is ignored. *)
Definition abort_file (f : AtomicFileWriter) : stateR Disk AppError unit := fun d =>
  match fallible "remove" d with
  | (Err _, d) => (Ok tt, d)
  | (Ok _, d) => (Ok tt, set_files (delete (part_path f) (files d)) d)
  end.

(** The writer is taken to write through its buffer. *)
Inductive WriteTarget := File (f : AtomicFileWriter) | Buffer (buf : list byte).

Definition target_write_all (bytes : list byte) (t : WriteTarget) : stateR Disk AppError WriteTarget :=
  match t with
  | File f =>
    if writer f then
      _ ← fallible "write";
      _ ← append_part (part_path f) bytes;
      mret t
    else throw (Internal "export writer already finalized")
  | Buffer buf => mret (Buffer (buf ++ bytes))
  end.

Definition commit_target (t : WriteTarget) : stateR Disk AppError (option string) :=
  match t with
  | File f => _ ← commit f; mret None
  | Buffer buf =>
    match from_utf8 buf with
    | Some text => mret (Some text)
    | None => throw (Internal "invalid utf-8 in export")
    end
  end.

Definition abort_target (t : WriteTarget) : stateR Disk AppError unit :=
  match t with File f => abort_file f | Buffer _ => mret tt end.

Inductive CompressionKind := NoCompression | Gzip | Zstd.
Definition extension (k : CompressionKind) : string :=
  match k with NoCompression => "" | Gzip => ".gz" | Zstd => ".zst" end.

(** [flate2] and [zstd]: what an encoder puts out for the bytes it is given, and at its
    end; the one of zstd may not start. *)
Class Encoder (Enc : Type) := {
  gzip_encoder : Enc;
  zstd_encoder : result string Enc;
  encode : list byte -> Enc -> list byte * Enc;
  encode_end : Enc -> list byte;
}.

Section write_sink.
Context {Enc : Type} {EN : Encoder Enc}.

Inductive WriteSink := Plain (t : WriteTarget) | Compressed (e : Enc) (t : WriteTarget).

(** [CompressedWriter::new]; its encoder for no compression hands everything on. *)
Definition compressed (t : WriteTarget) (k : CompressionKind) : result AppError WriteSink :=
  match k with
  | NoCompression => Ok (Plain t)
  | Gzip => Ok (Compressed gzip_encoder t)
  | Zstd =>
    match zstd_encoder with
    | Ok e => Ok (Compressed e t)
    | Err e => Err (Io ("zstd encoder init failed: " +:+ e))
    end
  end.

Definition sink_write_all (bytes : list byte) (w : WriteSink) : stateR Disk AppError WriteSink :=
  match w with
  | Plain t => t ← target_write_all bytes t; mret (Plain t)
  | Compressed e t =>
    let '(out, e) := encode bytes e in
    t ← target_write_all out t;
    mret (Compressed e t)
  end.

(** [CompressedWriter::finish] *)
Definition encoder_finish (e : Enc) (t : WriteTarget) : stateR Disk AppError WriteTarget :=
  target_write_all (encode_end e) t.

Definition sink_finish (w : WriteSink) : stateR Disk AppError (option string) :=
  match w with
  | Plain t => commit_target t
  | Compressed e t => t ← encoder_finish e t; commit_target t
  end.

(** When an encoder cannot be finished, an empty buffer is aborted in place of the file. *)
Definition sink_abort (w : WriteSink) : stateR Disk AppError unit :=
  match w with
  | Plain t => abort_target t
  | Compressed e t =>
    r ← catch (encoder_finish e t);
    match r with
    | Ok t => abort_target t
    | Err _ => abort_target (Buffer [])
    end
  end.

(** ** The part the sinks share

    [target_mut], [finish] and [abort] are the same in the JSON, CSV and BSON sinks;
    [extra] is what one of them has besides. *)

Record SinkState (X : Type) := { target : option WriteSink; output_slot : option string; extra : X; disk : Disk }.
Arguments target {X}. Arguments output_slot {X}. Arguments extra {X}. Arguments disk {X}.

Context {X : Type}.

Definition set_target (t : option WriteSink) (s : SinkState X) : SinkState X :=
  {| target := t; output_slot := output_slot s; extra := extra s; disk := disk s |}.
Definition set_slot (o : option string) (s : SinkState X) : SinkState X :=
  {| target := target s; output_slot := o; extra := extra s; disk := disk s |}.
Definition set_extra (x : X) (s : SinkState X) : SinkState X :=
  {| target := target s; output_slot := output_slot s; extra := x; disk := disk s |}.

(** An operation on the disk of a sink. *)
Definition on_disk {A} (m : stateR Disk AppError A) : stateR (SinkState X) AppError A := fun s =>
  let '(r, d) := m (disk s) in
  (r, {| target := target s; output_slot := output_slot s; extra := extra s; disk := d |}).

(** [self.target_mut()?.write_all(bytes)?]; a failed write leaves the target. *)
Definition put (who : string) (bytes : list byte) : stateR (SinkState X) AppError unit :=
  s ← get_state;
  match target s with
  | None => throw (Internal (who +:+ " sink already finalized"))
  | Some w => w ← on_disk (sink_write_all bytes w); modify (set_target (Some w))
  end.

(** The text of an export to the clipboard goes to the output slot. *)
Definition finish_target (who : string) : stateR (SinkState X) AppError unit :=
  s ← get_state;
  _ ← modify (set_target None);
  match target s with
  | None => throw (Internal (who +:+ " sink already finalized"))
  | Some w =>
    text ← on_disk (sink_finish w);
    match text with Some t => modify (set_slot (Some t)) | None => mret tt end
  end.

Definition abort_sink : stateR (SinkState X) AppError unit :=
  s ← get_state;
  _ ← modify (set_target None);
  match target s with
  | None => mret tt
  | Some w => on_disk (sink_abort w)
  end.
End write_sink.
Arguments WriteSink : clear implicits.
Arguments SinkState : clear implicits.
Arguments target {Enc X}. Arguments output_slot {Enc X}. Arguments extra {Enc X}. Arguments disk {Enc X}.

(** ** The paths a user may name (src-tauri/src/mongo/import_export/io_util.rs)

    Targets, sources and directories of transfers must lie under a directory of the user.
    The file system is an interface. *)

Class Paths := {
  parent : string -> option string;
  canonicalize : string -> result string string;
  (** The document, download, desktop and home directories, as far as they are known. *)
  user_dirs : list string;
  (** [Path::starts_with]: by components. *)
  path_starts_with : string -> string -> bool;
  is_dir : string -> bool;
}.

Section paths.
Context {PA : Paths}.

(** [filter_map(|p| p.canonicalize().ok())] *)
Definition allowed_roots : list string :=
  omap (fun p => match canonicalize p with Ok c => Some c | Err _ => None end) user_dirs.
Definition permitted (canon : string) : bool := existsb (path_starts_with canon) allowed_roots.

Definition validate_source_dir (path : string) : result AppError string :=
  match parent path with
  | None => Err (Validation "restore path has no parent directory")
  | Some up =>
    match canonicalize up with
    | Err e => Err (Validation ("invalid restore directory: " +:+ e))
    | Ok canon =>
      if negb (permitted canon)
      then Err (Validation "restore path must be under your Documents, Downloads, Desktop, or Home directory")
      else if negb (is_dir path) then Err (Validation "restore source directory does not exist")
      else Ok path
    end
  end.

(** [is_file]: of the paths on the disk. *)
Definition validate_user_path (is_file : string -> bool) (path operation : string) (must_exist : bool) :
    result AppError string :=
  match parent path with
  | None => Err (Validation (operation +:+ " path has no parent directory"))
  | Some up =>
    match canonicalize up with
    | Err e => Err (Validation ("invalid " +:+ operation +:+ " directory: " +:+ e))
    | Ok canon =>
      if negb (permitted canon)
      then Err (Validation (operation +:+ " path must be under your Documents, Downloads, Desktop, or Home directory"))
      else if must_exist && negb (is_file path) then Err (Validation (operation +:+ " source file does not exist"))
      else Ok path
    end
  end.

Definition validate_target_path (path : string) : result AppError string :=
  validate_user_path (fun _ => false) path "export" false.
Definition validate_source_path (is_file : string -> bool) (path : string) : result AppError string :=
  validate_user_path is_file path "import" true.
End paths.

(** [Path::join]: an absolute path replaces the other. *)
Definition path_join (dir name : string) : string :=
  match as_bytes name with
  | x2f :: _ => name
  | _ => match last (as_bytes dir) with
         | None | Some x2f => dir +:+ name
         | Some _ => dir +:+ "/" +:+ name
         end
  end.
