(* ===== verification/JsonFormat.v ===== *)
(** * JSON exports and imports
    (src-tauri/src/mongo/import_export/json.rs and json_source.rs)

    The sink writes Extended JSON as one array or as one document per line; the source reads
    an object, an array, element by element, or lines.  Reading a text that is there does
    not fail. *)

From stdpp Require Import pretty.
From S2P Require Import Prelude.
From S2P Require Import Bytes.
From S2P Require Import Text.
From S2P Require Import AppError.
From S2P Require Import Json.
From S2P Require Import JsonText.
From S2P Require Import OplogCanon.
From S2P Require Import BsonJson.
From S2P Require Import Pipeline.
From S2P Require Import WriteTarget.
Local Open Scope string_scope.
Local Open Scope list_scope.

(** [into_canonical_extjson], [serde_json::to_vec], [from_slice] and [from_str] *)
Class JsonBytes := {
  canonical_extjson : Bson -> Json;
  json_to_vec : Json -> list byte;
  json_from_slice : list byte -> result string Json;
}.

(** ** The sink *)

Inductive JsonShape := ShapeArray | ShapeNdjson.
Record JsonSink := { shape : JsonShape; canonical : bool; wrote_first : bool }.

Section json_sink.
Context {Enc : Type} {EN : Encoder Enc} {BC : BsonConvert} {JB : JsonBytes}.

Abbreviation json_state := (SinkState Enc JsonSink).

Definition new_json_sink (t : WriteSink Enc) (shape_ : JsonShape) (canonical_ : bool) (d : Disk) : json_state :=
  {| target := Some t; output_slot := None; disk := d;
     extra := {| shape := shape_; canonical := canonical_; wrote_first := false |} |}.

Definition encode_doc (canonical_ : bool) (d : Doc) : list byte :=
  json_to_vec (if canonical_ then canonical_extjson (Document d) else relaxed_extjson (Document d)).

Definition OPEN : list byte := [x5b].
Definition FIRST : list byte := [x0a; x20; x20].
Definition NEXT : list byte := [x2c; x0a; x20; x20].
Definition NEWLINE : list byte := [x0a].
Definition CLOSE : list byte := [x0a; x5d; x0a].
Definition CLOSE_EMPTY : list byte := [x5d; x0a].

Definition json_start : stateR json_state AppError unit :=
  s ← get_state;
  match shape (extra s) with
  | ShapeArray => put "json" OPEN
  | ShapeNdjson => mret tt
  end.

Definition json_write (d : Doc) : stateR json_state AppError unit :=
  s ← get_state;
  let bytes := encode_doc (canonical (extra s)) d in
  _ ← match shape (extra s) with
      | ShapeArray =>
        _ ← put "json" (if wrote_first (extra s) then NEXT else FIRST);
        put "json" bytes
      | ShapeNdjson => _ ← put "json" bytes; put "json" NEWLINE
      end;
  modify (set_extra {| shape := shape (extra s); canonical := canonical (extra s); wrote_first := true |}).

Definition json_finish : stateR json_state AppError unit :=
  s ← get_state;
  _ ← match shape (extra s) with
      | ShapeArray => put "json" (if wrote_first (extra s) then CLOSE else CLOSE_EMPTY)
      | ShapeNdjson => mret tt
      end;
  finish_target "json".

#[export] Instance json_sink : DocumentSink json_state :=
  {| start := json_start; write := json_write; finish := json_finish; abort := abort_sink |}.
End json_sink.

(** ** The source *)

Inductive JsonImportShape := ImportObject | ImportArray | ImportNdjson.

(** [is_ascii_whitespace] *)
Definition ascii_space (b : byte) : bool := bool_decide (b ∈ [x20; x09; x0a; x0c; x0d]).

(** The text not read yet; [peeked] belongs to it. *)
Record JsonArrayReader := { rest : list byte; opened : bool; finished : bool }.

Fixpoint skip_ascii_ws (l : list byte) : list byte :=
  match l with b :: l' => if ascii_space b then skip_ascii_ws l' else l | [] => [] end.

(** The value that starts a text, and the text after it; [buf] is what was read of it. *)
Fixpoint scan_value (depth : nat) (in_string escaped : bool) (buf l : list byte) :
    result AppError (list byte * list byte) :=
  match l with
  | [] =>
    if bool_decide (depth = 0%nat) && negb in_string && negb (bool_decide (length buf = 0%nat)) then Ok (buf, [])
    else Err (Validation "unterminated JSON value in array")
  | b :: l' =>
    let push := buf ++ [b] in
    if in_string then
      if escaped then scan_value depth true false push l'
      else if bool_decide (b = BACKSLASH) then scan_value depth true true push l'
      else if bool_decide (b = DQUOTE) then
        if bool_decide (depth = 0%nat) then Ok (push, l') else scan_value depth false false push l'
      else scan_value depth true false push l'
    else if bool_decide (b = DQUOTE) then scan_value depth true escaped push l'
    else if bool_decide (b ∈ [LBRACE; LBRACKET]) then scan_value (S depth) false escaped push l'
    else if bool_decide (b ∈ [RBRACE; RBRACKET]) then
      match depth with
      | O => Ok (buf, l)
      | S O => Ok (push, l')
      | S depth => scan_value depth false escaped push l'
      end
    else if bool_decide (b ∈ [COMMA; x20; x09; x0a; x0d]) then
      if bool_decide (depth = 0%nat) then Ok (buf, l) else scan_value depth false escaped push l'
    else scan_value depth false escaped push l'
  end.

(** The element that starts [l], or the end of the array. *)
Definition next_element (l : list byte) : stateR JsonArrayReader AppError (option (list byte)) := fun _ =>
  match skip_ascii_ws l with
  | x5d :: l => (Ok None, {| rest := l; opened := true; finished := true |})
  | l => match scan_value 0 false false [] l with
         | Ok (raw, l) => (Ok (Some raw), {| rest := l; opened := true; finished := false |})
         | Err e => (Err e, {| rest := []; opened := true; finished := false |})
         end
  end.

Definition next_raw : stateR JsonArrayReader AppError (option (list byte)) := fun r =>
  if finished r then (Ok None, r)
  else if opened r then
    match skip_ascii_ws (rest r) with
    | x2c :: l => next_element l r
    | x5d :: l => (Ok None, {| rest := l; opened := true; finished := true |})
    | [] => (Err (Validation "unterminated JSON array"), {| rest := []; opened := true; finished := false |})
    | l => next_element l r
    end
  else
    match skip_ascii_ws (rest r) with
    | x5b :: l => next_element l r
    | other :: l =>
      (Err (Validation ("expected JSON array, found '" +:+ of_bytes (byte_char other) +:+ "'")),
       {| rest := l; opened := false; finished := false |})
    | [] => (Err (Validation "expected JSON array, found empty input"), {| rest := []; opened := false; finished := false |})
    end.

Section json_source.
Context {BC : BsonConvert} {JT : JsonText} {JB : JsonBytes}.

Definition json_type_name (b : Bson) : string :=
  match b with
  | Array _ => "array" | Boolean _ => "bool" | Double _ => "double" | Int32 _ => "int32"
  | Int64 _ => "int64" | Null => "null" | BString _ => "string" | _ => "bson"
  end.

Definition doc_from_json_value (v : Json) : result AppError Doc :=
  match to_bson v with
  | Ok (Document d) => Ok d
  | Ok other => Err (InvalidBson ("import row must be a JSON object, got " +:+ json_type_name other))
  | Err e => Err (from_bson_ser e)
  end.

Definition row_error (r : N) (msg : string) : RowResult := RowFailed {| row := Some r; message := msg |}.

(** A parsed value, or the failure to parse it, as the row [r]. *)
Definition row_of (r : N) (v : result string Json) : RowResult :=
  match v with
  | Err e => row_error r e
  | Ok v => match doc_from_json_value v with Ok d => RowDoc d | Err e => row_error r (display e) end
  end.

Inductive JsonSourceInner :=
| Rows (rows : list RowResult)
| ArraySource (reader : JsonArrayReader) (n : N)
| NdjsonSource (lines_ : list string) (n : N).
Record JsonSource := { inner : JsonSourceInner; total_rows : option N }.

Definition from_text (text : list byte) (shape_ : JsonImportShape) : result AppError JsonSource :=
  match shape_ with
  | ImportObject =>
    match json_from_slice text with
    | Ok v => Ok {| inner := Rows [row_of 1 (Ok v)]; total_rows := Some 1%N |}
    | Err e => Err (from_serde_json e)
    end
  | ImportArray => Ok {| inner := ArraySource {| rest := text; opened := false; finished := false |} 0; total_rows := None |}
  | ImportNdjson => Ok {| inner := NdjsonSource (lines (of_bytes text)) 0; total_rows := None |}
  end.

(** Blank lines are counted and passed over. *)
Fixpoint next_line (ls : list string) (n : N) : option (string * list string * N) :=
  match ls with
  | [] => None
  | line :: ls =>
    let trimmed := trim line in
    if bool_decide (trimmed = "") then next_line ls (n + 1) else Some (trimmed, ls, (n + 1)%N)
  end.

Definition json_next_doc : stateR JsonSource AppError (option RowResult) := fun s =>
  let at_ i := {| inner := i; total_rows := total_rows s |} in
  match inner s with
  | Rows [] => (Ok None, s)
  | Rows (r :: rows) => (Ok (Some r), at_ (Rows rows))
  | ArraySource reader n =>
    match next_raw reader with
    | (Err e, reader) => (Err e, at_ (ArraySource reader n))
    | (Ok None, reader) => (Ok None, at_ (ArraySource reader n))
    | (Ok (Some raw), reader) =>
      (Ok (Some (row_of (n + 1) (json_from_slice raw))), at_ (ArraySource reader (n + 1)))
    end
  | NdjsonSource ls n =>
    match next_line ls n with
    | None => (Ok None, at_ (NdjsonSource [] (n + N.of_nat (length ls))))
    | Some (line, ls, n) => (Ok (Some (row_of n (json_from_str line))), at_ (NdjsonSource ls n))
    end
  end.

#[export] Instance json_source : DocumentSource JsonSource :=
  {| size_hint := total_rows; next_doc := json_next_doc |}.
End json_source.
