(* ===== verification/JsonFormatSpec.v ===== *)
(** * What JSON exports and imports promise

    An array written by the sink is read back by the source, document by document; a text
    with a stray closing bracket makes the source deliver errors without end. *)

From S2P Require Import Prelude.
From S2P Require Import Bytes.
From S2P Require Import AppError.
From S2P Require Import Json.
From S2P Require Import JsonText.
From S2P Require Import OplogCanon.
From S2P Require Import BsonJson.
From S2P Require Import Pipeline.
From S2P Require Import PipelineSpec.
From S2P Require Import WriteTarget.
From S2P Require Import JsonFormat.
Local Open Scope list_scope.

(** ** Elements are cut out whole *)

Lemma scan_string depth buf s rest :
  string_body s ->
  scan_value (S depth) true false buf (s ++ DQUOTE :: rest) = scan_value (S depth) false false (buf ++ s ++ [DQUOTE]) rest.
Proof.
  intros Hs. revert buf. induction Hs as [|c s Hq Hb _ IH|c s _ IH]; intros buf; [done| |].
  - cbn [app scan_value]. rewrite !bool_decide_eq_false_2 by done. by rewrite IH, <-app_assoc.
  - cbn [app scan_value]. rewrite bool_decide_eq_true_2 by done. by rewrite IH, <-!app_assoc.
Qed.

Lemma scan_body depth buf u rest :
  value_body u ->
  scan_value (S depth) false false buf (u ++ rest) = scan_value (S depth) false false (buf ++ u) rest.
Proof.
  intros Hu. revert depth buf rest. induction Hu as [|c t Hc _ IH|s t Hs _ IH|o u c t Ho Hc _ IHu _ IHt];
    intros depth buf rest.
  - by rewrite app_nil_r.
  - cbn [app scan_value]. rewrite (bool_decide_eq_false_2 (c = DQUOTE)) by set_solver.
    rewrite (bool_decide_eq_false_2 (c ∈ [LBRACE; LBRACKET])) by set_solver.
    rewrite (bool_decide_eq_false_2 (c ∈ [RBRACE; RBRACKET])) by set_solver.
    rewrite IH, <-app_assoc. by case_bool_decide.
  - cbn [app]. rewrite <-app_assoc. cbn [app].
    transitivity (scan_value (S depth) true false (buf ++ [DQUOTE]) (s ++ DQUOTE :: t ++ rest)); [done|].
    rewrite scan_string, IH by done. by rewrite <-!app_assoc.
  - cbn [app]. rewrite <-app_assoc. cbn [app].
    transitivity (scan_value (S (S depth)) false false (buf ++ [o]) (u ++ c :: t ++ rest)).
    { apply elem_of_cons in Ho as [-> | ->%list_elem_of_singleton]; done. }
    rewrite IHu. transitivity (scan_value (S depth) false false (((buf ++ [o]) ++ u) ++ [c]) (t ++ rest)).
    { apply elem_of_cons in Hc as [-> | ->%list_elem_of_singleton]; done. }
    rewrite IHt. by rewrite <-!app_assoc.
Qed.

Lemma scan_document l rest : value_text l -> scan_value 0 false false [] (l ++ rest) = Ok (l, rest).
Proof.
  intros (b & -> & Hb). cbn [app]. rewrite <-app_assoc. cbn [app].
  transitivity (scan_value 1 false false [LBRACE] (b ++ RBRACE :: rest)); [done|].
  rewrite scan_body by done. done.
Qed.

(** ** An array is read back *)

(** The elements as the sink separates them. *)
Fixpoint elements (sep : list byte) (ls : list (list byte)) : list byte :=
  match ls with [] => [] | l :: ls => sep ++ l ++ elements NEXT ls end.
Definition array_text (ls : list (list byte)) : list byte :=
  OPEN ++ elements FIRST ls ++ match ls with [] => CLOSE_EMPTY | _ => CLOSE end.

Section round_trip.
Context {Enc : Type} {EN : Encoder Enc} {BC : BsonConvert} {JT : JsonText} {JB : JsonBytes}.

(** A document whose encoding is an object that reads back as the document. *)
Definition reads_back (l : list byte) (d : Doc) : Prop :=
  value_text l /\ exists v, json_from_slice l = Ok v /\ doc_from_json_value v = Ok d.

Definition reading (l : list byte) (n : N) : JsonSource :=
  {| inner := ArraySource {| rest := l; opened := true; finished := false |} n; total_rows := None |}.

Lemma next_element_document l rest r :
  value_text l -> next_element (x0a :: x20 :: x20 :: l ++ rest) r
  = (Ok (Some l), {| rest := rest; opened := true; finished := false |}).
Proof.
  intros Hl. unfold next_element. destruct Hl as (b & -> & Hb) eqn:He. clear He.
  transitivity (match scan_value 0 false false [] ((LBRACE :: b ++ [RBRACE]) ++ rest) with
         | Ok (raw, l) => (Ok (Some raw), {| rest := l; opened := true; finished := false |})
         | Err e => (Err e, {| rest := []; opened := true; finished := false |})
         end); [done|].
  rewrite scan_document; [done|]. by exists b.
Qed.

Lemma read_elements ls ds n :
  Forall2 reads_back ls ds ->
  exists s', delivers (reading (elements NEXT ls ++ CLOSE) n) (map RowDoc ds) None s'.
Proof.
  intros Hls. revert n. induction Hls as [|l d ls ds [Hl (v & Hv & Hd)] _ IH]; intros n.
  - eexists. by constructor.
  - destruct (IH (n + 1)%N) as [s' Hs]. exists s'. cbn [map elements]. rewrite <-!app_assoc.
    eapply delivers_row; [|exact Hs]. cbn [next_doc json_source]. unfold json_next_doc. cbn [inner reading].
    transitivity (match next_element (x0a :: x20 :: x20 :: l ++ elements NEXT ls ++ CLOSE)
                         {| rest := NEXT ++ l ++ elements NEXT ls ++ CLOSE; opened := true; finished := false |} with
     | (Err e, reader) => (Err e, {| inner := ArraySource reader n; total_rows := None |})
     | (Ok None, reader) => (Ok None, {| inner := ArraySource reader n; total_rows := None |})
     | (Ok (Some raw), reader) =>
       (Ok (Some (row_of (n + 1) (json_from_slice raw))), {| inner := ArraySource reader (n + 1); total_rows := None |})
     end); [done|].
    rewrite next_element_document by done. unfold row_of. by rewrite Hv, Hd.
Qed.

Lemma read_array ls ds :
  Forall2 reads_back ls ds ->
  exists s s', from_text (array_text ls) ImportArray = Ok s /\ delivers s (map RowDoc ds) None s'.
Proof.
  intros Hls. eexists. destruct Hls as [|l d ls ds [Hl (v & Hv & Hd)] Hls].
  - eexists. split; [done|]. by constructor.
  - destruct (read_elements ls ds 1 Hls) as [s' Hs]. exists s'. split; [done|]. cbn [map].
    eapply delivers_row; [|exact Hs]. unfold array_text. cbn [elements]. rewrite <-!app_assoc.
    cbn [next_doc json_source]. unfold json_next_doc. cbn [inner].
    transitivity (match next_element (x0a :: x20 :: x20 :: l ++ elements NEXT ls ++ CLOSE)
       {| rest := OPEN ++ FIRST ++ l ++ elements NEXT ls ++ CLOSE; opened := false; finished := false |} with
     | (Err e, reader) => (Err e, {| inner := ArraySource reader 0; total_rows := None |})
     | (Ok None, reader) => (Ok None, {| inner := ArraySource reader 0; total_rows := None |})
     | (Ok (Some raw), reader) =>
       (Ok (Some (row_of (0 + 1) (json_from_slice raw))), {| inner := ArraySource reader (0 + 1); total_rows := None |})
     end); [done|].
    rewrite next_element_document by done. unfold row_of. by rewrite Hv, Hd.
Qed.

(** ** The text of an export to the clipboard *)

Lemma elements_valid ls sep :
  Forall (fun l => utf8_valid l = true) ls -> sep = FIRST \/ sep = NEXT -> utf8_valid (elements sep ls ++ CLOSE) = true.
Proof.
  intros Hls. revert sep. induction Hls as [|l ls Hl _ IH]; intros sep Hsep; [done|].
  cbn [elements]. rewrite <-!app_assoc.
  transitivity (utf8_valid (l ++ elements NEXT ls ++ CLOSE)); [by destruct Hsep as [-> | ->]|].
  specialize (IH NEXT (or_intror eq_refl)).
  assert (exists b c, elements NEXT ls ++ CLOSE = b :: c /\ in_range 0 127 b = true) as (b & c & Hbc & Hb).
  { destruct ls; by do 2 eexists. }
  rewrite Hbc in *. rewrite utf8_valid_split by done. rewrite Hl. cbn in IH. by rewrite Hb in IH.
Qed.

Lemma array_text_valid ls : Forall (fun l => utf8_valid l = true) ls -> utf8_valid (array_text ls) = true.
Proof.
  intros Hls. destruct ls as [|l ls]; [done|].
  transitivity (utf8_valid (elements FIRST (l :: ls) ++ CLOSE)); [done|]. apply elements_valid; [done|by left].
Qed.

(** The sink on a buffer that holds [buf]. *)
Definition buffered (can first : bool) (d : Disk) (buf : list byte) : SinkState Enc JsonSink :=
  {| target := Some (Plain (Buffer buf)); output_slot := None; disk := d;
     extra := {| shape := ShapeArray; canonical := can; wrote_first := first |} |}.

Lemma write_buffered can first d buf doc :
  json_write doc (buffered can first d buf)
  = (Ok tt, buffered can true d (buf ++ (if first then NEXT else FIRST) ++ encode_doc can doc)).
Proof. unfold buffered. rewrite app_assoc. by destruct first. Qed.

Lemma writes_buffered can first d buf docs :
  for_each write docs (buffered can first d buf)
  = (Ok tt, buffered can (first || negb (bool_decide (docs = []))) d
       (buf ++ elements (if first then NEXT else FIRST) (map (encode_doc can) docs))).
Proof.
  revert first buf. induction docs as [|doc docs IH]; intros first buf.
  - rewrite app_nil_r. by destruct first.
  - cbn [for_each]. unfold mbind, stateR_bind. change (write doc) with (json_write doc).
    rewrite write_buffered, IH. cbn [map elements]. rewrite <-!app_assoc. by rewrite orb_true_r.
Qed.

Lemma finish_buffered can (first : bool) d buf text :
  from_utf8 (buf ++ if first then CLOSE else CLOSE_EMPTY) = Some text ->
  json_finish (buffered can first d buf)
  = (Ok tt, {| target := None; output_slot := Some text; disk := d;
               extra := {| shape := ShapeArray; canonical := can; wrote_first := first |} |}).
Proof.
  intros Ht. unfold json_finish, finish_target, buffered, put, on_disk, mbind, stateR_bind, get_state, modify.
  destruct first; cbn -[from_utf8]; unfold mbind, stateR_bind; cbn -[from_utf8]; by rewrite Ht.
Qed.

(** Documents exported to the clipboard as a JSON array and imported from that text are the
    same documents in the same order: the run writes the array, reports every document, and
    the import delivers each of them and ends. *)
Theorem export_import_round_trip ctx can d l :
  (forall n, cancel_flag ctx n = false) ->
  Forall (fun doc => reads_back (encode_doc can doc) doc /\ utf8_valid (encode_doc can doc) = true) l ->
  exists rep p s k text,
    run_pipeline ctx [] (S (length l)) (new_vec_source l)
      (new_json_sink (Plain (Buffer [])) ShapeArray can d) = Some (Ok (rep, p), s, k) /\
    rp_processed rep = N.of_nat (length l) /\ output_slot k = Some text /\
    exists r r', from_text (as_bytes text) ImportArray = Ok r /\ delivers r (map RowDoc l) None r'.
Proof.
  intros Hc Hl. set (ls := map (encode_doc can) l).
  assert (Forall2 reads_back ls l) as Hr.
  { subst ls. induction Hl as [|x l [] _ IH]; by constructor. }
  assert (utf8_valid (array_text ls) = true) as Hv.
  { apply array_text_valid. subst ls. apply Forall_map. eapply Forall_impl; [exact Hl|]. by intros ? []. }
  destruct (pipeline_writes_all ctx [] (S (length l)) (new_vec_source l) (map RowDoc l)
    {| docs := []; total_docs := N.of_nat (length l) |} (new_json_sink (Plain (Buffer [])) ShapeArray can d)
    (buffered can false d OPEN)
    (buffered can (negb (bool_decide (l = []))) d (OPEN ++ elements FIRST ls))
    {| target := None; output_slot := Some (of_bytes (array_text ls)); disk := d;
       extra := {| shape := ShapeArray; canonical := can; wrote_first := negb (bool_decide (l = [])) |} |})
    as [p Hp].
  - apply vec_delivers.
  - done.
  - rewrite no_failures. cbn. lia.
  - rewrite length_map. lia.
  - done.
  - rewrite omap_written. apply writes_buffered.
  - assert (from_utf8 (array_text ls) = Some (of_bytes (array_text ls))) as Hu by (unfold from_utf8; by rewrite Hv).
    apply finish_buffered. rewrite <-Hu. unfold array_text. rewrite <-app_assoc. subst ls. by destruct l.
  - destruct (read_array ls l Hr) as (r & r' & Hf & Hd). do 4 eexists. exists (of_bytes (array_text ls)).
    split; [exact Hp|]. split; [cbn; by rewrite length_map|]. split; [done|].
    exists r, r'. rewrite as_bytes_of_bytes. by split.
Qed.

(** ** A closing brace where an element should be *)

Definition stalled (n : N) (total : option N) (l : list byte) : JsonSource :=
  {| inner := ArraySource {| rest := RBRACE :: l; opened := true; finished := false |} n; total_rows := total |}.

Lemma stalled_next n total l : exists r, next_doc (stalled n total l) = (Ok (Some r), stalled (n + 1) total l).
Proof. by eexists. Qed.

(** On a text such as [[}] the array source never ends: it delivers the empty element over and
    over and does not move, so there is no list of rows that it delivers, and only the error
    limit of the pipeline stops the run. *)
Theorem stray_brace_never_ends l src rows e s' :
  from_text (LBRACKET :: RBRACE :: l) ImportArray = Ok src -> ~ delivers src rows e s'.
Proof.
  assert (forall s rows e s', delivers s rows e s' -> forall n total, s = stalled n total l -> False) as Hst.
  { clear. induction 1 as [s s' H|s e s' H|s r s1 rows e s' H _ IH]; intros n total ->;
      destruct (stalled_next n total l) as [r' Hr]; rewrite Hr in H; [done|done|]. injection H as _ <-. by eapply IH. }
  intros [= <-] Hd. remember {| inner := _; total_rows := None |} as src eqn:Hsrc. destruct Hd as [s s1 H|s e s1 H|s r s1 rows e s2 H Hd]; subst s.
  - done.
  - done.
  - injection H as _ <-. by eapply (Hst _ _ _ _ Hd 1%N None).
Qed.
End round_trip.
