(* ===== verification/CsvFormat.v ===== *)
(** * CSV (src-tauri/src/mongo/import_export/csv.rs, csv_source.rs)

    What the CSV format and the field mapping share: dotted paths into documents, and the text
    of a value; then the sink and the source.  The printing and parsing of floats, dates,
    identifiers and decimals, and the [csv] crate, are interfaces. *)

From stdpp Require Import pretty.
From S2P Require Import Prelude.
From S2P Require Import Bytes.
From S2P Require Import Text.
From S2P Require Import Fields.
From S2P Require Import Json.
From S2P Require Import OplogCanon.
From S2P Require Import BsonJson.
From S2P Require Import AppError.
From S2P Require Import Pipeline.
From S2P Require Import WriteTarget.

Class BsonText := {
  f64_display : Z -> string;
  oid_hex : list byte -> string;
  date_rfc3339 : Z -> option string;
  decimal_display : list byte -> string;
  json_to_string : Json -> string;
  parse_rfc3339 : string -> option Z;
  parse_oid : string -> result string (list byte);
  (** The text of the error of [str::parse] for an integer. *)
  integer_error : string -> string;
}.

(** The rest of a path, from a value. *)
Fixpoint walk (v : Bson) (parts : list string) : option Bson :=
  match parts with
  | [] => Some v
  | part :: parts => match v with Document d => v ← get d part; walk v parts | _ => None end
  end.
Definition get_bson_path (doc : Doc) (path : string) : option Bson :=
  match segments path with
  | first :: parts => v ← get doc first; walk v parts
  | [] => None
  end.

(** The text of a value; nested values are relaxed Extended JSON. *)
Definition bson_to_string `{BsonText, BsonConvert} (value : Bson) : string :=
  match value with
  | BString s => s
  | Int32 n | Int64 n => pretty n
  | Double b => f64_display b
  | Boolean b => if b then "true"%string else "false"%string
  | ObjectId oid => oid_hex oid
  | DateTime ms => default (pretty ms) (date_rfc3339 ms)
  | Decimal128 b => decimal_display b
  | other => json_to_string (relaxed_extjson other)
  end.

(** ** CSV exports and imports
    (src-tauri/src/mongo/import_export/csv.rs and csv_source.rs)

    The sink writes the values at fixed columns; the source names the columns, makes the
    names distinct as far as it does, and guesses the type of every cell.  Records as bytes
    are the interface of the [csv] crate. *)

Local Open Scope string_scope.
Local Open Scope list_scope.

(** A record as bytes, and the records of a text, with the failures to read one. *)
Class CsvText := {
  csv_record : byte -> list string -> result string (list byte);
  csv_records : byte -> list byte -> list (result string (list string));
}.

(** ** The sink *)

Record CsvSink := { columns : list string; delimiter : byte; write_headers : bool }.

Section csv.
Context {BC : BsonConvert} {BT : BsonText} {JT : JsonText} {FL : Float64} {CT : CsvText}.

Definition csv_cell (value : option Bson) : string :=
  match value with None | Some Null => "" | Some v => bson_to_string v end.

Section csv_sink.
Context {Enc : Type} {EN : Encoder Enc}.
Abbreviation csv_state := (SinkState Enc CsvSink).

Definition encode_record (delimiter_ : byte) (fields_ : list string) : result AppError (list byte) :=
  map_err (fun e => Internal ("csv encode error: " +:+ e)) (csv_record delimiter_ fields_).

Definition put_record (fields_ : list string) : stateR csv_state AppError unit :=
  s ← get_state;
  bytes ← liftR (encode_record (delimiter (extra s)) fields_);
  put "csv" bytes.

Definition csv_start : stateR csv_state AppError unit :=
  s ← get_state;
  if write_headers (extra s) then put_record (columns (extra s)) else mret tt.

Definition csv_write (doc : Doc) : stateR csv_state AppError unit :=
  s ← get_state;
  put_record (map (fun col => csv_cell (get_bson_path doc col)) (columns (extra s))).

#[export] Instance csv_sink : DocumentSink csv_state :=
  {| start := csv_start; write := csv_write; finish := finish_target "csv"; abort := abort_sink |}.
End csv_sink.

(** ** The source *)

Definition field_ (i : nat) : string := "field_" +:+ pretty (S i).

(** [HashMap<String, usize>] counts the columns of a name so far. *)
Fixpoint dedup_from (seen : gmap string nat) (cols : list string) : list string :=
  match cols with
  | [] => []
  | name :: cols =>
    let count := S (default 0 (seen !! name)) in
    (if bool_decide (count = 1%nat) then name else name +:+ "_" +:+ pretty count)
      :: dedup_from (<[name := count]> seen) cols
  end.
Definition columns_dedup (cols : list string) : list string := dedup_from ∅ cols.

(** [contains('.') || contains('e') || contains('E')] *)
Definition float_like (s : string) : bool := existsb (fun b => bool_decide (b ∈ [x2e; x65; x45])) (as_bytes s).

Definition bson_value_from_cell (cell : string) : Bson :=
  let trimmed := trim cell in
  let text := match head (as_bytes trimmed) with
              | Some b => if bool_decide (b ∈ [x7b; x5b]) then
                            match json_from_str trimmed with
                            | Ok v => match to_bson v with Ok b => b | Err _ => BString cell end
                            | Err _ => BString cell
                            end
                          else BString cell
              | None => BString cell
              end in
  if bool_decide (trimmed = "") then Null
  else if eq_ignore_ascii_case (as_bytes trimmed) (as_bytes "true") then Boolean true
  else if eq_ignore_ascii_case (as_bytes trimmed) (as_bytes "false") then Boolean false
  else match parse_i32 trimmed, parse_i64 trimmed with
       | Some n, _ => Int32 n
       | None, Some n => Int64 n
       | None, None =>
         if float_like trimmed then
           match f64_parse trimmed with Ok b => Double b | Err _ => text end
         else text
       end.

Record CsvSource := {
  reader : list (result string (list string));
  source_columns : list string;
  pending : option (list string);
  row_ : N;
}.

Definition header_name (i : nat) (name : string) : string :=
  if bool_decide (trim name = "") then field_ i else trim name.

Definition csv_from_text (text : list byte) (delimiter_ : byte) (headers : bool) : result AppError CsvSource :=
  let records := csv_records delimiter_ text in
  if headers then
    match records with
    | Err e :: _ => Err (Validation ("invalid CSV headers: " +:+ e))
    | Ok names :: records =>
      Ok {| reader := records; source_columns := columns_dedup (imap header_name names); pending := None; row_ := 1 |}
    | [] => Ok {| reader := []; source_columns := []; pending := None; row_ := 1 |}
    end
  else
    match records with
    | Err e :: _ => Err (Validation ("invalid CSV row: " +:+ e))
    | Ok first :: records =>
      Ok {| reader := records; source_columns := imap (fun i _ => field_ i) first; pending := Some first; row_ := 0 |}
    | [] => Ok {| reader := []; source_columns := []; pending := None; row_ := 0 |}
    end.

(** A record under its columns; a later cell under the same name replaces an earlier one. *)
Definition record_doc (cols record : list string) : Doc :=
  foldl (fun d ic => insert (default (field_ ic.1) (cols !! ic.1)) (bson_value_from_cell ic.2) d) []
    (imap pair record).

Definition csv_next_doc : stateR CsvSource AppError (option RowResult) := fun s =>
  let deliver (record : list string) (records : list (result string (list string))) :=
    let cols := match source_columns s with [] => imap (fun i _ => field_ i) record | cols => cols end in
    (Ok (Some (RowDoc (record_doc cols record))),
     {| reader := records; source_columns := cols; pending := None; row_ := row_ s + 1 |}) in
  match pending s, reader s with
  | Some record, records => deliver record records
  | None, [] => (Ok None, s)
  | None, Err e :: records =>
    (Ok (Some (RowFailed {| row := Some (row_ s + 1)%N; message := e |})),
     {| reader := records; source_columns := source_columns s; pending := None; row_ := row_ s + 1 |})
  | None, Ok record :: records => deliver record records
  end.

#[export] Instance csv_source : DocumentSource CsvSource :=
  {| size_hint _ := None; next_doc := csv_next_doc |}.
End csv.
