(* ===== verification/FieldMapping.v ===== *)
(** * Field mapping (src-tauri/src/mongo/import_export/mapping.rs)

    A transform that builds a new document from a table of sources and targets, with optional
    changes of type; then what it does: which fields the new document has, and when it
    fails. *)

From stdpp Require Import pretty.
From S2P Require Import Prelude.
From S2P Require Import Bytes.
From S2P Require Import Text.
From S2P Require Import AppError.
From S2P Require Import Fields.
From S2P Require Import Json.
From S2P Require Import OplogCanon.
From S2P Require Import BsonJson.
From S2P Require Import CsvFormat.
From S2P Require Import Pipeline.
Local Open Scope string_scope.
Local Open Scope list_scope.

Inductive TypeOverride := ToString | ToInt32 | ToInt64 | ToDouble | ToBoolean | ToDate | ToObjectId.

Record FieldMappingEntry := {
  source : string;
  target : string;
  skip : bool;
  type_override : option TypeOverride;
}.

Fixpoint validate_from (i : nat) (seen : gset string) (entries : list FieldMappingEntry) : result AppError unit :=
  match entries with
  | [] => Ok tt
  | e :: entries =>
    if bool_decide (trim (source e) = "")
    then Err (Validation ("field mapping entry " +:+ pretty i +:+ " has an empty source path"))
    else if negb (skip e) && bool_decide (trim (target e) = "")
    then Err (Validation ("field mapping entry " +:+ pretty i +:+ " has an empty target name"))
    else if negb (skip e) && bool_decide (trim (target e) ∈ seen)
    then Err (Validation ("field mapping has a duplicate target name: " +:+ quote +:+ trim (target e) +:+ quote))
    else validate_from (S i) (if skip e then seen else {[trim (target e)]} ∪ seen) entries
  end.
Definition validate (entries : list FieldMappingEntry) : result AppError unit := validate_from 0 ∅ entries.

Definition csv_columns (entries : list FieldMappingEntry) : list string :=
  map target (filter (fun e => skip e = false) entries).

Definition mapping_type_name (b : Bson) : string :=
  match b with
  | Double _ => "double" | BString _ => "string" | Document _ => "object" | Array _ => "array"
  | ObjectId _ => "objectId" | Boolean _ => "bool" | DateTime _ => "date" | Null => "null"
  | Int32 _ => "int" | Int64 _ => "long" | Decimal128 _ => "decimal" | Binary _ _ => "binary" | _ => "other"
  end.

(** [n as i32] of an [i64]: the low 32 bits, signed. *)
Definition wrap_i32 (n : Z) : Z := ((n + 2 ^ 31) mod 2 ^ 32 - 2 ^ 31)%Z.

Section mapping.
Context {BC : BsonConvert} {BT : BsonText} {FL : Float64}.

Definition cannot {A} (b : Bson) (to : string) : result AppError A :=
  Err (Validation ("cannot coerce " +:+ mapping_type_name b +:+ " to " +:+ to)).
Definition cannot_text {A} (s to err : string) : result AppError A :=
  Err (Validation ("cannot coerce " +:+ quote +:+ s +:+ quote +:+ " to " +:+ to +:+ err)).

Definition bson_to_i32 (b : Bson) : result AppError Z :=
  match b with
  | Int32 n => Ok n
  | Int64 n => Ok (wrap_i32 n)
  | Double x => Ok (f64_as_int (- 2 ^ 31) (2 ^ 31 - 1) x)
  | Boolean t => Ok (if t then 1 else 0)%Z
  | BString s =>
    match parse_i32 (trim s) with
    | Some n => Ok n
    | None => cannot_text s "int32" (": " +:+ integer_error (trim s))
    end
  | other => cannot other "int32"
  end.

Definition bson_to_i64 (b : Bson) : result AppError Z :=
  match b with
  | Int32 n | Int64 n => Ok n
  | Double x => Ok (f64_as_int (- 2 ^ 63) (2 ^ 63 - 1) x)
  | Boolean t => Ok (if t then 1 else 0)%Z
  | BString s =>
    match parse_i64 (trim s) with
    | Some n => Ok n
    | None => cannot_text s "int64" (": " +:+ integer_error (trim s))
    end
  | other => cannot other "int64"
  end.

Definition bson_to_f64 (b : Bson) : result AppError Z :=
  match b with
  | Int32 n | Int64 n => Ok (f64_of_int n)
  | Double x => Ok x
  | Boolean t => Ok (f64_of_int (if t then 1 else 0)%Z)
  | BString s =>
    match f64_parse (trim s) with
    | Ok x => Ok x
    | Err e => cannot_text s "double" (": " +:+ e)
    end
  | other => cannot other "double"
  end.

(** [n != 0.0]: neither of the two zeros. *)
Definition f64_zero (x : Z) : bool := bool_decide (x = 0 \/ x = 2 ^ 63)%Z.

Definition bson_to_bool (b : Bson) : result AppError bool :=
  match b with
  | Boolean t => Ok t
  | Int32 n | Int64 n => Ok (negb (bool_decide (n = 0%Z)))
  | Double x => Ok (negb (f64_zero x))
  | BString s =>
    let is_one_of (l : list string) :=
      existsb (fun w => eq_ignore_ascii_case (Bytes.as_bytes (trim s)) (Bytes.as_bytes w)) l in
    if is_one_of ["true"; "1"; "yes"; "y"; "t"] then Ok true
    else if is_one_of ["false"; "0"; "no"; "n"; "f"; ""] then Ok false
    else cannot_text s "bool" ""
  | other => cannot other "bool"
  end.

(** The attempt at seconds comes after the same attempt at milliseconds. *)
Definition bson_to_date (b : Bson) : result AppError Z :=
  match b with
  | DateTime ms => Ok ms
  | BString s =>
    match parse_rfc3339 (trim s), parse_i64 (trim s) with
    | Some ms, _ => Ok ms
    | None, Some millis => Ok millis
    | None, None => cannot_text s "date" " (expected RFC3339 or epoch millis)"
    end
  | Int32 n | Int64 n => Ok n
  | Double x => Ok (f64_as_int (- 2 ^ 63) (2 ^ 63 - 1) x)
  | other => cannot other "date"
  end.

Definition bson_to_objectid (b : Bson) : result AppError (list byte) :=
  match b with
  | ObjectId oid => Ok oid
  | BString s =>
    match parse_oid (trim s) with
    | Ok oid => Ok oid
    | Err e => cannot_text s "objectId" (": " +:+ e)
    end
  | other => cannot other "objectId"
  end.

Definition coerce (b : Bson) (t : TypeOverride) : result AppError Bson :=
  match b with
  | Null => Ok Null
  | _ =>
    match t with
    | ToString => Ok (BString (bson_to_string b))
    | ToInt32 => n ← bson_to_i32 b; Ok (Int32 n)
    | ToInt64 => n ← bson_to_i64 b; Ok (Int64 n)
    | ToDouble => x ← bson_to_f64 b; Ok (Double x)
    | ToBoolean => t ← bson_to_bool b; Ok (Boolean t)
    | ToDate => ms ← bson_to_date b; Ok (DateTime ms)
    | ToObjectId => oid ← bson_to_objectid b; Ok (ObjectId oid)
    end
  end.

(** A path into the output; what is not a document on the way is replaced by one. *)
Fixpoint insert_at (parts : list string) (v : Bson) (out : Doc) : Doc :=
  match parts with
  | [] => out
  | [k] => insert k v out
  | k :: parts =>
    match get out k with
    | Some (Document inner) => insert k (Document (insert_at parts v inner)) out
    | _ => insert k (Document (insert_at parts v [])) out
    end
  end.
Definition insert_dotted (out : Doc) (path : string) (v : Bson) : Doc := insert_at (segments path) v out.

Definition coerced (e : FieldMappingEntry) (v : Bson) : result AppError Bson :=
  match type_override e with Some t => coerce v t | None => Ok v end.

Fixpoint map_fields (doc out : Doc) (entries : list FieldMappingEntry) : result AppError Doc :=
  match entries with
  | [] => Ok out
  | e :: entries =>
    if skip e then map_fields doc out entries
    else match get_bson_path doc (source e) with
         | None => map_fields doc out entries
         | Some v => v ← coerced e v; map_fields doc (insert_dotted out (target e) v) entries
         end
  end.

(** [FieldMappingTransform::new], then [apply]. *)
Record FieldMappingTransform := { entries : list FieldMappingEntry }.
Definition new_mapping (es : list FieldMappingEntry) : result AppError FieldMappingTransform :=
  _ ← validate es; Ok {| entries := es |}.
Definition apply_mapping (m : FieldMappingTransform) : Transform := fun doc =>
  out ← map_fields doc [] (entries m); Ok (Some out).
End mapping.

(** ** What a field mapping does

    When no target lies under another, the output has at every target the coerced value of
    its source and nothing else, whatever the order of the entries. *)

(** ** Paths *)

Definition at_path (d : Doc) (parts : list string) : option Bson :=
  match parts with k :: parts => v ← get d k; walk v parts | [] => None end.

Lemma get_bson_path_at d p : get_bson_path d p = at_path d (segments p).
Proof. done. Qed.

Lemma walk_document d k parts : walk (Document d) (k :: parts) = at_path d (k :: parts).
Proof. done. Qed.

(** Neither path leads to the other. *)
Definition unrelated (p q : list string) : Prop := ~ p `prefix_of` q /\ ~ q `prefix_of` p.

Lemma unrelated_cons k p q : unrelated (k :: p) (k :: q) -> unrelated p q.
Proof. intros [H1 H2]. split; intros H; [apply H1|apply H2]; by apply prefix_cons. Qed.

(** Descending: the document at a field, or a new one. *)
Definition inner (out : Doc) (k : string) : Doc :=
  match get out k with Some (Document d) => d | _ => [] end.

Lemma insert_at_cons k1 k2 parts v out :
  insert_at (k1 :: k2 :: parts) v out = insert k1 (Document (insert_at (k2 :: parts) v (inner out k1))) out.
Proof. unfold inner. cbn. destruct (get out k1) as [[]|]; done. Qed.

Lemma at_path_cons2 out k1 k2 parts : at_path out (k1 :: k2 :: parts) = at_path (inner out k1) (k2 :: parts).
Proof. unfold at_path, inner. destruct (get out k1) as [[]|]; done. Qed.

Lemma at_insert parts v out : parts <> [] -> at_path (insert_at parts v out) parts = Some v.
Proof.
  revert out. induction parts as [|k1 [|k2 parts] IH]; intros out Hne; [done| |].
  - cbn. by rewrite get_insert_eq.
  - rewrite insert_at_cons, at_path_cons2. unfold inner. rewrite get_insert_eq. by apply IH.
Qed.

Lemma at_insert_ne p q v out : unrelated p q -> at_path (insert_at p v out) q = at_path out q.
Proof.
  revert q out. induction p as [|k1 p IH]; intros q out Hu; [by destruct Hu as [[] _]; apply prefix_nil|].
  destruct q as [|k q]; [by destruct Hu as [_ []]; apply prefix_nil|].
  destruct (decide (k1 = k)) as [->|Hk].
  - apply unrelated_cons in Hu. destruct p as [|k2 p]; [by destruct Hu as [[] _]; apply prefix_nil|].
    destruct q as [|k3 q]; [by destruct Hu as [_ []]; apply prefix_nil|].
    rewrite insert_at_cons, !at_path_cons2. unfold inner at 1. rewrite get_insert_eq. by apply IH.
  - destruct p as [|k2 p]; [|rewrite insert_at_cons]; unfold at_path; cbn [insert_at]; by rewrite get_insert_ne.
Qed.

Lemma segments_not_nil p : segments p <> [].
Proof. destruct p as [|c p]; [done|]. cbn. case_bool_decide; [done|]. by destruct (segments p). Qed.

(** ** Mappings *)

Section mapping_spec.
Context {BC : BsonConvert} {BT : BsonText} {FL : Float64}.

(** The entries that write. *)
Abbreviation kept es := (filter (fun e => skip e = false) es).
Abbreviation target_path e := (segments (target e)).

Definition unrelated_targets (es : list FieldMappingEntry) : Prop :=
  forall i j e1 e2, i <> j -> kept es !! i = Some e1 -> kept es !! j = Some e2 -> unrelated (target_path e1) (target_path e2).

(** What an entry puts at its target. *)
Definition mapped (doc : Doc) (e : FieldMappingEntry) : option Bson :=
  v ← get_bson_path doc (source e); match coerced e v with Ok v => Some v | Err _ => None end.

Lemma map_fields_other doc out es out' q :
  map_fields doc out es = Ok out' -> Forall (fun e => unrelated (target_path e) q) (kept es) ->
  at_path out' q = at_path out q.
Proof.
  revert out. induction es as [|e es IH]; intros out; cbn [map_fields]; [by intros [= ->]|].
  rewrite filter_cons. destruct (skip e) eqn:Hs.
  - rewrite decide_False by congruence. apply IH.
  - rewrite decide_True by done. intros H [He Hes]%Forall_cons. destruct (get_bson_path doc (source e)) as [v|]; [|by apply IH].
    destruct (coerced e v) as [v'|err]; [|done]. rewrite (IH _ H Hes). by apply at_insert_ne.
Qed.

Lemma unrelated_targets_cons e es :
  unrelated_targets (e :: es) -> unrelated_targets es /\
  (skip e = false -> Forall (fun e' => unrelated (target_path e') (target_path e) /\ unrelated (target_path e) (target_path e')) (kept es)).
Proof.
  intros H. unfold unrelated_targets in H. rewrite filter_cons in H. destruct (decide (skip e = false)) as [Hs|Hs].
  - split; [|intros _].
    + intros i j e1 e2 Hij H1 H2. apply (H (S i) (S j)); [lia|done|done].
    + apply Forall_lookup. intros i e' He. split; [apply (H (S i) O)|apply (H O (S i))]; done.
  - split; [exact H|done].
Qed.

(** The output of a mapping over an output that has nothing at the targets. *)
Lemma map_fields_at doc out es out' e :
  map_fields doc out es = Ok out' -> unrelated_targets es -> e ∈ es -> skip e = false ->
  (forall e', e' ∈ es -> skip e' = false -> at_path out (target_path e') = None) ->
  at_path out' (target_path e) = mapped doc e.
Proof.
  revert out. induction es as [|e0 es IH]; intros out Hm Hu He Hs Hn; [by apply not_elem_of_nil in He|].
  apply unrelated_targets_cons in Hu as [Hu Hue]. cbn [map_fields] in Hm.
  destruct (skip e0) eqn:Hs0.
  { apply elem_of_cons in He as [->|He]; [congruence|]. eapply IH; [done|done|done|done|]. intros; apply Hn; [by right|done]. }
  specialize (Hue eq_refl). rewrite Forall_forall in Hue.
  assert (forall e', e' ∈ es -> skip e' = false -> unrelated (target_path e') (target_path e0) /\ unrelated (target_path e0) (target_path e')) as Hue'.
  { intros e' H1 H2. apply Hue. by apply list_elem_of_filter. }
  assert (Forall (fun e' => unrelated (target_path e') (target_path e0)) (kept es)) as Hf.
  { apply Forall_forall. intros e' H. by apply Hue. }
  destruct (get_bson_path doc (source e0)) as [v|] eqn:Hv.
  - destruct (coerced e0 v) as [v'|err] eqn:Hc; [|done]. change (map_fields doc (insert_dotted out (target e0) v') es = Ok out') in Hm.
    apply elem_of_cons in He as [->|He].
    + rewrite (map_fields_other _ _ _ _ _ Hm Hf). unfold mapped. rewrite Hv. cbn. rewrite Hc.
      apply at_insert, segments_not_nil.
    + eapply IH; [exact Hm|done..|]. intros e' He' Hs'. unfold insert_dotted. rewrite at_insert_ne by by apply Hue'.
      apply Hn; [by right|done].
  - apply elem_of_cons in He as [->|He].
    + rewrite (map_fields_other _ _ _ _ _ Hm Hf). unfold mapped. rewrite Hv. cbn. apply Hn; [left|done].
    + eapply IH; [exact Hm|done..|]. intros e' He' Hs'. apply Hn; [by right|done].
Qed.

(** C38: When no target lies under another or equals it, the output of a field mapping has, at the
    target of every entry that is not skipped, the coerced value of its source, or nothing
    when the document has no such field, and at a path that is related to no target it has
    nothing: so the result does not depend on the order of the entries. *)
Theorem mapping_exact (m : FieldMappingTransform) doc out :
  apply_mapping m doc = Ok (Some out) -> unrelated_targets (entries m) ->
  (forall e, e ∈ entries m -> skip e = false -> get_bson_path out (target e) = mapped doc e) /\
  (forall q, Forall (fun e => unrelated (target_path e) (segments q)) (kept (entries m)) -> get_bson_path out q = None).
Proof.
  unfold apply_mapping. destruct (map_fields doc [] (entries m)) as [o|e] eqn:Hm; [|done].
  intros H Hu. injection H as <-.
  assert (forall q, at_path [] q = None) as Hnil by by intros [].
  split.
  - intros e He Hs. rewrite get_bson_path_at. eapply map_fields_at; [exact Hm|done..|]. by intros.
  - intros q Hq. rewrite get_bson_path_at. rewrite (map_fields_other _ _ _ _ _ Hm Hq). apply Hnil.
Qed.

(** An [Int64] outside the range of 32 bits is not rejected by the conversion to [Int32]: it
    wraps to another number. *)
Theorem int32_override_wraps n :
  (- 2 ^ 31 <= n < 2 ^ 31 -> bson_to_i32 (Int64 n) = Ok n)%Z /\
  (~ (- 2 ^ 31 <= n < 2 ^ 31) -> exists m, bson_to_i32 (Int64 n) = Ok m /\ m <> n /\ - 2 ^ 31 <= m < 2 ^ 31)%Z.
Proof.
  unfold bson_to_i32, wrap_i32. split; intros H.
  - f_equal. rewrite Z.mod_small by lia. lia.
  - eexists. split; [done|]. pose proof (Z.mod_pos_bound (n + 2 ^ 31) (2 ^ 32) ltac:(lia)). lia.
Qed.
End mapping_spec.
