(* ===== verification/BsonFormat.v ===== *)
(** * BSON exports and imports
    (src-tauri/src/mongo/import_export/bson_sink.rs and bson_source.rs)

    Length-prefixed documents one after the other, as [mongodump] writes them.  The encoding
    of a document is the interface of the [bson] crate; decompression happens before. *)

From stdpp Require Import pretty.
From S2P Require Import Prelude.
From S2P Require Import Bytes.
From S2P Require Import AppError.
From S2P Require Import BsonJson.
From S2P Require Import Pipeline.
From S2P Require Import WriteTarget.
Local Open Scope Z_scope.

(** [bson::to_vec], [bson::from_slice] *)
Class BsonBytes := {
  bson_to_vec : Doc -> result string (list byte);
  bson_from_slice : list byte -> result string Doc;
}.

Section bson_format.
Context {BB : BsonBytes}.

Section bson_sink.
Context {Enc : Type} {EN : Encoder Enc}.
Abbreviation bson_state := (SinkState Enc unit).

Definition bson_write (doc : Doc) : stateR bson_state AppError unit :=
  bytes ← liftR (map_err InvalidBson (bson_to_vec doc));
  put "bson" bytes.

(** Nothing is left to finish when the target is gone. *)
Definition bson_finish : stateR bson_state AppError unit :=
  s ← get_state;
  _ ← modify (set_target None);
  match target s with
  | None => mret tt
  | Some w => _ ← on_disk (sink_finish w); mret tt
  end.

#[export] Instance bson_sink : DocumentSink bson_state :=
  {| start := mret tt; write := bson_write; finish := bson_finish; abort := abort_sink |}.
End bson_sink.

(** ** The source *)

Definition MAX_BSON_DOC_LEN : Z := 64 * 1024 * 1024.

Record BsonSource := { unread : list byte }.

(** [i32::from_le_bytes] *)
Definition i32_from_le (l : list byte) : Z :=
  let n := foldr (fun b acc => Z.of_N (Byte.to_N b) + 256 * acc) 0 l in
  if n <? 2 ^ 31 then n else n - 2 ^ 32.

Definition bson_next_doc : stateR BsonSource AppError (option RowResult) := fun s =>
  let len_bytes := take 4 (unread s) in
  if bool_decide (length len_bytes < 4)%nat then (Ok None, {| unread := [] |})
  else
    let len := i32_from_le len_bytes in
    let after := drop 4 (unread s) in
    if len <? 5 then (Err (Validation ("invalid BSON document length: " +:+ pretty len)), {| unread := after |})
    else if MAX_BSON_DOC_LEN <? len then
      (Err (Validation ("BSON document length " +:+ pretty len +:+ " exceeds maximum supported size of " +:+
                        pretty MAX_BSON_DOC_LEN +:+ " bytes")), {| unread := after |})
    else
      let n := (Z.to_nat len - 4)%nat in
      if bool_decide (length after < n)%nat then (Err (Io "failed to fill whole buffer"), {| unread := [] |})
      else match bson_from_slice (len_bytes ++ take n after) with
           | Ok doc => (Ok (Some (RowDoc doc)), {| unread := drop n after |})
           | Err e => (Err (InvalidBson e), {| unread := drop n after |})
           end.

#[export] Instance bson_source : DocumentSource BsonSource :=
  {| size_hint _ := None; next_doc := bson_next_doc |}.
End bson_format.
