(* ===== verification/CollectionSink.v ===== *)
(** * Imports into a collection (src-tauri/src/mongo/import_export/collection_sink.rs)

    Documents are collected in batches; a batch goes to the server as one [insert_many] or as
    one replacement per document.  The server is an interface.  Then what an import puts into
    the collection: the documents of the source in order, or after a failure the batches
    before it. *)

From S2P Require Import Prelude.
From S2P Require Import AppError.
From S2P Require Import Fields.
From S2P Require Import OplogCanon.
From S2P Require Import BsonJson.
From S2P Require Import Pipeline.
From S2P Require Import PipelineSpec.
Local Open Scope string_scope.
Local Open Scope list_scope.

(** A collection of the driver; [replace_one] with [upsert]. *)
Class Collection (Srv : Type) := {
  insert_many : list Doc -> stateR Srv AppError unit;
  replace_upsert : Doc -> Doc -> stateR Srv AppError unit;
}.

Inductive InsertMode := Insert | Upsert.

(** The counter is a [u64] that the caller keeps a reference to. *)
Record CollectionSink (Srv : Type) := {
  server : Srv;
  batch : list Doc;
  batch_size : nat;
  inserted : Z;
  mode : InsertMode;
}.
Arguments server {Srv}. Arguments batch {Srv}. Arguments batch_size {Srv}. Arguments inserted {Srv}. Arguments mode {Srv}.

Section collection_sink.
Context {Srv : Type} {CO : Collection Srv}.
Abbreviation sink := (CollectionSink Srv).

(** [new], then [with_mode]. *)
Definition new_collection_sink (srv : Srv) (size : nat) (inserted_ : Z) (m : InsertMode) : sink :=
  {| server := srv; batch := []; batch_size := Nat.max size 1; inserted := inserted_; mode := m |}.

Definition set_batch (b : list Doc) (s : sink) : sink :=
  {| server := server s; batch := b; batch_size := batch_size s; inserted := inserted s; mode := mode s |}.

(** [fetch_add] wraps. *)
Definition fetch_add (n : nat) (s : sink) : sink :=
  {| server := server s; batch := batch s; batch_size := batch_size s;
     inserted := ((inserted s + Z.of_nat n) mod 2 ^ 64)%Z; mode := mode s |}.

Definition on_server {A} (m : stateR Srv AppError A) : stateR sink AppError A := fun s =>
  let '(r, srv) := m (server s) in
  (r, {| server := srv; batch := batch s; batch_size := batch_size s; inserted := inserted s; mode := mode s |}).

Definition id_filter (doc : Doc) : Doc :=
  match get doc "_id" with Some id => [("_id", id)] | None => [] end.

Definition upsert_one (doc : Doc) : stateR sink AppError unit :=
  _ ← on_server (replace_upsert (id_filter doc) doc);
  modify (fetch_add 1).

Definition flush : stateR sink AppError unit :=
  s ← get_state;
  match batch s with
  | [] => mret tt
  | docs =>
    _ ← modify (set_batch []);
    match mode s with
    | Insert => _ ← on_server (insert_many docs); modify (fetch_add (length docs))
    | Upsert => for_each upsert_one docs
    end
  end.

Definition collection_write (doc : Doc) : stateR sink AppError unit :=
  _ ← modify (fun s => set_batch (batch s ++ [doc]) s);
  s ← get_state;
  if bool_decide (batch_size s <= length (batch s))%nat then flush else mret tt.

#[export] Instance collection_sink : DocumentSink sink :=
  {| start := mret tt; write := collection_write; finish := flush; abort := mret tt |}.
End collection_sink.

(** ** What an import puts into a collection

    The documents of an import arrive in order, in batches; the counter that the caller sees
    never runs ahead of the collection.  A replacement without an [_id] is where this ends. *)

Local Open Scope Z_scope.

(** A document as it is stored: the driver gives one without an [_id] a fresh one, and the
    server keeps the [_id] in front. *)
Inductive stored : Doc -> Doc -> Prop :=
| stored_given l1 id l2 : get l1 "_id" = None -> stored (l1 ++ ("_id"%string, id) :: l2) (("_id"%string, id) :: l1 ++ l2)
| stored_fresh doc id : get doc "_id" = None -> stored doc (("_id"%string, id) :: doc).

(** Documents read from a collection begin with their [_id], and are stored as they are. *)
Definition id_first (doc : Doc) : Prop := exists id l, doc = ("_id"%string, id) :: l.

Lemma stored_id_first doc doc' : id_first doc -> stored doc doc' -> doc' = doc.
Proof.
  intros (id & l & ->) H. inversion H as [l1 id' l2 Hn Heq|d id' Hn]; subst; [|by cbn in Hn].
  destruct l1 as [|[k v] l1]; cbn in Heq; [by injection Heq as -> ->|].
  injection Heq as -> -> _. by cbn in Hn.
Qed.

Lemma stored_all docs docs' : Forall id_first docs -> Forall2 stored docs docs' -> docs' = docs.
Proof.
  intros Hf H. induction H as [|d d' docs docs' Hd _ IH]; [done|]. apply Forall_cons in Hf as [Hd1 Hf].
  f_equal; [by apply stored_id_first|by apply IH].
Qed.

(** What MongoDB documents: an ordered [insertMany] adds the documents before the first
    failure. *)
Class InsertLaws {Srv} (CO : Collection Srv) := {
  content : Srv -> list Doc;
  insert_many_prefix docs srv r srv' : insert_many docs srv = (r, srv') ->
    exists sent added, content srv' = content srv ++ added /\ Forall2 stored sent added /\
      sent `prefix_of` docs /\ (is_ok r = true -> sent = docs);
}.

(** [replaceOne] with [upsert] and the empty filter replaces one document, which keeps its
    [_id], if there is one, and else inserts. *)
Class UpsertLaws {Srv} {CO : Collection Srv} (IL : InsertLaws CO) := {
  replace_any doc srv srv' : get doc "_id" = None -> replace_upsert [] doc srv = (Ok tt, srv') ->
    match content srv with
    | [] => length (content srv') = 1%nat
    | _ => exists l1 old id l2, content srv = l1 ++ old :: l2 /\ get old "_id" = Some id /\
                                content srv' = l1 ++ (("_id"%string, id) :: doc) :: l2
    end;
}.

Section collection_spec.
Context {Srv : Type} {CO : Collection Srv} {IL : InsertLaws CO}.
Implicit Types (k : CollectionSink Srv) (docs : list Doc).

(** ** Inserting *)

(** The sink after the documents [docs], where all but the batch went to the server. *)
Record imported (k0 : CollectionSink Srv) docs k : Prop := {
  sent_docs : exists sent added, docs = sent ++ batch k /\ content (server k) = content (server k0) ++ added /\
                           Forall2 stored sent added /\ inserted k = (inserted k0 + Z.of_nat (length sent)) mod 2 ^ 64;
  same_size : batch_size k = batch_size k0;
  same_mode : mode k = Insert;
}.

(** A failure: only documents from the front were added, and no more were counted. *)
Definition partly_imported (k0 : CollectionSink Srv) docs k : Prop :=
  exists sent more added, content (server k) = content (server k0) ++ added /\ Forall2 stored (sent ++ more) added /\
    sent ++ more `prefix_of` docs /\ inserted k = (inserted k0 + Z.of_nat (length sent)) mod 2 ^ 64.

Lemma flush_imported k0 docs k r k' :
  imported k0 docs k -> flush k = (r, k') ->
  match r with Ok _ => imported k0 docs k' /\ batch k' = [] | Err _ => partly_imported k0 docs k' end.
Proof.
  intros Hi. destruct Hi as [(sent & added & Hd & Hc & Hst & Hn) Hs Hm].
  unfold flush, get_state, modify, mbind, stateR_bind. destruct (batch k) as [|d b] eqn:Hb.
  - intros [= <- <-]. split; [|done]. split; [|done|done]. exists sent, added. by rewrite Hb.
  - rewrite Hm. unfold on_server. cbn [server set_batch]. set (b' := d :: b) in *.
    destruct (insert_many b' (server k)) as [r1 srv] eqn:Hr.
    destruct (insert_many_prefix _ _ _ _ Hr) as (sent1 & added1 & Ha & Hst1 & Hp & Hok).
    destruct r1 as [u|e]; intros [= <- <-]; cbn.
    + rewrite (Hok eq_refl) in Hst1. split; [|done]. split; cbn; [|done|done]. exists docs, (added ++ added1). split_and!.
      * by rewrite app_nil_r.
      * by rewrite Ha, Hc, app_assoc.
      * rewrite Hd. by apply Forall2_app.
      * rewrite Hn, Hd, length_app, Zplus_mod_idemp_l. f_equal. cbn. lia.
    + exists sent, sent1, (added ++ added1). cbn. rewrite Ha, Hc, Hd.
      split_and!; [by rewrite app_assoc|by apply Forall2_app|by apply prefix_app|done].
Qed.

Lemma write_imported k0 docs k d r k' :
  imported k0 docs k -> collection_write d k = (r, k') ->
  match r with Ok _ => imported k0 (docs ++ [d]) k' | Err _ => partly_imported k0 (docs ++ [d]) k' end.
Proof.
  intros [(sent & added & Hd & Hc & Hst & Hn) Hs Hm]. unfold collection_write, get_state, modify, mbind, stateR_bind.
  set (k1 := set_batch (batch k ++ [d]) k).
  assert (imported k0 (docs ++ [d]) k1) as H1.
  { split; [|done|done]. exists sent, added. cbn. by rewrite Hd, app_assoc. }
  destruct (bool_decide _).
  - intros H. pose proof (flush_imported _ _ _ _ _ H1 H) as H2. by destruct r; [destruct H2|].
  - by intros [= <- <-].
Qed.

Lemma writes_imported k0 docs0 docs k r k' :
  imported k0 docs0 k -> for_each collection_write docs k = (r, k') ->
  match r with Ok _ => imported k0 (docs0 ++ docs) k' | Err _ => partly_imported k0 (docs0 ++ docs) k' end.
Proof.
  revert docs0 k. induction docs as [|d docs IH]; intros docs0 k Hk; cbn.
  - intros [= <- <-]. by rewrite app_nil_r.
  - unfold mbind, stateR_bind. destruct (collection_write d k) as [r1 k1] eqn:Hw.
    pose proof (write_imported _ _ _ _ _ _ Hk Hw) as H1. destruct r1 as [[]|e].
    + intros H. specialize (IH _ _ H1 H). by rewrite <-app_assoc in IH.
    + intros [= <- <-]. destruct H1 as (sent & more & added & H1 & H2 & H3 & H4). exists sent, more, added.
      split_and!; [done|done| |done]. change (d :: docs) with ([d] ++ docs). rewrite (app_assoc docs0 [d] docs). by apply prefix_app_r.
Qed.

Lemma imported_part k0 docs k : imported k0 docs k -> partly_imported k0 docs k.
Proof.
  intros [(sent & added & Hd & Hc & Hst & Hn) _ _]. exists sent, [], added. rewrite app_nil_r. split_and!; [done|done| |done].
  rewrite Hd. by apply prefix_app_r.
Qed.

Lemma part_prefix k0 ds docs k : partly_imported k0 ds k -> ds `prefix_of` docs -> partly_imported k0 docs k.
Proof. intros (sent & more & added & H1 & H2 & H3 & H4) Hp. exists sent, more, added. split_and!; [done|done|by etrans|done]. Qed.

Lemma import_parts {Src} {DS : DocumentSource Src} ctx ts fuel (s : Src) rows e s0 srv size n r s' k' :
  (forall i j, (i <= j)%nat -> cancel_flag ctx i = true -> cancel_flag ctx j = true) ->
  delivers s rows e s0 -> 0 <= n < 2 ^ 64 ->
  run_pipeline ctx ts fuel s (new_collection_sink srv size n Insert) = Some (r, s', k') ->
  let k0 := new_collection_sink srv size n Insert in
  partly_imported k0 (omap (written ts) rows) k' /\
  (reports_done r = true -> imported k0 (omap (written ts) rows) k' /\ batch k' = []).
Proof.
  intros Hmono Hrows Hn Hrun k0.
  assert (imported k0 [] k0) as H0.
  { split; [|done|done]. exists [], []. split_and!; [done|by rewrite app_nil_r|done|]. cbn. by rewrite Z.add_0_r, Z.mod_small. }
  split.
  - destruct (run_writes ctx ts _ _ _ _ _ _ _ _ _ Hrows Hrun) as [(e' & [=] & _)|(k1 & ds & r1 & k2 & [= <-] & Hp & Hw & Hr)].
    eapply part_prefix; [|exact Hp]. pose proof (writes_imported _ _ _ _ _ _ H0 Hw) as H1. cbn in H1.
    destruct Hr as [(r2 & [= _ <-])|(r2 & -> & Hf)]; [by destruct r1; [apply imported_part|]|].
    pose proof (flush_imported _ _ _ _ _ H1 Hf) as H2. destruct r2; [apply imported_part, H2|exact H2].
  - destruct r as [[rep p]|]; [|done]. cbn. intros Hc%negb_true_iff.
    destruct (run_done ctx ts _ _ _ _ _ _ _ Hmono Hrun Hc) as (rows' & k1 & k2 & Hd & [= <-] & Hw & Hf & _).
    destruct (delivers_fun _ _ _ _ Hd _ _ _ Hrows) as (-> & _ & _).
    pose proof (writes_imported _ _ _ _ _ _ H0 Hw) as H1. cbn in H1.
    by destruct (flush_imported _ _ _ _ _ H1 Hf).
Qed.

Lemma imported_all k0 docs k : imported k0 docs k -> batch k = [] ->
  exists added, content (server k) = content (server k0) ++ added /\ Forall2 stored docs added /\
    inserted k = (inserted k0 + Z.of_nat (length docs)) mod 2 ^ 64.
Proof. intros [(sent & added & Hd & Hc & Hst & Hn) _ _] Hb. rewrite Hb, app_nil_r in Hd. subst sent. by exists added. Qed.

(** C26: Whatever becomes of an import that inserts, the collection has been given a first part of
    the documents that the source delivers and the transforms keep, in order and without
    gaps, each as it is stored; the counter never exceeds what was added; and a run that
    reports that it is done has added every document and counted it. *)
Theorem import_inserts {Src} {DS : DocumentSource Src} ctx ts fuel (s : Src) rows e s0 srv size r s' k' :
  (forall i j, (i <= j)%nat -> cancel_flag ctx i = true -> cancel_flag ctx j = true) ->
  delivers s rows e s0 -> Z.of_nat (length (omap (written ts) rows)) < 2 ^ 64 ->
  run_pipeline ctx ts fuel s (new_collection_sink srv size 0 Insert) = Some (r, s', k') ->
  exists sent added, content (server k') = content srv ++ added /\ Forall2 stored sent added /\
    sent `prefix_of` omap (written ts) rows /\ inserted k' <= Z.of_nat (length added) /\
    (reports_done r = true -> sent = omap (written ts) rows /\ inserted k' = Z.of_nat (length added)).
Proof.
  intros Hmono Hrows Hlen Hrun.
  destruct (import_parts _ _ _ _ _ _ _ _ _ 0 _ _ _ Hmono Hrows ltac:(lia) Hrun)
    as [(sent & more & added & Hc & Hst & Hp & Hn) Hdone].
  exists (sent ++ more), added. split; [done|]. split; [done|]. split; [done|].
  apply prefix_length in Hp as Hle. apply Forall2_length in Hst as Hl. rewrite length_app in Hle, Hl.
  cbn in Hn. rewrite Z.mod_small in Hn by lia. split; [lia|].
  intros [Hi Hb]%Hdone. destruct (imported_all _ _ _ Hi Hb) as (added' & Hc' & Hst' & Hn').
  rewrite Hc in Hc'. apply app_inv_head in Hc' as <-. cbn in Hn'. rewrite Z.mod_small in Hn' by lia.
  apply Forall2_length in Hst' as Hl'. split; [|lia].
  apply prefix_length_eq; [done|]. rewrite length_app. lia.
Qed.

(** ** Replacing *)

(** An import in the replacing mode of documents without an [_id], as a CSV file gives them,
    into an empty collection succeeds, counts every document, and leaves a single document:
    each one but the first replaces another. *)
Theorem upsert_without_id {UL : UpsertLaws IL} docs k k' :
  Forall (fun d => get d "_id" = None) docs -> docs <> [] -> content (server k) = [] ->
  0 <= inserted k -> inserted k + Z.of_nat (length docs) < 2 ^ 64 ->
  for_each upsert_one docs k = (Ok tt, k') ->
  length (content (server k')) = 1%nat /\ inserted k' = inserted k + Z.of_nat (length docs).
Proof.
  assert (forall d k1 k2, get d "_id" = None -> (length (content (server k1)) <= 1)%nat -> upsert_one d k1 = (Ok tt, k2) ->
    length (content (server k2)) = 1%nat /\ inserted k2 = (inserted k1 + 1) mod 2 ^ 64) as Hone.
  { intros d k1 k2 Hd Hl (u & k3 & H & [= <-])%stateR_bind_Ok. unfold on_server, id_filter in H. rewrite Hd in H.
    destruct (replace_upsert [] d (server k1)) as [r srv] eqn:Hr. injection H as -> <-. destruct u. cbn.
    apply replace_any in Hr; [|done]. split; [|done]. destruct (content (server k1)) as [|d1 l]; [done|].
    destruct Hr as (l1 & old & id & l2 & H1 & _ & ->). cbn in Hl.
    apply (f_equal length) in H1. rewrite length_app in H1. cbn in H1. rewrite length_app. cbn. lia. }
  assert (forall docs k1 k2, Forall (fun d => get d "_id" = None) docs -> length (content (server k1)) = 1%nat ->
    0 <= inserted k1 -> inserted k1 + Z.of_nat (length docs) < 2 ^ 64 -> for_each upsert_one docs k1 = (Ok tt, k2) ->
    length (content (server k2)) = 1%nat /\ inserted k2 = inserted k1 + Z.of_nat (length docs)) as Hall.
  { clear docs k k'. induction docs as [|d docs IH]; intros k1 k2 Hd Hl Hn Hb; cbn; [intros [= <-]; split; [done|lia]|].
    apply Forall_cons in Hd as [Hd Hds]. intros ([] & k3 & Hu & Hr)%stateR_bind_Ok. cbn in Hb.
    apply Hone in Hu as [Hl3 Hn3]; [|done|lia]. rewrite Z.mod_small in Hn3 by lia.
    apply IH in Hr as [? ->]; [split; [done|lia]|done..|lia|lia]. }
  intros Hd Hne He Hn Hb H. destruct docs as [|d docs]; [done|]. apply Forall_cons in Hd as [Hd Hds].
  cbn in H. apply stateR_bind_Ok in H as ([] & k3 & Hu & Hr). cbn in Hb.
  apply Hone in Hu as [Hl3 Hn3]; [|done|rewrite He; cbn; lia]. rewrite Z.mod_small in Hn3 by lia.
  apply Hall in Hr as [? ->]; [split; [done|cbn; lia]|done..|lia|lia].
Qed.
End collection_spec.
