(* ===== verification/Placeholders.v ===== *)
(** * Templates of export paths (src-tauri/src/mongo/import_export/placeholders.rs)

    Known [${...}] tokens of a path are replaced; the clock is read before.  Then what the
    tokens can do: a value never adds a separator, so a path keeps the directories of its
    template. *)

From S2P Require Import Prelude.
From S2P Require Import Bytes.
From S2P Require Import Text.
Local Open Scope string_scope.
Local Open Scope list_scope.

Record PlaceholderContext := { database : string; collection : string; profile : string }.

Definition DOLLAR : byte := x24.
Definition OPEN_BRACE : byte := x7b.
Definition CLOSE_BRACE : byte := x7d.

(** The separators and control characters; all are single bytes of UTF-8. *)
Definition illegal_in_filename (b : byte) : bool :=
  bool_decide (b ∈ [x2f; x5c; x3a; x2a; x3f; x22; x3c; x3e; x7c]) || bool_decide (Byte.to_N b < 32)%N.

Definition sanitize_filename (name : string) : string :=
  let trimmed := trim name in
  if bool_decide (trimmed = "") then "untitled"
  else of_bytes (map (fun b => if illegal_in_filename b then x5f else b) (as_bytes trimmed)).

Definition lookup_token (token : string) (ctx : PlaceholderContext) (date time : string) : option string :=
  if bool_decide (token = "date") then Some date
  else if bool_decide (token = "time") then Some time
  else if bool_decide (token = "db") then Some (sanitize_filename (database ctx))
  else if bool_decide (token = "collection") then Some (sanitize_filename (collection ctx))
  else if bool_decide (token = "profile") then Some (sanitize_filename (profile ctx))
  else None.

(** [find('}')]: what is before the brace, and after it. *)
Fixpoint split_brace (l : list byte) : option (list byte * list byte) :=
  match l with
  | [] => None
  | b :: l => if bool_decide (b = CLOSE_BRACE) then Some ([], l)
              else p ← split_brace l; Some (b :: p.1, p.2)
  end.

Section resolve.
Context (ctx : PlaceholderContext) (date time : string).

Definition token_text (token : list byte) : list byte :=
  match lookup_token (of_bytes token) ctx date time with
  | Some value => as_bytes value
  | None => [DOLLAR; OPEN_BRACE] ++ token ++ [CLOSE_BRACE]
  end.

(** Every step takes a byte at least, so the length is enough fuel. *)
Fixpoint resolve_from (fuel : nat) (l : list byte) : list byte :=
  match fuel, l with
  | S fuel, b :: l =>
    let plain := byte_char b ++ resolve_from fuel l in
    match l with
    | b2 :: l2 =>
      if bool_decide (b = DOLLAR /\ b2 = OPEN_BRACE) then
        match split_brace l2 with
        | Some (token, rest) => token_text token ++ resolve_from fuel rest
        | None => plain
        end
      else plain
    | [] => plain
    end
  | _, _ => []
  end.

Definition resolve_with_values (path : string) : string :=
  of_bytes (resolve_from (length (as_bytes path)) (as_bytes path)).
End resolve.

(** ** What the tokens of a path template can do

    Values never add a separator, so a path keeps the directories of its template; text
    without tokens is left alone as far as it is ASCII. *)

Definition ascii (b : byte) : Prop := (Byte.to_N b < 128)%N.
Definition separator (b : byte) : Prop := b = x2f \/ b = x5c.
#[export] Instance separator_dec b : Decision (separator b).
Proof. unfold separator. apply _. Defined.
Definition separators (l : list byte) : list byte := filter separator l.

Lemma sanitize_no_separator name : separators (as_bytes (sanitize_filename name)) = [].
Proof.
  unfold sanitize_filename. case_bool_decide; [done|]. rewrite as_bytes_of_bytes.
  generalize (as_bytes (trim name)). intros l. unfold separators.
  induction l as [|b l IH]; [done|]. cbn [map]. rewrite filter_cons, decide_False; [done|].
  destruct (illegal_in_filename b) eqn:Hb; [by intros []|]. intros [->| ->]; done.
Qed.

Lemma byte_char_separators b : separators (byte_char b) = separators [b].
Proof. destruct b; vm_compute; reflexivity. Qed.

Lemma split_brace_Some l p rest : split_brace l = Some (p, rest) -> l = p ++ CLOSE_BRACE :: rest.
Proof.
  revert p. induction l as [|b l IH]; intros p; cbn; [done|]. case_bool_decide as Hb.
  - intros [= <- <-]. by subst b.
  - destruct (split_brace l) as [[p' r']|]; [|done]. cbn. intros [= <- <-]. cbn. f_equal. by apply IH.
Qed.

Section resolve.
Context (ctx : PlaceholderContext) (date time : string).

Lemma separators_app l1 l2 : separators (l1 ++ l2) = separators l1 ++ separators l2.
Proof. apply filter_app. Qed.

(** The names of the known tokens have no separator. *)
Lemma token_separators token :
  separators (as_bytes date) = [] -> separators (as_bytes time) = [] ->
  separators (token_text ctx date time token) = separators token.
Proof.
  intros Hd Ht. unfold token_text, lookup_token.
  assert (forall name v, of_bytes token = name -> separators (as_bytes name) = [] -> separators (as_bytes v) = [] ->
    separators (as_bytes v) = separators token) as Hname.
  { intros name v <- H1 H2. by rewrite H2, <-H1, as_bytes_of_bytes. }
  pose proof (sanitize_no_separator) as Hs.
  repeat case_bool_decide; try (eapply Hname; [eassumption|vm_compute; reflexivity|done]).
  rewrite !separators_app. cbn. by rewrite app_nil_r.
Qed.

Lemma resolve_separators fuel l :
  separators (as_bytes date) = [] -> separators (as_bytes time) = [] -> (length l <= fuel)%nat ->
  separators (resolve_from ctx date time fuel l) = separators l.
Proof.
  intros Hd Ht. revert l. induction fuel as [|fuel IH]; intros l Hl; [by destruct l; [|cbn in Hl; lia]|].
  destruct l as [|b l]; [done|]. cbn [resolve_from].
  assert (separators (byte_char b ++ resolve_from ctx date time fuel l) = separators (b :: l)) as Hplain.
  { rewrite separators_app, byte_char_separators, IH by (cbn in Hl; lia). by rewrite <-separators_app. }
  destruct l as [|b2 l2]; [exact Hplain|]. case_bool_decide as Hb; [|exact Hplain]. destruct Hb as [-> ->].
  destruct (split_brace l2) as [[token rest]|] eqn:Hs; [|exact Hplain]. apply split_brace_Some in Hs as ->.
  rewrite separators_app, token_separators by done. rewrite IH by (cbn in Hl; rewrite length_app in Hl; cbn in Hl; lia).
  change (DOLLAR :: OPEN_BRACE :: token ++ CLOSE_BRACE :: rest) with ([DOLLAR; OPEN_BRACE] ++ token ++ [CLOSE_BRACE] ++ rest).
  by rewrite !separators_app.
Qed.

(** The values of the tokens, names of databases and collections as users chose them, never
    add a path separator: the resolved path has the separators of its template, one by one. *)
Theorem resolved_path_keeps_directories path :
  separators (as_bytes date) = [] -> separators (as_bytes time) = [] ->
  separators (as_bytes (resolve_with_values ctx date time path)) = separators (as_bytes path).
Proof. intros. unfold resolve_with_values. rewrite as_bytes_of_bytes. by apply resolve_separators. Qed.

(** A path without the beginning of a token, in ASCII, is its own resolution. *)
Lemma resolve_plain fuel l :
  Forall ascii l -> DOLLAR ∉ l -> (length l <= fuel)%nat -> resolve_from ctx date time fuel l = l.
Proof.
  intros Ha Hd. revert fuel. induction Ha as [|b l Hb Hl IH]; intros fuel Hf; [by destruct fuel|].
  destruct fuel as [|fuel]; [cbn in Hf; lia|]. cbn [resolve_from].
  apply not_elem_of_cons in Hd as [Hbd Hd].
  assert (byte_char b ++ resolve_from ctx date time fuel l = b :: l) as Hp.
  { unfold byte_char. rewrite bool_decide_eq_true_2 by done. cbn. f_equal. apply IH; [done|cbn in Hf; lia]. }
  destruct l as [|b2 l2]; [exact Hp|]. rewrite bool_decide_eq_false_2 by (intros [H _]; by apply Hbd). exact Hp.
Qed.
End resolve.

(** A byte beyond ASCII becomes two: the path of [é.json] is another. *)
Lemma non_ascii_path_mangled ctx date time :
  as_bytes (resolve_with_values ctx date time (of_bytes [xc3; xa9])) = [xc3; x83; xc2; xa9].
Proof. reflexivity. Qed.
