(* ===== verification/ExportSpec.v ===== *)
(** * Exports replace their file only when they succeed

    What the three file sinks promise to the pipeline is a type class; a run over any sink
    that keeps it leaves the file at the final path alone unless it reports success. *)

From S2P Require Import Prelude.
From S2P Require Import Bytes.
From S2P Require Import AppError.
From S2P Require Import Json.
From S2P Require Import BsonJson.
From S2P Require Import Pipeline.
From S2P Require Import PipelineSpec.
From S2P Require Import WriteTarget.
From S2P Require Import JsonFormat.
From S2P Require Import CsvFormat.
From S2P Require Import BsonFormat.

(** ** The disk *)

(** The files but the part of [f] are as before. *)
Definition only_part (f : AtomicFileWriter) (d d' : Disk) : Prop :=
  forall p, p <> part_path f -> files d' !! p = files d !! p.

#[export] Instance only_part_pre f : PreOrder (only_part f).
Proof. split; [by intros d p _|]. intros d1 d2 d3 H1 H2 p Hp. by rewrite H2, H1. Qed.

(** How a run leaves the disk: when it succeeds the part has become the file, and else the file
    is as before; other files are never touched. *)
Definition settled (f : AtomicFileWriter) (ok : bool) (d d' : Disk) : Prop :=
  (forall p, p <> part_path f -> p <> final_path f -> files d' !! p = files d !! p) /\
  if ok then is_Some (files d' !! final_path f) /\ files d' !! part_path f = None
  else files d' !! final_path f = files d !! final_path f.

Section disk.
Context (f : AtomicFileWriter) (Hf : part_path f <> final_path f).
Implicit Types (d : Disk).

Lemma fallible_files what d : files (fallible what d).2 = files d.
Proof. unfold fallible. by destruct (default _ _). Qed.
Lemma keeps_fallible what : keeps (only_part f) (fallible what).
Proof. intros d p _. by rewrite fallible_files. Qed.
Lemma keeps_append_part bytes : keeps (only_part f) (append_part (part_path f) bytes).
Proof. intros d p Hp. cbn. by rewrite lookup_insert_ne by congruence. Qed.
Lemma keeps_write_all bytes : keeps (only_part f) (target_write_all bytes (File f)).
Proof.
  unfold target_write_all. destruct (writer f); [|apply keeps_throw, _].
  apply keeps_bind; [apply _|apply keeps_fallible|]. intros _.
  apply keeps_bind; [apply _|apply keeps_append_part|]. intros _. apply keeps_ret, _.
Qed.
Lemma write_all_target bytes d t d' : target_write_all bytes (File f) d = (Ok t, d') -> t = File f.
Proof.
  unfold target_write_all. destruct (writer f); [|done].
  intros ([] & d1 & _ & ([] & d2 & _ & [= <- _])%stateR_bind_Ok)%stateR_bind_Ok. done.
Qed.
Lemma keeps_abort_file : keeps (only_part f) (abort_file f).
Proof.
  intros d p Hp. unfold abort_file, fallible. destruct (default _ _); [done|].
  cbn. by rewrite lookup_delete_ne by congruence.
Qed.

Lemma settled_trans ok d1 d2 d3 : only_part f d1 d2 -> settled f ok d2 d3 -> settled f ok d1 d3.
Proof.
  intros H [H1 H2]. split; [intros p Hp Hp'; by rewrite H1, H|]. destruct ok; [done|]. by rewrite H2, H by congruence.
Qed.
Lemma only_part_settled d d' : only_part f d d' -> settled f false d d'.
Proof. intros H. split; [by eauto|]. apply H. congruence. Qed.

Lemma rename_settled d r d' :
  rename (part_path f) (final_path f) d = (r, d') -> settled f (match r with Ok _ => true | Err _ => false end) d d'.
Proof.
  unfold rename. destruct (fallible _ d) as [[[]|e] d1] eqn:Hd; pose proof (fallible_files "rename" d) as H1;
    rewrite Hd in H1; cbn in H1; [|intros [= <- <-]; split; [intros; by rewrite H1|by rewrite H1]].
  rewrite H1. destruct (files d !! part_path f) as [c|] eqn:Hc; intros [= <- <-]; cbn.
  - split; cbn; [intros p Hp Hp'; by rewrite lookup_insert_ne, lookup_delete_ne by congruence|].
    rewrite lookup_insert_eq, lookup_insert_ne, lookup_delete_eq by congruence. by eauto.
  - split; cbn; [intros; by rewrite H1|by rewrite H1].
Qed.

Lemma commit_settled d r d' :
  commit f d = (r, d') -> settled f (match r with Ok _ => true | Err _ => false end) d d'.
Proof.
  unfold commit. intros H. set (m := if writer f then _ else _) in H.
  assert (keeps (only_part f) m) as Hm.
  { unfold m. destruct (writer f); [|apply keeps_ret, _].
    repeat (apply keeps_bind; [apply _|apply keeps_fallible|intros _]). apply keeps_fallible. }
  specialize (Hm d). unfold mbind, stateR_bind in H. destruct (m d) as [[[]|e] d1]; cbn in Hm.
  - eapply settled_trans; [exact Hm|]. by apply rename_settled.
  - injection H as <- <-. by apply only_part_settled.
Qed.
End disk.

(** ** A new file *)

Lemma part_path_for_ne p : part_path_for p <> p.
Proof.
  unfold part_path_for. intros H. apply (f_equal as_bytes) in H. rewrite as_bytes_app in H.
  apply (f_equal length) in H. rewrite length_app in H. change (length (as_bytes ".part")) with 5%nat in H. lia.
Qed.

Lemma create_only_part path d f d1 :
  create path d = (Ok f, d1) ->
  f = {| final_path := path; part_path := part_path_for path; writer := true |} /\ only_part f d d1.
Proof.
  intros ([] & d2 & H1 & H)%stateR_bind_Ok. apply stateR_bind_Ok in H as ([] & d3 & [= <-] & [= <- <-]).
  split; [done|]. intros p Hp. cbn in *. rewrite lookup_insert_ne by congruence.
  pose proof (fallible_files "create" d) as H. by rewrite H1 in H; cbn in H; rewrite H.
Qed.

(** ** The target of a sink *)

Definition outcome {A} (r : result AppError A) : bool := match r with Ok _ => true | Err _ => false end.

Section sinks.
Context {Enc : Type} {EN : Encoder Enc} (f : AtomicFileWriter) (Hf : part_path f <> final_path f).

Definition target_of (w : WriteSink Enc) : WriteTarget :=
  match w with Plain t => t | Compressed _ t => t end.

Lemma sink_write_all_file bytes w d r d' :
  target_of w = File f -> sink_write_all bytes w d = (r, d') ->
  only_part f d d' /\ forall w', r = Ok w' -> target_of w' = File f.
Proof.
  intros Hw. assert (forall out (g : WriteTarget -> WriteSink Enc), (forall t, target_of (g t) = t) ->
    (t ← target_write_all out (File f); mret (g t)) d = (r, d') ->
    only_part f d d' /\ forall w', r = Ok w' -> target_of w' = File f) as H.
  { intros out g Hg. pose proof (keeps_write_all f out d) as Hk. unfold mbind, stateR_bind.
    destruct (target_write_all out (File f) d) as [[t|e] d1] eqn:Ht; intros [= <- <-]; (split; [exact Hk|]); [|done].
    intros w' [= <-]. rewrite Hg. by eapply write_all_target. }
  destruct w as [t|e t]; cbn in Hw; subst t; cbn [sink_write_all]; [by apply H|].
  destruct (encode bytes e) as [out e']. by apply H.
Qed.

Lemma sink_finish_file w d r d' :
  target_of w = File f -> sink_finish w d = (r, d') -> settled f (outcome r) d d'.
Proof.
  assert (forall d r d', commit_target (File f) d = (r, d') -> settled f (outcome r) d d') as Hc.
  { clear d r d'. intros d r d'. cbn. unfold mbind, stateR_bind.
    destruct (commit f d) as [[[]|e] d1] eqn:Hc; intros [= <- <-]; by apply (commit_settled f Hf d _ _ Hc). }
  destruct w as [t|e t]; cbn; intros ->; [by apply Hc|]. unfold encoder_finish.
  pose proof (keeps_write_all f (encode_end e) d) as Hk. unfold mbind, stateR_bind.
  destruct (target_write_all (encode_end e) (File f) d) as [[t'|e'] d1] eqn:Ht; cbn in Hk.
  - rewrite (write_all_target f _ _ _ _ Ht). intros H. eapply settled_trans; [done|exact Hk|]. by apply Hc.
  - intros [= <- <-]. by apply only_part_settled.
Qed.

Lemma sink_abort_file w : target_of w = File f -> keeps (only_part f) (sink_abort w).
Proof.
  destruct w as [t|e t]; cbn; intros ->; [apply keeps_abort_file|].
  intros d. unfold encoder_finish. pose proof (keeps_write_all f (encode_end e) d) as Hk. unfold mbind, stateR_bind, catch.
  destruct (target_write_all (encode_end e) (File f) d) as [[t'|e'] d1] eqn:Ht; cbn in *; [|exact Hk].
  rewrite (write_all_target f _ _ _ _ Ht). etrans; [exact Hk|]. apply keeps_abort_file.
Qed.

(** ** The sinks *)

Context {X : Type}.
Abbreviation St := (SinkState Enc X).
Implicit Types (k : St).

Definition on_file k : Prop := exists w, target k = Some w /\ target_of w = File f.

(** A step of the sink that keeps its file and touches only the part. *)
Definition beside k k' : Prop := on_file k -> on_file k' /\ only_part f (disk k) (disk k').

#[export] Instance beside_pre : PreOrder beside.
Proof.
  split; [by intros k|]. intros k1 k2 k3 H1 H2 H. destruct (H1 H) as [H3 H4]. destruct (H2 H3) as [H5 H6].
  split; [done|]. by etrans.
Qed.

Lemma keeps_get_then {A} (m : St -> stateR St AppError A) :
  (forall x, keeps beside (m x)) -> keeps beside (s ← get_state; m s).
Proof. intros H. apply keeps_bind; [apply _|by intros s|exact H]. Qed.
Lemma keeps_set_extra x : keeps beside (modify (set_extra x) : stateR St AppError unit).
Proof. apply keeps_modify. intros s H. by split. Qed.

Lemma keeps_put who bytes : keeps beside (put who bytes : stateR St AppError unit).
Proof.
  intros k (w & Hw & Ht). unfold put, get_state, mbind, stateR_bind. rewrite Hw. unfold on_disk.
  destruct (sink_write_all bytes w (disk k)) as [r d] eqn:Hr. apply sink_write_all_file in Hr as [H1 H2]; [|done].
  destruct r as [w'|e]; cbn; (split; [|exact H1]); [|by exists w]. exists w'. split; [done|]. by apply H2.
Qed.

Lemma finish_target_settled who k r k' :
  on_file k -> finish_target who k = (r, k') -> settled f (outcome r) (disk k) (disk k').
Proof.
  intros (w & Hw & Ht). unfold finish_target, get_state, modify, mbind, stateR_bind. rewrite Hw.
  unfold on_disk; cbn [disk set_target]. destruct (sink_finish w (disk k)) as [r1 d] eqn:Hr. apply sink_finish_file in Hr; [|done].
  destruct r1 as [[t|]|e]; intros [= <- <-]; exact Hr.
Qed.

Lemma abort_sink_beside k r k' : on_file k -> abort_sink k = (r, k') -> only_part f (disk k) (disk k').
Proof.
  intros (w & Hw & Ht). unfold abort_sink, get_state, modify, mbind, stateR_bind. rewrite Hw.
  pose proof (sink_abort_file w Ht (disk k)) as Hk. unfold on_disk. cbn [disk set_target].
  destruct (sink_abort w (disk k)) as [r1 d]. by intros [= <- <-].
Qed.

(** A step beside the file, then a last one that settles it. *)
Lemma bind_settled {A B} (m : stateR St AppError A) (g : A -> stateR St AppError B) k r k' :
  keeps beside m -> on_file k ->
  (forall a k1, on_file k1 -> g a k1 = (r, k') -> settled f (outcome r) (disk k1) (disk k')) ->
  (m ≫= g) k = (r, k') -> settled f (outcome r) (disk k) (disk k').
Proof.
  intros Hm Hk Hg. specialize (Hm k). unfold mbind, stateR_bind.
  destruct (m k) as [[a|e] k1]; cbn in Hm; destruct (Hm Hk) as [H1 H2].
  - intros H. eapply settled_trans; [done|exact H2|]. by eapply Hg.
  - intros [= <- <-]. by apply only_part_settled.
Qed.
End sinks.

(** What a sink promises about its file. *)
Class AtomicSink {Enc : Type} (EN : Encoder Enc) (X : Type) (DK : DocumentSink (SinkState Enc X)) := {
  start_beside f : keeps (beside f) start;
  write_beside f d : keeps (beside f) (write d);
  finish_settled f k r k' : part_path f <> final_path f ->
    on_file f k -> finish k = (r, k') -> settled f (outcome r) (disk k) (disk k');
  abort_beside f k r k' :
    on_file f k -> abort k = (r, k') -> only_part f (disk k) (disk k');
}.

Section instances.
Context {Enc : Type} {EN : Encoder Enc} {BC : BsonConvert}.

#[export] Instance json_atomic {JB : JsonBytes} : AtomicSink EN JsonSink json_sink.
Proof.
  split; intros f.
  - apply keeps_get_then. intros s. destruct (shape (extra s)); [apply keeps_put|apply keeps_ret, _].
  - intros d. apply keeps_get_then. intros s. apply keeps_bind; [apply _| |intros _; apply keeps_set_extra].
    destruct (shape (extra s)); (apply keeps_bind; [apply _|apply keeps_put|intros _; apply keeps_put]).
  - intros k r k' Hf Hk H. cbn in H. unfold json_finish in H.
    revert H. apply bind_settled; [done|by intros s'|done|]. intros s k1 Hk1.
    apply bind_settled; [done| |done|intros [] k2 Hk2; by apply finish_target_settled].
    destruct (shape (extra s)); [apply keeps_put|apply keeps_ret, _].
  - intros k r k'. apply abort_sink_beside.
Qed.

#[export] Instance csv_atomic {BT : BsonText} {CT : CsvText} : AtomicSink EN CsvSink csv_sink.
Proof.
  assert (forall f l, keeps (beside f) (put_record l : stateR (SinkState Enc CsvSink) AppError unit)) as Hp.
  { intros f l. apply keeps_get_then. intros s. apply keeps_bind; [apply _|apply keeps_liftR, _|intros bytes; apply keeps_put]. }
  split; intros f.
  - apply keeps_get_then. intros s. destruct (write_headers (extra s)); [apply Hp|apply keeps_ret, _].
  - intros d. apply keeps_get_then. intros s. apply Hp.
  - intros k r k' Hf. by apply finish_target_settled.
  - intros k r k'. apply abort_sink_beside.
Qed.

#[export] Instance bson_atomic {BB : BsonBytes} : AtomicSink EN unit bson_sink.
Proof.
  split; intros f.
  - apply keeps_ret, _.
  - intros d. apply keeps_bind; [apply _|apply keeps_liftR, _|intros bytes; apply keeps_put].
  - intros k r k' Hf (w & Hw & Ht) H. cbn in H. unfold bson_finish, get_state, modify, mbind, stateR_bind in H.
    rewrite Hw in H. unfold on_disk in H. cbn [disk set_target] in H.
    destruct (sink_finish w (disk k)) as [r1 d] eqn:Hr. apply (sink_finish_file f Hf) in Hr; [|done].
    destruct r1; injection H as <- <-; exact Hr.
  - intros k r k'. apply abort_sink_beside.
Qed.
End instances.

(** ** Runs *)

Section runs.
Context {Src Enc X : Type} {DS : DocumentSource Src} {EN : Encoder Enc}.
Context {DK : DocumentSink (SinkState Enc X)} {AS : AtomicSink EN X DK}.

Lemma after_writes_beside f k k' : after_writes k k' -> beside f k k'.
Proof.
  induction 1 as [|d k r k1 k2 Hw _ IH]; [done|]. etrans; [|exact IH].
  pose proof (write_beside f d k) as H. by rewrite Hw in H.
Qed.

(** A run settles its file. *)
Lemma run_settled ctx ts fuel (s : Src) k f r s' k' :
  on_file f k -> part_path f <> final_path f ->
  run_pipeline ctx ts fuel s k = Some (r, s', k') ->
  settled f (reports_done r) (disk k) (disk k').
Proof.
  intros Hk Hf [(e & Hst & ->)|(k0 & k1 & Hst & Hw & Hr)]%run_pipeline_ends; pose proof (start_beside f k) as H0;
    rewrite Hst in H0; cbn in H0; destruct (H0 Hk) as [Hk0 Hd0]; [by apply only_part_settled|].
  destruct (after_writes_beside f _ _ Hw Hk0) as [Hk1 Hd1]. eapply settled_trans; [done|by etrans|].
  destruct r as [[rep p]|e]; cbn in *.
  - destruct (cancelled rep); destruct Hr as [u Hu].
    + apply only_part_settled; [done|]. by eapply abort_beside.
    + by apply (finish_settled f _ _ _ Hf Hk1 Hu).
  - destruct Hr as [[r1 Ha]|Hfin].
    + apply only_part_settled; [done|]. by eapply abort_beside.
    + by apply (finish_settled f _ _ _ Hf Hk1 Hfin).
Qed.

(** C25: An export replaces its file exactly when it reports that it is done: when the run fails at
    any point, or is cancelled, the file at the path is what it was before [create], and in
    every case no file but that one and its part is touched.  This holds of every sink that
    keeps the interface, whatever the disk does. *)
Theorem export_atomic ctx ts fuel (s : Src) path d f k w r s' k' :
  create path d = (Ok f, disk k) -> target k = Some w -> target_of w = File f ->
  run_pipeline ctx ts fuel s k = Some (r, s', k') -> settled f (reports_done r) d (disk k').
Proof.
  intros [Hf Hd]%create_only_part Hw Ht Hr. assert (part_path f <> final_path f) as Hne.
  { rewrite Hf. apply part_path_for_ne. }
  eapply settled_trans; [done|exact Hd|]. eapply run_settled; [|done..]. by exists w.
Qed.
End runs.
