(* ===== verification/BsonFormatSpec.v ===== *)
(** * A BSON export is read back

    What a finished export leaves at its path is the concatenation of the encoded documents,
    and the source reads exactly those documents out of it. *)

From stdpp Require Import pretty.
From S2P Require Import Prelude.
From S2P Require Import Bytes.
From S2P Require Import AppError.
From S2P Require Import BsonJson.
From S2P Require Import Pipeline.
From S2P Require Import PipelineSpec.
From S2P Require Import WriteTarget.
From S2P Require Import ExportSpec.
From S2P Require Import BsonFormat.

Section bson_format_spec.
Context {BB : BsonBytes}.

(** What the [bson] crate promises of an encoding: the length comes first, and decoding gives
    the document back. *)
Definition encodes (d : Doc) (b : list byte) : Prop :=
  bson_to_vec d = Ok b /\ bson_from_slice b = Ok d /\
  i32_from_le (take 4 b) = Z.of_nat (length b) /\ (5 <= Z.of_nat (length b) <= MAX_BSON_DOC_LEN)%Z.

(** ** Reading *)

Lemma bson_next_encoded d b rest :
  encodes d b -> bson_next_doc {| unread := b ++ rest |} = (Ok (Some (RowDoc d)), {| unread := rest |}).
Proof.
  intros (_ & Hd & Hlen & Hb). unfold bson_next_doc. cbn [unread].
  rewrite take_app_le, drop_app_le by lia. rewrite Hlen.
  rewrite bool_decide_eq_false_2 by (rewrite length_take; lia).
  replace (_ <? 5)%Z with false by (symmetry; lia). replace (MAX_BSON_DOC_LEN <? _)%Z with false by (symmetry; lia).
  rewrite Nat2Z.id. rewrite bool_decide_eq_false_2 by (rewrite length_app, length_drop; lia).
  rewrite take_app_length', drop_app_length' by (rewrite length_drop; lia).
  by rewrite take_drop, Hd.
Qed.

Lemma bson_shrinks s r s' : next_doc s = (Ok (Some r), s') -> (length (unread s') < length (unread s))%nat.
Proof.
  cbn. unfold bson_next_doc. case_bool_decide as H4; [done|]. rewrite length_take in H4. destruct (_ <? 5)%Z; [done|].
  destruct (_ <? _)%Z; [done|]. case_bool_decide; [done|]. destruct (bson_from_slice _); [|done].
  intros [= _ <-]. cbn. rewrite !length_drop. lia.
Qed.

(** A torn tail of fewer than four bytes is taken for the end. *)
Lemma bson_delivers docs bs tail_ :
  Forall2 encodes docs bs -> (length tail_ < 4)%nat ->
  delivers {| unread := concat bs ++ tail_ |} (map RowDoc docs) None {| unread := [] |}.
Proof.
  intros H Ht. induction H as [|d b docs bs Hd _ IH]; cbn [concat map].
  - constructor. cbn. unfold bson_next_doc. cbn [unread app].
    by rewrite bool_decide_eq_true_2 by (rewrite length_take; lia).
  - eapply delivers_row; [|exact IH]. rewrite <-app_assoc. by apply bson_next_encoded.
Qed.

(** ** Writing *)

Context {Enc : Type} {EN : Encoder Enc}.

(** A sink at work on the file [f], whose part holds [c]. *)
Definition at_part (f : AtomicFileWriter) (c : list byte) (k : SinkState Enc unit) : Prop :=
  target k = Some (Plain (File f)) /\ files (disk k) !! part_path f = Some c.

Lemma fallible_Ok what d u d' : fallible what d = (Ok u, d') -> files d' = files d.
Proof. pose proof (fallible_files what d) as H. intros E. by rewrite E in H. Qed.

Lemma bson_write_part f c d k k' :
  at_part f c k -> bson_write d k = (Ok tt, k') -> exists b, bson_to_vec d = Ok b /\ at_part f (c ++ b) k'.
Proof.
  intros [Ht Hc] (b & k1 & Hb & H)%stateR_bind_Ok. injection Hb as Hb <-. exists b.
  split; [by destruct (bson_to_vec d); [injection Hb as ->|]|].
  apply stateR_bind_Ok in H as (s & k1 & [= <- <-] & H). rewrite Ht in H.
  apply stateR_bind_Ok in H as (w & k1 & Hw & [= <-]). unfold on_disk in Hw.
  destruct (sink_write_all b (Plain (File f)) (disk k)) as [r d1] eqn:Hr. injection Hw as -> <-.
  cbn in Hr. apply stateR_bind_Ok in Hr as (t & d2 & Hr & [= <- <-]).
  destruct (writer f); [|done]. apply stateR_bind_Ok in Hr as ([] & d3 & H1%fallible_Ok & Hr).
  apply stateR_bind_Ok in Hr as ([] & d4 & [= <-] & [= <- <-]). split; [done|]. cbn.
  by rewrite H1, lookup_insert_eq, Hc.
Qed.

Lemma bson_write_all f c docs k k' :
  at_part f c k -> for_each bson_write docs k = (Ok tt, k') ->
  exists bs, Forall2 (fun d b => bson_to_vec d = Ok b) docs bs /\ at_part f (c ++ concat bs) k'.
Proof.
  revert c k. induction docs as [|d docs IH]; intros c k Hk; cbn.
  - intros [= <-]. exists []. split; [constructor|]. by rewrite app_nil_r.
  - intros ([] & k1 & Hw & H)%stateR_bind_Ok. destruct (bson_write_part f c d k k1 Hk Hw) as (b & Hb & Hk1).
    destruct (IH _ _ Hk1 H) as (bs & Hbs & Hk'). exists (b :: bs). split; [by constructor|].
    cbn. by rewrite app_assoc.
Qed.

Lemma bson_finish_file f c k k' :
  at_part f c k -> bson_finish k = (Ok tt, k') -> files (disk k') !! final_path f = Some c.
Proof.
  intros [Ht Hc] (s & k1 & [= <- <-] & H)%stateR_bind_Ok. apply stateR_bind_Ok in H as ([] & k1 & [= <-] & H).
  rewrite Ht in H. apply stateR_bind_Ok in H as (o & k2 & Ho & [= <-]). unfold on_disk in Ho.
  cbn [disk set_target] in Ho. destruct (sink_finish _ _) as [r d] eqn:Hr. injection Ho as -> <-. cbn.
  cbn in Hr. apply stateR_bind_Ok in Hr as ([] & d1 & Hr & [= <- <-]). unfold commit in Hr.
  apply stateR_bind_Ok in Hr as ([] & d2 & H1 & Hr).
  assert (files d2 = files (disk k)) as Hd2.
  { destruct (writer f); [|by injection H1 as <-].
    apply stateR_bind_Ok in H1 as ([] & d3 & H3%fallible_Ok & H1).
    apply stateR_bind_Ok in H1 as ([] & d4 & H4%fallible_Ok & H1). apply fallible_Ok in H1. congruence. }
  unfold rename in Hr. destruct (fallible "rename" d2) as [[[]|e] d3] eqn:H3; [|done].
  apply fallible_Ok in H3. rewrite H3, Hd2, Hc in Hr. injection Hr as <-. cbn. apply lookup_insert_eq.
Qed.

(** [BsonSink::new] over a file that [create] has just made. *)
Definition new_bson_sink (f : AtomicFileWriter) (d : Disk) : SinkState Enc unit :=
  {| target := Some (Plain (File f)); output_slot := None; extra := tt; disk := d |}.

Lemma create_at_part path d f d1 :
  create path d = (Ok f, d1) -> final_path f = path /\ at_part f [] (new_bson_sink f d1).
Proof.
  intros ([] & d2 & _ & H)%stateR_bind_Ok. apply stateR_bind_Ok in H as ([] & d3 & [= <-] & [= <- <-]).
  split; [done|]. split; [done|]. apply lookup_insert_eq.
Qed.

(** A BSON export that reports that it is done has left a file at its path out of which the
    import reads exactly the documents that the source delivered and the transforms kept, in
    their order, and then the end. *)
Lemma bson_file_round_trip {Src} {DS : DocumentSource Src} ctx ts fuel (s : Src) path d f d1 rep p s' k' rows s0 :
  (forall i j, (i <= j)%nat -> cancel_flag ctx i = true -> cancel_flag ctx j = true) ->
  create path d = (Ok f, d1) ->
  run_pipeline ctx ts fuel s (new_bson_sink f d1) = Some (Ok (rep, p), s', k') -> cancelled rep = false ->
  delivers s rows None s0 -> Forall (fun doc => exists b, encodes doc b) (omap (written ts) rows) ->
  rp_processed rep = N.of_nat (length rows) /\
  exists c, files (disk k') !! path = Some c /\
    delivers {| unread := c |} (map RowDoc (omap (written ts) rows)) None {| unread := [] |}.
Proof.
  intros Hmono Hcr Hrun Hrep Hrows Henc.
  destruct (run_done ctx ts _ _ _ _ _ _ _ Hmono Hrun Hrep) as (rows' & k0 & k1 & Hd & [= <-] & Hw & Hfin & Hn).
  assert (rows' = rows) as -> by apply (delivers_fun _ _ _ _ Hd _ _ _ Hrows).
  apply create_at_part in Hcr as [<- Hk]. split; [done|].
  destruct (bson_write_all f [] _ _ _ Hk Hw) as (bs & Hbs & Hk1). exists (concat bs).
  split; [by eapply bson_finish_file|]. rewrite <-(app_nil_r (concat bs)). apply bson_delivers; [|cbn; lia].
  clear -Hbs Henc. induction Hbs as [|doc b docs bs Hb _ IH]; [constructor|].
  apply Forall_cons in Henc as [[b' Hb'] Henc]. constructor; [|by apply IH].
  destruct Hb' as (H1 & H2). rewrite Hb in H1. injection H1 as <-. by split.
Qed.
End bson_format_spec.
