(* ===== verification/Transfer.v ===== *)
(** * What dumps and restores share
    (src-tauri/src/commands/dump.rs and restore.rs)

    Both commands walk over collections, run a pipeline for each, and keep a job, its log
    and the timeline.  The server of a connection is an interface; the clock, the fresh
    identifiers and the cancel flag of the job are arguments.  The events sent to the
    window change no state and are left out. *)

From S2P Require Import Prelude.
From S2P Require Import AppError.
From S2P Require Import BsonJson.
From S2P Require Import Pipeline.
From S2P Require Import WriteTarget.
From S2P Require Import CollectionSink.
From S2P Require JobStore.
From S2P Require Timeline.
Local Open Scope string_scope.
Local Open Scope list_scope.

(** A database of the driver: a cursor over all documents of a collection yields what
    [find_all] lists. *)
Class Database (Db : Type) := {
  list_collection_names : Db -> result AppError (list string);
  find_all : string -> Db -> result AppError (list (result AppError Doc));
  estimated_count : string -> Db -> result AppError N;
  drop_collection : string -> stateR Db AppError unit;
  db_insert_many : string -> list Doc -> stateR Db AppError unit;
  db_replace_upsert : string -> Doc -> Doc -> stateR Db AppError unit;
}.

(** [db.collection(name)] *)
Definition collection_of {Db} {DA : Database Db} (name : string) : Collection Db :=
  {| insert_many := db_insert_many name; replace_upsert := db_replace_upsert name |}.

(** What the commands need of [AppState], with the server and the disk. *)
Record AppState (Db : Type) := {
  jobs : JobStore.JobStore;
  timeline : Timeline.TimelineStore;
  db : Db;
  disk : Disk;
}.
Arguments jobs {Db}. Arguments timeline {Db}. Arguments db {Db}. Arguments disk {Db}.

Record ClientEntry := { profile_id : string; client_name : string }.

(** The [i]-th collection reads the cancel flag before it starts, as [cancel i 0], and its
    pipeline reads it again as [cancel i 1], and so on. *)
Record Run := {
  now : string;
  uuid : nat -> string;
  elapsed : nat -> N;
  date : string;
  time : string;
  cancel : nat -> nat -> bool;
  throttled : nat -> nat -> bool;
}.

Definition job_context (run : Run) (id : string) (i : nat) : JobContext :=
  {| job_id := id; max_errors := 10000; max_error_samples := 100;
     cancel_flag n := cancel run i (S n); throttle_over := throttled run i |}.

(** The end of a job: cancelled, failed or done. *)
Definition end_status (cancelled : bool) (errors : N) : JobStore.JobStatus :=
  if cancelled then JobStore.Cancelled else if (0 <? errors)%N then JobStore.Failed else JobStore.Done.

Section state.
Context {Db : Type} {JJ : JobStore.JobJson} {EJ : Timeline.EntryJson}.
Abbreviation st := (AppState Db).

Definition with_jobs (f : JobStore.JobStore -> JobStore.JobStore) (s : st) : st :=
  {| jobs := f (jobs s); timeline := timeline s; db := db s; disk := disk s |}.
Definition with_timeline (f : Timeline.TimelineStore -> Timeline.TimelineStore) (s : st) : st :=
  {| jobs := jobs s; timeline := f (timeline s); db := db s; disk := disk s |}.
Definition with_db (d : Db) (s : st) : st :=
  {| jobs := jobs s; timeline := timeline s; db := d; disk := disk s |}.
Definition with_disk (d : Disk) (s : st) : st :=
  {| jobs := jobs s; timeline := timeline s; db := db s; disk := d |}.

Definition in_disk {A} (m : stateR Disk AppError A) : stateR st AppError A := fun s =>
  let '(r, d) := m (disk s) in (r, with_disk d s).
Definition in_db {A} (m : stateR Db AppError A) : stateR st AppError A := fun s =>
  let '(r, d) := m (db s) in (r, with_db d s).

(** The job, created, running and registered. *)
Definition begin_job (t : string) (meta : JobStore.JobMeta) (msg : string) (js : JobStore.JobStore) : JobStore.JobStore :=
  let js := (JobStore.create_job meta js).2 in
  let js := JobStore.update_status t (JobStore.job_id meta) JobStore.Running msg js in
  (JobStore.register (JobStore.job_id meta) js).2.

(** The timeline first, when there are entries, then the registry and the status. *)
Definition end_job (t id : string) (entries : list Timeline.TimelineEntry) (status : JobStore.JobStatus) (msg : string)
    (s : st) : st :=
  with_jobs (fun js => JobStore.update_status t id status msg (JobStore.unregister id js))
    (with_timeline (Timeline.append_batch entries) s).
End state.

(** ** The job of a transfer

    Between its begin and its end a transfer only logs to its job, so in the end the job has
    the status that the transfer computed and is no longer registered. *)

From S2P Require Import JobStore.
From S2P Require Import JobSpec.

Section transfer_spec.
Context {Db : Type} {JJ : JobJson} {EJ : Timeline.EntryJson}.

(** The jobs are as before; their logs may have grown. *)
Definition same_jobs (s s' : AppState Db) : Prop :=
  JobStore.jobs (Transfer.jobs s') = JobStore.jobs (Transfer.jobs s).

#[export] Instance same_jobs_pre : PreOrder same_jobs.
Proof. unfold same_jobs. split; [done|]. intros s1 s2 s3 H1 H2. congruence. Qed.

Lemma keeps_jobs_log f t id msg :
  f = log_info \/ f = log_warn \/ f = log_error ->
  keeps same_jobs (modify (with_jobs (f t id msg)) : stateR (AppState Db) AppError unit).
Proof. intros [->|[->| ->]]; by intros s. Qed.
Lemma keeps_jobs_disk {A} (m : stateR Disk AppError A) : keeps same_jobs (in_disk (Db := Db) m).
Proof. intros s. unfold in_disk. by destruct (m (disk s)). Qed.
Lemma keeps_jobs_db {A} (m : stateR Db AppError A) : keeps same_jobs (in_db m).
Proof. intros s. unfold in_db. by destruct (m (db s)). Qed.
Lemma keeps_jobs_get {A} (m : AppState Db -> stateR (AppState Db) AppError A) :
  (forall s, keeps same_jobs (m s)) -> keeps same_jobs (s ← get_state; m s).
Proof. intros H. apply keeps_bind; [apply _|by intros s|exact H]. Qed.

(** A job that has begun: running, with a flag. *)
Lemma begin_job_running t meta msg js :
  NoDup (map JobStore.job_id (JobStore.jobs js)) ->
  let js' := begin_job t meta msg js in
  (exists j, get (JobStore.job_id meta) js' = Some j /\ status j = Running) /\ is_Some (active js' !! JobStore.job_id meta).
Proof.
  intros Hnd. destruct (get_create meta js Hnd) as (j & Hj & _). split.
  - eexists. unfold begin_job, get. cbn [register snd JobStore.jobs].
    split; [apply (get_update_job (JobStore.job_id meta)); [by apply create_job_ids|done|exact Hj]|]. by rewrite decide_True.
  - unfold begin_job. cbn. rewrite lookup_insert_eq. by eexists.
Qed.

(** What the job of a transfer is in the end. *)
Definition job_ended (id : string) (st : JobStatus) (s : AppState Db) : Prop :=
  (exists j, get id (Transfer.jobs s) = Some j /\ status j = st) /\ active (Transfer.jobs s) !! id = None.

Lemma end_job_ended t meta msg entries st msg' s1 s2 :
  NoDup (map JobStore.job_id (JobStore.jobs (Transfer.jobs s1))) ->
  same_jobs (with_jobs (begin_job t meta msg) s1) s2 ->
  job_ended (JobStore.job_id meta) st (end_job t (JobStore.job_id meta) entries st msg' s2).
Proof.
  intros Hnd Hs. unfold job_ended, end_job. cbn [with_jobs with_timeline Transfer.jobs].
  set (js := unregister (JobStore.job_id meta) (Transfer.jobs s2)).
  set (js1 := (create_job meta (Transfer.jobs s1)).2).
  assert (NoDup (map JobStore.job_id (JobStore.jobs js1))) as Hn1 by by apply create_job_ids.
  destruct (get_create meta (Transfer.jobs s1) Hnd) as (j & Hj & _).
  set (js2 := update_status t (JobStore.job_id meta) Running msg js1).
  assert (NoDup (map JobStore.job_id (JobStore.jobs js2))) as Hn2 by exact (apply_ids (UpdateStatus t (JobStore.job_id meta) Running msg) js1 Hn1).
  assert (JobStore.jobs js = JobStore.jobs js2) as Hjs by (subst js; cbn; exact Hs).
  assert (exists j', get (JobStore.job_id meta) js2 = Some j') as [j' Hj'].
  { eexists. unfold js2, update_status. apply get_update_job; [exact Hn1|done|exact Hj]. }
  split.
  - assert (get (JobStore.job_id meta) js = Some j') as Hjj by (unfold get; rewrite Hjs; exact Hj').
    eexists. unfold update_status. split; [apply get_update_job; [by rewrite Hjs|done|exact Hjj]|].
    by rewrite decide_True.
  - unfold update_status. rewrite active_save. cbn. apply lookup_delete_eq.
Qed.
End transfer_spec.
