(* ===== verification/Dump.v ===== *)
(** * Dumps of a database (src-tauri/src/commands/dump.rs)

    One file per collection, through a cursor, the pipeline and a BSON or JSON sink. *)

From stdpp Require Import pretty.
From S2P Require Import Prelude.
From S2P Require Import Bytes.
From S2P Require Import Text.
From S2P Require Import AppError.
From S2P Require Import Json.
From S2P Require Import BsonJson.
From S2P Require Import Pipeline.
From S2P Require Import WriteTarget.
From S2P Require Import JsonFormat.
From S2P Require Import BsonFormat.
From S2P Require Import Placeholders.
From S2P Require JobStore.
From S2P Require Timeline.
From S2P Require Import Transfer.
Local Open Scope string_scope.
Local Open Scope list_scope.

Inductive DumpFormat := DumpBson | DumpJson.

Record DumpRequest := {
  connection_id : string;
  database : string;
  collections : list string;
  destination_dir : string;
  path_template : string;
  format : DumpFormat;
  compression : CompressionKind;
  job_id : string;
}.

Record DumpResult := {
  res_job_id : string;
  processed : N;
  errors : N;
  cancelled : bool;
  dumped_files : list string;
}.

(** The totals so far; [entries] are those of the timeline. *)
Record Totals := {
  total_processed : N;
  total_errors : N;
  was_cancelled : bool;
  total_files : list string;
  entries : list Timeline.TimelineEntry;
}.
Definition no_totals : Totals :=
  {| total_processed := 0; total_errors := 0; was_cancelled := false; total_files := []; entries := [] |}.

Section dump.
Context {Db Enc : Type} {DA : Database Db} {EN : Encoder Enc}.
Context {BC : BsonConvert} {JB : JsonBytes} {BB : BsonBytes} {PA : Paths}.
Context {JJ : JobStore.JobJson} {EJ : Timeline.EntryJson}.
Context (client : string -> result AppError ClientEntry) (request_json : DumpRequest -> string) (run : Run).
Abbreviation st := (AppState Db).

Definition resolve_dump_path (dest template database_ collection_ profile_ : string) (fmt : DumpFormat)
    (comp : CompressionKind) : string :=
  let resolved :=
    if bool_decide (trim template = "") then collection_
    else resolve_with_values {| Placeholders.database := database_; Placeholders.collection := collection_;
                                Placeholders.profile := profile_ |} (date run) (time run) template in
  let ext := match fmt with DumpBson => "bson" | DumpJson => "json" end in
  path_join dest (resolved +:+ "." +:+ ext +:+ extension comp).

(** The pipeline from a cursor ends within one step per document and one more. *)
Definition run_cursor {Snk} {DK : DocumentSink Snk} (ctx : JobContext) (source : CursorSource) (k : Snk) :
    result AppError (JobReport * Progress) * Snk :=
  match run_pipeline ctx [] (S (length (cursor source))) source k with
  | Some (r, _, k) => (r, k)
  | None => (Err (Internal "fuel"), k)
  end.

(** [build_sink], and the run with it. *)
Definition dump_to (fmt : DumpFormat) (ctx : JobContext) (source : CursorSource) (w : WriteSink Enc) :
    stateR Disk AppError (JobReport * Progress) := fun d =>
  match fmt with
  | DumpBson =>
    let '(r, k) := run_cursor ctx source {| target := Some w; output_slot := None; extra := tt; WriteTarget.disk := d |} in
    (r, WriteTarget.disk k)
  | DumpJson =>
    let '(r, k) := run_cursor ctx source (new_json_sink w ShapeArray false d) in
    (r, WriteTarget.disk k)
  end.

Definition dump_entry (request : DumpRequest) (entry : ClientEntry) (i : nat) (coll : string) : Timeline.TimelineEntry :=
  Timeline.with_executed_at (now run)
    (Timeline.with_execution_ms (elapsed run i)
      (Timeline.with_actor "local-user"
        (Timeline.with_collection coll
          (Timeline.with_database (database request)
            (Timeline.with_connection_id (connection_id request)
              (Timeline.builder (now run) (uuid run i) (profile_id entry) Timeline.Dump)))))).

Definition dump_collection (request : DumpRequest) (entry : ClientEntry) (profile_name dest : string) (i : nat)
    (coll : string) (t : Totals) : stateR st AppError Totals :=
  s ← get_state;
  docs ← liftR (find_all coll (db s));
  let total := match estimated_count coll (db s) with Ok n => Some n | Err _ => None end in
  let file_path := resolve_dump_path dest (path_template request) (database request) coll profile_name
                     (format request) (compression request) in
  f ← in_disk (create file_path);
  sink_target ← liftR (match compression request with
                       | NoCompression => Ok (Plain (File f))
                       | k => compressed (File f) k
                       end);
  report ← catch (in_disk (dump_to (format request) (job_context run (job_id request) i)
                             {| cursor := docs; total_count := total |} sink_target));
  match report with
  | Ok (r, _) =>
    _ ← modify (with_jobs (JobStore.log_info (now run) (job_id request)
                  ("Dumped " +:+ coll +:+ ": " +:+ pretty (rp_processed r) +:+ " docs")));
    mret {| total_processed := total_processed t + rp_processed r; total_errors := total_errors t + rp_errors r;
            was_cancelled := was_cancelled t; total_files := total_files t ++ [file_path];
            entries := entries t ++ [Timeline.with_returned_count (rp_processed r) (dump_entry request entry i coll)] |}
  | Err e =>
    let msg := "Failed to dump " +:+ coll +:+ ": " +:+ display e in
    _ ← modify (with_jobs (JobStore.log_error (now run) (job_id request) msg));
    mret {| total_processed := total_processed t; total_errors := total_errors t + 1;
            was_cancelled := was_cancelled t; total_files := total_files t;
            entries := entries t ++ [Timeline.with_error_message (Some msg)
                                       (Timeline.with_errored true (dump_entry request entry i coll))] |}
  end.

Definition stop (t : Totals) : Totals :=
  {| total_processed := total_processed t; total_errors := total_errors t; was_cancelled := true;
     total_files := total_files t; entries := entries t |}.

(** The flag is read before each collection. *)
Fixpoint dump_collections (request : DumpRequest) (entry : ClientEntry) (profile_name dest : string) (i : nat)
    (colls : list string) (t : Totals) : stateR st AppError Totals :=
  match colls with
  | [] => mret t
  | coll :: colls =>
    if cancel run i 0 then mret (stop t)
    else t ← dump_collection request entry profile_name dest i coll t;
         dump_collections request entry profile_name dest (S i) colls t
  end.

Definition dump_meta (request : DumpRequest) (entry : ClientEntry) (colls : list string) : JobStore.JobMeta :=
  let m := JobStore.new_meta (now run) (job_id request) JobStore.Dump (connection_id request) (database request) in
  JobStore.Build_JobMeta (JobStore.job_id m) (JobStore.kind m) (JobStore.status m) (JobStore.connection_id m)
    (profile_id entry) (JobStore.database m) colls (JobStore.created_at m) (JobStore.started_at m)
    (JobStore.finished_at m) (Some (destination_dir request)) (JobStore.source_path m) (JobStore.schedule m)
    (JobStore.parent_job_id m) (JobStore.processed m) (JobStore.total m) (JobStore.errors m) (JobStore.message m)
    (Some (request_json request)).

Definition user_collection (name : string) : bool := negb (starts_with (as_bytes "system.") (as_bytes name)).

(** The collections asked for, or all but those of the system. *)
Definition collections_to_dump (request : DumpRequest) (d : Db) : result AppError (list string) :=
  colls ← match collections request with
          | [] => names ← list_collection_names d; Ok (List.filter user_collection names)
          | colls => Ok colls
          end;
  match colls with
  | [] => Err (Validation "no collections to dump")
  | _ => Ok colls
  end.

Definition run_dump (request : DumpRequest) : stateR st AppError DumpResult :=
  entry ← liftR (client (connection_id request));
  s ← get_state;
  colls ← liftR (collections_to_dump request (db s));
  dest ← liftR (validate_target_path (destination_dir request));
  _ ← in_disk (fallible "create_dir_all");
  _ ← modify (with_jobs (begin_job (now run) (dump_meta request entry colls) "Dump started"));
  let profile_name := match client (connection_id request) with Ok e => client_name e | Err _ => "" end in
  t ← dump_collections request entry profile_name dest 0 colls no_totals;
  let msg := "Dumped " +:+ pretty (total_processed t) +:+ " documents from " +:+
             pretty (N.of_nat (length (total_files t))) +:+ " collections" in
  _ ← modify (end_job (now run) (job_id request) (entries t) (end_status (was_cancelled t) (total_errors t)) msg);
  mret {| res_job_id := job_id request; processed := total_processed t; errors := total_errors t;
          cancelled := was_cancelled t; dumped_files := total_files t |}.
End dump.
