(* ===== verification/DumpSpec.v ===== *)
(** * What a dump promises

    A dump that ends without an error and without a cancellation has, for every collection,
    a file that reads back as its documents; and what a cancellation in the middle of the
    last collection does to the report. *)

From stdpp Require Import pretty.
From S2P Require Import Prelude.
From S2P Require Import Bytes.
From S2P Require Import AppError.
From S2P Require Import Json.
From S2P Require Import BsonJson.
From S2P Require Import Pipeline.
From S2P Require Import PipelineSpec.
From S2P Require Import WriteTarget.
From S2P Require Import ExportSpec.
From S2P Require Import JsonFormat.
From S2P Require Import BsonFormat.
From S2P Require Import BsonFormatSpec.
From S2P Require JobStore.
From S2P Require Timeline.
From S2P Require Import Transfer.
From S2P Require Import Dump.

(** A file out of which the BSON import reads the documents. *)
Definition file_holds {BB : BsonBytes} (d : Disk) (path : string) (docs : list Doc) : Prop :=
  exists c, files d !! path = Some c /\ delivers {| unread := c |} (map RowDoc docs) None {| unread := [] |}.

(** The documents of a collection: the cursor does not fail, and they can be encoded. *)
Definition collection_docs {Db} {DA : Database Db} {BB : BsonBytes} (d : Db) (coll : string) (docs : list Doc) : Prop :=
  find_all coll d = Ok (map Ok docs) /\ Forall (fun doc => exists b, encodes doc b) docs.

Section dump_spec.
Context {Db Enc : Type} {DA : Database Db} {EN : Encoder Enc}.
Context {BC : BsonConvert} {JB : JsonBytes} {BB : BsonBytes} {PA : Paths}.
Context {JJ : JobStore.JobJson} {EJ : Timeline.EntryJson}.
Context (client : string -> result AppError ClientEntry) (request_json : DumpRequest -> string) (run : Run).

Abbreviation dump_collection := (dump_collection (Db := Db) (Enc := Enc) run).
Abbreviation dump_collections := (dump_collections (Db := Db) (Enc := Enc) run).

Definition path_of (request : DumpRequest) (profile_name dest coll : string) : string :=
  resolve_dump_path run dest (path_template request) (database request) coll profile_name (format request)
    (compression request).

Local Strategy 100 [resolve_dump_path].

Lemma fold_path request pn dest coll :
  resolve_dump_path run dest (path_template request) (database request) coll pn (format request)
    (compression request) = path_of request pn dest coll.
Proof. unfold path_of. reflexivity. Qed.

(** ** The job *)

Lemma dump_collection_jobs request entry pn dest i coll t :
  keeps same_jobs (dump_collection request entry pn dest i coll t).
Proof.
  apply keeps_jobs_get. intros s. apply keeps_bind; [apply _|apply keeps_liftR, _|intros docs].
  apply keeps_bind; [apply _|apply keeps_jobs_disk|intros f].
  apply keeps_bind; [apply _|apply keeps_liftR, _|intros w].
  apply keeps_bind; [apply _|apply keeps_catch, keeps_jobs_disk|intros [[r p]|e]];
    (apply keeps_bind; [apply _|apply keeps_jobs_log; tauto|intros _; apply keeps_ret, _]).
Qed.

Lemma dump_collections_jobs request entry pn dest i colls t :
  keeps same_jobs (dump_collections request entry pn dest i colls t).
Proof.
  revert i t. induction colls as [|coll colls IH]; intros i t; cbn; [apply keeps_ret, _|].
  destruct (cancel run i 0); [apply keeps_ret, _|].
  apply keeps_bind; [apply _|apply dump_collection_jobs|intros; apply IH].
Qed.

(** ** One collection *)

(** The run is over with the result, since the fuel is enough. *)
Lemma run_cursor_run {Snk} {DK : DocumentSink Snk} ctx source (k : Snk) r k' :
  run_cursor ctx source k = (r, k') ->
  exists s', run_pipeline ctx [] (S (length (cursor source))) source k = Some (r, s', k').
Proof.
  unfold run_cursor. destruct (run_pipeline_ends_some ctx [] (fun s => length (cursor s)) (S (length (cursor source))) source k)
    as [[[r1 s1] k1] Hr]; [apply cursor_shrinks|lia|]. rewrite Hr. intros [= <- <-]. by exists s1.
Qed.

(** Whatever the run does, only the two paths of its file change. *)
Lemma dump_to_settled fmt ctx source path d f d1 w r d2 :
  create path d = (Ok f, d1) -> target_of w = File f -> dump_to (Enc := Enc) fmt ctx source w d1 = (r, d2) ->
  settled f (reports_done r) d d2.
Proof.
  intros [Hf Hd]%create_only_part Hw Hr. assert (part_path f <> final_path f) as Hne by (rewrite Hf; apply part_path_for_ne).
  eapply settled_trans; [done|exact Hd|]. unfold dump_to, new_json_sink in Hr. destruct fmt.
  - destruct (run_cursor ctx source _) as [r1 k1] eqn:Hk. injection Hr as <- <-.
    apply run_cursor_run in Hk as [s' Hk]. eapply (run_settled ctx []) in Hk; [exact Hk| |done]. by exists w.
  - destruct (run_cursor ctx source _) as [r1 k1] eqn:Hk. injection Hr as <- <-.
    apply run_cursor_run in Hk as [s' Hk]. eapply (run_settled ctx []) in Hk; [exact Hk| |done]. by exists w.
Qed.

Lemma dump_to_bson ctx docs n path d f d1 rep p d2 :
  (forall i, cancel_flag ctx i = false) -> create path d = (Ok f, d1) ->
  Forall (fun doc => exists b, encodes doc b) docs ->
  dump_to (Enc := Enc) DumpBson ctx {| cursor := map Ok docs; total_count := n |} (Plain (File f)) d1 = (Ok (rep, p), d2) ->
  rp_processed rep = N.of_nat (length docs) /\ file_holds d2 path docs.
Proof.
  intros Hc Hcr Henc H. unfold dump_to in H. change {| target := _; output_slot := None; extra := tt; WriteTarget.disk := d1 |}
    with (new_bson_sink (Enc := Enc) f d1) in H.
  destruct (run_cursor ctx _ (new_bson_sink f d1)) as [r k] eqn:Hk. injection H as -> <-.
  apply run_cursor_run in Hk as [s' Hk].
  destruct (bson_file_round_trip ctx [] _ _ path d f d1 rep p s' k (map RowDoc docs) {| cursor := []; total_count := n |} (fun i j _ => ltac:(by rewrite Hc)) Hcr Hk)
    as [Hn (c & Hf & Hd)]; [by eapply run_not_cancelled|apply cursor_delivers|by rewrite omap_written|].
  rewrite length_map in Hn. split; [done|]. exists c. rewrite omap_written in Hd. by split.
Qed.

(** What a collection adds to the totals and to the disk. *)
Record dumped (request : DumpRequest) (pn dest coll : string) (docs : list Doc) (t t' : Totals) (s s' : AppState Db) : Prop := {
  dumped_db : db s' = db s;
  dumped_others q : q <> path_of request pn dest coll -> q <> part_path_for (path_of request pn dest coll) ->
    WriteTarget.files (disk s') !! q = WriteTarget.files (disk s) !! q;
  dumped_flag : was_cancelled t' = was_cancelled t;
  dumped_errors : (total_errors t <= total_errors t')%N;
  dumped_file : total_errors t' = total_errors t -> file_holds (disk s') (path_of request pn dest coll) docs;
  dumped_count : total_errors t' = total_errors t -> total_processed t' = (total_processed t + N.of_nat (length docs))%N;
  dumped_list : total_errors t' = total_errors t -> total_files t' = total_files t ++ [path_of request pn dest coll];
}.

Lemma dump_collection_dumped request entry pn dest i coll docs t t' s s' :
  format request = DumpBson -> compression request = NoCompression -> (forall i n, cancel run i n = false) ->
  collection_docs (db s) coll docs ->
  dump_collection request entry pn dest i coll t s = (Ok t', s') -> dumped request pn dest coll docs t t' s s'.
Proof.
  intros Hfmt Hcomp Hc [Hfind Henc] H. unfold Dump.dump_collection in H. 
  rewrite fold_path in H.
  rewrite Hfmt, Hcomp in H. set (path := path_of request pn dest coll) in *.
  apply stateR_bind_Ok in H as (s0 & s1 & [= <- <-] & H). apply stateR_bind_Ok in H as (l & s1 & Hl & H).
  injection Hl as Hl <-. rewrite Hfind in Hl. injection Hl as <-.
  apply stateR_bind_Ok in H as (f & s1 & Hcr & H). unfold in_disk in Hcr.
  destruct (create path (disk s)) as [r1 d1] eqn:Hcreate. injection Hcr as -> <-.
  apply stateR_bind_Ok in H as (w & s1 & [= <- <-] & H).
  apply stateR_bind_Ok in H as (report & s2 & Hrep & H). unfold catch, in_disk in Hrep. cbn [with_disk disk] in Hrep.
  set (ctx := job_context run (job_id request) i) in *. set (n := match estimated_count coll (db s) with Ok _ => _ | Err _ => _ end) in *.
  destruct (dump_to DumpBson ctx {| cursor := map Ok docs; total_count := n |} (Plain (File f)) d1) as [r2 d2] eqn:Hto.
  injection Hrep as -> <-. pose proof (dump_to_settled _ _ _ _ _ _ _ (Plain (File f)) _ _ Hcreate eq_refl Hto) as [Ho _].
  destruct (create_only_part _ _ _ _ Hcreate) as [-> _]. cbn [part_path final_path] in Ho.
  destruct report as [[rep p]|e]; apply stateR_bind_Ok in H as ([] & s3 & [= <-] & [= <- <-]); cbn.
  - pose proof (dump_to_bson ctx docs n path _ _ _ rep p d2 (fun j => Hc i (S j)) Hcreate Henc Hto) as [Hn Hfile].
    split; cbn; [done|intros; by apply Ho|done|lia|done|by rewrite Hn|done].
  - split; cbn; [done|intros; by apply Ho|done|lia|intros; lia..].
Qed.

(** ** All collections *)

(** The files of different collections do not meet. *)
Definition apart (paths : list string) : Prop :=
  NoDup paths /\ forall p q, p ∈ paths -> q ∈ paths -> p <> part_path_for q.

Lemma dump_collections_done request entry pn dest i colls dss t t' s s' d0 :
  format request = DumpBson -> compression request = NoCompression -> (forall i n, cancel run i n = false) ->
  Forall2 (collection_docs d0) colls dss -> db s = d0 -> apart (map (path_of request pn dest) colls) ->
  dump_collections request entry pn dest i colls t s = (Ok t', s') ->
  was_cancelled t' = was_cancelled t /\ (total_errors t <= total_errors t')%N /\
  (forall q, q ∉ map (path_of request pn dest) colls -> q ∉ map part_path_for (map (path_of request pn dest) colls) ->
     WriteTarget.files (disk s') !! q = WriteTarget.files (disk s) !! q) /\
  (total_errors t' = total_errors t ->
     Forall2 (fun coll docs => file_holds (disk s') (path_of request pn dest coll) docs) colls dss /\
     total_processed t' = (total_processed t + N.of_nat (length (concat dss)))%N /\
     total_files t' = total_files t ++ map (path_of request pn dest) colls).
Proof.
  intros Hfmt Hcomp Hc Hds. revert i t s.
  induction Hds as [|coll docs colls dss Hd _ IH]; intros i t s Hdb [Hnd Hpart] H; cbn in H.
  { injection H as <- <-. split_and!; [done|lia|done|]. intros _. cbn. split_and!; [constructor|lia|by rewrite app_nil_r]. }
  rewrite Hc in H. apply stateR_bind_Ok in H as (t1 & s1 & H1 & H).
  rewrite <-Hdb in Hd. apply (dump_collection_dumped _ _ _ _ _ _ docs) in H1; [|done..].
  set (p := path_of request pn dest coll) in *. cbn [map] in Hnd, Hpart. fold p in Hnd, Hpart.
  apply NoDup_cons in Hnd as [Hp Hnd].
  destruct (IH (S i) t1 s1) as (Hw & He & Ho & Hall); [by rewrite (dumped_db _ _ _ _ _ _ _ _ _ H1)| |exact H|].
  { split; [done|]. intros p1 p2 Hp1 Hp2. by apply Hpart; right. }
  split; [by rewrite Hw, (dumped_flag _ _ _ _ _ _ _ _ _ H1)|].
  pose proof (dumped_errors _ _ _ _ _ _ _ _ _ H1) as He1. split; [lia|]. split.
  - intros q Hq1 Hq2. cbn [map] in Hq1, Hq2. apply not_elem_of_cons in Hq1 as [Hq1 Hq3], Hq2 as [Hq2 Hq4].
    rewrite Ho by done. by apply (dumped_others _ _ _ _ _ _ _ _ _ H1).
  - intros Heq. destruct Hall as (Hall & Hn & Hl); [lia|].
    pose proof (dumped_file _ _ _ _ _ _ _ _ _ H1 ltac:(lia)) as (c & Hf & Hr). fold p in Hf.
    split_and!.
    + constructor; [|done]. exists c. fold p. split; [|done]. rewrite <-Hf. apply Ho; [done|].
      intros (q & Hq & Hqin)%list_elem_of_fmap. apply (Hpart p q); [left|by right|exact Hq].
    + rewrite Hn, (dumped_count _ _ _ _ _ _ _ _ _ H1) by lia. cbn. rewrite length_app. lia.
    + rewrite Hl, (dumped_list _ _ _ _ _ _ _ _ _ H1) by lia. by rewrite <-app_assoc.
Qed.

(** ** The command *)

(** The steps of a dump that comes to its end. *)
Lemma run_dump_steps request s res s' :
  run_dump (Enc := Enc) client request_json run request s = (Ok res, s') ->
  exists entry colls dest t s1 s2 msg,
    client (connection_id request) = Ok entry /\ collections_to_dump request (db s) = Ok colls /\
    validate_target_path (destination_dir request) = Ok dest /\
    db s1 = db s /\ WriteTarget.files (disk s1) = WriteTarget.files (disk s) /\
    Transfer.jobs s1 = begin_job (now run) (dump_meta request_json run request entry colls) "Dump started" (Transfer.jobs s) /\
    dump_collections request entry (client_name entry) dest 0 colls no_totals s1 = (Ok t, s2) /\
    s' = end_job (now run) (job_id request) (entries t) (end_status (was_cancelled t) (total_errors t)) msg s2 /\
    res = {| res_job_id := job_id request; processed := total_processed t; errors := total_errors t;
             cancelled := was_cancelled t; dumped_files := total_files t |}.
Proof.
  unfold run_dump. intros (entry & s0 & He & H)%stateR_bind_Ok. injection He as He <-.
  apply stateR_bind_Ok in H as (sx & s0 & [= <- <-] & H). apply stateR_bind_Ok in H as (colls & s0 & Hcolls & H). injection Hcolls as Hcolls <-.
  apply stateR_bind_Ok in H as (dest & s0 & Hdest & H). injection Hdest as Hdest <-.
  apply stateR_bind_Ok in H as ([] & s0 & Hdir & H). apply stateR_bind_Ok in H as ([] & s1 & [= <-] & H).
  rewrite He in H. apply stateR_bind_Ok in H as (t & s2 & Ht & H). apply stateR_bind_Ok in H as ([] & s3 & [= <-] & [= <- <-]).
  unfold in_disk in Hdir. pose proof (fallible_files "create_dir_all" (disk s)) as Hf.
  destruct (fallible _ (disk s)) as [r d]. injection Hdir as -> <-.
  exists entry, colls, dest, t,
    (with_jobs (begin_job (now run) (dump_meta request_json run request entry colls) "Dump started") (with_disk d s)), s2.
  eexists. do 6 (split; [done|]). by split; [exact Ht|].
Qed.

Lemma dump_job_ended request s res s' :
  NoDup (map JobStore.job_id (JobStore.jobs (Transfer.jobs s))) ->
  run_dump (Enc := Enc) client request_json run request s = (Ok res, s') ->
  job_ended (job_id request) (end_status (cancelled res) (errors res)) s'.
Proof.
  intros Hnd (entry & colls & dest & t & s1 & s2 & msg & _ & _ & _ & _ & _ & Hj & Ht & -> & ->)%run_dump_steps. cbn.
  pose proof (dump_collections_jobs request entry (client_name entry) dest 0 colls no_totals s1) as Hs. rewrite Ht in Hs.
  apply (end_job_ended (now run) (dump_meta request_json run request entry colls) "Dump started" (entries t) _ msg s); [done|].
  etrans; [|exact Hs]. unfold same_jobs. cbn. by rewrite Hj.
Qed.

Lemma dump_done request s res s' colls dss dest entry :
  format request = DumpBson -> compression request = NoCompression -> (forall i n, cancel run i n = false) ->
  client (connection_id request) = Ok entry -> collections_to_dump request (db s) = Ok colls ->
  validate_target_path (destination_dir request) = Ok dest ->
  Forall2 (collection_docs (db s)) colls dss -> apart (map (path_of request (client_name entry) dest) colls) ->
  run_dump (Enc := Enc) client request_json run request s = (Ok res, s') -> errors res = 0%N ->
  Forall2 (fun coll docs => file_holds (disk s') (path_of request (client_name entry) dest coll) docs) colls dss /\
  dumped_files res = map (path_of request (client_name entry) dest) colls /\
  processed res = N.of_nat (length (concat dss)) /\ cancelled res = false.
Proof.
  intros Hfmt Hcomp Hc Hcl Hcolls Hdest Hds Hap Hrun Herr.
  apply run_dump_steps in Hrun as (entry' & colls' & dest' & t & s1 & s2 & msg & H1 & H2 & H3 & Hdb & _ & _ & Ht & -> & ->).
  rewrite Hcl in H1. injection H1 as <-. rewrite Hcolls in H2. injection H2 as <-. rewrite Hdest in H3. injection H3 as <-.
  cbn in Herr. apply (dump_collections_done _ _ _ _ _ _ dss _ _ _ _ (db s)) in Ht as (Hw & _ & _ & Hall); [|done..].
  by destruct Hall as (Hall & Hn & Hl).
Qed.

(** A BSON dump that returns without an error and is not cancelled has for every collection a
    file that reads back as exactly the documents of the collection, in order; it reports all
    of them and all the files, and its job is done and no longer registered.  The paths have
    to be apart: one template without the collection in it makes them the same. *)
Theorem dump_done_is_complete request s res s' colls dss dest entry :
  format request = DumpBson -> compression request = NoCompression -> (forall i n, cancel run i n = false) ->
  client (connection_id request) = Ok entry -> collections_to_dump request (db s) = Ok colls ->
  validate_target_path (destination_dir request) = Ok dest ->
  Forall2 (collection_docs (db s)) colls dss -> apart (map (path_of request (client_name entry) dest) colls) ->
  NoDup (map JobStore.job_id (JobStore.jobs (Transfer.jobs s))) ->
  run_dump (Enc := Enc) client request_json run request s = (Ok res, s') -> errors res = 0%N ->
  Forall2 (fun coll docs => file_holds (disk s') (path_of request (client_name entry) dest coll) docs) colls dss /\
  dumped_files res = map (path_of request (client_name entry) dest) colls /\
  processed res = N.of_nat (length (concat dss)) /\ job_ended (job_id request) JobStore.Done s'.
Proof.
  intros Hfmt Hcomp Hc Hcl Hcolls Hdest Hds Hap Hnd Hrun Herr. pose proof (dump_job_ended _ _ _ _ Hnd Hrun) as Hj.
  destruct (dump_done _ _ _ _ _ _ _ _ Hfmt Hcomp Hc Hcl Hcolls Hdest Hds Hap Hrun Herr) as (H1 & H2 & H3 & H4).
  rewrite H4, Herr in Hj. done.
Qed.

(** ** A late cancellation *)

Lemma abort_sink_ok {X} (k : SinkState Enc X) : (abort_sink k).1 = Ok tt.
Proof.
  unfold abort_sink, get_state, modify, mbind, stateR_bind. destruct (target k) as [w|]; [|done].
  unfold on_disk. cbn [set_target WriteTarget.disk].
  assert (forall t d, (abort_target t d).1 = Ok tt) as Ha.
  { intros [f|b] d; [|done]. unfold abort_target, abort_file. destruct (fallible "remove" d) as [[u|e] d2]; done. }
  destruct w as [t|e t]; cbn [sink_abort].
  - specialize (Ha t (WriteTarget.disk k)). destruct (abort_target t _). by cbn in *.
  - unfold mbind, stateR_bind, catch. destruct (encoder_finish e t (WriteTarget.disk k)) as [[t'|e'] d'].
    + specialize (Ha t' d'). destruct (abort_target t' d'). by cbn in *.
    + specialize (Ha (Buffer []) d'). destruct (abort_target _ d'). by cbn in *.
Qed.

(** Compressed or not, the file is behind the sink. *)
Lemma sink_target_of k t w :
  match k with NoCompression => Ok (Plain t) | Gzip => compressed t Gzip | Zstd => compressed t Zstd end = Ok w -> target_of (Enc := Enc) w = t.
Proof. destruct k; cbn; [by intros [= <-]..|]. destruct zstd_encoder; [by intros [= <-]|done]. Qed.

(** A run whose flag is up at once aborts and reports so. *)
Lemma cancelled_at_once ctx source w d :
  (forall n, cancel_flag ctx n = true) ->
  exists rep p d2, dump_to (Enc := Enc) DumpBson ctx source w d = (Ok (rep, p), d2) /\
    Pipeline.cancelled rep = true /\ rp_errors rep = 0%N.
Proof.
  intros Hc. unfold dump_to, run_cursor, run_pipeline. cbn [start bson_sink mret stateR_ret pump]. rewrite Hc.
  unfold conclude. rewrite Hc. unfold mbind, stateR_bind. cbn [abort bson_sink].
  pose proof (abort_sink_ok {| target := Some w; output_slot := None; extra := tt; WriteTarget.disk := d |}) as Ha.
  destruct (abort_sink _) as [r k]. cbn in Ha. subst r. cbn. by eexists _, _, _.
Qed.

(** When the cancel flag is raised while the last collection is dumped, the report says that
    the dump was not cancelled, has no errors and lists the file, and the job is done; but the
    file was not written: what was at its path before is still there.  The flag is only read
    between collections, and the report of the pipeline is not looked at. *)
Theorem late_cancel_reported_done request s res s' coll dest entry :
  format request = DumpBson -> cancel run 0 0 = false -> (forall n, cancel run 0 (S n) = true) ->
  client (connection_id request) = Ok entry -> collections_to_dump request (db s) = Ok [coll] ->
  validate_target_path (destination_dir request) = Ok dest ->
  NoDup (map JobStore.job_id (JobStore.jobs (Transfer.jobs s))) ->
  run_dump (Enc := Enc) client request_json run request s = (Ok res, s') ->
  let path := path_of request (client_name entry) dest coll in
  Dump.cancelled res = false /\ errors res = 0%N /\ dumped_files res = [path] /\
  WriteTarget.files (disk s') !! path = WriteTarget.files (disk s) !! path /\
  job_ended (job_id request) JobStore.Done s'.
Proof.
  intros Hfmt Hc0 Hc Hcl Hcolls Hdest Hnd Hrun path. pose proof (dump_job_ended _ _ _ _ Hnd Hrun) as Hj.
  apply run_dump_steps in Hrun as (entry' & colls' & dest' & t & s1 & s2 & msg & H1 & H2 & H3 & Hdb & Hfiles & _ & Ht & -> & ->).
  rewrite Hcl in H1. injection H1 as <-. rewrite Hcolls in H2. injection H2 as <-. rewrite Hdest in H3. injection H3 as <-.
  cbn [dump_collections] in Ht. unfold Dump.dump_collections in Ht. rewrite Hc0 in Ht.
  apply stateR_bind_Ok in Ht as (t1 & s3 & H & [= <- <-]). unfold Dump.dump_collection in H.
  apply stateR_bind_Ok in H as (s0 & s4 & [= <- <-] & H). apply stateR_bind_Ok in H as (l & s4 & Hl & H). injection Hl as Hl <-.
  rewrite fold_path in H. fold path in H. rewrite Hfmt in H.
  apply stateR_bind_Ok in H as (f & s4 & Hcr & H). unfold in_disk in Hcr.
  destruct (create path (disk s1)) as [r1 d1] eqn:Hcreate. injection Hcr as -> <-.
  apply stateR_bind_Ok in H as (w & s4 & Hw & H). injection Hw as Hw <-.
  apply stateR_bind_Ok in H as (report & s5 & Hrep & H). unfold catch, in_disk in Hrep. cbn [with_disk disk] in Hrep.
  set (ctx := job_context run (job_id request) 0) in *. set (n := match estimated_count coll (db s1) with Ok _ => _ | Err _ => _ end) in *.
  destruct (cancelled_at_once ctx {| cursor := l; total_count := n |} w d1 Hc) as (rep & p & d2 & Hto & Hrc & Hre).
  rewrite Hto in Hrep. injection Hrep as <- <-.
  apply sink_target_of in Hw. pose proof (dump_to_settled _ _ _ _ _ _ _ w _ _ Hcreate Hw Hto) as [_ Ho].
  destruct (create_only_part _ _ _ _ Hcreate) as [-> _]. cbn in Ho. rewrite Hrc in Ho. cbn in Ho.
  apply stateR_bind_Ok in H as ([] & s6 & [= <-] & [= <- <-]). cbn in *. rewrite Hre in *. cbn in *.
  do 3 (split; [done|]). split; [by rewrite Ho, Hfiles|exact Hj].
Qed.
End dump_spec.
