(* ===== verification/Restore.v ===== *)
(** * Restores of a dump (src-tauri/src/commands/restore.rs)

    The BSON files of a directory, each into a collection, under one of three strategies
    for what is there already.  [preview_archive] only reads a directory and is left out. *)

From stdpp Require Import pretty.
From S2P Require Import Prelude.
From S2P Require Import Bytes.
From S2P Require Import AppError.
From S2P Require Import BsonJson.
From S2P Require Import Pipeline.
From S2P Require Import WriteTarget.
From S2P Require Import BsonFormat.
From S2P Require Import CollectionSink.
From S2P Require JobStore.
From S2P Require Timeline.
From S2P Require Import Transfer.
Local Open Scope string_scope.
Local Open Scope list_scope.

Inductive ConflictStrategy := OnConflictDrop | OnConflictSkip | OnConflictUpsert.

Record CollectionMapping := { source : string; target : string; enabled : bool }.

Record RestoreRequest := {
  connection_id : string;
  source_dir : string;
  target_database : string;
  create_database : bool;
  collection_map : list CollectionMapping;
  conflict_strategy : ConflictStrategy;
  job_id : string;
}.

Record RestoreResult := {
  res_job_id : string;
  processed : N;
  inserted_docs : Z;
  errors : N;
  cancelled : bool;
}.

(** The bytes that a decoder reads out of a file before its end. *)
Class Decoder := { decoded : CompressionKind -> list byte -> list byte }.

Record Totals := {
  total_processed : N;
  total_inserted : Z;
  total_errors : N;
  was_cancelled : bool;
  entries : list Timeline.TimelineEntry;
}.
Definition no_totals : Totals :=
  {| total_processed := 0; total_inserted := 0; total_errors := 0; was_cancelled := false; entries := [] |}.

Section restore.
Context {Db : Type} {DA : Database Db} {BB : BsonBytes} {DE : Decoder} {PA : Paths}.
Context {JJ : JobStore.JobJson} {EJ : Timeline.EntryJson}.
Context (client : string -> result AppError ClientEntry) (run : Run).
Abbreviation st := (AppState Db).

(** The plain file before the compressed ones. *)
Definition find_source (dir name : string) (d : Disk) : option (string * CompressionKind) :=
  let base := path_join dir (name +:+ ".bson") in
  let gz := path_join dir (name +:+ ".bson.gz") in
  let zst := path_join dir (name +:+ ".bson.zst") in
  let is_file p := bool_decide (is_Some (WriteTarget.files d !! p)) in
  if is_file base then Some (base, NoCompression)
  else if is_file gz then Some (gz, Gzip)
  else if is_file zst then Some (zst, Zstd)
  else None.

(** [BsonSource::from_path]; a zstd file is opened twice. *)
Definition open_bson (path : string) (k : CompressionKind) : stateR Disk AppError BsonSource :=
  _ ← fallible "open";
  _ ← match k with Zstd => fallible "open" | _ => mret tt end;
  d ← get_state;
  match WriteTarget.files d !! path with
  | Some c => mret {| unread := match k with NoCompression => c | k => decoded k c end |}
  | None => throw (Io "open")
  end.

(** Every document takes a byte at least, so the bytes are enough fuel. *)
Definition restore_from (ctx : JobContext) (name : string) (m : InsertMode) (source_ : BsonSource) (d : Db) :
    result AppError (JobReport * Progress) * CollectionSink Db :=
  let _ := collection_of name in
  let k := new_collection_sink d 1000 0 m in
  match run_pipeline ctx [] (S (length (unread source_))) source_ k with
  | Some (r, _, k) => (r, k)
  | None => (Err (Internal "fuel"), k)
  end.

Definition mode_of (s : ConflictStrategy) : InsertMode :=
  match s with OnConflictUpsert => Upsert | _ => Insert end.

(** Whether the collection is to be restored. *)
Definition prepare (strategy : ConflictStrategy) (name : string) : stateR st AppError bool :=
  match strategy with
  | OnConflictDrop => _ ← catch (in_db (drop_collection name)); mret true
  | OnConflictSkip =>
    s ← get_state;
    count ← liftR (estimated_count name (db s));
    mret (negb (0 <? count)%N)
  | OnConflictUpsert => mret true
  end.

Definition restore_entry (request : RestoreRequest) (entry : ClientEntry) (i : nat) (name : string) : Timeline.TimelineEntry :=
  Timeline.with_executed_at (now run)
    (Timeline.with_execution_ms (elapsed run i)
      (Timeline.with_actor "local-user"
        (Timeline.with_collection name
          (Timeline.with_database (target_database request)
            (Timeline.with_connection_id (connection_id request)
              (Timeline.builder (now run) (uuid run i) (profile_id entry) Timeline.Restore)))))).

Definition log (f : string -> string -> string -> JobStore.JobStore -> JobStore.JobStore) (request : RestoreRequest)
    (msg : string) : stateR st AppError unit :=
  modify (with_jobs (f (now run) (job_id request) msg)).

Definition restore_file (request : RestoreRequest) (entry : ClientEntry) (i : nat) (name path : string)
    (k : CompressionKind) (t : Totals) : stateR st AppError Totals :=
  source_ ← in_disk (open_bson path k);
  s ← get_state;
  let '(report, sink) := restore_from (job_context run (job_id request) i) name (mode_of (conflict_strategy request))
                           source_ (db s) in
  _ ← modify (with_db (server sink));
  match report with
  | Ok (r, _) =>
    _ ← log JobStore.log_info request ("Restored " +:+ name +:+ ": " +:+ pretty (rp_processed r) +:+ " docs");
    mret {| total_processed := total_processed t + rp_processed r; total_inserted := total_inserted t + inserted sink;
            total_errors := total_errors t + rp_errors r; was_cancelled := was_cancelled t;
            entries := entries t ++ [Timeline.with_inserted_count (Z.to_N (inserted sink)) (restore_entry request entry i name)] |}
  | Err e =>
    let msg := "Failed to restore " +:+ name +:+ ": " +:+ display e in
    _ ← log JobStore.log_error request msg;
    mret {| total_processed := total_processed t; total_inserted := total_inserted t;
            total_errors := total_errors t + 1; was_cancelled := was_cancelled t;
            entries := entries t ++ [Timeline.with_error_message (Some msg)
                                       (Timeline.with_errored true (restore_entry request entry i name))] |}
  end.

Definition restore_collection (request : RestoreRequest) (entry : ClientEntry) (dir : string) (i : nat)
    (m : CollectionMapping) (t : Totals) : stateR st AppError Totals :=
  s ← get_state;
  match find_source dir (source m) (disk s) with
  | None =>
    _ ← log JobStore.log_warn request ("Source file not found: " +:+ path_join dir (source m +:+ ".bson"));
    mret t
  | Some (path, k) =>
    b ← prepare (conflict_strategy request) (target m);
    if b : bool then restore_file request entry i (target m) path k t
    else _ ← log JobStore.log_info request ("Skipping " +:+ target m +:+ ": already exists"); mret t
  end.

Definition stop (t : Totals) : Totals :=
  {| total_processed := total_processed t; total_inserted := total_inserted t; total_errors := total_errors t;
     was_cancelled := true; entries := entries t |}.

(** Disabled mappings are passed over before the flag is read. *)
Fixpoint restore_collections (request : RestoreRequest) (entry : ClientEntry) (dir : string) (i : nat)
    (ms : list CollectionMapping) (t : Totals) : stateR st AppError Totals :=
  match ms with
  | [] => mret t
  | m :: ms =>
    if negb (enabled m) then restore_collections request entry dir (S i) ms t
    else if cancel run i 0 then mret (stop t)
    else t ← restore_collection request entry dir i m t;
         restore_collections request entry dir (S i) ms t
  end.

Definition restore_meta (request : RestoreRequest) (entry : ClientEntry) : JobStore.JobMeta :=
  let m := JobStore.new_meta (now run) (job_id request) JobStore.Restore (connection_id request) (target_database request) in
  JobStore.Build_JobMeta (JobStore.job_id m) (JobStore.kind m) (JobStore.status m) (JobStore.connection_id m)
    (profile_id entry) (JobStore.database m) (map target (List.filter enabled (collection_map request)))
    (JobStore.created_at m) (JobStore.started_at m) (JobStore.finished_at m) (JobStore.output_path m)
    (Some (source_dir request)) (JobStore.schedule m) (JobStore.parent_job_id m) (JobStore.processed m)
    (JobStore.total m) (JobStore.errors m) (JobStore.message m) (JobStore.config_json m).

Definition restore_database (request : RestoreRequest) : stateR st AppError RestoreResult :=
  entry ← liftR (client (connection_id request));
  dir ← liftR (validate_source_dir (source_dir request));
  _ ← modify (with_jobs (begin_job (now run) (restore_meta request entry) "Restore started"));
  t ← restore_collections request entry dir 0 (collection_map request) no_totals;
  let msg := "Restored " +:+ pretty (total_inserted t) +:+ " documents into " +:+
             pretty (N.of_nat (length (collection_map request))) +:+ " collections" in
  _ ← modify (end_job (now run) (job_id request) (entries t) (end_status (was_cancelled t) (total_errors t)) msg);
  mret {| res_job_id := job_id request; processed := total_processed t; inserted_docs := total_inserted t;
          errors := total_errors t; cancelled := was_cancelled t |}.
End restore.
