(* ===== verification/RestoreSpec.v ===== *)
(** * What a restore promises

    Restoring the directory of a dump gives the collections of the dump back, except that a
    collection that cannot be dropped keeps its documents before them. *)

From stdpp Require Import pretty.
From S2P Require Import Prelude.
From S2P Require Import Bytes.
From S2P Require Import Text.
From S2P Require Import AppError.
From S2P Require Import Json.
From S2P Require Import BsonJson.
From S2P Require Import Pipeline.
From S2P Require Import PipelineSpec.
From S2P Require Import WriteTarget.
From S2P Require Import ExportSpec.
From S2P Require Import JsonFormat.
From S2P Require Import BsonFormat.
From S2P Require Import BsonFormatSpec.
From S2P Require Import CollectionSink.
From S2P Require JobStore.
From S2P Require Timeline.
From S2P Require Import Transfer.
From S2P Require Import Dump.
From S2P Require Import DumpSpec.
From S2P Require Import Restore.

(** What MongoDB documents of the commands of a restore: each concerns one collection. *)
Class DatabaseLaws {Db} (DA : Database Db) := {
  docs_of : string -> Db -> list Doc;
  db_insert_prefix name docs d r d' : db_insert_many name docs d = (r, d') ->
    exists sent added, docs_of name d' = docs_of name d ++ added /\ Forall2 stored sent added /\
      sent `prefix_of` docs /\ (is_ok r = true -> sent = docs);
  db_insert_others name docs d r d' other : db_insert_many name docs d = (r, d') -> other <> name ->
    docs_of other d' = docs_of other d;
  drop_empties name d d' : drop_collection name d = (Ok tt, d') -> docs_of name d' = [];
  (** an error may come before the drop or after it *)
  drop_fails name d e d' : drop_collection name d = (Err e, d') -> docs_of name d' = docs_of name d \/ docs_of name d' = [];
  drop_others name d r d' other : drop_collection name d = (r, d') -> other <> name -> docs_of other d' = docs_of other d;
}.

Section restore_spec.
Context {Db : Type} {DA : Database Db} {DL : DatabaseLaws DA} {BB : BsonBytes} {DE : Decoder} {PA : Paths}.
Context {JJ : JobStore.JobJson} {EJ : Timeline.EntryJson}.
Context (client : string -> result AppError ClientEntry) (run : Run).

#[export] Instance collection_laws name : InsertLaws (collection_of (Db := Db) name).
Proof. refine {| content := docs_of name |}. exact (db_insert_prefix name). Defined.

(** ** One collection *)

(** The other collections are as before. *)
Definition only_collection (name : string) (k k' : CollectionSink Db) : Prop :=
  mode k = Insert -> mode k' = Insert /\ forall other, other <> name -> docs_of other (server k') = docs_of other (server k).
#[export] Instance only_collection_pre name : PreOrder (only_collection name).
Proof.
  split; [by intros k Hm|]. intros k1 k2 k3 H1 H2 Hm. destruct (H1 Hm) as [Hm2 H3]. destruct (H2 Hm2) as [Hm3 H4].
  split; [done|]. intros other Ho. by rewrite H4, H3.
Qed.

Lemma flush_only_collection name : keeps (only_collection name) (flush (CO := collection_of name)).
Proof.
  intros k Hm. unfold flush, get_state, modify, mbind, stateR_bind. destruct (batch k) as [|d b]; [done|].
  rewrite Hm. unfold on_server. cbn [server set_batch]. cbn [insert_many collection_of].
  destruct (db_insert_many name (d :: b) (server k)) as [[[]|e] srv] eqn:Hr; cbn; (split; [done|]);
    intros other Ho; by apply (db_insert_others _ _ _ _ _ _ Hr).
Qed.

Lemma write_only_collection name doc : keeps (only_collection name) (collection_write (CO := collection_of name) doc).
Proof.
  apply keeps_bind; [apply _|apply keeps_modify; by intros k Hm|intros _].
  apply keeps_bind; [apply _|by intros k|intros k]. destruct (bool_decide _); [apply flush_only_collection|apply keeps_ret, _].
Qed.

Lemma after_writes_only_collection name k k' :
  after_writes (DK := collection_sink (CO := collection_of name)) k k' -> only_collection name k k'.
Proof.
  induction 1 as [|doc k r k1 k2 Hw _ IH]; [done|]. etrans; [|exact IH].
  pose proof (write_only_collection name doc k) as H. cbn in Hw. by rewrite Hw in H.
Qed.

Lemma restore_from_run ctx name m src d r k :
  restore_from ctx name m src d = (r, k) ->
  exists s', run_pipeline (DK := collection_sink (CO := collection_of name)) ctx [] (S (length (unread src))) src
               (new_collection_sink d 1000 0 m) = Some (r, s', k).
Proof.
  unfold restore_from.
  destruct (run_pipeline_ends_some (DK := collection_sink (CO := collection_of name)) ctx [] (fun s => length (unread s))
    (S (length (unread src))) src (new_collection_sink d 1000 0 m)) as [[[r1 s1] k1] Hr]; [apply bson_shrinks|lia|].
  rewrite Hr. intros [= <- <-]. by exists s1.
Qed.

Lemma restore_from_inserts ctx name c docs d r k :
  (forall i, cancel_flag ctx i = false) ->
  delivers {| unread := c |} (map RowDoc docs) None {| unread := [] |} ->
  restore_from ctx name Insert {| unread := c |} d = (r, k) ->
  (forall other, other <> name -> docs_of other (server k) = docs_of other d) /\
  (is_ok r = true -> exists added, docs_of name (server k) = docs_of name d ++ added /\ Forall2 stored docs added).
Proof.
  intros Hc Hd [s' Hr]%restore_from_run. split.
  - apply run_pipeline_ends in Hr as [(e & [=] & _)|(k0 & k1 & [= <-] & Hw & Hend)].
    destruct (after_writes_only_collection name _ _ Hw eq_refl) as [Hm1 Ho1].
    intros other Ho. etrans; [|exact (Ho1 other Ho)]. destruct (flush_only_collection name k1 Hm1) as [_ Hf].
    assert (forall e, @abort _ (collection_sink (CO := collection_of name)) k1 = (e, k) -> docs_of other (server k) = docs_of other (server k1)) as Hab by by intros e [= _ <-].
    assert (forall e, flush (CO := collection_of name) k1 = (e, k) -> docs_of other (server k) = docs_of other (server k1)) as Hfl.
    { intros e He. rewrite He in Hf. by apply Hf. }
    destruct r as [[rep p]|e]; [destruct (Pipeline.cancelled rep); destruct Hend as [u Hu]|destruct Hend as [[r1 Hu]|Hu]]; by eauto.
  - intros Hok. destruct r as [[rep p]|]; [|done].
    assert (Pipeline.cancelled rep = false) as Hrc by exact (run_not_cancelled (DK := collection_sink (CO := collection_of name)) _ _ _ _ _ _ _ _ _ Hc Hr).
    assert (forall i j, (i <= j)%nat -> cancel_flag ctx i = true -> cancel_flag ctx j = true) as Hmono by (intros i j _; by rewrite Hc).
    pose proof (import_parts (CO := collection_of name) (IL := collection_laws name) ctx [] _ _ _ _ _ d 1000 0 _ _ _ Hmono Hd
      ltac:(lia) Hr) as [_ Hdone].
    destruct Hdone as [Hi Hb]; [cbn; by rewrite Hrc|]. destruct (imported_all _ _ _ Hi Hb) as (added & Hall & Hst & _).
    rewrite omap_written in Hst. by exists added.
Qed.

(** The server can refuse to drop the collection. *)
Definition drop_may_fail (name : string) : Prop := exists d e d', drop_collection (Db := Db) name d = (Err e, d').

(** The documents take the place of the old ones, which only a failed drop leaves there. *)
Definition replaced (name : string) (old new docs : list Doc) : Prop :=
  new = docs \/ drop_may_fail name /\ new = old ++ docs.

Lemma drop_left name d r d' :
  drop_collection name d = (r, d') -> docs_of name d' = [] \/ drop_may_fail name /\ docs_of name d' = docs_of name d.
Proof.
  intros H. destruct r as [[]|e]; [left; by apply (drop_empties _ _ _ H)|].
  destruct (drop_fails _ _ _ _ H) as [Hd|Hd]; [right|by left]. split; [by exists d, e, d'|done].
Qed.

(** What a collection adds to the totals, the disk and the database. *)
Record restored (m : CollectionMapping) (docs : list Doc) (t t' : Totals) (s s' : AppState Db) : Prop := {
  restored_files : WriteTarget.files (disk s') = WriteTarget.files (disk s);
  restored_others other : other <> target m -> docs_of other (db s') = docs_of other (db s);
  restored_flag : was_cancelled t' = was_cancelled t;
  restored_errors : (total_errors t <= total_errors t')%N;
  restored_docs : total_errors t' = total_errors t ->
    replaced (target m) (docs_of (target m) (db s)) (docs_of (target m) (db s')) docs;
}.

Lemma open_bson_plain path c d r d' :
  WriteTarget.files d !! path = Some c -> open_bson path NoCompression d = (r, d') ->
  WriteTarget.files d' = WriteTarget.files d /\ forall src, r = Ok src -> src = {| unread := c |}.
Proof.
  intros Hc. unfold open_bson, mbind, stateR_bind, get_state, mret, stateR_ret.
  pose proof (fallible_files "open" d) as Hf. destruct (fallible "open" d) as [[u|e] d1]; cbn in Hf.
  - rewrite Hf, Hc. intros [= <- <-]. split; [done|]. by intros src [= <-].
  - by intros [= <- <-].
Qed.

Lemma restore_collection_restored request entry dir i m docs t t' s s' :
  conflict_strategy request = OnConflictDrop -> (forall i n, cancel run i n = false) ->
  file_holds (disk s) (path_join dir (source m +:+ ".bson")) docs -> Forall id_first docs ->
  restore_collection run request entry dir i m t s = (Ok t', s') -> restored m docs t t' s s'.
Proof.
  intros Hdrop Hc (c & Hfile & Hread) Hids H. unfold restore_collection in H.
  apply stateR_bind_Ok in H as (s0 & s1 & [= <- <-] & H). unfold find_source in H.
  rewrite bool_decide_eq_true_2 in H by (rewrite Hfile; by eexists). rewrite Hdrop in H.
  apply stateR_bind_Ok in H as (b & s1 & Hb & H). apply stateR_bind_Ok in Hb as (u & s2 & Hd & [= <- <-]).
  unfold catch, in_db in Hd. destruct (drop_collection (target m) (db s)) as [rd d1] eqn:Hd1. injection Hd as _ <-.
  unfold restore_file in H. rewrite Hdrop in H. cbn [mode_of] in H.
  apply stateR_bind_Ok in H as (src & s3 & Hsrc & H). unfold in_disk in Hsrc. cbn [with_db disk] in Hsrc.
  destruct (open_bson _ NoCompression (disk s)) as [r1 dk] eqn:Hopen. injection Hsrc as -> <-.
  destruct (open_bson_plain _ c _ _ _ Hfile Hopen) as [Hdk Hs]. rewrite (Hs src eq_refl) in H.
  apply stateR_bind_Ok in H as (s4 & s5 & [= <- <-] & H). cbn [with_disk with_db db] in H.
  destruct (restore_from _ (target m) Insert _ d1) as [report k] eqn:Hfrom.
  apply (restore_from_inserts _ _ _ docs) in Hfrom as [Ho Hin]; [|intros j; apply Hc|done].
  apply stateR_bind_Ok in H as ([] & s6 & [= <-] & H).
  assert (forall other, other <> target m -> docs_of other (server k) = docs_of other (db s)) as Hoth.
  { intros other Hne. rewrite Ho by done. by apply (drop_others _ _ _ _ _ Hd1). }
  destruct report as [[rep p]|e]; apply stateR_bind_Ok in H as ([] & s7 & [= <-] & [= <- <-]); cbn.
  - split; cbn; [done|done|done|lia|]. intros _. destruct (Hin eq_refl) as (added & -> & ->%stored_all); [|done].
    destruct (drop_left _ _ _ _ Hd1) as [->|[Hf ->]]; [by left|by right].
  - split; cbn; [done|done|done|lia|lia].
Qed.

(** ** All collections *)

Lemma restore_collections_done request entry dir i ms dss t t' s s' old :
  conflict_strategy request = OnConflictDrop -> (forall i n, cancel run i n = false) ->
  Forall (fun m => enabled m = true) ms -> NoDup (map target ms) ->
  Forall2 (fun m docs => file_holds (disk s) (path_join dir (source m +:+ ".bson")) docs) ms dss ->
  Forall (Forall id_first) dss -> (forall m, m ∈ ms -> docs_of (target m) (db s) = old (target m)) ->
  restore_collections run request entry dir i ms t s = (Ok t', s') ->
  was_cancelled t' = was_cancelled t /\ (total_errors t <= total_errors t')%N /\
  (forall other, other ∉ map target ms -> docs_of other (db s') = docs_of other (db s)) /\
  (total_errors t' = total_errors t ->
     Forall2 (fun m docs => replaced (target m) (old (target m)) (docs_of (target m) (db s')) docs) ms dss).
Proof.
  intros Hdrop Hc. revert i t s dss. induction ms as [|m ms IH]; intros i t s dss Hen Hnd Hf Hids Hold H; cbn in H.
  { apply Forall2_nil_inv_l in Hf as ->. injection H as <- <-. split_and!; [done|lia|done|by constructor]. }
  apply Forall2_cons_inv_l in Hf as (docs & dss' & Hd & Hf & ->). apply Forall_cons in Hen as [He Hen], Hids as [Hid Hids].
  cbn [map] in Hnd. apply NoDup_cons in Hnd as [Hm Hnd]. rewrite He, Hc in H. cbn [negb] in H.
  apply stateR_bind_Ok in H as (t1 & s1 & H1 & H).
  apply (restore_collection_restored _ _ _ _ _ docs) in H1; [|done..].
  destruct (IH (S i) t1 s1 dss' Hen Hnd) as (Hw & Hle & Ho & Hall); [|done| |exact H|].
  { eapply Forall2_impl; [exact Hf|]. intros m' docs' (c & Hc1 & Hc2). exists c. by rewrite (restored_files _ _ _ _ _ _ H1). }
  { intros m' Hm'. rewrite (restored_others _ _ _ _ _ _ H1); [apply Hold; by right|].
    intros Heq. apply Hm. rewrite <-Heq. by apply list_elem_of_fmap_2. }
  split; [by rewrite Hw, (restored_flag _ _ _ _ _ _ H1)|]. pose proof (restored_errors _ _ _ _ _ _ H1) as Hle1.
  split; [lia|]. split.
  - intros other Hother. cbn [map] in Hother. apply not_elem_of_cons in Hother as [H2 H3].
    rewrite Ho by done. by apply (restored_others _ _ _ _ _ _ H1).
  - intros Heq. constructor; [|apply Hall; lia]. rewrite Ho, <-Hold by (done || by left).
    apply (restored_docs _ _ _ _ _ _ H1). lia.
Qed.

(** ** The command *)

Lemma restore_steps request s res s' :
  restore_database client run request s = (Ok res, s') ->
  exists entry dir t s1 s2 msg,
    validate_source_dir (source_dir request) = Ok dir /\
    db s1 = db s /\ disk s1 = disk s /\
    Transfer.jobs s1 = begin_job (now run) (restore_meta run request entry) "Restore started" (Transfer.jobs s) /\
    restore_collections run request entry dir 0 (collection_map request) no_totals s1 = (Ok t, s2) /\
    s' = end_job (now run) (job_id request) (entries t) (end_status (was_cancelled t) (total_errors t)) msg s2 /\
    res = {| res_job_id := job_id request; processed := total_processed t; inserted_docs := total_inserted t;
             errors := total_errors t; cancelled := was_cancelled t |}.
Proof.
  unfold restore_database. intros (entry & s0 & He & H)%stateR_bind_Ok. injection He as He <-.
  apply stateR_bind_Ok in H as (dir & s0 & Hdir & H). injection Hdir as Hdir <-.
  apply stateR_bind_Ok in H as ([] & s1 & [= <-] & H). apply stateR_bind_Ok in H as (t & s2 & Ht & H).
  apply stateR_bind_Ok in H as ([] & s3 & [= <-] & [= <- <-]).
  exists entry, dir, t, (with_jobs (begin_job (now run) (restore_meta run request entry) "Restore started") s), s2.
  eexists. do 4 (split; [done|]). by split; [exact Ht|].
Qed.

(** Restoring files that hold documents, with the drop strategy. *)
Lemma restore_done request s res s' dir dss :
  conflict_strategy request = OnConflictDrop -> (forall i n, cancel run i n = false) ->
  validate_source_dir (source_dir request) = Ok dir ->
  Forall (fun m => enabled m = true) (collection_map request) -> NoDup (map target (collection_map request)) ->
  Forall2 (fun m docs => file_holds (disk s) (path_join dir (source m +:+ ".bson")) docs) (collection_map request) dss ->
  Forall (Forall id_first) dss ->
  restore_database client run request s = (Ok res, s') -> errors res = 0%N ->
  Forall2 (fun m docs => replaced (target m) (docs_of (target m) (db s)) (docs_of (target m) (db s')) docs)
    (collection_map request) dss /\
  forall other, other ∉ map target (collection_map request) -> docs_of other (db s') = docs_of other (db s).
Proof.
  intros Hdrop Hc Hdir Hen Hnd Hf Hids Hrun Herr.
  apply restore_steps in Hrun as (entry & dir' & t & s1 & s2 & msg & Hdir' & Hdb & Hdisk & _ & Ht & -> & ->).
  rewrite Hdir in Hdir'. injection Hdir' as <-. cbn in Herr.
  apply (restore_collections_done _ _ _ _ _ dss _ _ _ _ (fun name => docs_of name (db s))) in Ht as (_ & _ & Ho & Hall);
    [|try done..].
  - split; [by apply Hall|]. intros other Hother. etrans; [by apply Ho|]. by rewrite Hdb.
  - by rewrite Hdisk.
  - intros m _. by rewrite Hdb.
Qed.

(** A restore that cannot open a file ends with the error at once: the collection has
    been dropped before, and nobody ends the job, which stays running and registered. *)
Theorem failed_open_strands_job request s dir m entry c fs d1 :
  conflict_strategy request = OnConflictDrop -> cancel run 0 0 = false ->
  client (connection_id request) = Ok entry -> validate_source_dir (source_dir request) = Ok dir ->
  collection_map request = [m] -> enabled m = true ->
  WriteTarget.files (disk s) !! path_join dir (source m +:+ ".bson") = Some c -> faults (disk s) = true :: fs ->
  drop_collection (target m) (db s) = (Ok tt, d1) ->
  NoDup (map JobStore.job_id (JobStore.jobs (Transfer.jobs s))) ->
  let '(r, s') := restore_database client run request s in
  r = Err (Io "open") /\ docs_of (target m) (db s') = [] /\
  (exists j, JobStore.get (job_id request) (Transfer.jobs s') = Some j /\ JobStore.status j = JobStore.Running) /\
  is_Some (JobStore.active (Transfer.jobs s') !! job_id request).
Proof.
  intros Hdrop Hc Hcl Hdir Hmap Hen Hfile Hfault Hd1 Hnd. unfold restore_database. rewrite Hcl, Hdir, Hmap.
  cbn [restore_collections]. rewrite Hen, Hc. unfold restore_collection. unfold mbind, stateR_bind, liftR, get_state, modify.
  cbn [negb with_jobs disk db]. unfold find_source. rewrite bool_decide_eq_true_2 by (rewrite Hfile; by eexists).
  rewrite Hdrop. unfold prepare, catch, in_db, mbind, stateR_bind, mret, stateR_ret. cbn [with_jobs db].
  rewrite Hd1. unfold restore_file, in_disk, open_bson, fallible.
  unfold mbind, stateR_bind. cbn [with_db with_jobs disk]. rewrite Hfault. cbn.
  split; [done|]. split; [by apply (drop_empties _ _ _ Hd1)|]. by apply (begin_job_running (now run) (restore_meta run request entry)).
Qed.
End restore_spec.

(** ** Dump, then restore *)

Lemma plain_path run request pn dest coll :
  trim (path_template request) = ""%string -> format request = DumpBson -> compression request = NoCompression ->
  path_of run request pn dest coll = path_join dest (coll +:+ ".bson").
Proof.
  intros Ht Hf Hc. unfold path_of, resolve_dump_path. rewrite Ht, Hf, Hc. by rewrite bool_decide_eq_true_2.
Qed.

Section round_trip.
Context {Db1 Db2 Enc : Type} {DA1 : Database Db1} {DA2 : Database Db2} {DL : DatabaseLaws DA2} {EN : Encoder Enc}.
Context {BC : BsonConvert} {JB : JsonBytes} {BB : BsonBytes} {DE : Decoder} {PA : Paths}.
Context {JJ : JobStore.JobJson} {EJ : Timeline.EntryJson}.

(** C24: Dump and restore are inverse: a BSON dump without errors, neither compressed nor under a
    template of its own, into files that are apart, of documents that begin with their [_id]
    as collections store them, restored without errors from the unchanged directory under
    the drop strategy into distinct collections, neither run being cancelled, leaves in every
    target collection exactly the documents of its source, in order, whatever was there
    before, and touches no other collection.  The one exception is a target that the server
    fails to drop, which the restore does not notice: the documents then follow those that
    were there.  The two runs may be on different servers. *)
Theorem dump_restore_round_trip client1 client2 json run1 run2 dreq rreq (s1 s2 : AppState Db1) (s3 s4 : AppState Db2)
    dres rres colls dss dir entry :
  format dreq = DumpBson -> compression dreq = NoCompression -> trim (path_template dreq) = ""%string ->
  (forall i n, cancel run1 i n = false) -> (forall i n, cancel run2 i n = false) ->
  client1 (Dump.connection_id dreq) = Ok entry -> collections_to_dump dreq (db s1) = Ok colls ->
  validate_target_path (destination_dir dreq) = Ok dir -> Forall2 (collection_docs (db s1)) colls dss ->
  apart (map (fun coll => path_join dir (coll +:+ ".bson")) colls) ->
  run_dump (Enc := Enc) client1 json run1 dreq s1 = (Ok dres, s2) -> Dump.errors dres = 0%N ->
  WriteTarget.files (disk s3) = WriteTarget.files (disk s2) ->
  conflict_strategy rreq = OnConflictDrop -> validate_source_dir (source_dir rreq) = Ok dir ->
  Forall (Forall id_first) dss ->
  map source (collection_map rreq) = colls -> Forall (fun m => enabled m = true) (collection_map rreq) ->
  NoDup (map target (collection_map rreq)) ->
  restore_database client2 run2 rreq s3 = (Ok rres, s4) -> errors rres = 0%N ->
  Forall2 (fun m docs => docs_of (target m) (db s4) = docs \/
             drop_may_fail (Db := Db2) (target m) /\
             docs_of (target m) (db s4) = docs_of (target m) (db s3) ++ docs) (collection_map rreq) dss /\
  forall other, other ∉ map target (collection_map rreq) -> docs_of other (db s4) = docs_of other (db s3).
Proof.
  intros Hfmt Hcomp Htpl Hc1 Hc2 Hcl Hcolls Hdest Hds Hap Hdump Hde Hfiles Hdrop Hdir Hids Hsrc Hen Hnd Hrest Hre.
  assert (forall coll, path_of run1 dreq (client_name entry) dir coll = path_join dir (coll +:+ ".bson")) as Hpath
    by (intros coll; by apply plain_path).
  destruct (dump_done client1 json run1 dreq s1 dres s2 colls dss dir entry) as [Hall _]; try done.
  { erewrite map_ext; [exact Hap|exact Hpath]. }
  eapply (restore_done client2 run2 rreq s3 rres s4 dir dss); try done.
  rewrite <-Hsrc in Hall. apply (proj1 (Forall2_fmap_l source _ _ _)) in Hall. eapply Forall2_impl; [exact Hall|].
  intros m docs (c & Hc & Hr). exists c. rewrite Hfiles, <-Hpath. by split.
Qed.
End round_trip.
