(* ===== verification/TransferExample.v ===== *)
(** * Concrete transfers

    A database of two documents, a toy BSON encoding and an encoder that changes nothing:
    the witnesses of the theorems on the pipeline, on exports and imports, and on dumps and
    restores. *)

From stdpp Require Import pretty.
From S2P Require Import Prelude.
From S2P Require Import Bytes.
From S2P Require Import Text.
From S2P Require Import AppError.
From S2P Require Import Fields.
From S2P Require Import Json.
From S2P Require Import OplogCanon.
From S2P Require Import BsonJson.
From S2P Require Import Pipeline.
From S2P Require Import PipelineSpec.
From S2P Require Import WriteTarget.
From S2P Require Import JsonFormat.
From S2P Require Import CsvFormat.
From S2P Require Import FieldMapping.
From S2P Require Import BsonFormat.
From S2P Require Import CollectionSink.
From S2P Require Import ExportSpec.
From S2P Require Import BsonFormatSpec.
From S2P Require JobStore.
From S2P Require SchedulerExample.
From S2P Require Timeline.
From S2P Require TimelineSpec.
From S2P Require Import Transfer.
From S2P Require Import Dump.
From S2P Require Import DumpSpec.
From S2P Require Import Restore.
From S2P Require Import RestoreSpec.
From S2P Require Import DesktopExample.
Local Open Scope string_scope.
Local Open Scope list_scope.

(** ** Libraries *)

(** Documents of one Boolean, in six bytes. *)
Definition flag (b : bool) : Doc := [("_id", Boolean b)].
Lemma flag_id_first b : id_first (flag b).
Proof. by exists (Boolean b), []. Qed.
Definition flag_bytes (b : bool) : list byte := [x06; x00; x00; x00; if b then x01 else x00; x00].
#[export] Instance toy_bson : BsonBytes :=
  {| bson_to_vec d := match d with
                      | [(_, Boolean b)] => Ok (flag_bytes b)
                      | _ => Err "unsupported"
                      end;
     bson_from_slice l := match l with
                          | [x06; x00; x00; x00; b; x00] => Ok (flag (bool_decide (b = x01)))
                          | _ => Err "malformed"
                          end |}.
Lemma flag_encodes b : encodes (flag b) (flag_bytes b).
Proof. split_and!; [done|by destruct b|done|done|done]. Qed.

#[export] Instance no_encoder : Encoder unit :=
  {| gzip_encoder := tt; zstd_encoder := Ok tt; encode l e := (l, e); encode_end _ := [] |}.
#[export] Instance no_decoder : Decoder := {| decoded _ l := l |}.
#[export] Instance toy_json_bytes : JsonBytes :=
  {| canonical_extjson := plain_extjson; json_to_vec _ := [x7b; x7d]; json_from_slice _ := Ok (JObject []) |}.
#[export] Instance toy_text : BsonText :=
  {| f64_display := pretty; oid_hex _ := ""; date_rfc3339 _ := None; decimal_display _ := "";
     json_to_string _ := ""; parse_rfc3339 _ := None; parse_oid _ := Err "bad"; integer_error _ := "bad" |}.
#[export] Instance home_only : Paths :=
  {| parent _ := Some "/home"; canonicalize p := Ok p; user_dirs := ["/home"]; path_starts_with a b := bool_decide (a = b);
     is_dir _ := true |}.

(** ** A database *)

Definition Db : Type := string -> list Doc.
Definition put_docs (name : string) (docs : list Doc) (d : Db) : Db := fun n => if bool_decide (n = name) then docs else d n.

(** A document as the server stores it, with its [_id] in front. *)
Fixpoint take_id (doc : Doc) : option (Bson * Doc) :=
  match doc with
  | [] => None
  | (k, v) :: doc =>
    if decide (k = "_id") then Some (v, doc)
    else match take_id doc with Some (id, rest) => Some (id, (k, v) :: rest) | None => None end
  end.
Definition store (doc : Doc) : Doc :=
  match take_id doc with Some (id, rest) => ("_id", id) :: rest | None => ("_id", Int32 0) :: doc end.

Lemma store_stored doc : stored doc (store doc).
Proof.
  assert (match take_id doc with
          | Some (id, rest) => exists l1 l2, get l1 "_id" = None /\ doc = l1 ++ ("_id", id) :: l2 /\ rest = l1 ++ l2
          | None => get doc "_id" = None
          end) as H.
  { induction doc as [|[k v] doc IH]; [done|]. cbn. destruct (decide (k = "_id")) as [->|Hk]; [by exists [], doc|].
    destruct (take_id doc) as [[id rest]|]; [|done]. destruct IH as (l1 & l2 & H1 & -> & ->).
    exists ((k, v) :: l1), l2. cbn. by rewrite decide_False. }
  unfold store. destruct (take_id doc) as [[id rest]|]; [|by constructor].
  destruct H as (l1 & l2 & H1 & -> & ->). by constructor.
Qed.

(** Nobody may drop the collection [locked]. *)
#[export] Instance toy_db : Database Db :=
  {| list_collection_names _ := Ok ["c"; "system.x"];
     find_all name d := Ok (map Ok (d name));
     estimated_count name d := Ok (N.of_nat (length (d name)));
     drop_collection name d :=
       if bool_decide (name = "locked") then (Err (Mongo "unauthorized"), d) else (Ok tt, put_docs name [] d);
     db_insert_many name docs d := (Ok tt, put_docs name (d name ++ map store docs) d);
     db_replace_upsert name _ doc d := (Ok tt, put_docs name [doc] d) |}.

Lemma put_docs_same name docs d : put_docs name docs d name = docs.
Proof. unfold put_docs. by rewrite bool_decide_eq_true_2. Qed.
Lemma put_docs_other name docs d other : other <> name -> put_docs name docs d other = d other.
Proof. intros. unfold put_docs. by rewrite bool_decide_eq_false_2. Qed.

#[export] Program Instance toy_laws : DatabaseLaws toy_db := {| docs_of name d := d name |}.
Next Obligation.
  cbn. intros name docs d r d' [= <- <-]. exists docs, (map store docs). rewrite put_docs_same. split_and!; [done| |done..].
  induction docs; constructor; [apply store_stored|done].
Qed.
Next Obligation. cbn. intros name docs d r d' other [= <- <-] Hne. by apply put_docs_other. Qed.
Next Obligation. cbn. intros name d d'. case_bool_decide; [done|]. intros [= <-]. apply put_docs_same. Qed.
Next Obligation. cbn. intros name d e d'. case_bool_decide; [|done]. intros [= _ <-]. by left. Qed.
Next Obligation.
  cbn. intros name d r d' other. case_bool_decide; intros [= <- <-] Hne; [done|by apply put_docs_other].
Qed.

Definition quiet : JobContext :=
  {| Pipeline.job_id := "j"; max_errors := 10; max_error_samples := 3; cancel_flag _ := false; throttle_over _ := false |}.
Definition empty_disk : Disk := {| WriteTarget.files := ∅; faults := [] |}.

Definition two : list Doc := [flag true; flag false].
Definition toy_server : Db := put_docs "c" two (fun _ => []).

(** ** The pipeline *)

Lemma two_delivered : delivers (new_vec_source two) (map RowDoc two) None {| docs := []; total_docs := 2 |}.
Proof. apply vec_delivers. Qed.

Definition importing : CollectionSink Db := new_collection_sink (fun _ => []) 1 0 Insert.
#[export] Instance into_c : Collection Db := collection_of "c".

(** The sink after the two documents; its batches have one document each. *)
Definition imported_two : CollectionSink Db := (for_each write two importing).2.

Lemma pipeline_writes_all_witness :
  exists p, run_pipeline quiet [] 3 (new_vec_source two) importing =
    Some (Ok ({| rp_job_id := "j"; rp_processed := 2; rp_errors := 0; Pipeline.cancelled := false; rp_row_errors := [] |}, p),
          {| docs := []; total_docs := 2 |}, imported_two).
Proof.
  apply (pipeline_writes_all quiet [] 3 (new_vec_source two) (map RowDoc two) {| docs := []; total_docs := 2 |}
           importing importing imported_two imported_two);
    [apply two_delivered|done|vm_compute; discriminate|cbn; lia|reflexivity|reflexivity|reflexivity].
Defined.

Lemma import_inserts_witness :
  exists sent added, (server imported_two) "c" = [] ++ added /\ Forall2 stored sent added /\ sent `prefix_of` two /\
    (inserted imported_two <= Z.of_nat (length added))%Z /\ (true = true -> sent = two /\ inserted imported_two = Z.of_nat (length added)).
Proof.
  refine (import_inserts (IL := collection_laws "c") quiet [] 3 (new_vec_source two) (map RowDoc two) None {| docs := []; total_docs := 2 |}
           (fun _ => []) 1 (Ok ({| rp_job_id := "j"; rp_processed := 2; rp_errors := 0; Pipeline.cancelled := false; rp_row_errors := [] |},
             emit quiet "done" (Some 2%N) "Completed" {| Pipeline.processed := 2; Pipeline.errors := 0; row_errors := []; events := [] |}))
           {| docs := []; total_docs := 2 |} imported_two _ _ _ _);
    [done|apply two_delivered|cbn; lia|reflexivity].
Defined.

(** ** An export *)

Definition exporting : SinkState unit unit :=
  {| WriteTarget.target := Some (Plain (File {| final_path := "/x"; part_path := "/x.part"; writer := true |})); output_slot := None; extra := tt;
     WriteTarget.disk := (create "/x" empty_disk).2 |}.
Definition exported := run_pipeline quiet [] 3 (new_vec_source two) exporting.
Definition exported_sink : SinkState unit unit := match exported with Some (_, _, k) => k | None => exporting end.

Lemma export_atomic_witness :
  settled {| final_path := "/x"; part_path := "/x.part"; writer := true |} true empty_disk (WriteTarget.disk exported_sink).
Proof.
  apply (export_atomic quiet [] 3 (new_vec_source two) "/x" empty_disk _ exporting
           (Plain (File {| final_path := "/x"; part_path := "/x.part"; writer := true |}))
           (match exported with Some (r, _, _) => r | None => Err (Internal "") end)
           {| docs := []; total_docs := 2 |}); vm_compute; reflexivity.
Defined.

(** ** A field mapping *)

Definition rename_flag : FieldMappingTransform :=
  {| FieldMapping.entries := [{| FieldMapping.source := "_id"; FieldMapping.target := "x.y"; skip := false; type_override := None |}] |}.

Lemma mapping_exact_witness :
  get_bson_path [("x", Document [("y", Boolean true)])] "x.y" = Some (Boolean true).
Proof.
  apply (mapping_exact rename_flag (flag true) [("x", Document [("y", Boolean true)])]) with
    (e := {| FieldMapping.source := "_id"; FieldMapping.target := "x.y"; skip := false; type_override := None |});
    [reflexivity| |left|reflexivity].
  intros [|i] [|j] e1 e2 Hij H1 H2; [done|by destruct j|by destruct i|by destruct i].
Defined.

(** ** A dump and its restore *)

#[local] Existing Instance SchedulerExample.plain_jobs.
#[local] Existing Instance TimelineSpec.plain_entries.

Definition fresh {D} (d : D) (disk_ : Disk) : AppState D :=
  {| jobs := JobStore.new ∅; timeline := Timeline.new ∅; db := d; Transfer.disk := disk_ |}.
Definition some_client (_ : string) : result AppError ClientEntry := Ok {| Transfer.profile_id := "p"; client_name := "n" |}.
Definition undisturbed : Run :=
  {| now := "t"; uuid _ := "u"; elapsed _ := 1%N; date := "d"; time := "h"; cancel _ _ := false; throttled _ _ := false |}.
Definition dump_c : DumpRequest :=
  {| Dump.connection_id := "s"; database := "db"; collections := []; destination_dir := "/home/d"; path_template := "";
     format := DumpBson; compression := NoCompression; Dump.job_id := "j" |}.
Definition restore_c : RestoreRequest :=
  {| connection_id := "s"; source_dir := "/home/d"; target_database := "db2"; create_database := true;
     collection_map := [{| source := "c"; target := "copy"; enabled := true |}]; conflict_strategy := OnConflictDrop;
     job_id := "r" |}.

Definition run_dump_c := run_dump (Enc := unit) some_client (fun _ => "{}") undisturbed dump_c (fresh toy_server empty_disk).
Definition dumped_c : DumpResult :=
  {| Dump.res_job_id := "j"; Dump.processed := 2; Dump.errors := 0; Dump.cancelled := false;
     dumped_files := ["/home/d/c.bson"] |}.
Definition restore_run := restore_database some_client undisturbed restore_c (fresh (put_docs "copy" [flag true] toy_server) (Transfer.disk run_dump_c.2)).
Definition restored_c : RestoreResult :=
  {| res_job_id := "r"; processed := 2; inserted_docs := 2; errors := 0; cancelled := false |}.

Lemma two_in_c : collection_docs toy_server "c" two.
Proof. split; [done|]. repeat constructor; eexists; apply flag_encodes. Qed.

Lemma dumped_c_ok : run_dump_c = (Ok dumped_c, run_dump_c.2).
Proof. vm_compute. reflexivity. Qed.
Lemma restored_c_ok : restore_run = (Ok restored_c, restore_run.2).
Proof. vm_compute. reflexivity. Qed.
(** The collection [copy] had a document; after the restore it has the two of [c]. *)
Lemma dump_restore_round_trip_witness :
  Forall2 (fun m docs => docs_of (target m) (db restore_run.2) = docs \/
             drop_may_fail (Db := Db) (target m) /\
             docs_of (target m) (db restore_run.2) =
               docs_of (target m) (db (fresh (put_docs "copy" [flag true] toy_server) (Transfer.disk run_dump_c.2))) ++ docs)
    (collection_map restore_c) [two] /\
  forall other, other ∉ map target (collection_map restore_c) ->
    docs_of other (db restore_run.2) = docs_of other (db (fresh (put_docs "copy" [flag true] toy_server) (Transfer.disk run_dump_c.2))).
Proof.
  apply (dump_restore_round_trip (Enc := unit) some_client some_client (fun _ => "{}") undisturbed undisturbed dump_c restore_c
    (fresh toy_server empty_disk) run_dump_c.2 (fresh (put_docs "copy" [flag true] toy_server) (Transfer.disk run_dump_c.2)) restore_run.2
    dumped_c restored_c ["c"] [two] "/home/d" {| Transfer.profile_id := "p"; client_name := "n" |});
    [reflexivity|reflexivity|reflexivity|by intros|by intros|reflexivity|reflexivity|reflexivity| | |exact dumped_c_ok|reflexivity
    |reflexivity|reflexivity|reflexivity|repeat constructor; apply flag_id_first|reflexivity|by constructor|apply NoDup_singleton|exact restored_c_ok|reflexivity].
  - constructor; [apply two_in_c|constructor].
  - split; [apply NoDup_singleton|]. intros p q Hp%list_elem_of_singleton Hq%list_elem_of_singleton. subst. vm_compute. discriminate.
Defined.

(** ** A cancellation during the only collection *)

Definition cancelled_late : Run :=
  {| now := "t"; uuid _ := "u"; elapsed _ := 1%N; date := "d"; time := "h";
     cancel _ n := match n with O => false | _ => true end; throttled _ _ := false |}.
Definition late_dump := run_dump (Enc := unit) some_client (fun _ => "{}") cancelled_late dump_c (fresh toy_server empty_disk).
Definition late_result : DumpResult :=
  {| Dump.res_job_id := "j"; Dump.processed := 0; Dump.errors := 0; Dump.cancelled := false;
     dumped_files := ["/home/d/c.bson"] |}.
Lemma late_dump_ok : late_dump = (Ok late_result, late_dump.2).
Proof. vm_compute. reflexivity. Qed.

Lemma late_cancel_reported_done_witness :
  Dump.cancelled late_result = false /\ Dump.errors late_result = 0%N /\ dumped_files late_result = ["/home/d/c.bson"] /\
  WriteTarget.files (Transfer.disk late_dump.2) !! "/home/d/c.bson" = None /\ job_ended "j" JobStore.Done late_dump.2.
Proof.
  refine (late_cancel_reported_done (Enc := unit) some_client (fun _ => "{}") cancelled_late dump_c (fresh toy_server empty_disk)
    late_result late_dump.2 "c" "/home/d" {| Transfer.profile_id := "p"; client_name := "n" |} _ _ _ _ _ _ _ late_dump_ok);
    [reflexivity|reflexivity|by intros|reflexivity|reflexivity|reflexivity|constructor].
Defined.

(** ** A file that cannot be opened *)

Definition unreadable : AppState Db :=
  fresh (put_docs "copy" [flag true] (fun _ => [])) {| WriteTarget.files := {["/home/d/c.bson" := []]}; faults := [true] |}.
Lemma failed_open_strands_job_witness :
  let '(r, s') := restore_database some_client undisturbed restore_c unreadable in
  r = Err (Io "open") /\ docs_of "copy" (db s') = [] /\
  (exists j, JobStore.get "r" (jobs s') = Some j /\ JobStore.status j = JobStore.Running) /\
  is_Some (JobStore.active (jobs s') !! "r").
Proof.
  apply (failed_open_strands_job some_client undisturbed restore_c unreadable "/home/d"
    {| source := "c"; target := "copy"; enabled := true |} {| Transfer.profile_id := "p"; client_name := "n" |} [] []
    (put_docs "copy" [] (db unreadable)));
    [reflexivity|reflexivity|reflexivity|reflexivity|reflexivity|reflexivity|vm_compute; reflexivity|reflexivity|reflexivity|constructor].
Defined.
