(* ===== verification/Contract.v ===== *)
(** * The commitment contract (zk-audit/soroban-contract/src/lib.rs)

    Every entry point as a program over the contract's storage.  The host ends an
    invocation in one of three ways: a result, an error of the contract, or a trap (a
    panic, a missing authorization, a failed host function); in the last two it discards
    every write, which [invoke] does.  Integers keep their width: an addition that would
    overflow traps ([overflow-checks = true]). *)

From S2P Require Import Prelude.
From S2P Require Import Bytes.
From S2P Require Import Interfaces.
Local Open Scope N_scope.

(** ** The host functions the contract calls *)

Class Ed25519 := {
  (** [ed25519_verify(public_key, message, signature)] traps when this is false. *)
  ed25519_ok : list byte -> list byte -> list byte -> bool;
}.

(** [env.crypto().bn254()]: each host function may trap, on a point that is not on the
    curve for instance. *)
Class Bn254 := {
  Fr : Type; G1 : Type; G2 : Type;
  Fr_from_bytes : list byte -> Fr;
  G1_from_bytes : list byte -> G1;
  G2_from_bytes : list byte -> G2;
  g1_neg : G1 -> G1;
  g1_mul : G1 -> Fr -> option G1;
  g1_add : G1 -> G1 -> option G1;
  pairing_check : list G1 -> list G2 -> option bool;
}.

(** ** Types *)

Record Proof := { pf_a : list byte; pf_b : list byte; pf_c : list byte }.

Record VerifyingKey := {
  alpha : list byte; beta : list byte; gamma : list byte; delta : list byte;
  ic : list (list byte);
}.

Record RootEntry := {
  re_sequence : N; re_root : list byte; re_timestamp : N; re_metadata : string;
}.

Record OplogCommitment := {
  oplog_root : list byte; oplog_start_ts : N; oplog_end_ts : N; oplog_entry_count : N;
}.

Inductive CommitmentError :=
| Unauthorized | RootAlreadyCommitted | NoRootCommitted | InvalidProofEncoding
| MalformedVerifyingKey | InvalidPageSize | RootNotCommitted | VerificationFailed
| NotInitialized | AttesterNotAuthorized | OplogCommitmentNotFound | InvalidSignature
| DuplicateAttestation | InvalidOplogRoot | InvalidTimestampRange | InvalidThreshold
| DisclosureVkAlreadySet | DisclosureVkNotSet.

#[export] Instance CommitmentError_eq_dec : EqDecision CommitmentError.
Proof. solve_decision. Defined.

Section contract.
Context {Address : Type} `{EqDecision Address, Countable Address}.

Record OplogAttestation := {
  attester : Address; signature : list byte; at_timestamp : N;
}.

Record DisclosureRecord := {
  record_id : N; verifier : Address; d_root : list byte; d_leaf : list byte;
  op_pred : list byte; coll_pred : list byte; ts_min : N; ts_max : N;
  check_op : bool; check_coll : bool; check_ts : bool; d_timestamp : N;
}.

Record AttestationVerification := {
  v_sequence : N; v_oplog_root : list byte; attestation_count : N; authorized_count : N;
  threshold : N; all_match : bool; verdict : string;
}.

Inductive Event :=
| CommitRootEvent (sequence : N) (root : list byte) (timestamp : N) (metadata : string)
| CommitOplogEvent (sequence : N) (oplog_root : list byte) (oplog_end_ts oplog_entry_count : N)
| AttestOplogEvent (sequence : N) (a : Address) (timestamp : N)
| DiscloseEvent (v : Address) (record_id : N) (root : list byte).

(** ** Storage: a field per key *)

Record Storage := {
  Admin : option Address;
  Sequence : option N;
  CurrentRoot : option N;
  AuthorizedAttesters : option (gmap Address (list byte));
  Threshold : option N;
  Vk : option VerifyingKey;
  DisclosureVk : option VerifyingKey;
  DisclosureRecordCount : option N;
  RootEntries : gmap N RootEntry;
  RootIndex : option (gmap (list byte) N);
  OplogCommitments : gmap N OplogCommitment;
  OplogAttestations : gmap N (list OplogAttestation);
  DisclosureRecords : gmap N DisclosureRecord;
  published : list Event;
}.

Definition fresh : Storage :=
  Build_Storage None None None None None None None None ∅ None ∅ ∅ ∅ [].

(** What an invocation sees: the ledger time and who authorized it. *)
Record Env := { timestamp : N; authorized : Address -> bool }.

(** ** Programs *)

Inductive outcome (A : Type) := Done (a : A) | Fail (e : CommitmentError) | Trap.

Definition call (A : Type) : Type := Env -> Storage -> outcome A * Storage.

#[export] Instance call_ret : MRet call := fun _ a _ s => (Done _ a, s).
#[export] Instance call_bind : MBind call := fun _ _ f m env s =>
  match m env s with
  | (Done _ a, s) => f a env s
  | (Fail _ e, s) => (Fail _ e, s)
  | (Trap _, s) => (Trap _, s)
  end.

Definition fail {A} (e : CommitmentError) : call A := fun _ s => (Fail _ e, s).
Definition trap {A} : call A := fun _ s => (Trap _, s).
Definition load {A} (f : Storage -> A) : call A := fun _ s => (Done _ (f s), s).
Definition store (f : Storage -> Storage) : call unit := fun _ s => (Done _ tt, f s).
Definition ledger_timestamp : call N := fun env s => (Done _ (timestamp env), s).
Definition require_auth (a : Address) : call unit :=
  fun env s => if authorized env a then (Done _ tt, s) else (Trap _, s).
(** [opt.ok_or(e)?] and a host function that may trap *)
Definition ok_or_fail {A} (o : option A) (e : CommitmentError) : call A :=
  match o with Some a => mret a | None => fail e end.
Definition host {A} (o : option A) : call A :=
  match o with Some a => mret a | None => trap end.
Definition require (b : bool) (e : CommitmentError) : call unit :=
  if b then mret tt else fail e.

(** The effect of an invocation on the ledger. *)
Definition invoke {A} (m : call A) (env : Env) (s : Storage) : Storage :=
  match m env s with (Done _ _, s') => s' | _ => s end.

Definition u64_max : N := 2 ^ 64 - 1.
Definition u32_max : N := 2 ^ 32 - 1.
(** [x + 1] on a [u64] *)
Definition incr (x : N) : call N := if x <? u64_max then mret (x + 1) else trap.

Definition set_Admin a s := Build_Storage (Some a) (Sequence s) (CurrentRoot s)
  (AuthorizedAttesters s) (Threshold s) (Vk s) (DisclosureVk s) (DisclosureRecordCount s)
  (RootEntries s) (RootIndex s) (OplogCommitments s) (OplogAttestations s) (DisclosureRecords s)
  (published s).
Definition set_Sequence n s := Build_Storage (Admin s) (Some n) (CurrentRoot s)
  (AuthorizedAttesters s) (Threshold s) (Vk s) (DisclosureVk s) (DisclosureRecordCount s)
  (RootEntries s) (RootIndex s) (OplogCommitments s) (OplogAttestations s) (DisclosureRecords s)
  (published s).
Definition set_CurrentRoot n s := Build_Storage (Admin s) (Sequence s) (Some n)
  (AuthorizedAttesters s) (Threshold s) (Vk s) (DisclosureVk s) (DisclosureRecordCount s)
  (RootEntries s) (RootIndex s) (OplogCommitments s) (OplogAttestations s) (DisclosureRecords s)
  (published s).
Definition set_AuthorizedAttesters m s := Build_Storage (Admin s) (Sequence s) (CurrentRoot s)
  (Some m) (Threshold s) (Vk s) (DisclosureVk s) (DisclosureRecordCount s)
  (RootEntries s) (RootIndex s) (OplogCommitments s) (OplogAttestations s) (DisclosureRecords s)
  (published s).
Definition set_Threshold n s := Build_Storage (Admin s) (Sequence s) (CurrentRoot s)
  (AuthorizedAttesters s) (Some n) (Vk s) (DisclosureVk s) (DisclosureRecordCount s)
  (RootEntries s) (RootIndex s) (OplogCommitments s) (OplogAttestations s) (DisclosureRecords s)
  (published s).
Definition set_Vk vk s := Build_Storage (Admin s) (Sequence s) (CurrentRoot s)
  (AuthorizedAttesters s) (Threshold s) (Some vk) (DisclosureVk s) (DisclosureRecordCount s)
  (RootEntries s) (RootIndex s) (OplogCommitments s) (OplogAttestations s) (DisclosureRecords s)
  (published s).
Definition set_DisclosureVk vk s := Build_Storage (Admin s) (Sequence s) (CurrentRoot s)
  (AuthorizedAttesters s) (Threshold s) (Vk s) (Some vk) (DisclosureRecordCount s)
  (RootEntries s) (RootIndex s) (OplogCommitments s) (OplogAttestations s) (DisclosureRecords s)
  (published s).
Definition set_DisclosureRecordCount n s := Build_Storage (Admin s) (Sequence s) (CurrentRoot s)
  (AuthorizedAttesters s) (Threshold s) (Vk s) (DisclosureVk s) (Some n)
  (RootEntries s) (RootIndex s) (OplogCommitments s) (OplogAttestations s) (DisclosureRecords s)
  (published s).
Definition set_RootEntry n e s := Build_Storage (Admin s) (Sequence s) (CurrentRoot s)
  (AuthorizedAttesters s) (Threshold s) (Vk s) (DisclosureVk s) (DisclosureRecordCount s)
  (<[n := e]> (RootEntries s)) (RootIndex s) (OplogCommitments s) (OplogAttestations s)
  (DisclosureRecords s) (published s).
Definition set_RootIndex m s := Build_Storage (Admin s) (Sequence s) (CurrentRoot s)
  (AuthorizedAttesters s) (Threshold s) (Vk s) (DisclosureVk s) (DisclosureRecordCount s)
  (RootEntries s) (Some m) (OplogCommitments s) (OplogAttestations s) (DisclosureRecords s)
  (published s).
Definition set_OplogCommitment n c s := Build_Storage (Admin s) (Sequence s) (CurrentRoot s)
  (AuthorizedAttesters s) (Threshold s) (Vk s) (DisclosureVk s) (DisclosureRecordCount s)
  (RootEntries s) (RootIndex s) (<[n := c]> (OplogCommitments s)) (OplogAttestations s)
  (DisclosureRecords s) (published s).
Definition set_OplogAttestations n l s := Build_Storage (Admin s) (Sequence s) (CurrentRoot s)
  (AuthorizedAttesters s) (Threshold s) (Vk s) (DisclosureVk s) (DisclosureRecordCount s)
  (RootEntries s) (RootIndex s) (OplogCommitments s) (<[n := l]> (OplogAttestations s))
  (DisclosureRecords s) (published s).
Definition set_DisclosureRecord n r s := Build_Storage (Admin s) (Sequence s) (CurrentRoot s)
  (AuthorizedAttesters s) (Threshold s) (Vk s) (DisclosureVk s) (DisclosureRecordCount s)
  (RootEntries s) (RootIndex s) (OplogCommitments s) (OplogAttestations s)
  (<[n := r]> (DisclosureRecords s)) (published s).
Definition publish e s := Build_Storage (Admin s) (Sequence s) (CurrentRoot s)
  (AuthorizedAttesters s) (Threshold s) (Vk s) (DisclosureVk s) (DisclosureRecordCount s)
  (RootEntries s) (RootIndex s) (OplogCommitments s) (OplogAttestations s)
  (DisclosureRecords s) (published s ++ [e]).

(** ** Administration *)

Definition get_admin_or_err : call Address := a ← load Admin; ok_or_fail a NotInitialized.
Definition get_admin_or_panic : call Address := a ← load Admin; host a.

Definition initialize (admin : Address) (vk : VerifyingKey) : call unit :=
  a ← load Admin;
  match a with
  | Some _ => trap
  | None =>
    _ ← require_auth admin;
    _ ← store (set_Admin admin);
    _ ← store (set_Sequence 0);
    _ ← store (set_Threshold 1);
    store (set_Vk vk)
  end.

Definition get_verifying_key : call VerifyingKey :=
  vk ← load Vk; ok_or_fail vk NotInitialized.

Definition set_admin (new_admin : Address) : call unit :=
  admin ← get_admin_or_panic;
  _ ← require_auth admin;
  store (set_Admin new_admin).

Definition get_admin : call Address := get_admin_or_err.

Definition set_threshold (threshold : N) : call unit :=
  admin ← get_admin_or_err;
  _ ← require_auth admin;
  if threshold <? 1 then fail InvalidThreshold else store (set_Threshold threshold).

Definition get_threshold : call N := t ← load Threshold; mret (default 1 t).

(** ** Root commitments *)

Definition root_index (s : Storage) : gmap (list byte) N := default ∅ (RootIndex s).

Definition commit_root (root : list byte) (metadata : string) : call N :=
  admin ← get_admin_or_err;
  _ ← require_auth admin;
  root_index ← load root_index;
  if bool_decide (is_Some (root_index !! root)) then fail RootAlreadyCommitted
  else
    sequence ← load Sequence;
    sequence ← incr (default 0 sequence);
    _ ← store (set_Sequence sequence);
    timestamp ← ledger_timestamp;
    let entry := {| re_sequence := sequence; re_root := root; re_timestamp := timestamp;
                    re_metadata := metadata |} in
    _ ← store (set_RootEntry sequence entry);
    _ ← store (set_RootIndex (<[root := sequence]> root_index));
    _ ← store (set_CurrentRoot sequence);
    _ ← store (publish (CommitRootEvent sequence root timestamp metadata));
    mret sequence.

Definition commit_root_with_oplog (root oplog_root : list byte)
    (oplog_start_ts oplog_end_ts oplog_entry_count : N) (metadata : string) : call N :=
  if negb (length oplog_root =? 32)%nat then fail InvalidOplogRoot
  else if oplog_end_ts <? oplog_start_ts then fail InvalidTimestampRange
  else
    root_index ← load root_index;
    if bool_decide (is_Some (root_index !! root)) then fail RootAlreadyCommitted
    else
      sequence ← load Sequence;
      sequence ← incr (default 0 sequence);
      _ ← store (set_Sequence sequence);
      timestamp ← ledger_timestamp;
      let entry := {| re_sequence := sequence; re_root := root; re_timestamp := timestamp;
                      re_metadata := metadata |} in
      _ ← store (set_RootEntry sequence entry);
      _ ← store (set_RootIndex (<[root := sequence]> root_index));
      _ ← store (set_CurrentRoot sequence);
      let oplog_commitment :=
        {| oplog_root := oplog_root; oplog_start_ts := oplog_start_ts;
           oplog_end_ts := oplog_end_ts; oplog_entry_count := oplog_entry_count |} in
      _ ← store (set_OplogCommitment sequence oplog_commitment);
      _ ← store (publish (CommitRootEvent sequence root timestamp metadata));
      _ ← store (publish (CommitOplogEvent sequence oplog_root oplog_end_ts oplog_entry_count));
      mret sequence.

Definition get_oplog_commitment (sequence : N) : call OplogCommitment :=
  c ← load (fun s => OplogCommitments s !! sequence); ok_or_fail c OplogCommitmentNotFound.

(** ** Attestations *)

Definition attesters (s : Storage) : gmap Address (list byte) := default ∅ (AuthorizedAttesters s).

(** The type of the key is [BytesN<32>]: the host rejects any other length. *)
Definition authorize_attester (attester : Address) (public_key : list byte) : call unit :=
  if negb (length public_key =? 32)%nat then trap
  else
    admin ← get_admin_or_panic;
    _ ← require_auth admin;
    attesters ← load attesters;
    store (set_AuthorizedAttesters (<[attester := public_key]> attesters)).

Definition revoke_attester (attester : Address) : call unit :=
  admin ← get_admin_or_panic;
  _ ← require_auth admin;
  attesters ← load AuthorizedAttesters;
  match attesters with
  | Some attesters => store (set_AuthorizedAttesters (delete attester attesters))
  | None => mret tt
  end.

Definition attestations_of (sequence : N) (s : Storage) : list OplogAttestation :=
  default [] (OplogAttestations s !! sequence).

Section attest.
Context {Sha : Sha256} {Ed : Ed25519}.

(** [sha256(oplog_root || oplog_end_ts.to_be_bytes())] *)
Definition attestation_message (c : OplogCommitment) : list byte :=
  sha256 (oplog_root c ++ be_bytes 8 (Z.of_N (oplog_end_ts c))).

(** A host vector has at most [u32::MAX] elements. *)
Definition push_back {A} (l : list A) (a : A) : call (list A) :=
  if N.of_nat (length l) <? u32_max then mret (l ++ [a]) else trap.

Definition attest_oplog (attester_ : Address) (sequence : N) (signature_ : list byte) : call unit :=
  _ ← require_auth attester_;
  c ← load (fun s => OplogCommitments s !! sequence);
  oplog_commitment ← ok_or_fail c OplogCommitmentNotFound;
  attesters ← load attesters;
  public_key ← ok_or_fail (attesters !! attester_) AttesterNotAuthorized;
  if negb (length signature_ =? 64)%nat then fail InvalidSignature
  else
    existing ← load (attestations_of sequence);
    if existsb (fun a => bool_decide (attester a = attester_)) existing
    then fail DuplicateAttestation
    else if negb (ed25519_ok public_key (attestation_message oplog_commitment) signature_)
    then trap
    else
      timestamp ← ledger_timestamp;
      attestations ← push_back existing
        {| attester := attester_; signature := signature_; at_timestamp := timestamp |};
      _ ← store (set_OplogAttestations sequence attestations);
      store (publish (AttestOplogEvent sequence attester_ timestamp)).
End attest.

Definition get_oplog_attestations (sequence : N) : call (list OplogAttestation) :=
  load (attestations_of sequence).

Definition verify_attestation (sequence : N) : call AttestationVerification :=
  c ← load (fun s => OplogCommitments s !! sequence);
  commitment ← ok_or_fail c OplogCommitmentNotFound;
  attestations ← load (attestations_of sequence);
  attesters ← load attesters;
  let attestation_count := N.of_nat (length attestations) in
  let authorized_count := N.of_nat (length
        (filter (fun a => is_Some (attesters !! attester a)) attestations)) in
  threshold ← get_threshold;
  let '(all_match, verdict) :=
    if attestation_count =? 0 then (false, "no_attestations"%string)
    else if authorized_count <? attestation_count then (false, "unauthorized_attester"%string)
    else if threshold <=? authorized_count then (true, "verified"%string)
    else (false, "threshold_not_met"%string) in
  mret {| v_sequence := sequence; v_oplog_root := oplog_root commitment;
          attestation_count := attestation_count; authorized_count := authorized_count;
          threshold := threshold; all_match := all_match; verdict := verdict |}.

(** ** Groth16 *)

Section groth16.
Context {Bn : Bn254}.

Definition fr_from_bytes32 (bytes : list byte) : result CommitmentError Fr :=
  if negb (length bytes =? 32)%nat then Err InvalidProofEncoding else Ok (Fr_from_bytes bytes).

Definition fr_from_u64 (value : N) : Fr :=
  Fr_from_bytes (List.repeat x00 24 ++ be_bytes 8 (Z.of_N value)).

Definition lift {A} (r : result CommitmentError A) : call A :=
  match r with Ok a => mret a | Err e => fail e end.

(** [ic[0] + sum(pub_signals[i] * ic[i+1])], one product and one addition per signal. *)
Fixpoint accumulate (vk_x : G1) (signals : list Fr) (points : list (list byte)) : option G1 :=
  match signals, points with
  | signal :: signals, ic_bytes :: points =>
    prod ← g1_mul (G1_from_bytes ic_bytes) signal;
    vk_x ← g1_add vk_x prod;
    accumulate vk_x signals points
  | _, _ => Some vk_x
  end.

Definition well_encoded (vk : VerifyingKey) (proof : Proof) : bool :=
  (length (pf_a proof) =? 64)%nat && (length (pf_c proof) =? 64)%nat &&
  (length (pf_b proof) =? 128)%nat && (length (alpha vk) =? 64)%nat &&
  (length (beta vk) =? 128)%nat && (length (gamma vk) =? 128)%nat &&
  (length (delta vk) =? 128)%nat && forallb (fun p => length p =? 64)%nat (ic vk).

Definition groth16_verify (vk : VerifyingKey) (proof : Proof) (pub_signals : list Fr) : call unit :=
  if negb (well_encoded vk proof) then fail InvalidProofEncoding
  else if negb (length (ic vk) =? length pub_signals + 1)%nat then fail MalformedVerifyingKey
  else
    let a := G1_from_bytes (pf_a proof) in
    let b := G2_from_bytes (pf_b proof) in
    let c := G1_from_bytes (pf_c proof) in
    match ic vk with
    | [] => trap
    | ic0_bytes :: points =>
      vk_x ← host (accumulate (G1_from_bytes ic0_bytes) pub_signals points);
      holds ← host (pairing_check
        [g1_neg a; G1_from_bytes (alpha vk); vk_x; c]
        [b; G2_from_bytes (beta vk); G2_from_bytes (gamma vk); G2_from_bytes (delta vk)]);
      if negb holds then fail VerificationFailed else mret tt
    end.

Definition verify_inclusion (root leaf : list byte) (proof : Proof) : call bool :=
  root_index ← load root_index;
  if negb (bool_decide (is_Some (root_index !! root))) then fail RootNotCommitted
  else
    vk ← load Vk;
    vk ← ok_or_fail vk NotInitialized;
    root_fr ← lift (fr_from_bytes32 root);
    leaf_fr ← lift (fr_from_bytes32 leaf);
    _ ← groth16_verify vk proof [root_fr; leaf_fr];
    mret true.

(** ** Disclosures *)

Definition register_disclosure_vk (vk : VerifyingKey) : call unit :=
  admin ← get_admin_or_err;
  _ ← require_auth admin;
  old ← load DisclosureVk;
  match old with
  | Some _ => fail DisclosureVkAlreadySet
  | None => store (set_DisclosureVk vk)
  end.

Definition get_disclosure_vk : call VerifyingKey :=
  vk ← load DisclosureVk; ok_or_fail vk DisclosureVkNotSet.

(** The claim of a disclosure: the arguments after [root] and [leaf]. *)
Record claim := {
  c_root : list byte; c_leaf : list byte; c_op_pred : list byte; c_coll_pred : list byte;
  c_ts_min : N; c_ts_max : N; c_check_op : bool; c_check_coll : bool; c_check_ts : bool;
}.

(** [u64::from(b)] *)
Definition bit (b : bool) : N := if b then 1 else 0.

Definition claim_signals (c : claim) : result CommitmentError (list Fr) :=
  root_fr ← fr_from_bytes32 (c_root c);
  leaf_fr ← fr_from_bytes32 (c_leaf c);
  op_fr ← fr_from_bytes32 (c_op_pred c);
  coll_fr ← fr_from_bytes32 (c_coll_pred c);
  Ok [root_fr; leaf_fr; op_fr; coll_fr; fr_from_u64 (c_ts_min c); fr_from_u64 (c_ts_max c);
      fr_from_u64 (bit (c_check_op c)); fr_from_u64 (bit (c_check_coll c));
      fr_from_u64 (bit (c_check_ts c))].

Definition check_disclosure (c : claim) (proof : Proof) : call unit :=
  root_index ← load root_index;
  if negb (bool_decide (is_Some (root_index !! c_root c))) then fail RootNotCommitted
  else
    vk ← load DisclosureVk;
    vk ← ok_or_fail vk DisclosureVkNotSet;
    pub_signals ← lift (claim_signals c);
    groth16_verify vk proof pub_signals.

Definition verify_disclosure (c : claim) (proof : Proof) : call bool :=
  _ ← check_disclosure c proof; mret true.

Definition disclosure_record (record_id : N) (verifier : Address) (c : claim) (now : N) :
    DisclosureRecord :=
  {| record_id := record_id; verifier := verifier; d_root := c_root c; d_leaf := c_leaf c;
     op_pred := c_op_pred c; coll_pred := c_coll_pred c; ts_min := c_ts_min c;
     ts_max := c_ts_max c; check_op := c_check_op c; check_coll := c_check_coll c;
     check_ts := c_check_ts c; d_timestamp := now |}.

Definition verify_and_record_disclosure (verifier : Address) (c : claim) (proof : Proof) : call N :=
  _ ← require_auth verifier;
  _ ← check_disclosure c proof;
  count ← load DisclosureRecordCount;
  record_id ← incr (default 0 count);
  timestamp ← ledger_timestamp;
  let record := disclosure_record record_id verifier c timestamp in
  _ ← store (set_DisclosureRecord record_id record);
  _ ← store (set_DisclosureRecordCount record_id);
  _ ← store (publish (DiscloseEvent verifier record_id (c_root c)));
  mret record_id.
End groth16.

(** ** Pages *)

(** [for id in (start..=current).rev()]: [n] ids down from [current]; a missing entry is
    skipped. *)
Fixpoint page {A} (get : N -> option A) (current : N) (n : nat) : list A :=
  match n with
  | O => []
  | S n => match get current with
           | Some a => a :: page get (current - 1) n
           | None => page get (current - 1) n
           end
  end.

Definition start_of (current limit : N) : N :=
  if limit <=? current then current - limit + 1 else 1.

Definition last_entries {A} (current limit : N) (get : N -> option A) : list A :=
  page get current (N.to_nat (current + 1 - start_of current limit)).

Definition get_disclosure_records (limit : N) : call (list DisclosureRecord) :=
  if (limit =? 0) || (100 <? limit) then fail InvalidPageSize
  else
    count ← load DisclosureRecordCount;
    let current := default 0 count in
    if current =? 0 then mret []
    else load (fun s => last_entries current limit (fun id => DisclosureRecords s !! id)).

Definition get_current_root : call (option RootEntry) :=
  sequence ← load CurrentRoot;
  match sequence with
  | None => mret None
  | Some sequence => load (fun s => RootEntries s !! sequence)
  end.

Definition get_root_history (limit : N) : call (list RootEntry) :=
  if (limit =? 0) || (100 <? limit) then fail InvalidPageSize
  else
    c ← load CurrentRoot;
    let current := default 0 c in
    if current =? 0 then mret []
    else load (fun s => last_entries current limit (fun seq => RootEntries s !! seq)).

(** ** Invocations *)

Inductive message :=
| Initialize (admin : Address) (vk : VerifyingKey)
| SetAdmin (new_admin : Address)
| SetThreshold (threshold : N)
| CommitRoot (root : list byte) (metadata : string)
| CommitRootWithOplog (root oplog_root : list byte) (oplog_start_ts oplog_end_ts oplog_entry_count : N)
    (metadata : string)
| AuthorizeAttester (attester : Address) (public_key : list byte)
| RevokeAttester (attester : Address)
| AttestOplog (attester : Address) (sequence : N) (signature : list byte)
| RegisterDisclosureVk (vk : VerifyingKey)
| VerifyAndRecordDisclosure (verifier : Address) (c : claim) (proof : Proof).

Section dispatch.
Context {Sha : Sha256} {Ed : Ed25519} {Bn : Bn254}.

(** The entry points that write; the others only read. *)
Definition transact (env : Env) (m : message) (s : Storage) : Storage :=
  match m with
  | Initialize admin vk => invoke (initialize admin vk) env s
  | SetAdmin a => invoke (set_admin a) env s
  | SetThreshold t => invoke (set_threshold t) env s
  | CommitRoot root metadata => invoke (commit_root root metadata) env s
  | CommitRootWithOplog root oplog_root start_ts end_ts count metadata =>
    invoke (commit_root_with_oplog root oplog_root start_ts end_ts count metadata) env s
  | AuthorizeAttester a k => invoke (authorize_attester a k) env s
  | RevokeAttester a => invoke (revoke_attester a) env s
  | AttestOplog a sequence sig => invoke (attest_oplog a sequence sig) env s
  | RegisterDisclosureVk vk => invoke (register_disclosure_vk vk) env s
  | VerifyAndRecordDisclosure v c proof => invoke (verify_and_record_disclosure v c proof) env s
  end.

(** The ledgers of a contract that was initialized before anything else. *)
Inductive reachable : Storage -> Prop :=
| reachable_initialize env admin vk :
    authorized env admin = true -> reachable (transact env (Initialize admin vk) fresh)
| reachable_transact env m s : reachable s -> reachable (transact env m s).
End dispatch.
End contract.

#[global] Arguments OplogAttestation : clear implicits.
#[global] Arguments DisclosureRecord : clear implicits.
#[global] Arguments Event : clear implicits.
#[global] Arguments Storage _ {_ _}.
#[global] Arguments Env : clear implicits.
#[global] Arguments message : clear implicits.
#[global] Arguments call _ {_ _} _.
