(* ===== verification/ContractSpec.v ===== *)
(** * What the commitment contract guarantees

    [effect] is the contract's specification: the ways one transaction can change the
    ledger, each with the authorization and the checks it needs.  [transact_effect] is the
    refinement: every entry point, whatever its arguments, has one of these effects.
    The invariant and the append-only theorems follow by cases on the effect. *)

From S2P Require Import Prelude.
From S2P Require Import Bytes.
From S2P Require Import Interfaces.
From S2P Require Import Contract.
Local Open Scope N_scope.

Section spec.
Context {Address : Type} {EqA : EqDecision Address} {CoA : Countable Address}.
Context {Sha : Sha256} {Ed : Ed25519} {Bn : Bn254}.
Implicit Types (s : Storage Address) (env : Env Address) (m : message Address).

(** ** The effects *)

Definition by_admin env s : Prop := exists a, Admin s = Some a /\ authorized env a = true.

Definition commitment_ok (c : OplogCommitment) : Prop :=
  length (oplog_root c) = 32%nat /\ oplog_start_ts c <= oplog_end_ts c.

Definition next_sequence s : N := default 0 (Sequence s) + 1.

Definition new_entry env root metadata s : RootEntry :=
  {| re_sequence := next_sequence s; re_root := root; re_timestamp := timestamp env;
     re_metadata := metadata |}.

(** The ledger after a root is committed, with or without an oplog commitment. *)
Definition committed env root metadata (oc : option OplogCommitment) s : Storage Address :=
  let n := next_sequence s in
  let s1 := set_CurrentRoot n (set_RootIndex (<[root := n]> (root_index s))
              (set_RootEntry n (new_entry env root metadata s) (set_Sequence n s))) in
  let event := CommitRootEvent n root (timestamp env) metadata in
  match oc with
  | None => publish event s1
  | Some c => publish (CommitOplogEvent n (oplog_root c) (oplog_end_ts c) (oplog_entry_count c))
                (publish event (set_OplogCommitment n c s1))
  end.

Definition attested env a n sig s : Storage Address :=
  publish (AttestOplogEvent n a (timestamp env))
    (set_OplogAttestations n
       (attestations_of n s ++ [{| attester := a; signature := sig; at_timestamp := timestamp env |}]) s).

Definition disclosed env v c s : Storage Address :=
  let n := default 0 (DisclosureRecordCount s) + 1 in
  publish (DiscloseEvent v n (c_root c))
    (set_DisclosureRecordCount n
       (set_DisclosureRecord n (disclosure_record n v c (timestamp env)) s)).

Inductive effect env s : Storage Address -> Prop :=
| effect_none : effect env s s
| effect_initialize a vk :
    Admin s = None -> authorized env a = true ->
    effect env s (set_Vk vk (set_Threshold 1 (set_Sequence 0 (set_Admin a s))))
| effect_admin a : by_admin env s -> effect env s (set_Admin a s)
| effect_threshold t : by_admin env s -> 1 <= t -> effect env s (set_Threshold t s)
| effect_attesters ks : by_admin env s -> effect env s (set_AuthorizedAttesters ks s)
| effect_disclosure_vk vk :
    by_admin env s -> DisclosureVk s = None -> effect env s (set_DisclosureVk vk s)
| effect_commit root metadata :
    by_admin env s -> root_index s !! root = None -> default 0 (Sequence s) < u64_max ->
    effect env s (committed env root metadata None s)
| effect_commit_oplog root metadata c :
    commitment_ok c -> root_index s !! root = None -> default 0 (Sequence s) < u64_max ->
    effect env s (committed env root metadata (Some c) s)
| effect_attest a n sig c key :
    authorized env a = true -> OplogCommitments s !! n = Some c -> attesters s !! a = Some key ->
    length sig = 64%nat -> Forall (fun x => attester x <> a) (attestations_of n s) ->
    ed25519_ok key (attestation_message c) sig = true ->
    N.of_nat (length (attestations_of n s)) < u32_max ->
    effect env s (attested env a n sig s)
| effect_disclose v c proof :
    authorized env v = true -> check_disclosure c proof env s = (Done _ tt, s) ->
    default 0 (DisclosureRecordCount s) < u64_max -> effect env s (disclosed env v c s).

(** ** Refinement *)

(** Running a call one statement at a time. *)
Ltac run_call :=
  unfold get_admin_or_err, get_admin_or_panic;
  unfold ok_or_fail, host, lift, incr, push_back, load, store, require_auth, ledger_timestamp;
  unfold mbind, call_bind, mret, call_ret, fail, trap; cbn.
Ltac split_call :=
  repeat (case_match; simplify_eq/=; try done).

Lemma admin_effect env s a (s' : Storage Address) :
  Admin s = Some a -> (by_admin env s -> effect env s s') ->
  effect env s match (if authorized env a then (Done unit tt, s') else (Trap unit, s)) with
               | (Done _ _, s') => s' | _ => s end.
Proof.
  intros Ha Hs. destruct (authorized env a) eqn:Hauth; [|constructor]. apply Hs. by exists a.
Qed.

Lemma commit_root_effect env s root metadata :
  effect env s (invoke (commit_root root metadata) env s).
Proof.
  unfold invoke, commit_root. run_call.
  destruct (Admin s) as [a|] eqn:Ha; cbn; [|constructor].
  destruct (authorized env a) eqn:Hauth; cbn; [|constructor].
  case_bool_decide as Hi; cbn; [constructor|].
  destruct (N.ltb_spec (default 0 (Sequence s)) u64_max); cbn; [|constructor].
  apply effect_commit; [by exists a|by apply eq_None_not_Some|done].
Qed.

Lemma commit_root_with_oplog_effect env s root oroot st en n metadata :
  effect env s (invoke (commit_root_with_oplog root oroot st en n metadata) env s).
Proof.
  unfold invoke, commit_root_with_oplog. run_call.
  destruct (Nat.eqb_spec (length oroot) 32); cbn; [|constructor].
  destruct (N.ltb_spec en st); cbn; [constructor|].
  case_bool_decide as Hi; cbn; [constructor|].
  destruct (N.ltb_spec (default 0 (Sequence s)) u64_max); cbn; [|constructor].
  apply (effect_commit_oplog env s root metadata
    {| oplog_root := oroot; oplog_start_ts := st; oplog_end_ts := en; oplog_entry_count := n |});
    [done|by apply eq_None_not_Some|done].
Qed.

Lemma attest_oplog_effect env s a n sig :
  effect env s (invoke (attest_oplog a n sig) env s).
Proof.
  unfold invoke, attest_oplog. run_call.
  destruct (authorized env a) eqn:Hauth; cbn; [|constructor].
  destruct (OplogCommitments s !! n) as [c|] eqn:Hc; cbn; [|constructor].
  destruct (attesters s !! a) as [key|] eqn:Hk; cbn; [|constructor].
  destruct (Nat.eqb_spec (length sig) 64); cbn; [|constructor].
  destruct (existsb _ _) eqn:Hex; cbn; [constructor|].
  destruct (ed25519_ok _ _ _) eqn:Hok; cbn; [|constructor].
  destruct (N.ltb_spec (N.of_nat (length (attestations_of n s))) u32_max); cbn; [|constructor].
  eapply effect_attest; try done. apply Forall_forall. intros x Hx Heq.
  apply not_true_iff_false in Hex. apply Hex, existsb_exists. exists x.
  split; [by apply list_elem_of_In|by apply bool_decide_eq_true].
Qed.

Lemma lift_state {A} (r : result CommitmentError A) env s : (lift r env s).2 = s.
Proof. by destruct r. Qed.

Lemma groth16_state vk proof signals env s : (groth16_verify vk proof signals env s).2 = s.
Proof. unfold groth16_verify. run_call. split_call. Qed.

Lemma check_disclosure_state c proof env s : (check_disclosure c proof env s).2 = s.
Proof.
  unfold check_disclosure. run_call. case_bool_decide; cbn; [|done].
  destruct (DisclosureVk s) as [vk|]; cbn; [|done].
  destruct (claim_signals c) as [signals|]; cbn; [|done]. apply groth16_state.
Qed.

Lemma disclose_effect env s v c proof :
  effect env s (invoke (verify_and_record_disclosure v c proof) env s).
Proof.
  unfold invoke, verify_and_record_disclosure. unfold mbind, call_bind, require_auth.
  destruct (authorized env v) eqn:Hauth; [|constructor].
  pose proof (check_disclosure_state c proof env s) as Hst.
  destruct (check_disclosure c proof env s) as [[[]|e|] s'] eqn:Hc; cbn in Hst; subst s';
    [|constructor..].
  run_call. destruct (N.ltb_spec (default 0 (DisclosureRecordCount s)) u64_max); [|constructor].
  by apply (effect_disclose env s v c proof).
Qed.

Lemma transact_effect_cases env m s : effect env s (transact env m s).
Proof.
  destruct m; cbn [transact];
    [| | |apply commit_root_effect|apply commit_root_with_oplog_effect| | |apply attest_oplog_effect
     | |apply disclose_effect];
    unfold invoke, initialize, set_admin, set_threshold, authorize_attester, revoke_attester,
      register_disclosure_vk; run_call.
  - destruct (Admin s) eqn:Ha; cbn; [constructor|].
    destruct (authorized env admin) eqn:Hauth; cbn; [|constructor]. by apply effect_initialize.
  - destruct (Admin s) as [a|] eqn:Ha; cbn; [|constructor].
    destruct (authorized env a) eqn:?; cbn; constructor. by exists a.
  - destruct (Admin s) as [a|] eqn:Ha; cbn; [|constructor].
    destruct (authorized env a) eqn:?; cbn; [|constructor].
    destruct (N.ltb_spec threshold 1); cbn; [constructor|]. constructor; [by exists a|done].
  - destruct (Nat.eqb_spec (length public_key) 32); cbn; [|constructor].
    destruct (Admin s) as [a|] eqn:Ha; cbn; [|constructor].
    destruct (authorized env a) eqn:?; cbn; constructor. by exists a.
  - destruct (Admin s) as [a|] eqn:Ha; cbn; [|constructor].
    destruct (authorized env a) eqn:?; cbn; [|constructor].
    destruct (AuthorizedAttesters s); cbn; constructor. by exists a.
  - destruct (Admin s) as [a|] eqn:Ha; cbn; [|constructor].
    destruct (authorized env a) eqn:?; cbn; [|constructor].
    destruct (DisclosureVk s) eqn:?; cbn; constructor; [by exists a|done].
Qed.

(** ** The invariant *)

Definition count s : N := default 0 (Sequence s).
Definition record_count s : N := default 0 (DisclosureRecordCount s).

(** The successful commits, as functions. *)
Lemma commit_root_with_oplog_run env s root oroot st en n metadata :
  length oroot = 32%nat -> st <= en -> root_index s !! root = None -> count s < u64_max ->
  transact env (CommitRootWithOplog root oroot st en n metadata) s =
    committed env root metadata
      (Some {| oplog_root := oroot; oplog_start_ts := st; oplog_end_ts := en;
               oplog_entry_count := n |}) s.
Proof.
  intros Hlen Hle Hroot Hn. cbn [transact]. unfold invoke, commit_root_with_oplog. run_call.
  rewrite (proj2 (Nat.eqb_eq _ _) Hlen). cbn. rewrite (proj2 (N.ltb_ge _ _) Hle). cbn.
  rewrite Hroot, bool_decide_eq_false_2 by by intros []. cbn.
  unfold count in Hn. by rewrite (proj2 (N.ltb_lt _ _) Hn).
Qed.

Lemma commit_root_run env s root metadata :
  by_admin env s -> root_index s !! root = None -> count s < u64_max ->
  transact env (CommitRoot root metadata) s = committed env root metadata None s.
Proof.
  intros (a & Ha & Hauth) Hroot Hn. cbn [transact]. unfold invoke, commit_root. run_call.
  rewrite Ha. cbn. rewrite Hauth. cbn.
  rewrite Hroot, bool_decide_eq_false_2 by by intros []. cbn.
  unfold count in Hn. by rewrite (proj2 (N.ltb_lt _ _) Hn).
Qed.

Lemma initialize_run env s a vk :
  Admin s = None -> authorized env a = true ->
  transact env (Initialize a vk) s =
    set_Vk vk (set_Threshold 1 (set_Sequence 0 (set_Admin a s))).
Proof.
  intros Ha Hauth. cbn [transact]. unfold invoke, initialize. run_call. rewrite Ha. cbn.
  by rewrite Hauth.
Qed.

(** An attestation that some registered key once verified. *)
Definition attestation_ok (c : OplogCommitment) (x : OplogAttestation Address) : Prop :=
  length (signature x) = 64%nat /\
  exists key, ed25519_ok key (attestation_message c) (signature x) = true.

Record ledger_ok s : Prop := {
  ok_admin : is_Some (Admin s);
  ok_vk : is_Some (Vk s);
  ok_threshold : exists t, Threshold s = Some t /\ 1 <= t;
  ok_bound : count s <= u64_max;
  ok_current : CurrentRoot s = if count s =? 0 then None else Some (count s);
  ok_entries i : is_Some (RootEntries s !! i) <-> 1 <= i <= count s;
  ok_numbered i e : RootEntries s !! i = Some e -> re_sequence e = i;
  ok_index r i : root_index s !! r = Some i <->
    exists e, RootEntries s !! i = Some e /\ re_root e = r;
  ok_oplog i c : OplogCommitments s !! i = Some c -> commitment_ok c /\ 1 <= i <= count s;
  ok_attest i l : OplogAttestations s !! i = Some l ->
    exists c, OplogCommitments s !! i = Some c /\ NoDup (attester <$> l) /\
      N.of_nat (length l) <= u32_max /\ Forall (attestation_ok c) l;
  ok_records i : is_Some (DisclosureRecords s !! i) <-> 1 <= i <= record_count s;
  ok_record i r : DisclosureRecords s !! i = Some r ->
    record_id r = i /\ is_Some (root_index s !! d_root r);
}.

(** What never disappears from the ledger. *)
Record extends s (s' : Storage Address) : Prop := {
  ext_entries i e : RootEntries s !! i = Some e -> RootEntries s' !! i = Some e;
  ext_index r i : root_index s !! r = Some i -> root_index s' !! r = Some i;
  ext_oplog i c : OplogCommitments s !! i = Some c -> OplogCommitments s' !! i = Some c;
  ext_attest i : attestations_of i s `prefix_of` attestations_of i s';
  ext_records i r : DisclosureRecords s !! i = Some r -> DisclosureRecords s' !! i = Some r;
  ext_vk vk : Vk s = Some vk -> Vk s' = Some vk;
  ext_disclosure_vk vk : DisclosureVk s = Some vk -> DisclosureVk s' = Some vk;
  ext_published : published s `prefix_of` published s';
}.

Lemma initialized_ok env a vk :
  authorized env a = true -> ledger_ok (transact env (Initialize a vk) (fresh (Address := Address))).
Proof.
  intros Ha. cbn [transact]. unfold invoke, initialize. run_call. rewrite Ha. cbn. split; cbn.
  - by eexists.
  - by eexists.
  - by exists 1.
  - done.
  - done.
  - intros i. rewrite lookup_empty. split; [by intros []|lia].
  - intros i e. by rewrite lookup_empty.
  - intros r i. unfold root_index. cbn. rewrite lookup_empty.
    split; [done|]. intros (e & He & _). by rewrite lookup_empty in He.
  - intros i c. by rewrite lookup_empty.
  - intros i l. by rewrite lookup_empty.
  - intros i. rewrite lookup_empty. split; [by intros []|lia].
  - intros i r. by rewrite lookup_empty.
Qed.

(** Committing a root, as seen by the parts of the ledger it does not touch. *)
Lemma committed_fields env root metadata oc s :
  let s' := committed env root metadata oc s in
  let n := next_sequence s in
  Admin s' = Admin s /\ Vk s' = Vk s /\ Threshold s' = Threshold s /\ Sequence s' = Some n /\
  CurrentRoot s' = Some n /\ RootEntries s' = <[n := new_entry env root metadata s]> (RootEntries s) /\
  root_index s' = <[root := n]> (root_index s) /\
  OplogCommitments s' = match oc with Some c => <[n := c]> (OplogCommitments s)
                                    | None => OplogCommitments s end /\
  OplogAttestations s' = OplogAttestations s /\ DisclosureRecords s' = DisclosureRecords s /\
  DisclosureRecordCount s' = DisclosureRecordCount s /\ DisclosureVk s' = DisclosureVk s.
Proof. by destruct oc. Qed.

Lemma committed_ok env root metadata oc s :
  ledger_ok s -> root_index s !! root = None -> count s < u64_max ->
  (forall c, oc = Some c -> commitment_ok c) -> ledger_ok (committed env root metadata oc s).
Proof.
  intros [] Hroot Hn Hoc.
  destruct (committed_fields env root metadata oc s)
    as (HA & HV & HT & HS & HC & HE & HI & HO & HAt & HR & HRc & _).
  assert (next_sequence s = count s + 1) as Hnext by done.
  assert (count (committed env root metadata oc s) = count s + 1) as Hcount
    by (unfold count at 1; by rewrite HS).
  assert (RootEntries s !! (count s + 1) = None) as Hnone.
  { apply eq_None_not_Some. intros Hs%ok_entries0. lia. }
  split.
  - by rewrite HA.
  - by rewrite HV.
  - by rewrite HT.
  - rewrite Hcount. lia.
  - rewrite HC, Hcount, Hnext. by destruct (N.eqb_spec (count s + 1) 0); [lia|].
  - intros i. rewrite HE, Hcount, Hnext. destruct (decide (i = count s + 1)) as [->|Hi].
    + rewrite lookup_insert_eq. split; [lia|by eexists].
    + rewrite lookup_insert_ne by done. rewrite ok_entries0. lia.
  - intros i e. rewrite HE, Hnext. destruct (decide (i = count s + 1)) as [->|Hi].
    + rewrite lookup_insert_eq. by intros [= <-].
    + rewrite lookup_insert_ne by done. apply ok_numbered0.
  - intros r i. rewrite HE, HI, Hnext. destruct (decide (r = root)) as [->|Hr].
    + rewrite lookup_insert_eq. split.
      * intros [= <-]. eexists. by rewrite lookup_insert_eq.
      * intros (e & He & Hre). destruct (decide (i = count s + 1)) as [->|Hi]; [done|].
        rewrite lookup_insert_ne in He by done.
        assert (root_index s !! root = Some i) by (apply ok_index0; by exists e). congruence.
    + rewrite lookup_insert_ne by done. rewrite ok_index0. split; intros (e & He & Hre).
      * exists e. rewrite lookup_insert_ne; [done|]. intros <-. congruence.
      * destruct (decide (i = count s + 1)) as [->|Hi].
        -- rewrite lookup_insert_eq in He. injection He as <-. done.
        -- rewrite lookup_insert_ne in He by done. by exists e.
  - intros i c. rewrite HO, Hcount, Hnext. intros Hc.
    assert (OplogCommitments s !! i = Some c -> commitment_ok c /\ 1 <= i <= count s + 1) as Hold.
    { intros Hold. destruct (ok_oplog0 _ _ Hold). split; [done|lia]. }
    destruct oc as [c'|]; [|by apply Hold]. destruct (decide (i = count s + 1)) as [->|Hi].
    + rewrite lookup_insert_eq in Hc. injection Hc as ->. split; [by apply Hoc|lia].
    + rewrite lookup_insert_ne in Hc by done. by apply Hold.
  - intros i l. rewrite HAt, HO. intros Hl. destruct (ok_attest0 _ _ Hl) as (c & Hc & Hrest).
    exists c. split; [|done]. destruct oc as [c'|]; [|done].
    rewrite lookup_insert_ne; [done|]. intros <-. apply ok_oplog0 in Hc. rewrite Hnext in *. lia.
  - intros i. unfold record_count. by rewrite HR, HRc.
  - intros i r. rewrite HR, HI. intros [? Hr]%ok_record0. split; [done|].
    destruct (decide (d_root r = root)) as [->|Hne].
    + rewrite lookup_insert_eq. by eexists.
    + by rewrite lookup_insert_ne.
Qed.

Lemma attested_ok env a n sig c key s :
  ledger_ok s -> OplogCommitments s !! n = Some c -> length sig = 64%nat ->
  Forall (fun x => attester x <> a) (attestations_of n s) ->
  ed25519_ok key (attestation_message c) sig = true ->
  N.of_nat (length (attestations_of n s)) < u32_max -> ledger_ok (attested env a n sig s).
Proof.
  intros [] Hc Hsig Hnew Hok Hlen. split; cbn; try done.
  intros i l. destruct (decide (i = n)) as [->|Hi]; [|by rewrite lookup_insert_ne; eauto].
  rewrite lookup_insert_eq. intros [= <-]. exists c. split; [done|].
  assert (NoDup (attester <$> attestations_of n s) /\
          Forall (attestation_ok c) (attestations_of n s)) as [Hnd Hall].
  { unfold attestations_of. destruct (OplogAttestations s !! n) as [l|] eqn:Hl; cbn.
    - destruct (ok_attest0 _ _ Hl) as (c' & Hc' & ? & _ & ?).
      rewrite Hc in Hc'. by injection Hc' as <-.
    - split; constructor. }
  split_and!.
  - rewrite fmap_app. apply NoDup_app. split; [done|]. split; [|apply NoDup_singleton].
    intros x (y & -> & Hy)%list_elem_of_fmap. cbn. rewrite list_elem_of_singleton.
    rewrite Forall_forall in Hnew. by apply Hnew.
  - rewrite length_app. cbn. lia.
  - apply Forall_app_2; [done|]. constructor; [|constructor]. split; [done|by exists key].
Qed.

Lemma check_disclosure_root c proof env s :
  check_disclosure c proof env s = (Done _ tt, s) -> is_Some (root_index s !! c_root c).
Proof. unfold check_disclosure. run_call. case_bool_decide; cbn; [done|discriminate]. Qed.

Lemma disclosed_ok env v c s :
  ledger_ok s -> is_Some (root_index s !! c_root c) -> ledger_ok (disclosed env v c s).
Proof.
  intros [] Hroot. split; cbn; try done.
  - intros i. unfold record_count. cbn. destruct (decide (i = default 0 (DisclosureRecordCount s) + 1)) as [->|Hi].
    + rewrite lookup_insert_eq. split; [lia|by eexists].
    + rewrite lookup_insert_ne by done. rewrite ok_records0. unfold record_count. lia.
  - intros i r. destruct (decide (i = default 0 (DisclosureRecordCount s) + 1)) as [->|Hi].
    + rewrite lookup_insert_eq. intros [= <-]. done.
    + rewrite lookup_insert_ne by done. apply ok_record0.
Qed.

Lemma effect_ok env s (s' : Storage Address) : ledger_ok s -> effect env s s' -> ledger_ok s'.
Proof.
  intros Hok [|a vk Hnone _|a _|t _ Ht|ks _|vk _ _|root metadata _ Hr Hn|root metadata c Hc Hr Hn
             |a n sig c key _ Hc _ Hl Hnew Hv Hlen|v c proof _ Hchk Hn].
  - done.
  - destruct (ok_admin _ Hok). congruence.
  - destruct Hok. by split.
  - destruct Hok. split; try done. by exists t.
  - destruct Hok. by split.
  - destruct Hok. by split.
  - by apply committed_ok.
  - apply committed_ok; [done..|]. by intros c' [= <-].
  - by eapply attested_ok.
  - apply disclosed_ok; [done|]. by eapply check_disclosure_root.
Qed.

Lemma reachable_ok s : reachable s -> ledger_ok s.
Proof.
  induction 1 as [env a vk Ha|env m s _ IH]; [by apply initialized_ok|].
  eapply effect_ok; [done|apply transact_effect_cases].
Qed.

(** ** Append-only *)

Lemma extends_refl s : extends s s.
Proof. by split. Qed.

Lemma extends_trans s1 s2 s3 : extends s1 s2 -> extends s2 s3 -> extends s1 s3.
Proof. intros [] []. split; eauto; intros; etrans; eauto. Qed.

Lemma committed_extends env root metadata oc s :
  ledger_ok s -> root_index s !! root = None -> extends s (committed env root metadata oc s).
Proof.
  intros [] Hroot.
  destruct (committed_fields env root metadata oc s)
    as (_ & HV & _ & _ & _ & HE & HI & HO & HAt & HR & _ & HD).
  assert (forall i, 1 <= i <= count s -> next_sequence s <> i) as Hnew
    by (unfold next_sequence, count; lia).
  split.
  - intros i e He. rewrite HE, lookup_insert_ne; [done|]. apply Hnew, ok_entries0. by exists e.
  - intros r i Hi. rewrite HI, lookup_insert_ne; [done|]. congruence.
  - intros i c Hc. rewrite HO. destruct oc as [c'|]; [|done].
    rewrite lookup_insert_ne; [done|]. by eapply Hnew, ok_oplog0.
  - intros i. unfold attestations_of. by rewrite HAt.
  - intros i r. by rewrite HR.
  - intros vk. by rewrite HV.
  - intros vk. by rewrite HD.
  - destruct oc; cbn; [rewrite <-app_assoc|]; by eexists.
Qed.

Lemma attested_extends env a n sig s : extends s (attested env a n sig s).
Proof.
  split; cbn; try done.
  - intros i. unfold attestations_of. cbn. destruct (decide (i = n)) as [->|Hi].
    + rewrite lookup_insert_eq. by eexists.
    + by rewrite lookup_insert_ne.
  - by eexists.
Qed.

Lemma disclosed_extends env v c s : ledger_ok s -> extends s (disclosed env v c s).
Proof.
  intros []. split; cbn; try done.
  - intros i r Hr. rewrite lookup_insert_ne; [done|]. intros <-.
    assert (1 <= default 0 (DisclosureRecordCount s) + 1 <= record_count s)
      by (apply ok_records0; by exists r). unfold record_count in *. lia.
  - by eexists.
Qed.

Lemma effect_extends env s (s' : Storage Address) : ledger_ok s -> effect env s s' -> extends s s'.
Proof.
  intros Hok He. pose proof (ok_admin _ Hok) as [ad Had].
  destruct He; try (by split); try (by apply committed_extends).
  - congruence.
  - split; try done. cbn. congruence.
  - apply attested_extends.
  - by apply disclosed_extends.
Qed.

(** Many transactions. *)
Definition transact_all (txs : list (Env Address * message Address)) s : Storage Address :=
  foldl (fun s tx => transact tx.1 tx.2 s) s txs.

Lemma transact_all_extends txs s : ledger_ok s -> ledger_ok (transact_all txs s) /\ extends s (transact_all txs s).
Proof.
  revert s. induction txs as [|[env m] txs IH]; intros s Hok; cbn.
  - split; [done|apply extends_refl].
  - pose proof (transact_effect_cases env m s) as He.
    destruct (IH (transact env m s)) as [Hok' Hext]; [by eapply effect_ok|].
    split; [done|]. eapply extends_trans; [by eapply effect_extends|done].
Qed.

(** C1: the contract refines its specification: whatever the caller, the entry point and
    its arguments, one transaction has one of the listed effects, each with the
    authorization and the checks the specification demands of it, or none. *)
Theorem transact_refines_effect env m s : effect env s (transact env m s).
Proof. apply transact_effect_cases. Qed.

(** C3: the ledger of an initialized contract is always well formed: sequence numbers are
    dense and label their entries, the index is exactly the inverse of the entries, so no
    root is committed twice, the current root is the last one; oplog commitments carry
    32-byte roots and ordered ranges of committed sequences; each sequence has at most one
    attestation per attester, every one with a verified signature over its commitment;
    disclosure records are dense and name committed roots. *)
Theorem reachable_ledger_ok s : reachable s -> ledger_ok s.
Proof. apply reachable_ok. Qed.

(** C4: append-only: for a contract whose first transaction is its initialization, no
    sequence of transactions, by anyone, removes or changes a root
    entry, an index entry, an oplog commitment, an attestation, a disclosure record, an
    event or a pinned verifying key. *)
Theorem ledger_append_only s txs : reachable s -> extends s (transact_all txs s).
Proof. intros Hr. by apply transact_all_extends, reachable_ok. Qed.

(** Only the admin changes the configuration: a transaction that changes the admin,
    the threshold, the attesters or a verifying key of an initialized contract was
    authorized by the current admin. *)
Theorem configuration_admin_only s env m :
  reachable s ->
  let s' := transact env m s in
  Admin s' <> Admin s \/ Threshold s' <> Threshold s \/
  AuthorizedAttesters s' <> AuthorizedAttesters s \/ Vk s' <> Vk s \/
  DisclosureVk s' <> DisclosureVk s -> by_admin env s.
Proof.
  intros Hr s' Hch. pose proof (reachable_ok _ Hr) as Hok. pose proof (ok_admin _ Hok) as [ad Had].
  pose proof (transact_effect_cases env m s) as He. fold s' in He. clearbody s'.
  destruct He; try done.
  - tauto.
  - congruence.
  - cbn in Hch. tauto.
  - cbn in Hch. tauto.
  - cbn in Hch. tauto.
Qed.

(** C11: but not only the admin commits roots: with no authorization at all, any caller can
    commit a fresh root through [commit_root_with_oplog], and afterwards the admin's own
    commit of that root fails for ever. *)
Theorem anyone_commits_roots s env root oroot st en n metadata :
  reachable s -> (forall a, authorized env a = false) ->
  root_index s !! root = None -> count s < u64_max -> length oroot = 32%nat -> st <= en ->
  let s' := transact env (CommitRootWithOplog root oroot st en n metadata) s in
  CurrentRoot s' = Some (count s + 1) /\
  (exists e, RootEntries s' !! (count s + 1) = Some e /\ re_root e = root /\ re_metadata e = metadata) /\
  forall txs env' metadata', by_admin env' (transact_all txs s') ->
    (commit_root root metadata' env' (transact_all txs s')).1 = Fail _ RootAlreadyCommitted.
Proof.
  intros Hr _ Hroot Hn Hlen Hle s'. pose proof (reachable_ok _ Hr) as Hok.
  set (c := {| oplog_root := oroot; oplog_start_ts := st; oplog_end_ts := en; oplog_entry_count := n |}).
  assert (s' = committed env root metadata (Some c) s) as Hs'.
  { by apply commit_root_with_oplog_run. }
  rewrite Hs'. split; [done|]. split; [eexists; cbn; by rewrite lookup_insert_eq|].
  intros txs env' metadata' (a & Ha & Hauth).
  assert (ledger_ok s') as Hok' by (eapply effect_ok; [done|apply transact_effect_cases]).
  rewrite Hs' in Hok'.
  destruct (transact_all_extends txs _ Hok') as [_ Hext].
  assert (root_index (transact_all txs (committed env root metadata (Some c) s)) !! root
          = Some (count s + 1)) as Hin.
  { apply (ext_index _ _ Hext). cbn. unfold root_index. cbn. by rewrite lookup_insert_eq. }
  clear Hext. revert Ha Hin. generalize (transact_all txs (committed env root metadata (Some c) s)).
  intros s2 Ha Hin. unfold commit_root. run_call. rewrite Ha. cbn. rewrite Hauth. cbn. rewrite Hin.
  by rewrite bool_decide_eq_true_2.
Qed.

(** ** The verdict on attestations *)

Lemma filter_length_all {A} (P : A -> Prop) `{!forall x, Decision (P x)} (l : list A) :
  length (filter P l) = length l <-> Forall P l.
Proof.
  induction l as [|x l IH]; [done|]. rewrite filter_cons, Forall_cons. case_decide; cbn.
  - rewrite <-IH. split; [intros ?; split; [done|lia]|lia].
  - pose proof (length_filter P l). split; [lia|tauto].
Qed.

(** The distinct attesters of a sequence. *)
Definition attesters_of n s : gset Address := list_to_set (attester <$> attestations_of n s).

Lemma attestations_nodup n s : ledger_ok s -> NoDup (attester <$> attestations_of n s).
Proof.
  intros []. unfold attestations_of. destruct (OplogAttestations s !! n) as [l|] eqn:Hl; [|constructor].
  by destruct (ok_attest0 _ _ Hl) as (c & _ & Hnd & _).
Qed.

(** C9: the K-of-N rule: the contract answers "verified" (and only then sets [all_match])
    exactly when the sequence has attestations, every one of them is from an attester that
    is authorized now, and the distinct attesters are at least the threshold; a sequence
    without an oplog commitment has no answer. *)
Theorem verdict_k_of_n s env n :
  reachable s ->
  match OplogCommitments s !! n with
  | None => verify_attestation n env s = (Fail _ OplogCommitmentNotFound, s)
  | Some c =>
    exists v, verify_attestation n env s = (Done _ v, s) /\ v_oplog_root v = oplog_root c /\
      attestation_count v = N.of_nat (size (attesters_of n s)) /\
      (verdict v = "verified"%string <-> all_match v = true) /\
      (all_match v = true <->
       attesters_of n s <> ∅ /\ attesters_of n s ⊆ dom (attesters s) /\
       default 1 (Threshold s) <= N.of_nat (size (attesters_of n s)))
  end.
Proof.
  intros Hr. pose proof (attestations_nodup n s (reachable_ok _ Hr)) as Hnd.
  destruct (OplogCommitments s !! n) as [c|] eqn:Hc;
    [|unfold verify_attestation; run_call; by rewrite Hc].
  unfold verify_attestation, get_threshold. run_call. rewrite Hc. cbn.
  set (l := attestations_of n s) in *.
  set (auth := filter (fun a => is_Some (attesters s !! attester a)) l).
  assert (size (attesters_of n s) = length l) as Hsize.
  { unfold attesters_of. fold l. rewrite size_list_to_set by done. apply length_fmap. }
  assert (attesters_of n s = ∅ <-> length l = 0%nat) as Hempty.
  { rewrite <-Hsize, size_empty_iff. by rewrite leibniz_equiv_iff. }
  assert (attesters_of n s ⊆ dom (attesters s) <-> length auth = length l) as Hsub.
  { unfold auth. rewrite filter_length_all, Forall_forall. unfold attesters_of. fold l.
    split.
    - intros Hs x Hx. apply elem_of_dom, Hs, elem_of_list_to_set, list_elem_of_fmap. by exists x.
    - intros Hs a (x & -> & Hx)%elem_of_list_to_set%list_elem_of_fmap. by apply elem_of_dom, Hs. }
  pose proof (length_filter (fun a => is_Some (attesters s !! attester a)) l) as Hle.
  fold auth in Hle.
  destruct (N.eqb_spec (N.of_nat (length l)) 0);
    [|destruct (N.ltb_spec (N.of_nat (length auth)) (N.of_nat (length l)));
      [|destruct (N.leb_spec (default 1 (Threshold s)) (N.of_nat (length auth)))]];
    (eexists; split; [reflexivity|]); cbn; rewrite Hsub, Hempty, Hsize;
    (split; [done|]); (split; [done|]); (split; [done|]); split; try done; intros; try lia.
Qed.

(** ** Pages *)

Lemma page_lookup {A} (get : N -> option A) current n :
  (forall k, (k < n)%nat -> is_Some (get (current - N.of_nat k))) ->
  length (page get current n) = n /\
  forall k, (k < n)%nat -> page get current n !! k = get (current - N.of_nat k).
Proof.
  revert current. induction n as [|n IH]; intros current Hget; cbn [page].
  - split; [done|lia].
  - destruct (Hget 0%nat ltac:(lia)) as [a Ha]. rewrite N.sub_0_r in Ha. rewrite Ha.
    destruct (IH (current - 1)) as [Hlen Hk].
    { intros k Hk. replace (current - 1 - N.of_nat k) with (current - N.of_nat (S k)) by lia.
      apply Hget. lia. }
    cbn. split; [by rewrite Hlen|]. intros [|k] Hlt; cbn.
    + by rewrite N.sub_0_r.
    + rewrite Hk by lia. f_equal. lia.
Qed.

(** History pages: a limit between 1 and 100 returns the latest entries, most recent
    first, as many as the limit allows and the ledger has, without a gap; any other limit
    is an error. *)
Theorem root_history_page s env limit :
  reachable s ->
  if (limit =? 0) || (100 <? limit) then get_root_history limit env s = (Fail _ InvalidPageSize, s)
  else exists l, get_root_history limit env s = (Done _ l, s) /\
         length l = N.to_nat (N.min limit (count s)) /\
         forall k, (k < length l)%nat ->
           l !! k = RootEntries s !! (count s - N.of_nat k) /\ is_Some (l !! k).
Proof.
  intros Hr. pose proof (reachable_ok _ Hr) as []. unfold get_root_history.
  destruct (_ || _) eqn:Hl; [done|]. run_call. rewrite ok_current0.
  destruct (N.eqb_spec (count s) 0) as [Hz|Hz]; cbn.
  { exists []. rewrite Hz, N.min_0_r. cbn. split; [done|]. split; [done|]. cbn. lia. }
  rewrite (proj2 (N.eqb_neq _ _) Hz). cbn. eexists. split; [reflexivity|].
  unfold last_entries, start_of.
  set (n := N.to_nat _).
  assert (n = N.to_nat (N.min limit (count s))) as Hn.
  { unfold n. destruct (N.leb_spec limit (count s)); lia. }
  destruct (page_lookup (fun seq => RootEntries s !! seq) (count s) n) as [Hlen Hk].
  { intros k Hk. apply ok_entries0. lia. }
  rewrite Hlen. split; [done|]. intros k Hlt. rewrite Hk by done. split; [done|].
  apply ok_entries0. lia.
Qed.

(** ** Verification *)

(** The Groth16 equation, over a verifying key of the right shape. *)
Definition groth16_accepts (vk : VerifyingKey) (proof : Proof) (signals : list Fr) : Prop :=
  well_encoded vk proof = true /\
  exists ic0 points vk_x, ic vk = ic0 :: points /\ length points = length signals /\
    accumulate (G1_from_bytes ic0) signals points = Some vk_x /\
    pairing_check
      [g1_neg (G1_from_bytes (pf_a proof)); G1_from_bytes (alpha vk); vk_x; G1_from_bytes (pf_c proof)]
      [G2_from_bytes (pf_b proof); G2_from_bytes (beta vk); G2_from_bytes (gamma vk);
       G2_from_bytes (delta vk)] = Some true.

Lemma groth16_verify_Done vk proof signals env s :
  groth16_verify vk proof signals env s = (Done _ tt, s) <-> groth16_accepts vk proof signals.
Proof.
  unfold groth16_verify, groth16_accepts. run_call. rewrite Nat.add_1_r.
  destruct (well_encoded vk proof); cbn; [|split; [done|by intros []]].
  destruct (ic vk) as [|ic0 points] eqn:Hic; cbn.
  { split; [|by intros (_ & ic0 & points & v & [=] & _)]. done. }
  destruct (Nat.eqb_spec (length points) (length signals)) as [Hl|Hl]; cbn.
  2:{ split; [done|]. intros (_ & ? & ? & ? & [= <- <-] & ? & _). lia. }
  destruct (accumulate _ _ _) as [vk_x|] eqn:Hacc; cbn.
  2:{ split; [done|]. intros (_ & ? & ? & ? & [= <- <-] & _ & Ha & _). congruence. }
  destruct (pairing_check _ _) as [[]|] eqn:Hp; cbn.
  - split; [|done]. intros _. split; [done|]. exists ic0, points, vk_x. split; [done|].
    split; [lia|done].
  - split; [done|]. intros (_ & ? & ? & ? & [= <- <-] & _ & Ha & Hp'). congruence.
  - split; [done|]. intros (_ & ? & ? & ? & [= <- <-] & _ & Ha & Hp'). congruence.
Qed.

(** An inclusion proof is accepted exactly when the root is committed, root and leaf
    are 32 bytes, and the Groth16 equation holds under the key pinned at initialization
    with the public signals root and leaf; it is never answered with false, and verifying
    changes nothing. *)
Theorem verify_inclusion_accepts_iff s env root leaf proof r s' :
  verify_inclusion root leaf proof env s = (Done _ r, s') <->
  r = true /\ s' = s /\ is_Some (root_index s !! root) /\
  length root = 32%nat /\ length leaf = 32%nat /\
  exists vk, Vk s = Some vk /\
    groth16_accepts vk proof [Fr_from_bytes root; Fr_from_bytes leaf].
Proof.
  unfold verify_inclusion. run_call. unfold fr_from_bytes32.
  case_bool_decide as Hroot; cbn; [|split; [done|tauto]].
  destruct (Vk s) as [vk|] eqn:Hvk; cbn; [|split; [done|by intros (_ & _ & _ & _ & _ & ? & ? & _)]].
  destruct (Nat.eqb_spec (length root) 32); cbn; [|split; [done|tauto]].
  destruct (Nat.eqb_spec (length leaf) 32); cbn; [|split; [done|tauto]].
  pose proof (groth16_state vk proof [Fr_from_bytes root; Fr_from_bytes leaf] env s) as Hst.
  pose proof (groth16_verify_Done vk proof [Fr_from_bytes root; Fr_from_bytes leaf] env s) as Hiff.
  destruct (groth16_verify vk proof _ env s) as [[[]|err|] s1]; cbn in Hst; subst s1.
  - split; [|by intros (-> & -> & _)]. intros [= <- <-]. split_and!; try done.
    exists vk. split; [done|]. by apply Hiff.
  - split; [done|]. intros (_ & _ & _ & _ & _ & ? & [= <-] & Hacc). by apply Hiff in Hacc.
  - split; [done|]. intros (_ & _ & _ & _ & _ & ? & [= <-] & Hacc). by apply Hiff in Hacc.
Qed.

(** Every disclosure record was proven: when a transaction adds a record, its verifier
    authorized it and the Groth16 equation held for exactly the recorded claim under the
    pinned disclosure key. *)
Theorem disclosure_records_proven s env m i r :
  reachable s ->
  DisclosureRecords s !! i = None -> DisclosureRecords (transact env m s) !! i = Some r ->
  authorized env (verifier r) = true /\ i = record_count s + 1 /\
  exists vk proof c signals, DisclosureVk s = Some vk /\ claim_signals c = Ok signals /\
    groth16_accepts vk proof signals /\ r = disclosure_record i (verifier r) c (timestamp env).
Proof.
  intros Hr Hnone Hsome. pose proof (transact_effect_cases env m s) as He.
  revert Hsome. destruct He as [| | | | | |? ? ? ? ?|? ? c ? ? ?| |v c proof Hauth Hchk Hn]; cbn; try congruence.
  intros Hi. destruct (decide (i = default 0 (DisclosureRecordCount s) + 1)) as [->|Hne].
  2:{ rewrite lookup_insert_ne in Hi by done. congruence. }
  rewrite lookup_insert_eq in Hi. injection Hi as <-. cbn. split; [done|]. split; [done|].
  revert Hchk. unfold check_disclosure. run_call. case_bool_decide; cbn; [|discriminate].
  destruct (DisclosureVk s) as [vk|] eqn:Hvk; cbn; [|discriminate].
  destruct (claim_signals c) as [signals|] eqn:Hs; cbn; [|discriminate].
  intros Hg%groth16_verify_Done. by exists vk, proof, c, signals.
Qed.

(** ** Before initialization *)

(** The log is not append-only across [initialize]: a root committed through
    [commit_root_with_oplog] before initialization, which nothing forbids, loses its entry
    to the admin's first root, while the index still answers with it and its oplog
    commitment now stands for the admin's root. *)
Theorem commit_before_initialize_overwritten env1 env2 env3 root1 oroot st en n metadata1
    admin vk root2 metadata2 :
  length oroot = 32%nat -> st <= en -> authorized env2 admin = true ->
  authorized env3 admin = true -> root1 <> root2 ->
  let s1 := transact env1 (CommitRootWithOplog root1 oroot st en n metadata1) fresh in
  let s3 := transact env3 (CommitRoot root2 metadata2) (transact env2 (Initialize admin vk) s1) in
  re_root <$> RootEntries s1 !! 1 = Some root1 /\
  re_root <$> RootEntries s3 !! 1 = Some root2 /\
  root_index s3 !! root1 = Some 1 /\ root_index s3 !! root2 = Some 1 /\
  OplogCommitments s3 !! 1 = Some {| oplog_root := oroot; oplog_start_ts := st;
                                      oplog_end_ts := en; oplog_entry_count := n |}.
Proof.
  intros Hl Hle H2 H3 Hne s1 s3. unfold s3.
  assert (s1 = committed env1 root1 metadata1
                 (Some {| oplog_root := oroot; oplog_start_ts := st; oplog_end_ts := en;
                          oplog_entry_count := n |}) fresh) as Hs1
    by (by apply commit_root_with_oplog_run).
  assert (next_sequence (fresh (Address := Address)) = 1) as H1 by done.
  destruct (committed_fields env1 root1 metadata1
    (Some {| oplog_root := oroot; oplog_start_ts := st; oplog_end_ts := en;
             oplog_entry_count := n |}) fresh)
    as (HA & _ & _ & _ & _ & HE & HI & HO & _).
  rewrite <-Hs1 in HA, HE, HI, HO. rewrite H1 in HE, HI, HO. clear H1 Hs1 s3. clearbody s1.
  rewrite initialize_run by done.
  set (s2 := set_Vk vk _).
  assert (root_index s2 = root_index s1 /\ RootEntries s2 = RootEntries s1 /\
          OplogCommitments s2 = OplogCommitments s1 /\ next_sequence s2 = 1 /\ count s2 = 0 /\
          Admin s2 = Some admin) as (HI2 & HE2 & HO2 & Hn2 & Hc2 & HA2) by done.
  clearbody s2. rewrite HI in HI2. rewrite HE in HE2. rewrite HO in HO2.
  assert (root_index (fresh (Address := Address)) = ∅) as H0 by done. rewrite H0 in HI, HI2.
  rewrite commit_root_run; [|by exists admin|by rewrite HI2, lookup_insert_ne, lookup_empty|
    by rewrite Hc2].
  destruct (committed_fields env3 root2 metadata2 None s2)
    as (_ & _ & _ & _ & _ & HE3 & HI3 & HO3 & _).
  rewrite HE3, HI3, HO3, Hn2, HE, HI2, HO2, !lookup_insert_eq. split_and!; try done.
  by rewrite lookup_insert_ne, lookup_insert_eq.
Qed.
End spec.
