(* ===== verification/StellarSpec.v ===== *)
(** * What the Stellar client guarantees (audit/stellar_native.rs)

    No call is submitted again once a submission was accepted; a confirmation that is
    polled for ends, unless the endpoint keeps answering with an error status; the fee of a
    transaction; what the readers make of the values the contract returns. *)

From S2P Require Import Prelude.
From S2P Require Import Bytes.
From S2P Require Import Text.
From S2P Require Import Interfaces.
From S2P Require Import AuditError.
From S2P Require Import SledStore.
From S2P Require Import Strkey.
From S2P Require Import SorobanValues.
From S2P Require Import StellarNative.
From S2P Require Import Contract.
Local Open Scope Z_scope.

Section submission.
Context {Hx : Hex} {B64 : Base64} {Sha : Sha256} {Sg : Signer} {Xdr : StellarXdr}.
Context {Pay : PayloadXdr} {Rpc : SorobanRpc}.
Implicit Types w : NetWorld.

(** ** Only [send_transaction] writes to the record *)

Definition same_sent (w w' : NetWorld) : Prop := sent w' = sent w.
#[local] Instance same_sent_preorder : PreOrder same_sent.
Proof. split; [done|]. intros w1 w2 w3 H12 H23. unfold same_sent in *. congruence. Qed.
Abbreviation quiet := (keeps same_sent).

Lemma quiet_ret {A} (a : A) : quiet (mret a : netM A).
Proof. by intros w. Qed.
Lemma quiet_bind {A B} (m : netM A) (f : A -> netM B) :
  quiet m -> (forall a, quiet (f a)) -> quiet (m ≫= f).
Proof. exact (keeps_bind same_sent m f). Qed.
Lemma quiet_raise {A} e : quiet (raise e : netM A).
Proof. by intros w. Qed.
Lemma quiet_throw {A} e : quiet (throw e : netM A).
Proof. by intros w. Qed.
Lemma quiet_try {A} (r : AuditResult A) : quiet (try r).
Proof. by destruct r. Qed.
Lemma quiet_request {A} (f : Net -> A * Net) : quiet (request f).
Proof. intros w. unfold request. by destruct (f (net w)). Qed.
Lemma quiet_rpc_result {A} method (r : http A) : quiet (rpc_result method r).
Proof. destruct r as [| | | e body|[a|] [[]|]]; try by intros w. cbn. by destruct (cut_ok body). Qed.

#[local] Hint Resolve quiet_ret quiet_bind quiet_raise quiet_throw quiet_try quiet_request quiet_rpc_result : quiet.
Ltac solve_quiet := repeat first
  [ progress eauto with quiet | apply quiet_bind; [|intros] | case_match ].

Lemma quiet_sequence pk : quiet (get_account_sequence_from_rpc pk).
Proof. unfold get_account_sequence_from_rpc. solve_quiet. Qed.
Lemma quiet_simulate tx : quiet (simulate_transaction tx).
Proof. unfold simulate_transaction. solve_quiet. Qed.
Lemma quiet_attach tx sim : quiet (attach_soroban_data_and_auth tx sim).
Proof. unfold attach_soroban_data_and_auth, sim_transaction_data. solve_quiet. Qed.
Lemma quiet_outcome r : quiet (send_outcome r).
Proof. unfold send_outcome. solve_quiet. Qed.
Lemma quiet_wait polls attempt h : quiet (wait_for_transaction polls attempt h).
Proof. revert attempt. induction polls as [|polls IH]; intros attempt; cbn; solve_quiet. Qed.

(** ** What is sent *)

(** The transaction differs from the one that was built in fee, authorization and data. *)
Definition completes (tx signed : Transaction) : Prop :=
  source_account signed = source_account tx /\ seq_num signed = seq_num tx /\
  host_function signed = host_function tx /\ is_Some (ext signed).

(** An envelope for a call: built for some sequence number and signed with the key. *)
Definition signed_call (kp : StellarKeypair) (passphrase : string)
    (build : Z -> AuditResult Transaction) (env : TransactionEnvelope) : Prop :=
  exists seq tx, build seq = Ok tx /\ completes tx (env_tx env) /\
    env_signatures env = [sign_transaction (env_tx env) (signing_key kp) passphrase].

(** The reply means that the transaction was rejected for its sequence number, or that it
    was accepted under a hash. *)
Definition bad_seq (reply : http SendResult) : Prop :=
  exists e, (forall w, send_outcome reply w = (Err (Raised e), w)) /\ is_bad_seq_error e = true.
Definition accepted (reply : http SendResult) (h : string) : Prop :=
  forall w, send_outcome reply w = (Ok h, w).

(** The network answered a poll for the transaction with success, and is in state [n'] since. *)
Definition confirmed (h : string) (n' : Net) : Prop :=
  exists n tx_res error, post_get_transaction h n = (Parsed (Some tx_res) error, n') /\
    tx_status tx_res = "SUCCESS"%string.

Lemma attach_completes tx sim w signed w' :
  attach_soroban_data_and_auth tx sim w = (Ok signed, w') -> completes tx signed.
Proof.
  unfold attach_soroban_data_and_auth. intros H.
  apply stateR_bind_Ok in H as (data & w1 & _ & H).
  apply stateR_bind_Ok in H as (x & w2 & _ & H).
  apply stateR_bind_Ok in H as (sd & w3 & _ & H).
  apply stateR_bind_Ok in H as (au & w4 & _ & H). injection H as <- _. by split_and!.
Qed.

(** The outcome of a reply does not depend on the state. *)
Lemma outcome_pure reply w :
  exists r, (forall w', send_outcome reply w' = (r, w')) /\ send_outcome reply w = (r, w).
Proof.
  assert (exists r, forall w', send_outcome reply w' = (r, w')) as [r Hr].
  { unfold send_outcome. destruct reply as [| | | e body|[a|] [[]|]]; try by eexists.
    - unfold rpc_result. destruct (cut_ok body); by eexists.
    - unfold mbind, stateR_bind. cbn [rpc_result mret stateR_ret]. destruct (bool_decide _); by eexists. }
  exists r. auto.
Qed.

Lemma bind_run {A B} (m : netM A) (f : A -> netM B) w r w2 :
  (m ≫= f) w = (r, w2) ->
  (exists e, m w = (Err e, w2) /\ r = Err e) \/ (exists a w1, m w = (Ok a, w1) /\ f a w1 = (r, w2)).
Proof.
  unfold mbind, stateR_bind. destruct (m w) as [[a|e] w1]; intros H; [by right; eauto|].
  injection H as <- <-. left. by eexists.
Qed.

(** One round of the loop up to the sending: nothing was sent, or one envelope of the call. *)
Lemma catch_send_run env w r w' :
  catch_error (send_transaction env) w = (r, w') ->
  exists reply, sent w' = sent w ++ [(env, reply)] /\
    match r with
    | Ok (Ok h) => accepted reply h
    | Ok (Err e) => forall w, send_outcome reply w = (Err (Raised e), w)
    | Err _ => True
    end.
Proof.
  unfold catch_error, send_transaction, request, mbind, stateR_bind, modify. cbn.
  destruct (post_send env (net w)) as [reply n]. cbn.
  destruct (outcome_pure reply {| net := n; sent := sent w ++ [(env, reply)] |}) as (o & Hpure & ->).
  intros H. exists reply. destruct o as [h|[e|msg|]]; injection H as <- <-; by split.
Qed.

(** A part of the round that sends nothing: it stops the loop, or the round goes on. *)
Lemma quiet_step {A B} (m : netM A) (f : A -> netM B) w r w' :
  quiet m -> (m ≫= f) w = (r, w') ->
  (exists e, r = Err e /\ sent w' = sent w) \/ (exists a w1, m w = (Ok a, w1) /\ sent w1 = sent w /\ f a w1 = (r, w')).
Proof.
  intros Hq H. pose proof (Hq w) as Hw. unfold same_sent in Hw.
  apply bind_run in H as [(e & Hm & ->)|(a & w1 & Hm & Hf)]; rewrite Hm in Hw; cbn in Hw; [left|right]; eauto 10.
Qed.

Lemma last_call {A} (l : list A) x : last (l ++ [x]) = Some x.
Proof. apply last_snoc. Qed.

(** What a run of the loop adds to the record. *)
Definition logged (kp : StellarKeypair) (passphrase : string) (build : Z -> AuditResult Transaction)
    (bound : nat) (w : NetWorld) (r : result net_failure (string * SimulationResult)) (w' : NetWorld) : Prop :=
  exists log, sent w' = sent w ++ log /\ (length log <= bound)%nat /\
    Forall (fun x => signed_call kp passphrase build x.1) log /\
    Forall (fun x => bad_seq x.2) (removelast log) /\
    forall h sim, r = Ok (h, sim) ->
      (exists env reply, last log = Some (env, reply) /\ accepted reply h) /\ confirmed h (net w').

Lemma logged_stop kp passphrase build bound w e w' :
  sent w' = sent w -> logged kp passphrase build bound w (Err e) w'.
Proof. intros Hs. exists []. rewrite app_nil_r. split_and!; [done|cbn; lia|constructor|constructor|done]. Qed.

Lemma logged_one kp passphrase build bound w r w' env reply :
  sent w' = sent w ++ [(env, reply)] -> signed_call kp passphrase build env ->
  (forall h sim, r = Ok (h, sim) -> accepted reply h /\ confirmed h (net w')) ->
  logged kp passphrase build (S bound) w r w'.
Proof.
  intros Hs Hc Hr. exists [(env, reply)]. split_and!; [done|cbn; lia|by constructor|constructor|].
  intros h sim [Ha Hn]%Hr. split; [by exists env, reply|done].
Qed.

Lemma logged_again kp passphrase build bound w w1 r w' env reply :
  sent w1 = sent w ++ [(env, reply)] -> signed_call kp passphrase build env -> bad_seq reply ->
  logged kp passphrase build bound w1 r w' -> logged kp passphrase build (S bound) w r w'.
Proof.
  intros Hs Hc Hb (log & Hl & Hn & Hf & Hbad & Hok). exists ((env, reply) :: log).
  split_and!; [by rewrite Hl, Hs, <-app_assoc|cbn; lia|by constructor| |].
  - destruct log; [constructor|]. by constructor.
  - intros h sim H. destruct (Hok h sim H) as ((env' & reply' & Hlast & Ha) & Hconf). split; [|done].
    exists env', reply'. destruct log; [done|]. by split.
Qed.

(** The wait ends well with the answer to its last poll. *)
Lemma wait_answer polls attempt h w tr w' :
  wait_for_transaction polls attempt h w = (Ok tr, w') ->
  exists n error, post_get_transaction h n = (Parsed (Some tr) error, net w') /\
    (tx_status tr = "SUCCESS"%string \/ tx_status tr = "FAILED"%string).
Proof.
  revert attempt w. induction polls as [|polls IH]; intros attempt w; [done|].
  cbn [wait_for_transaction]. unfold request at 1, mbind at 1, stateR_bind at 1.
  destruct (post_get_transaction h (net w)) as [reply n] eqn:Hp.
  assert (forall w1, (if 15 <? attempt + 1
            then raise (Validation ("transaction " +:+ h +:+ " timed out waiting for confirmation"))
            else wait_for_transaction polls (attempt + 1) h) w1 = (Ok tr, w') -> exists n error,
    post_get_transaction h n = (Parsed (Some tr) error, net w') /\
    (tx_status tr = "SUCCESS"%string \/ tx_status tr = "FAILED"%string)) as Hagain.
  { intros w1. destruct (_ <? _); [done|]. apply IH. }
  destruct reply as [e|st text|e|e body|[tx|] err]; eauto; [done|].
  destruct (bool_decide _ || bool_decide _) eqn:Hs; [|eauto]. intros [= -> <-].
  exists (net w), err. split; [done|].
  apply orb_true_iff in Hs as [Hs|Hs]; apply bool_decide_eq_true in Hs; auto.
Qed.

Lemma logged_confirm kp passphrase build bound w w1 r w' env reply polls h sim :
  sent w1 = sent w ++ [(env, reply)] -> signed_call kp passphrase build env -> accepted reply h ->
  (confirmed ← wait_for_transaction polls 0 h;
   if bool_decide (tx_status confirmed = "FAILED"%string) then
     let detail := default "no result XDR returned"%string
                     (describe_failed_result_xdr <$> result_xdr confirmed) in
     raise (Validation ("transaction " +:+ h +:+ " failed on-chain: " +:+ detail))
   else mret (h, sim)) w1 = (r, w') ->
  logged kp passphrase build (S bound) w r w'.
Proof.
  intros Hs Hc Ha H. apply quiet_step in H as [(e & -> & Hs')|(tr & w2 & Hw & Hs' & H)]; [| |apply quiet_wait].
  - by eapply logged_one; [rewrite Hs'|done|done].
  - destruct (bool_decide _) eqn:Hf; injection H as <- <-;
      (eapply logged_one; [rewrite Hs'; exact Hs|done|]); [done|intros ? ? [= <- _]].
    apply bool_decide_eq_false in Hf. apply wait_answer in Hw as (n & err & Hp & [Ht|Ht]); [|done].
    split; [done|]. by exists n, tr, err.
Qed.

Lemma submit_logged polls retries kp passphrase build w r w' :
  submit_loop polls retries kp passphrase build w = (r, w') ->
  logged kp passphrase build (S retries) w r w'.
Proof.
  revert w. induction retries as [|retries IH]; intros w H; cbn [submit_loop] in H.
  all: apply quiet_step in H as [(e & -> & Hs)|(seq & w1 & _ & Hs1 & H)];
    [by apply logged_stop| |apply quiet_sequence].
  all: apply quiet_step in H as [(e & -> & Hs)|(tx & w2 & Hbuild & Hs2 & H)];
    [apply logged_stop; congruence| |apply quiet_try].
  all: apply quiet_step in H as [(e & -> & Hs)|(sim & w3 & _ & Hs3 & H)];
    [apply logged_stop; congruence| |apply quiet_simulate].
  all: apply quiet_step in H as [(e & -> & Hs)|(signed & w4 & Hatt & Hs4 & H)];
    [apply logged_stop; congruence| |apply quiet_attach].
  all: assert (build seq = Ok tx) as Hb by (destruct (build seq); [by injection Hbuild as ->|done]).
  all: set (env := Build_TransactionEnvelope _ _) in H.
  all: assert (signed_call kp passphrase build env) as Hcall
    by (exists seq, tx; split_and!; [done|by eapply attach_completes|done]).
  all: apply bind_run in H as [(e & Hsend & ->)|(o & w5 & Hsend & H)];
    apply catch_send_run in Hsend as (reply & Hlog & Ho);
    (assert (sent w = sent w4) as Hw by congruence).
  1,3: by eapply logged_one; [rewrite Hw|done|done].
  all: destruct o as [h|e].
  1,3: eapply (logged_confirm _ _ _ _ w w5); [by rewrite Hw|done|done|exact H].
  - injection H as <- <-. by eapply logged_one; [rewrite Hw; exact Hlog|done|].
  - destruct (is_bad_seq_error e) eqn:Hbad.
    + eapply (logged_again _ _ _ _ w w5); [rewrite Hw; exact Hlog|exact Hcall|by exists e|by apply IH].
    + injection H as <- <-. by eapply logged_one; [rewrite Hw; exact Hlog|done|].
Qed.

(** ** Waiting *)

(** A reply with an error status. *)
Definition status_error {A} (r : http A) : Prop :=
  match r with StatusError _ _ => True | _ => False end.

Lemma wait_ends_from h fuel attempt w :
  (forall n, ~ status_error (post_get_transaction h n).1) ->
  (1 <= fuel)%nat -> 16 <= Z.of_nat fuel + attempt ->
  (wait_for_transaction fuel attempt h w).1 <> Err Polling.
Proof.
  intros Hnet. revert attempt w. induction fuel as [|fuel IH]; intros attempt w H1 Hle; [lia|].
  cbn [wait_for_transaction]. unfold request at 1, mbind at 1, stateR_bind at 1. specialize (Hnet (net w)).
  destruct (post_get_transaction h (net w)) as [reply n]. cbn [fst] in Hnet.
  assert (forall w1, ((if 15 <? attempt + 1
            then raise (Validation ("transaction " +:+ h +:+ " timed out waiting for confirmation"))
            else wait_for_transaction fuel (attempt + 1) h) w1).1 <> Err Polling) as Hagain.
  { intros w1. destruct (Z.ltb_spec 15 (attempt + 1)); [discriminate|]. apply IH; lia. }
  destruct reply as [e|st text|e|e body|[tx|] err]; try done.
  destruct (bool_decide _ || bool_decide _); [discriminate|]. apply Hagain.
Qed.

Definition no_polling {A} (m : netM A) : Prop := forall w, (m w).1 <> Err Polling.

Lemma no_polling_ret {A} (a : A) : no_polling (mret a).
Proof. by intros w. Qed.
Lemma no_polling_raise {A} e : no_polling (raise e : netM A).
Proof. by intros w. Qed.
Lemma no_polling_panic {A} msg : no_polling (throw (Panicked msg) : netM A).
Proof. by intros w. Qed.
Lemma no_polling_try {A} (r : AuditResult A) : no_polling (try r).
Proof. by destruct r. Qed.
Lemma no_polling_request {A} (f : Net -> A * Net) : no_polling (request f).
Proof. intros w. unfold request. by destruct (f (net w)). Qed.
Lemma no_polling_modify f : no_polling (modify f).
Proof. by intros w. Qed.
Lemma no_polling_bind {A B} (m : netM A) (f : A -> netM B) :
  no_polling m -> (forall a, no_polling (f a)) -> no_polling (m ≫= f).
Proof.
  intros Hm Hf w. specialize (Hm w). unfold mbind, stateR_bind.
  destruct (m w) as [[a|e] w1]; [apply Hf|]. intros [= ->]. by apply Hm.
Qed.
Lemma no_polling_rpc {A} method (r : http A) : no_polling (rpc_result method r).
Proof. destruct r as [| | | e body|[a|] [[]|]]; try by intros w. cbn. by destruct (cut_ok body). Qed.
Lemma no_polling_catch {A} (m : netM A) : no_polling m -> no_polling (catch_error m).
Proof. intros Hm w. specialize (Hm w). unfold catch_error. destruct (m w) as [[a|[]] w1]; done. Qed.

#[local] Hint Resolve no_polling_ret no_polling_raise no_polling_panic no_polling_try no_polling_request
  no_polling_modify no_polling_rpc no_polling_catch : polls.
Ltac solve_polls := repeat first
  [ progress eauto with polls | apply no_polling_bind; [|intros] | case_match ].

Lemma no_polling_sequence pk : no_polling (get_account_sequence_from_rpc pk).
Proof. unfold get_account_sequence_from_rpc. solve_polls. Qed.
Lemma no_polling_simulate tx : no_polling (simulate_transaction tx).
Proof. unfold simulate_transaction. solve_polls. Qed.
Lemma no_polling_attach tx sim : no_polling (attach_soroban_data_and_auth tx sim).
Proof. unfold attach_soroban_data_and_auth, sim_transaction_data. solve_polls. Qed.
Lemma no_polling_send env : no_polling (send_transaction env).
Proof. unfold send_transaction, send_outcome. solve_polls. Qed.
#[local] Hint Resolve no_polling_sequence no_polling_simulate no_polling_attach no_polling_send : polls.

Lemma submit_no_polling polls retries kp passphrase build :
  (forall h, no_polling (wait_for_transaction polls 0 h)) ->
  no_polling (submit_loop polls retries kp passphrase build).
Proof.
  intros Hwait. induction retries as [|retries IH]; cbn [submit_loop].
  all: solve_polls.
Qed.

(** ** The states of the network *)

(** One request, and any number of them. *)
Definition one_request (n n' : Net) : Prop :=
  (exists pk r, post_ledger_entries pk n = (r, n')) \/ (exists tx r, post_simulate tx n = (r, n')) \/
  (exists env r, post_send env n = (r, n')) \/ (exists h r, post_get_transaction h n = (r, n')).
Definition reaches : Net -> Net -> Prop := rtc one_request.
Definition later (w w' : NetWorld) : Prop := reaches (net w) (net w').
#[export] Instance later_preorder : PreOrder later.
Proof. split; [intros w; apply rtc_refl|intros w1 w2 w3 H12 H23; unfold later in *; by etrans]. Qed.

Lemma later_request {A} (f : Net -> A * Net) :
  (forall n, one_request n (f n).2) -> keeps later (request f).
Proof.
  intros Hf w. unfold later, request. specialize (Hf (net w)). destruct (f (net w)) as [a n].
  by apply rtc_once.
Qed.
Lemma later_ledger pk : keeps later (request (post_ledger_entries pk)).
Proof. apply later_request. intros n. left. exists pk. destruct (post_ledger_entries pk n). by eexists. Qed.
Lemma later_post_simulate tx : keeps later (request (post_simulate tx)).
Proof. apply later_request. intros n. right; left. exists tx. destruct (post_simulate tx n). by eexists. Qed.
Lemma later_post_send env : keeps later (request (post_send env)).
Proof. apply later_request. intros n. do 2 right; left. exists env. destruct (post_send env n). by eexists. Qed.
Lemma later_poll h : keeps later (request (post_get_transaction h)).
Proof.
  apply later_request. intros n. do 3 right. exists h. destruct (post_get_transaction h n). by eexists.
Qed.
Lemma later_bind {A B} (m : netM A) (f : A -> netM B) :
  keeps later m -> (forall a, keeps later (f a)) -> keeps later (m ≫= f).
Proof. exact (keeps_bind later m f). Qed.
Lemma later_stays {A} (r : result net_failure A) : keeps later (fun w => (r, w) : result net_failure A * NetWorld).
Proof. intros w. apply rtc_refl. Qed.
Lemma later_try {A} (r : AuditResult A) : keeps later (try r).
Proof. destruct r; apply later_stays. Qed.
Lemma later_rpc {A} method (r : http A) : keeps later (rpc_result method r).
Proof.
  destruct r as [| | | e body|[a|] [[]|]]; try apply later_stays. cbn. destruct (cut_ok body); apply later_stays.
Qed.
Lemma later_record (f : NetWorld -> list (TransactionEnvelope * http SendResult)) :
  keeps later (modify (E := net_failure) (fun w => {| net := net w; sent := f w |})).
Proof. intros w. apply rtc_refl. Qed.
Lemma later_ret {A} (a : A) : keeps later (mret a : netM A).
Proof. apply later_stays. Qed.
Lemma later_raise {A} e : keeps later (raise e : netM A).
Proof. apply later_stays. Qed.
Lemma later_throw {A} e : keeps later (throw e : netM A).
Proof. apply later_stays. Qed.

#[local] Hint Resolve later_ledger later_post_simulate later_post_send later_poll later_try later_rpc
  later_record later_ret later_raise later_throw : later.
Ltac solve_later := repeat first
  [ progress eauto with later | apply later_bind; [|intros] | case_match ].

Lemma later_sequence pk : keeps later (get_account_sequence_from_rpc pk).
Proof. unfold get_account_sequence_from_rpc. solve_later. Qed.
Lemma later_simulate tx : keeps later (simulate_transaction tx).
Proof. unfold simulate_transaction. solve_later. Qed.
Lemma later_attach tx sim : keeps later (attach_soroban_data_and_auth tx sim).
Proof. unfold attach_soroban_data_and_auth, sim_transaction_data. solve_later. Qed.
Lemma later_send env : keeps later (send_transaction env).
Proof. unfold send_transaction, send_outcome. solve_later. Qed.

Lemma keeps_run {A} (m : netM A) w r w' : keeps later m -> m w = (r, w') -> reaches (net w) (net w').
Proof. intros Hm H. specialize (Hm w). rewrite H in Hm. exact Hm. Qed.

Lemma catch_run {A} (m : netM A) w r w' :
  keeps later m -> catch_error m w = (r, w') -> reaches (net w) (net w').
Proof.
  intros Hm H. apply (keeps_run m w (m w).1); [done|]. unfold catch_error in H.
  destruct (m w) as [[a|[]] w1]; by injection H as <- <-.
Qed.

(** ** A successful submission *)

Lemma send_run env w r w' :
  catch_error (send_transaction env) w = (r, w') ->
  exists reply, post_send env (net w) = (reply, net w') /\
    match r with Ok (Ok h) => accepted reply h | _ => True end.
Proof.
  unfold catch_error, send_transaction, request, mbind, stateR_bind, modify. cbn.
  destruct (post_send env (net w)) as [reply n]. cbn.
  destruct (outcome_pure reply {| net := n; sent := sent w ++ [(env, reply)] |}) as (o & Hpure & ->).
  intros H. exists reply. destruct o as [h|[e|msg|]]; injection H as <- <-; by split.
Qed.

Lemma wait_run fuel attempt h w r w' :
  wait_for_transaction fuel attempt h w = (Ok r, w') ->
  exists n err, reaches (net w) n /\ post_get_transaction h n = (Parsed (Some r) err, net w') /\
    (tx_status r = "SUCCESS" \/ tx_status r = "FAILED")%string.
Proof.
  revert attempt w. induction fuel as [|fuel IH]; intros attempt w; [done|].
  cbn [wait_for_transaction]. unfold request at 1, mbind at 1, stateR_bind at 1.
  destruct (post_get_transaction h (net w)) as [reply n] eqn:Hp. intros H.
  assert (forall w1, (if 15 <? attempt + 1
            then raise (Validation ("transaction " +:+ h +:+ " timed out waiting for confirmation"))
            else wait_for_transaction fuel (attempt + 1) h) w1 = (Ok r, w') -> net w1 = n ->
    exists n err, reaches (net w) n /\ post_get_transaction h n = (Parsed (Some r) err, net w') /\
    (tx_status r = "SUCCESS" \/ tx_status r = "FAILED")%string) as Hagain.
  { intros w1 H1 Hn. destruct (15 <? attempt + 1); [done|].
    apply IH in H1 as (n' & err & Hr & Hg). exists n', err. split; [|done].
    rewrite Hn in Hr. eapply rtc_l; [|exact Hr]. do 3 right. by exists h, reply. }
  destruct reply as [e|st text|e|e body|[tx|] err]; try done; try by eapply Hagain.
  - apply IH in H as (n' & err & Hr & Hg). exists n', err. split; [|done].
    eapply rtc_l; [|exact Hr]. do 3 right. by exists h, (StatusError st text).
  - destruct (bool_decide_reflect (tx_status tx = "SUCCESS"%string)) as [Hs|Hs]; cbn [orb] in H.
    + injection H as -> <-. exists (net w), err. split_and!; [apply rtc_refl|done|auto].
    + destruct (bool_decide_reflect (tx_status tx = "FAILED"%string)) as [Hf|Hf]; [|by eapply Hagain].
      injection H as -> <-. exists (net w), err. split_and!; [apply rtc_refl|done|auto].
Qed.

(** A successful operation: an envelope of the call was accepted, and the endpoint then
    reported success under the hash. *)
Lemma submit_success polls retries kp passphrase build w h sim w' :
  submit_loop polls retries kp passphrase build w = (Ok (h, sim), w') ->
  exists env reply n1 n2 n3 r err, signed_call kp passphrase build env /\ reaches (net w) n1 /\
    post_send env n1 = (reply, n2) /\ accepted reply h /\ reaches n2 n3 /\
    post_get_transaction h n3 = (Parsed (Some r) err, net w') /\ tx_status r = "SUCCESS"%string.
Proof.
  revert w. induction retries as [|retries IH]; intros w H; cbn [submit_loop] in H.
  all: apply stateR_bind_Ok in H as (seq & w1 & H1%(keeps_run _ _ _ _ (later_sequence _)) & H).
  all: apply stateR_bind_Ok in H as (tx & w2 & Hbuild & H).
  all: pose proof (keeps_run _ _ _ _ (later_try _) Hbuild) as H2.
  all: apply stateR_bind_Ok in H as (sim' & w3 & H3%(keeps_run _ _ _ _ (later_simulate _)) & H).
  all: apply stateR_bind_Ok in H as (signed & w4 & Hatt & H).
  all: pose proof (keeps_run _ _ _ _ (later_attach _ _) Hatt) as H4.
  all: assert (build seq = Ok tx) as Hb by (destruct (build seq); [by injection Hbuild as ->|done]).
  all: set (env := Build_TransactionEnvelope _ _) in H.
  all: assert (signed_call kp passphrase build env) as Hcall
    by (exists seq, tx; split_and!; [done|by eapply attach_completes|done]).
  all: assert (reaches (net w) (net w4)) as Hw4 by (repeat (etrans; [eassumption|]); apply rtc_refl).
  all: apply stateR_bind_Ok in H as (o & w5 & Hsend & H).
  all: pose proof (catch_run _ _ _ _ (later_send _) Hsend) as H5.
  all: apply send_run in Hsend as (reply & Hpost & Ho).
  all: destruct o as [h'|e]; [|first [done|destruct (is_bad_seq_error e);
    [apply IH in H as (env' & reply' & n1 & n2 & n3 & r & err & Hc' & Hr' & Hrest);
     exists env', reply', n1, n2, n3, r, err; split; [done|]; split; [|done];
     etrans; [exact Hw4|]; etrans; [exact H5|exact Hr']|done]]].
  all: apply stateR_bind_Ok in H as (tr & w6 & Hwait & H).
  all: apply wait_run in Hwait as (n3 & err & Hr3 & Hget & Hst).
  all: destruct (bool_decide_reflect (tx_status tr = "FAILED"%string)) as [Hf|Hf]; [done|].
  all: injection H as <- <- <-.
  all: exists env, reply, (net w4), (net w5), n3, tr, err; split_and!; [done..|].
  all: by destruct Hst.
Qed.

Lemma bounded_Ok {A} max error (l l' : list A) : bounded max error l = Ok l' -> l' = l.
Proof. unfold bounded. destruct (_ <=? _)%N; [by intros [= ->]|done]. Qed.

Lemma build_invoke_Ok pk seq contract_id f args fee tx :
  build_invoke_transaction pk seq contract_id f args fee = Ok tx ->
  exists c, decode_contract_id contract_id = Ok c /\ source_account tx = pk /\
    host_function tx = InvokeContract c (as_bytes f) args.
Proof.
  unfold build_invoke_transaction. intros H.
  apply bind_Ok_inv in H as (c & Hc & H). apply bind_Ok_inv in H as (sym & Hs%bounded_Ok & H).
  apply bind_Ok_inv in H as (args' & Ha%bounded_Ok & [= <-]). exists c. by subst.
Qed.

Lemma try_Ok {A} (r : AuditResult A) w a w' : try r w = (Ok a, w') -> r = Ok a /\ w' = w.
Proof. destruct r; [by intros [= -> ->]|done]. Qed.

Lemma ok_or_try {A} (o : option A) e w a w' : try (ok_or o e) w = (Ok a, w') -> o = Some a /\ w' = w.
Proof. intros [H ->]%try_Ok. split; [by apply ok_or_Ok in H|done]. Qed.

Lemma request_run {A} (f : Net -> A * Net) w a w' :
  request f w = (Ok a, w') -> f (net w) = (a, net w') /\ sent w' = sent w.
Proof. unfold request. destruct (f (net w)) as [a' n]. intros [= -> <-]. by split. Qed.

Lemma rpc_result_Ok {A} method (r : http A) w a w' :
  rpc_result method r w = (Ok a, w') -> r = Parsed (Some a) None /\ w' = w.
Proof.
  destruct r as [| | | e body|[a'|] [[]|]]; try done; cbn; [by destruct (cut_ok body)|].
  by intros [= -> ->].
Qed.

(** What a simulation that succeeds was answered. *)
Lemma simulate_run tx w sim w' :
  simulate_transaction tx w = (Ok sim, w') ->
  exists answer, post_simulate tx (net w) = (Parsed (Some answer) None, net w') /\
    sim_error answer = None /\ results sim = results answer.
Proof.
  unfold simulate_transaction. intros H.
  apply stateR_bind_Ok in H as (response & w1 & [Hp _]%request_run & H).
  apply stateR_bind_Ok in H as (answer & w2 & [-> ->]%rpc_result_Ok & H).
  exists answer. destruct (sim_error answer); [done|]. destruct (transaction_data answer); [|done].
  injection H as <- <-. by split_and!.
Qed.

(** The decoded value of a result. *)
Definition decoded_value (e : SimulationResultEntry) : option ScVal :=
  l ← b64_decode (xdr e); ScVal_from_xdr l.

Lemma simulate_call_run kp contract_id f args what w v w' :
  simulate_call kp contract_id f args what w = (Ok v, w') ->
  exists c tx answer, decode_contract_id contract_id = Ok c /\
    host_function tx = InvokeContract c (as_bytes f) args /\
    post_simulate tx (net w) = (Parsed (Some answer) None, net w') /\ sim_error answer = None /\
    match results answer with
    | [] => v = None
    | first :: _ => exists x, decoded_value first = Some x /\ v = Some x
    end.
Proof.
  unfold simulate_call. intros H.
  apply stateR_bind_Ok in H as (tx & w1 & [Hb ->]%try_Ok & H).
  apply build_invoke_Ok in Hb as (c & Hc & _ & Hf).
  apply stateR_bind_Ok in H as (sim & w2 & (answer & Hp & He & Hr)%simulate_run & H).
  exists c, tx, answer. unfold return_value in H. rewrite Hr in H.
  destruct (results answer) as [|first rest].
  - injection H as <- <-. by split_and!.
  - apply stateR_bind_Ok in H as (l & w3 & [Hl ->]%ok_or_try & H).
    apply stateR_bind_Ok in H as (x & w4 & [Hxv ->]%ok_or_try & [= <- <-]).
    split_and!; [done..|]. exists x. unfold decoded_value. by rewrite Hl.
Qed.

(** ** Fees *)

Lemma attach_fee tx sim w signed w' m :
  attach_soroban_data_and_auth tx sim w = (Ok signed, w') -> min_resource_fee sim = Some m ->
  fee signed = i64_wrap (i64_wrap (fee tx + m) + 1) mod 2 ^ 32.
Proof.
  unfold attach_soroban_data_and_auth. intros H Hm.
  apply stateR_bind_Ok in H as (data & w1 & _ & H).
  apply stateR_bind_Ok in H as (x & w2 & _ & H).
  apply stateR_bind_Ok in H as (sd & w3 & _ & H).
  apply stateR_bind_Ok in H as (au & w4 & _ & H). injection H as <- _. cbn. by rewrite Hm.
Qed.

Lemma i64_wrap_id z : - 2 ^ 63 <= z < 2 ^ 63 -> i64_wrap z = z.
Proof. intros Hz. unfold i64_wrap. rewrite Z.mod_small; lia. Qed.

(** ** The theorems *)

(** C8: at most once: a call is sent at most six times, each time as the transaction that
    was asked for, signed with the given key; every submission but the last was rejected
    for its sequence number, so once a submission is accepted nothing more is sent; and
    when the operation succeeds, the last submission was accepted under the hash it
    returns, and the last request of all, a poll for that hash, was answered with success. *)
Theorem submit_at_most_once polls kp passphrase contract_id f args base_fee w r w' :
  submit_invoke_with_retry polls kp passphrase contract_id f args base_fee w = (r, w') ->
  let build sequence :=
    build_invoke_transaction (public_bytes kp) sequence contract_id f args base_fee in
  exists log, sent w' = sent w ++ log /\ (length log <= 6)%nat /\
    Forall (fun x => signed_call kp passphrase build x.1) log /\
    Forall (fun x => bad_seq x.2) (removelast log) /\
    forall h sim, r = Ok (h, sim) ->
      (exists env reply, last log = Some (env, reply) /\ accepted reply h) /\ confirmed h (net w').
Proof. intros H. exact (submit_logged _ _ _ _ _ _ _ _ H). Qed.

(** C40: a submission ends: when the endpoint never answers a poll with an error status,
    sixteen polls are enough for every outcome of the whole operation. *)
Theorem submit_ends kp passphrase contract_id f args base_fee w :
  (forall h n, ~ status_error (post_get_transaction h n).1) ->
  (submit_invoke_with_retry 16 kp passphrase contract_id f args base_fee w).1 <> Err Polling.
Proof.
  intros Hnet. apply submit_no_polling. intros h w1. apply wait_ends_from; [apply Hnet|lia..].
Qed.

(** While the endpoint answers with an error status the wait never ends: [continue] skips
    the check of the number of attempts, however many polls were made. *)
Theorem wait_never_ends h fuel attempt w :
  (forall n, status_error (post_get_transaction h n).1) ->
  (wait_for_transaction fuel attempt h w).1 = Err Polling.
Proof.
  intros Hnet. revert attempt w. induction fuel as [|fuel IH]; intros attempt w; [done|].
  cbn [wait_for_transaction]. unfold request at 1, mbind at 1, stateR_bind at 1. specialize (Hnet (net w)).
  destruct (post_get_transaction h (net w)) as [reply n]. by destruct reply.
Qed.

(** The fee offered is the resource fee plus 101: the ten percent that
    [max_fee_stroops] adds are overwritten whenever the simulation names a fee, and a fee
    that does not fit 32 bits is truncated. *)
Theorem fee_has_no_margin tx sim w signed w' m :
  attach_soroban_data_and_auth tx sim w = (Ok signed, w') -> min_resource_fee sim = Some m ->
  fee tx = 100 -> 0 <= m < 2 ^ 62 -> fee signed = (m + 101) mod 2 ^ 32.
Proof.
  intros H Hm Hf Hr. rewrite (attach_fee tx sim w signed w' m H Hm), Hf.
  rewrite (i64_wrap_id (100 + m)) by lia. rewrite i64_wrap_id by lia. f_equal. lia.
Qed.

(** [verify_inclusion_native] never reports success when the host returns the bare boolean
    that the read-only verification accepts. *)
Theorem submitted_verification_blind polls root leaf a b c kp contract_id passphrase w res w' :
  (forall l v, ScVal_from_xdr l = Some v -> exists flag, v = SvBool flag) ->
  verify_inclusion_native polls root leaf a b c kp contract_id passphrase w = (Ok res, w') ->
  vi_verified res = false /\ read_verified_readonly (SvBool true) = true.
Proof.
  intros Hbool H. split; [|done]. unfold verify_inclusion_native in H.
  apply stateR_bind_Ok in H as (args & w1 & _ & H).
  apply stateR_bind_Ok in H as ([h sim] & w2 & _ & H).
  apply stateR_bind_Ok in H as (v & w3 & Hv & H). injection H as <- _. cbn.
  unfold return_value in Hv. destruct (results sim) as [|first rest]; [by injection Hv as <- _|].
  apply stateR_bind_Ok in Hv as (l & w4 & _ & Hv).
  apply stateR_bind_Ok in Hv as (v' & w5 & Hval & Hv). injection Hv as <- _.
  destruct (ScVal_from_xdr l) as [v''|] eqn:Hl; [|done]. injection Hval as <- _.
  by destruct (Hbool l v'' Hl) as [flag ->].
Qed.
End submission.

(** ** Reading back what the contract stores *)

Section reading.
Context {Hx : Hex} {Address : Type} `{EqDecision Address, Countable Address}.

Definition sym (s : string) : ScVal := SvSymbol (as_bytes s).
(** The entries of a struct. *)
Definition struct (fs : list (string * ScVal)) : list (ScVal * ScVal) :=
  map (fun '(k, v) => (sym k, v)) fs.

(** The map of a struct, its entries in any order. *)
Definition encodes (m : list (ScVal * ScVal)) (fs : list (string * ScVal)) : Prop := m ≡ₚ struct fs.

Definition commitment_fields (c : OplogCommitment) : list (string * ScVal) :=
  [("oplog_root", SvBytes (oplog_root c)); ("oplog_start_ts", SvU64 (oplog_start_ts c));
   ("oplog_end_ts", SvU64 (oplog_end_ts c)); ("oplog_entry_count", SvU64 (oplog_entry_count c))]%string.
Definition root_fields (e : RootEntry) : list (string * ScVal) :=
  [("sequence", SvU64 (re_sequence e)); ("root", SvBytes (re_root e));
   ("timestamp", SvU64 (re_timestamp e)); ("metadata", SvString (as_bytes (re_metadata e)))]%string.
Definition attestation_fields (pk : list byte) (signature : list byte) (timestamp : N) : list (string * ScVal) :=
  [("attester", SvAddress (Account pk)); ("signature", SvBytes signature); ("timestamp", SvU64 timestamp)]%string.

Lemma sym_text s : rust_string s -> from_utf8_lossy (as_bytes s) = s.
Proof.
  intros Hs. unfold from_utf8_lossy, from_utf8. rewrite Hs. apply of_bytes_as_bytes.
Qed.

Lemma field_other {A} name (proj : ScVal -> option A) init fs :
  Forall rust_string fs.*1 -> name ∉ fs.*1 -> field name proj init (struct fs) = init.
Proof.
  revert init. induction fs as [|[k v] fs IH]; intros init Hr Hn; [done|].
  cbn in Hr, Hn. apply Forall_cons in Hr as [Hk Hr]. apply not_elem_of_cons in Hn as [Hne Hn].
  unfold field. cbn [struct map foldl]. unfold sym. rewrite sym_text by done.
  rewrite bool_decide_eq_false_2 by congruence. by apply IH.
Qed.

Lemma field_app {A} name (proj : ScVal -> option A) init m1 m2 :
  field name proj init (m1 ++ m2) = field name proj (field name proj init m1) m2.
Proof. unfold field. by rewrite foldl_app. Qed.

(** A reader's variable ends with the value of its field. *)
Lemma field_encodes {A} name (proj : ScVal -> option A) init m fs v x :
  encodes m fs -> NoDup fs.*1 -> Forall rust_string fs.*1 -> (name, v) ∈ fs -> proj v = Some x ->
  field name proj init m = x.
Proof.
  intros Hm Hd Hr Hin Hv. unfold encodes in Hm. apply Permutation_map_inv in Hm as (fs' & -> & Hp).
  assert (NoDup fs'.*1 /\ Forall rust_string fs'.*1 /\ (name, v) ∈ fs') as (Hd' & Hr' & Hin')
    by (by rewrite <-Hp).
  clear Hd Hr Hin Hp fs. apply list_elem_of_split in Hin' as (l1 & l2 & ->).
  rewrite fmap_app, fmap_cons in Hd', Hr'. cbn in Hd', Hr'.
  apply NoDup_app in Hd' as (_ & Hn1 & [Hn2 _]%NoDup_cons).
  apply Forall_app in Hr' as [Hr1 [Hrk Hr2]%Forall_cons].
  change (field name proj init (struct (l1 ++ (name, v) :: l2)) = x). unfold struct.
  rewrite map_app, field_app. cbn [map]. unfold field at 1. cbn [foldl]. unfold sym at 1.
  rewrite sym_text, bool_decide_eq_true_2, Hv by done. cbn [default].
  by apply (field_other name proj x l2).
Qed.

Lemma hex_not_empty l : l <> [] -> hex_encode l <> ""%string.
Proof.
  intros Hl He. apply (f_equal (fun s => length (as_bytes s))) in He.
  rewrite length_hex_encode in He. change (length (as_bytes "")) with 0%nat in He. by destruct l.
Qed.

Ltac is_field :=
  unfold commitment_fields, root_fields;
  repeat first [apply list_elem_of_here | apply list_elem_of_further].

(** What the daemon learns of a commitment of the contract. *)
Definition known_commitment (sequence : N) (c : OplogCommitment) : OnChainOplogCommitment :=
  {| oc_sequence := sequence; oc_oplog_root_hex := hex_encode (oplog_root c);
     oc_oplog_start_ts := oplog_start_ts c; oc_oplog_end_ts := oplog_end_ts c;
     oc_oplog_entry_count := oplog_entry_count c |}.
Definition known_root (e : RootEntry) : OnChainRoot :=
  {| or_sequence := re_sequence e; or_root_hex := hex_encode (re_root e);
     or_timestamp := re_timestamp e; or_metadata := re_metadata e |}.

Lemma read_commitment_map sequence c m v :
  encodes m (commitment_fields c) -> oplog_root c <> [] -> inner_map v = Some m ->
  read_oplog_commitment sequence v = Some (known_commitment sequence c).
Proof.
  intros Hm Hr Hv. unfold read_oplog_commitment. rewrite Hv. cbn [mbind option_bind].
  assert (NoDup (commitment_fields c).*1) as Hd by (cbn; apply (bool_decide_unpack _); vm_compute; reflexivity).
  assert (Forall rust_string (commitment_fields c).*1) as Hs by (cbn; repeat constructor).
  rewrite (field_encodes "oplog_root" as_hex "" m _ _ _ Hm Hd Hs ltac:(is_field) eq_refl).
  rewrite (field_encodes "oplog_start_ts" as_u64 0%N m _ _ _ Hm Hd Hs ltac:(is_field) eq_refl).
  rewrite (field_encodes "oplog_end_ts" as_u64 0%N m _ _ _ Hm Hd Hs ltac:(is_field) eq_refl).
  rewrite (field_encodes "oplog_entry_count" as_u64 0%N m _ _ _ Hm Hd Hs ltac:(is_field) eq_refl).
  rewrite bool_decide_eq_false_2; [done|]. by apply hex_not_empty.
Qed.

Lemma read_root_entry e m :
  encodes m (root_fields e) -> re_root e <> [] -> rust_string (re_metadata e) ->
  read_root_map m = Some (known_root e).
Proof.
  intros Hm Hr Hmeta. unfold read_root_map.
  assert (NoDup (root_fields e).*1) as Hd by (cbn; apply (bool_decide_unpack _); vm_compute; reflexivity).
  assert (Forall rust_string (root_fields e).*1) as Hs by (cbn; repeat constructor).
  rewrite (field_encodes "sequence" as_u64 0%N m _ _ _ Hm Hd Hs ltac:(is_field) eq_refl).
  rewrite (field_encodes "root" as_hex "" m _ _ _ Hm Hd Hs ltac:(is_field) eq_refl).
  rewrite (field_encodes "timestamp" as_u64 0%N m _ _ _ Hm Hd Hs ltac:(is_field) eq_refl).
  rewrite (field_encodes "metadata" as_text "" m _ _ _ Hm Hd Hs ltac:(is_field) eq_refl).
  rewrite bool_decide_eq_false_2; [|by apply hex_not_empty]. by rewrite sym_text.
Qed.

Lemma maps_of_maps ms : maps_of (SvVec (Some (map (fun m => SvMap (Some m)) ms))) = ms.
Proof. unfold maps_of. induction ms as [|m ms IH]; [done|]. cbn. by rewrite IH. Qed.

(** C20: the readers give back what the contract stores, whatever the order of the entries
    in the maps and whether an optional value comes bare or in a vector: an oplog
    commitment, and a page of the root history entry by entry. *)
Theorem contract_values_read_back sequence c m es ms :
  encodes m (commitment_fields c) -> oplog_root c <> [] ->
  Forall2 (fun m e => encodes m (root_fields e)) ms es ->
  Forall (fun e => re_root e <> [] /\ rust_string (re_metadata e)) es ->
  read_oplog_commitment sequence (SvMap (Some m)) = Some (known_commitment sequence c) /\
  read_oplog_commitment sequence (SvVec (Some [SvMap (Some m)])) = Some (known_commitment sequence c) /\
  read_root_history (SvVec (Some (map (fun m => SvMap (Some m)) ms))) = map known_root es.
Proof.
  intros Hm Hr Hms Hes. split_and!; [by eapply read_commitment_map..|].
  unfold read_root_history. rewrite maps_of_maps.
  induction Hms as [|m' e ms es Hme _ IH]; [done|]. apply Forall_cons in Hes as [[He1 He2] Hes].
  cbn. rewrite (read_root_entry e) by done. by rewrite IH.
Qed.
End reading.

(** ** A network that rejects two submissions *)

Module Toy.
Import Concrete.

#[export] Program Instance toy_signer : Signer :=
  {| public_key_of k := take 32 (k ++ replicate 32 x00); sign k m := take 64 (k ++ m ++ replicate 64 x00) |}.
Next Obligation. intros k. cbv beta. rewrite length_take, length_app, length_replicate. lia. Qed.
Next Obligation. intros k m. cbv beta. rewrite length_take, !length_app, length_replicate. lia. Qed.

#[export] Instance toy_xdr : StellarXdr :=
  {| SorobanData := unit; SorobanAuth := unit; ScVal_from_xdr _ := Some (SvU64 7);
     soroban_data_from_xdr _ := Some tt; auth_from_xdr _ := Some tt; ledger_entry_from_xdr _ := Some (Some 41) |}.

#[export] Instance toy_payload : PayloadXdr :=
  {| payload_xdr id tx := id ++ source_account tx; contract_id_preimage_xdr id p := id ++ deployer p ++ salt p |}.

(** The XDR of a result with the code of [txBAD_SEQ]. *)
Definition bad_seq_xdr : string := of_bytes (replicate 8 x00 ++ [xff; xff; xff; xfb]).

(** The state is the number of submissions still to be rejected. *)
#[export] Instance toy_rpc : SorobanRpc :=
  {| Net := nat;
     post_ledger_entries _ n := (Parsed (Some ["entry"%string]) None, n);
     post_simulate _ n :=
       (Parsed (Some {| transaction_data := Some "data"%string; transaction_data_owned := None;
                        min_resource_fee := Some 1000;
                        results := [{| auth := []; xdr := "v" |}]; sim_error := None |}) None, n);
     post_send _ n :=
       match n with
       | O => (Parsed (Some {| send_status := "PENDING"; send_hash := "h"; error_result_xdr := None |}) None, n)
       | S n => (Parsed (Some {| send_status := "ERROR"; send_hash := "";
                                 error_result_xdr := Some bad_seq_xdr |}) None, n)
       end;
     post_get_transaction _ n := (Parsed (Some {| tx_status := "SUCCESS"; result_xdr := None |}) None, n) |}.

Definition toy_key : StellarKeypair := from_secret_bytes (replicate 32 x01).
Definition toy_world : NetWorld := {| net := 2%nat; sent := [] |}.
Definition toy_contract : string := encode_contract_id zero_key.
Definition toy_submit := submit_invoke_with_retry 16 toy_key "net" toy_contract "set_threshold" [SvU32 1] 100 toy_world.
End Toy.

Import Concrete.
Import Toy.

Example toy_accepted :
  match toy_submit with
  | (Ok (h, _), w) => bool_decide (h = "h"%string) && (length (sent w) =? 3)%nat
  | _ => false
  end = true.
Proof. vm_compute. reflexivity. Qed.

Lemma submit_at_most_once_witness : exists log, sent toy_submit.2 = log /\ (length log <= 6)%nat /\
  Forall (fun x => bad_seq x.2) (removelast log).
Proof.
  destruct (submit_at_most_once 16 toy_key "net" toy_contract "set_threshold" [SvU32 1] 100 toy_world
    toy_submit.1 toy_submit.2 (surjective_pairing _)) as (log & Hl & Hn & _ & Hb & _).
  exists log. auto.
Defined.

Lemma submit_ends_witness : toy_submit.1 <> Err Polling.
Proof. apply submit_ends. intros h n H. exact H. Defined.

(** A network that only answers polls with an error status. *)
Definition refusing_rpc : SorobanRpc :=
  {| Net := unit; post_ledger_entries _ n := (SendFailed "", n); post_simulate _ n := (SendFailed "", n);
     post_send _ n := (SendFailed "", n); post_get_transaction _ n := (StatusError "502" "", n) |}.

Lemma wait_never_ends_witness :
  (wait_for_transaction (Rpc := refusing_rpc) 1000 0 "h" (Build_NetWorld (Rpc := refusing_rpc) tt [])).1 = Err Polling.
Proof. apply wait_never_ends. intros n. exact I. Defined.

Definition toy_tx : Transaction := build_host_function_transaction [] 41 (UploadContractWasm []) 100.
Definition toy_sim (m : Z) : SimulationResult :=
  {| transaction_data := None; transaction_data_owned := Some "data"%string; min_resource_fee := Some m;
     results := []; sim_error := None |}.
Definition toy_signed (m : Z) : Transaction :=
  match (attach_soroban_data_and_auth toy_tx (toy_sim m) toy_world).1 with Ok t => t | Err _ => toy_tx end.

(** A resource fee of 2^32 - 101 stroops is offered as a fee of 0. *)
Lemma fee_has_no_margin_witness : fee (toy_signed (2 ^ 32 - 101)) = 0.
Proof.
  rewrite (fee_has_no_margin toy_tx (toy_sim (2 ^ 32 - 101)) toy_world (toy_signed (2 ^ 32 - 101)) toy_world
    (2 ^ 32 - 101)); [reflexivity..|lia].
Defined.

Lemma submitted_verification_blind_witness : read_verified_readonly (SvBool true) = true.
Proof.
  pose (xdr_true := {| SorobanData := unit; SorobanAuth := unit; ScVal_from_xdr _ := Some (SvBool true);
     soroban_data_from_xdr _ := Some tt; auth_from_xdr _ := Some tt; ledger_entry_from_xdr _ := Some (Some 41) |}).
  pose (pay := {| payload_xdr := fun (id : list byte) (_ : Transaction (Xdr := xdr_true)) => id;
                  contract_id_preimage_xdr id p := id |}).
  pose (rpc := {| Net := unit;
     post_ledger_entries _ n := (Parsed (Some ["entry"%string]) None, n);
     post_simulate (_ : Transaction (Xdr := xdr_true)) n :=
       (Parsed (Some {| transaction_data := Some "data"%string; transaction_data_owned := None;
                        min_resource_fee := Some 1000;
                        results := [{| auth := []; xdr := "v" |}]; sim_error := None |}) None, n);
     post_send _ n := (Parsed (Some {| send_status := "PENDING"; send_hash := "h"; error_result_xdr := None |}) None, n);
     post_get_transaction _ n := (Parsed (Some {| tx_status := "SUCCESS"; result_xdr := None |}) None, n) |}).
  pose (hex := hex_encode (replicate 64 x00)).
  refine (proj2 (submitted_verification_blind (Xdr := xdr_true) (Pay := pay) (Rpc := rpc) 1 hex hex hex hex hex
    toy_key toy_contract "net" (Build_NetWorld (Rpc := rpc) tt []) {| vi_tx_hash := "h"; vi_verified := false |} _ _ _)).
  - intros l v [= <-]. by exists true.
  - vm_compute. reflexivity.
Defined.

Definition toy_commitment : OplogCommitment :=
  {| oplog_root := replicate 32 x05; oplog_start_ts := 3; oplog_end_ts := 9; oplog_entry_count := 2 |}.

(** The entries of the map in the reverse order. *)
Lemma contract_values_read_back_witness :
  read_oplog_commitment 1 (SvVec (Some [SvMap (Some (reverse (struct (commitment_fields toy_commitment))))])) =
  Some (known_commitment 1 toy_commitment).
Proof.
  eapply (contract_values_read_back 1 toy_commitment (reverse (struct (commitment_fields toy_commitment))) [] []).
  - apply reverse_Permutation.
  - discriminate.
  - constructor.
  - constructor.
Defined.
