(* ===== verification/Daemon.v ===== *)
(** * The audit daemon (audit-service/src/auditd/attester.rs, publisher.rs, mod.rs)

    The handlers and loops that tie the parts together: the publisher closes an epoch,
    hashes the oplog of its time range, publishes the batch and commits the root on chain;
    the attester, next to its own replica, hashes the range of every commitment and signs
    it when the hash agrees.  The state is that of the parts: the epoch manager, the audit
    log and the network; a server of the replica set is its answers to [hello] and to the
    reads of the oplog.  One pass of each loop is one operation. *)

From stdpp Require Import pretty.
From S2P Require Import Prelude.
From S2P Require Import Bytes.
From S2P Require Import Text.
From S2P Require Import Interfaces.
From S2P Require Import AuditError.
From S2P Require Import OplogCanon.
From S2P Require Import PoseidonTree.
From S2P Require Import SledStore.
From S2P Require Import Strkey.
From S2P Require Import SorobanValues.
From S2P Require Import AuditLog.
From S2P Require Import StellarNative.
From S2P Require Import OplogTree.
From S2P Require Import Epoch.
Local Open Scope N_scope.

(** ** The services the daemon uses *)

(** A member of the replica set: its reply to [hello] and the entries of a range. *)
Record Mongo := {
  hello : result AuditError (list (string * Bson));
  read_oplog_range : OplogTimestamp -> OplogTimestamp -> result AuditError (list (list (string * Bson)));
}.

(** [crypto::encrypt_batch], and the two IPFS back ends: the CID of a pinned batch. *)
Class IpfsBackends := {
  encrypt_batch : string -> list string -> AuditResult (list byte);
  kubo_publish : N -> list byte -> AuditResult string;
  pinata_publish : string * string -> N -> list byte -> AuditResult string;
}.

Record DaemonState := {
  mongo_client : option Mongo;
  attester_key : option (list byte);
  oplog_hash_required : bool;
  signing_keypair : option StellarKeypair;
  attester_stellar_keypair : option StellarKeypair;
  chain_contract_id : string;
  chain_passphrase : string;
  (** [pinata_config]: the key and the secret *)
  pinata_config : option (string * string);
  age_recipients : list string;
  (** [audit/events.jsonl], when it exists *)
  events_jsonl : option string;
}.

(** [stellar::CONTRACT_ID] *)
Definition CONTRACT_ID : string := "CCUCFDRF6IMY3STBIFRBBGFFPETBSAPPTDACNOBYWKNPG5QUCAMGGUQ5".

(** A handler fails with its error type, panics, or waits for the network for ever. *)
Inductive failure (E : Type) := Failed (e : E) | Crashed (msg : string) | Hung.
#[global] Arguments Failed {E}.
#[global] Arguments Crashed {E}.
#[global] Arguments Hung {E}.

(** ** The key file of the attester *)

(** What is at the path: nothing, a file, or a directory that is empty or not. *)
Inductive key_node := Missing | KeyFile (bytes : list byte) | Directory (is_empty : bool).

(** [io_ok] tells whether the reads, removals and writes succeed, [chmod_ok] whether the
    file's permissions can be set; [seed] is the key the random generator returns. *)
Definition load_or_generate_attester_key (io_ok chmod_ok : bool) (seed : list byte) (node : key_node)
  : result string (list byte) * key_node :=
  let load_or_generate (node : key_node) :=
    match node with
    | KeyFile bytes =>
      (if negb io_ok then Err "failed to read attester key file"%string
       else if negb (length bytes =? 32)%nat
       then Err ("attester key file must contain exactly 32 bytes, got " +:+ pretty (length bytes))
       else Ok bytes, node)
    | _ =>
      if negb io_ok then (Err "failed to write attester key file"%string, node)
      else (if chmod_ok then Ok seed else Err "failed to set attester key file permissions"%string, KeyFile seed)
    end in
  match node with
  | Directory false => (Err "attester key path is a non-empty directory, not a file"%string, node)
  | Directory true =>
    if io_ok then load_or_generate Missing
    else (Err "attester key path is an empty directory and could not be removed"%string, node)
  | node => load_or_generate node
  end.

Record AttesterStatus := {
  connected : bool; last_scanned_sequence : option N; attestations_submitted : N;
  alerts : nat;
}.

(** [GET /attest/status]: constants, except for the connection. *)
Definition get_status (st : DaemonState) : AttesterStatus :=
  {| connected := bool_decide (is_Some (mongo_client st)); last_scanned_sequence := None;
     attestations_submitted := 0; alerts := 0 |}.

Section daemon.
Context {F Db : Type} {PF : PrimeField F} {Pos : Poseidon F}.
Context {Hx : Hex} {B64 : Base64} {Sha : Sha256} {Chr : Chrono} {AJ : AuditJson} {SD : SledDb Db}.
Context {EJ : EpochJson} {display : BsonDisplay} {Sg : Signer} {Xdr : StellarXdr}.
Context {Pay : PayloadXdr} {Rpc : SorobanRpc} {Ipfs : IpfsBackends}.

Record DaemonWorld := { dw_net : NetWorld; dw_epochs : EpochWorld; dw_log : World F Db }.
Definition daemon (E A : Type) : Type := stateR DaemonWorld (failure E) A.

Definition fail {E A} (e : E) : daemon E A := throw (Failed e).
(** [r.map_err(f)?] *)
Definition try_with {E E' A} (f : E -> E') (r : result E A) : daemon E' A :=
  match r with Ok a => mret a | Err e => fail (f e) end.
(** [match m { Ok(a) => .., Err(e) => .. }] *)
Definition attempt {E E' A} (m : daemon E A) : daemon E' (result E A) := fun w =>
  match m w with
  | (Ok a, w') => (Ok (Ok a), w')
  | (Err (Failed e), w') => (Ok (Err e), w')
  | (Err (Crashed msg), w') => (Err (Crashed msg), w')
  | (Err Hung, w') => (Err Hung, w')
  end.
Definition on_net {A} (m : netM A) : daemon AuditError A := fun w =>
  let '(r, n) := m (dw_net w) in
  (match r with
   | Ok a => Ok a
   | Err (Raised e) => Err (Failed e)
   | Err (Panicked msg) => Err (Crashed msg)
   | Err Polling => Err Hung
   end, {| dw_net := n; dw_epochs := dw_epochs w; dw_log := dw_log w |}).
Definition on_epochs {A} (m : em A) : daemon AuditError A := fun w =>
  let '(r, e) := m (dw_epochs w) in
  (match r with
   | Ok a => Ok a
   | Err (Raise e) => Err (Failed e)
   | Err (Panic msg) => Err (Crashed msg)
   end, {| dw_net := dw_net w; dw_epochs := e; dw_log := dw_log w |}).
Definition on_audit {A} (m : method (F := F) (Db := Db) A) : daemon AuditError A := fun w =>
  let '(r, l) := m (dw_log w) in
  (map_err Failed r, {| dw_net := dw_net w; dw_epochs := dw_epochs w; dw_log := l |}).
(** [m.map_err(|e| format!("what: {e}"))?] *)
Definition context {A} (what : string) (m : daemon AuditError A) : daemon string A :=
  r ← attempt m;
  match r with Ok a => mret a | Err e => fail (what +:+ ": " +:+ error_text e) end.

Definition all_epochs {E} : daemon E (list Epoch) := gets (fun w => list_epochs (manager (dw_epochs w))).
(** [epochs.iter().find(|e| e.epoch_number == n)] *)
Definition epoch_by_number (n : N) (es : list Epoch) : option Epoch := snd <$> find_epoch n es.
(** [audit_log.root_hex().unwrap_or_default()] *)
Definition log_root_hex (l : AuditLog F) : AuditResult string :=
  root ← map_err from_zk (root (tree l)); mret (fr_to_hex root).
Definition current_root_hex {E} : daemon E string :=
  gets (fun w => default "" (ok (log_root_hex (log (dw_log w))))).

(** ** The attester *)

(** [signing_key.sign(sha256(oplog_root || oplog_end_ts.to_be_bytes()))] in hexadecimal *)
Definition sign_oplog_attestation (signing_key : list byte) (oplog_root_hex : string) (oplog_end_ts : N)
  : result string string :=
  oplog_root ← ok_or (hex_decode oplog_root_hex) "invalid oplog root hex"%string;
  if negb (length oplog_root =? 32)%nat
  then Err ("oplog root must be 32 bytes, got " +:+ pretty (length oplog_root))
  else
    let message := oplog_root ++ be_bytes 8 (Z.of_N oplog_end_ts) in
    let message_hash := sha256 message in
    Ok (hex_encode (sign signing_key message_hash)).

Record AttesterAlert := {
  aa_sequence : N; alert_type : string; aa_message : string; aa_on_chain_oplog_root : string;
  aa_computed_oplog_root : string; aa_timestamp : string;
}.
Record AttestResult := {
  ar_sequence : N; on_chain_oplog_root : string; computed_oplog_root : string; matched : bool;
  attested : bool; alert : option AttesterAlert;
}.

(** The common part of [attest_epoch] and [attest_epoch_internal]: the commitment on chain
    and the range computed from the replica. *)
Definition commitment_and_range (st : DaemonState) (client : Mongo) (sequence : N)
  : daemon string (StellarKeypair * option (OnChainOplogCommitment * OplogRange)) :=
  stellar_kp ← try_with id (ok_or (attester_stellar_keypair st) "no attester Stellar keypair configured"%string);
  on_chain ← context ("get_oplog_commitment_native(" +:+ pretty sequence +:+ ")")
    (on_net (get_oplog_commitment_native sequence stellar_kp (chain_contract_id st)));
  match on_chain with
  | None => mret (stellar_kp, None)
  | Some on_chain_oplog =>
    let start_ts := unpack_u64 (Z.of_N (oc_oplog_start_ts on_chain_oplog)) in
    let end_ts := unpack_u64 (Z.of_N (oc_oplog_end_ts on_chain_oplog)) in
    computed ← try_with (fun e => "compute_oplog_range_hash: " +:+ error_text e)
      (compute_oplog_range_hash (hello client) (read_oplog_range client) (Z.of_N sequence) start_ts end_ts);
    mret (stellar_kp, Some (on_chain_oplog, computed))
  end.

(** Signing the commitment and submitting the signature; a failed submission is only
    logged. *)
Definition submit_attestation (polls : nat) (st : DaemonState) (stellar_kp : StellarKeypair)
    (sequence : N) (c : OnChainOplogCommitment) : daemon string bool :=
  key ← try_with id (ok_or (attester_key st) "attester ed25519 key not configured"%string);
  signature_hex ← try_with id (sign_oplog_attestation key (oc_oplog_root_hex c) (oc_oplog_end_ts c));
  submit_result ← attempt (on_net (attest_oplog_native polls stellar_kp sequence signature_hex
                                    (chain_contract_id st) (chain_passphrase st)));
  mret (is_ok submit_result).

Definition attest_epoch (polls : nat) (now : Z) (st : DaemonState) (client : Mongo) (sequence : N)
  : daemon string AttestResult :=
  '(stellar_kp, found) ← commitment_and_range st client sequence;
  match found with
  | None =>
    mret {| ar_sequence := sequence; on_chain_oplog_root := "none"; computed_oplog_root := "n/a";
            matched := false; attested := false; alert := None |}
  | Some (c, computed) =>
    let matched := bool_decide (OplogTree.oplog_merkle_root_hex computed = oc_oplog_root_hex c) in
    '(attested, alert) ←
      (if matched then
         attested ← submit_attestation polls st stellar_kp sequence c; mret (attested, None)
       else
         mret (false, Some
           {| aa_sequence := sequence; alert_type := "oplog_hash_mismatch";
              aa_message := "On-chain oplog root " +:+ oc_oplog_root_hex c +:+
                " does not match independently computed root " +:+ OplogTree.oplog_merkle_root_hex computed +:+
                " — possible omission detected!";
              aa_on_chain_oplog_root := oc_oplog_root_hex c;
              aa_computed_oplog_root := OplogTree.oplog_merkle_root_hex computed;
              aa_timestamp := to_rfc3339 now |}));
    mret {| ar_sequence := sequence; on_chain_oplog_root := oc_oplog_root_hex c;
            computed_oplog_root := OplogTree.oplog_merkle_root_hex computed; matched := matched;
            attested := attested; alert := alert |}
  end.

Definition attest_epoch_internal (polls : nat) (st : DaemonState) (client : Mongo) (sequence : N)
  : daemon string bool :=
  '(stellar_kp, found) ← commitment_and_range st client sequence;
  match found with
  | None => mret false
  | Some (c, computed) =>
    if bool_decide (OplogTree.oplog_merkle_root_hex computed = oc_oplog_root_hex c)
    then submit_attestation polls st stellar_kp sequence c
    else mret false
  end.

(** [StellarRpcClient::get_current_root]; the key of the probe is fresh. *)
Definition get_current_root (probe_kp : StellarKeypair) (contract_id : string)
  : daemon AuditError (option OnChainRoot) :=
  on_net (get_current_root_native probe_kp contract_id).

(** [first..=last] *)
Definition sequences (first last : N) : list N :=
  map N.of_nat (seq (N.to_nat first) (N.to_nat (last + 1 - first))).

Fixpoint scan (polls : nat) (now : Z) (st : DaemonState) (client : Mongo) (seqs : list N)
  : daemon AuditError (list AttestResult) :=
  match seqs with
  | [] => mret []
  | seq :: seqs =>
    result_ ← attempt (attest_epoch polls now st client seq);
    results ← scan polls now st client seqs;
    mret (match result_ with Ok r => r :: results | Err _ => results end)
  end.

(** The client of the scan is made for the contract built into the program. *)
Definition scan_and_attest (polls : nat) (now : Z) (probe_kp : StellarKeypair) (st : DaemonState)
  : daemon AuditError (list AttestResult) :=
  client ← try_with id (ok_or (mongo_client st) (Validation "attester mode requires a MongoDB connection"));
  current_root ← get_current_root probe_kp CONTRACT_ID;
  match current_root with
  | None => mret []
  | Some root => scan polls now st client (sequences 1 (or_sequence root))
  end.

Fixpoint attest_new (polls : nat) (st : DaemonState) (client : Mongo) (last_attested_seq : N)
    (seqs : list N) : daemon AuditError N :=
  match seqs with
  | [] => mret last_attested_seq
  | seq :: seqs =>
    r ← attempt (attest_epoch_internal polls st client seq);
    let last_attested_seq := match r with Ok _ => seq | Err _ => last_attested_seq end in
    attest_new polls st client last_attested_seq seqs
  end.

(** One iteration of [auto_attest_loop]; the result is [last_attested_seq]. *)
Definition auto_attest_pass (polls : nat) (probe_kp : StellarKeypair) (st : DaemonState)
    (last_attested_seq : N) : daemon AuditError N :=
  match mongo_client st with
  | None => mret last_attested_seq
  | Some client =>
    current_root ← attempt (get_current_root probe_kp (chain_contract_id st));
    match current_root with
    | Ok (Some root) =>
      if or_sequence root <=? last_attested_seq then mret last_attested_seq
      else attest_new polls st client last_attested_seq
             (sequences (last_attested_seq + 1) (or_sequence root))
    | _ => mret last_attested_seq
    end
  end.

(** ** The publisher *)

Definition compute_and_attach_oplog_hash (client : Mongo) (epoch_number : N)
  : daemon string (OplogRange * Epoch) :=
  start_ts ← gets (fun w => next_oplog_start_ts (manager (dw_epochs w)));
  majority_ts ← context "get_majority_commit_ts"
    (try_with id (reply ← hello client; get_majority_commit_ts reply));
  oplog_range ← try_with (fun e => "compute_oplog_range_hash: " +:+ error_text e)
    (compute_oplog_range_hash (hello client) (read_oplog_range client) (Z.of_N epoch_number) start_ts majority_ts);
  epoch ← context "attach_oplog_hash" (on_epochs
    (attach_oplog_hash epoch_number (OplogTree.start_ts oplog_range) (OplogTree.end_ts oplog_range)
       (Z.to_N (entry_count oplog_range)) (OplogTree.oplog_merkle_root_hex oplog_range)
       (OplogTree.majority_commit_ts oplog_range)));
  mret (oplog_range, epoch).

Definition close_epoch (st : DaemonState) : daemon AuditError Epoch :=
  l ← gets (fun w => log (dw_log w));
  epoch ← on_epochs (close_current_epoch l);
  match mongo_client st with
  | None => mret epoch
  | Some client =>
    r ← attempt (compute_and_attach_oplog_hash client (epoch_number epoch));
    match r with
    | Ok (_, updated_epoch) => mret updated_epoch
    | Err e =>
      if oplog_hash_required st
      then fail (Validation ("close_epoch: oplog hash computation failed for epoch " +:+
                             pretty (epoch_number epoch) +:+ ": " +:+ e))
      else mret epoch
    end
  end.

(** [ts.map_or(0, |ts| ts.pack_u64())] *)
Definition packed_or_0 (x : option OplogTimestamp) : N :=
  match x with Some ts => Z.to_N (pack_u64 ts) | None => 0 end.

(** Committing an epoch, with the oplog root when it has one. *)
Definition commit_native (polls : nat) (st : DaemonState) (kp : StellarKeypair) (epoch : Epoch)
    (root_hex metadata : string) : daemon AuditError CommitResult :=
  match Epoch.oplog_merkle_root_hex epoch with
  | Some oplog_root_hex =>
    on_net (commit_root_with_oplog_native polls root_hex oplog_root_hex
      (packed_or_0 (oplog_start_ts epoch)) (packed_or_0 (oplog_end_ts epoch)) (default 0 (oplog_entry_count epoch))
      metadata kp (chain_contract_id st) (chain_passphrase st))
  | None =>
    on_net (commit_root_native polls root_hex metadata kp (chain_contract_id st) (chain_passphrase st))
  end.

Definition no_keypair : string := "no signing keypair configured — use --secret-key or STELLAR_SECRET_KEY env var".

(** [load_ipfs_cid(n).ok().flatten()] *)
Definition ipfs_cid (n : N) {E} : daemon E (option string) :=
  r ← attempt (on_audit (load_ipfs_cid (Z.of_N n)));
  mret (match r with Ok cid => cid | Err _ => None end).

Definition commit_epoch (polls : nat) (now : Z) (probe_kp : StellarKeypair) (st : DaemonState)
    (n : N) : daemon AuditError CommitResult :=
  es ← all_epochs;
  epoch ← try_with id (ok_or (epoch_by_number n es) (Validation ("epoch " +:+ pretty n +:+ " not found")));
  if is_open epoch then
    fail (Validation ("epoch " +:+ pretty n +:+ " is still open — close it before committing"))
  else
    fallback ← current_root_hex;
    let root_hex := default fallback (root_hex epoch) in
    match committed epoch, tx_hash epoch with
    | true, Some tx_hash => mret {| cr_sequence := 0; cr_tx_hash := tx_hash; cr_root_hex := root_hex |}
    | _, _ =>
      cid ← ipfs_cid n;
      let entries := pretty (default 0 (oplog_entry_count epoch)) in
      let metadata :=
        match cid, Epoch.oplog_merkle_root_hex epoch with
        | Some c, Some oplog => "epoch=" +:+ pretty n +:+ " cid=" +:+ c +:+ " oplog_root=" +:+ oplog +:+
                                " oplog_entries=" +:+ entries
        | None, Some oplog => "epoch=" +:+ pretty n +:+ " oplog_root=" +:+ oplog +:+
                              " oplog_entries=" +:+ entries
        | Some c, None => "epoch=" +:+ pretty n +:+ " cid=" +:+ c
        | None, None => "epoch=" +:+ pretty n
        end in
      kp ← try_with id (ok_or (signing_keypair st) (Validation no_keypair));
      commit_result ← attempt (commit_native polls st kp epoch root_hex metadata);
      result_ ←
        match commit_result with
        | Ok r => mret r
        | Err e =>
          if str_contains "#2" (error_text e) then
            history ← on_net (get_root_history_native probe_kp (chain_contract_id st) 20);
            existing ← try_with id (ok_or (List.find (fun e => bool_decide (or_root_hex e = root_hex)) history)
              (Validation ("root " +:+ root_hex +:+
                " is already committed but could not be found in the on-chain history")));
            mret {| cr_sequence := or_sequence existing; cr_tx_hash := "";
                    cr_root_hex := or_root_hex existing |}
          else fail e
        end;
      _ ← on_epochs (mark_committed now n (cr_tx_hash result_));
      mret result_
    end.

(** The lines of the log whose index is in the range. *)
Definition extract_epoch_batch (jsonl : string) (start_index end_index : N) : string :=
  join newline (omap (fun line =>
    let line := trim line in
    if bool_decide (line = ""%string) then None
    else
      ev ← value_from_str line;
      index ← (v ← get ev "index"; as_u64 v);
      if (start_index <=? index) && (index <=? end_index) then Some line else None) (lines jsonl)).

Record IpfsPublishResult := { cid : string; encrypted : bool }.

(** A batch whose encryption fails is published in clear. *)
Definition publish_epoch_batch_to_ipfs (st : DaemonState) (n : N) (batch_content : string)
  : AuditResult IpfsPublishResult :=
  let encrypting := negb (length (age_recipients st) =? 0)%nat in
  let bytes_to_publish :=
    if encrypting then
      match encrypt_batch batch_content (age_recipients st) with
      | Ok encrypted => encrypted
      | Err _ => as_bytes batch_content
      end
    else as_bytes batch_content in
  cid ← match pinata_config st with
        | Some (api_key, api_secret) =>
          if negb (bool_decide (api_key = ""%string)) || negb (bool_decide (api_secret = ""%string))
          then pinata_publish (api_key, api_secret) n bytes_to_publish
          else kubo_publish n bytes_to_publish
        | None => kubo_publish n bytes_to_publish
        end;
  mret {| cid := cid; encrypted := encrypting |}.

Definition publish_ipfs (st : DaemonState) (n : N) : daemon AuditError IpfsPublishResult :=
  es ← all_epochs;
  epoch ← try_with id (ok_or (epoch_by_number n es) (Validation ("epoch " +:+ pretty n +:+ " not found")));
  end_index ← try_with id (ok_or (end_index epoch)
    (Validation ("epoch " +:+ pretty n +:+ " is still open — close it before publishing to IPFS")));
  let batch_content :=
    extract_epoch_batch (default "" (events_jsonl st)) (start_index epoch) end_index in
  if bool_decide (batch_content = ""%string)
  then fail (Validation ("no events found for epoch " +:+ pretty n))
  else
    result_ ← try_with id (publish_epoch_batch_to_ipfs st n batch_content);
    _ ← on_audit (save_ipfs_cid (Z.of_N n) (cid result_));
    mret result_.

Definition publish_and_commit (polls : nat) (now : Z) (st : DaemonState) (epoch : Epoch) : daemon string unit :=
  let n := epoch_number epoch in
  end_index ← try_with id (ok_or (end_index epoch) "epoch has no end_index"%string);
  _ ← match mongo_client st with
      | Some client => _ ← attempt (E' := string) (compute_and_attach_oplog_hash client n); mret tt
      | None => mret tt
      end;
  es ← all_epochs;
  let epoch := default epoch (epoch_by_number n es) in
  let batch_content := extract_epoch_batch (default "" (events_jsonl st)) (start_index epoch) end_index in
  _ ← (if bool_decide (batch_content = ""%string) then mret tt
       else match publish_epoch_batch_to_ipfs st n batch_content with
            | Ok result_ =>
              _ ← attempt (E' := string) (on_audit (save_ipfs_cid (Z.of_N n) (cid result_))); mret tt
            | Err _ => mret tt
            end);
  fallback ← current_root_hex;
  let root_hex := default fallback (root_hex epoch) in
  cid ← ipfs_cid n;
  let metadata := match cid with
                  | Some c => "epoch=" +:+ pretty n +:+ " cid=" +:+ c
                  | None => "epoch=" +:+ pretty n
                  end in
  kp ← try_with id (ok_or (signing_keypair st) no_keypair);
  commit_result ← context (if bool_decide (is_Some (Epoch.oplog_merkle_root_hex epoch))
                           then "commit_root_with_oplog_native" else "commit_root_native")
    (commit_native polls st kp epoch root_hex metadata);
  context "mark_committed" (on_epochs (mark_committed now n (cr_tx_hash commit_result))).
End daemon.
