(* ===== verification/ContractExample.v ===== *)
(** * The commitment contract on a concrete ledger

    Integers for addresses, a toy signature and a toy pairing: every hypothesis of the
    contract's theorems holds on the ledgers below. *)

From S2P Require Import Prelude.
From S2P Require Import Bytes.
From S2P Require Import Interfaces.
From S2P Require Import Contract.
From S2P Require Import ContractSpec.
Local Open Scope N_scope.
Import Concrete.

(** A signature repeats the first byte of the key. *)
#[local] Instance toy_ed25519 : Ed25519 :=
  {| ed25519_ok key _ sig := bool_decide (head key = head sig) |}.

(** Points are integers and the pairing is the product. *)
#[local] Instance toy_bn254 : Bn254 :=
  {| Fr := Z; G1 := Z; G2 := Z; Fr_from_bytes := of_be_bytes; G1_from_bytes := of_be_bytes;
     G2_from_bytes := of_be_bytes; g1_neg := Z.opp; g1_mul p f := Some (p * f)%Z;
     g1_add p q := Some (p + q)%Z;
     pairing_check ps qs := Some (foldr Z.add 0 (zip_with Z.mul ps qs) =? 0)%Z |}.

Definition point (n : nat) (z : Z) : list byte := be_bytes n z.
Definition toy_vk (signals : nat) : VerifyingKey :=
  {| alpha := point 64 2; beta := point 128 3; gamma := point 128 1; delta := point 128 1;
     ic := List.repeat (point 64 0) (S signals) |}.
Definition toy_proof : Proof := {| pf_a := point 64 6; pf_b := point 128 1; pf_c := point 64 0 |}.

Definition admin : N := 1.
Definition sent_by (a : N) (now : N) : Env N :=
  {| timestamp := now; authorized := fun b => bool_decide (a = b) |}.
Definition nobody : Env N := {| timestamp := 99; authorized := fun _ => false |}.

Definition root_a : list byte := point 32 10.
Definition root_b : list byte := point 32 11.
Definition oplog_a : list byte := point 32 77.
Definition sig_of (b : byte) : list byte := List.repeat b 64.
Definition key_of (b : byte) : list byte := List.repeat b 32.
Definition toy_claim : claim :=
  {| c_root := root_a; c_leaf := point 32 5; c_op_pred := point 32 1; c_coll_pred := point 32 2;
     c_ts_min := 0; c_ts_max := 10; c_check_op := true; c_check_coll := false; c_check_ts := true |}.

Definition script : list (Env N * message N) :=
  [(sent_by admin 2, SetThreshold 2);
   (sent_by admin 3, CommitRootWithOplog root_a oplog_a 5 9 4 "epoch 0");
   (sent_by admin 4, AuthorizeAttester 2 (key_of x02)); (sent_by admin 5, AuthorizeAttester 3 (key_of x03));
   (sent_by 2 6, AttestOplog 2 1 (sig_of x02)); (sent_by 3 7, AttestOplog 3 1 (sig_of x03));
   (sent_by admin 8, RegisterDisclosureVk (toy_vk 9))]%string.

Definition started : Storage N := transact (sent_by admin 1) (Initialize admin (toy_vk 2)) fresh.
Definition ledger : Storage N := transact_all script started.

Lemma transact_all_reachable (txs : list (Env N * message N)) s :
  reachable s -> reachable (transact_all txs s).
Proof. revert s. induction txs as [|tx txs IH]; intros s Hs; [done|]. by apply IH, reachable_transact. Qed.

Lemma ledger_reachable : reachable ledger.
Proof. apply transact_all_reachable, reachable_initialize. done. Qed.

Lemma reachable_ledger_ok_witness : ledger_ok ledger /\ count ledger = 1.
Proof. split; [apply reachable_ledger_ok, ledger_reachable|vm_compute; reflexivity]. Defined.

Lemma ledger_append_only_witness :
  extends ledger (transact_all [(sent_by admin 20, CommitRoot root_b "")] ledger).
Proof. apply ledger_append_only, ledger_reachable. Defined.

Lemma configuration_admin_only_witness : by_admin (sent_by admin 20) ledger.
Proof.
  apply (configuration_admin_only ledger (sent_by admin 20) (SetAdmin 7)); [apply ledger_reachable|].
  left. vm_compute. discriminate.
Defined.

Lemma anyone_commits_roots_witness :
  CurrentRoot (transact nobody (CommitRootWithOplog root_b oplog_a 0 1 1 "mine") ledger) = Some 2.
Proof.
  refine (proj1 (anyone_commits_roots ledger nobody root_b oplog_a 0 1 1 "mine" ledger_reachable
                   _ _ _ _ _)); [reflexivity|vm_compute; reflexivity..|vm_compute; discriminate].
Defined.

Lemma verdict_k_of_n_witness :
  exists v, verify_attestation 1 nobody ledger = (Done _ v, ledger) /\
    attestation_count v = N.of_nat (size (attesters_of 1 ledger)) /\ all_match v = true.
Proof.
  pose proof (verdict_k_of_n ledger nobody 1 ledger_reachable) as H.
  assert (OplogCommitments ledger !! 1 =
          Some {| oplog_root := oplog_a; oplog_start_ts := 5; oplog_end_ts := 9;
                  oplog_entry_count := 4 |}) as Hc by (vm_compute; reflexivity).
  rewrite Hc in H. destruct H as (v & Hv & _ & Hn & _ & Hiff). exists v.
  split; [exact Hv|]. split; [exact Hn|]. apply Hiff.
  split_and!; [|apply (bool_decide_eq_true_1 _)|]; vm_compute; [discriminate|reflexivity|discriminate].
Defined.

Lemma root_history_page_witness :
  exists l, get_root_history 10 nobody ledger = (Done _ l, ledger) /\ length l = 1%nat.
Proof.
  destruct (root_history_page ledger nobody 10 ledger_reachable) as (l & Hl & Hlen & _).
  exists l. split; [exact Hl|]. rewrite Hlen. vm_compute. reflexivity.
Defined.

Definition disclosed_ledger : Storage N :=
  transact (sent_by 8 30) (VerifyAndRecordDisclosure 8 toy_claim toy_proof) ledger.

Lemma disclosure_records_proven_witness :
  exists vk proof c signals, DisclosureVk ledger = Some vk /\ claim_signals c = Ok signals /\
    groth16_accepts vk proof signals.
Proof.
  destruct (DisclosureRecords disclosed_ledger !! 1) as [r|] eqn:Hr;
    [|vm_compute in Hr; discriminate].
  destruct (disclosure_records_proven ledger (sent_by 8 30)
    (VerifyAndRecordDisclosure 8 toy_claim toy_proof) 1 r ledger_reachable)
    as (_ & _ & vk & proof & c & signals & Hvk & Hs & Hacc & _);
    [vm_compute; reflexivity|exact Hr|].
  exists vk, proof, c, signals. split; [exact Hvk|]. split; [exact Hs|exact Hacc].
Defined.

Lemma commit_before_initialize_overwritten_witness :
  let s1 := transact nobody (CommitRootWithOplog root_a oplog_a 0 1 1 "mine") fresh in
  let s3 := transact (sent_by admin 3) (CommitRoot root_b "first")
              (transact (sent_by admin 2) (Initialize admin (toy_vk 2)) s1) in
  re_root <$> RootEntries s3 !! 1 = Some root_b /\ root_index s3 !! root_a = Some 1.
Proof.
  destruct (commit_before_initialize_overwritten nobody (sent_by admin 2) (sent_by admin 3) root_a oplog_a 0 1 1
    "mine" admin (toy_vk 2) root_b "first") as (_ & He & Hi & _);
    [reflexivity|discriminate|reflexivity|reflexivity|vm_compute; discriminate|].
  split; [exact He|exact Hi].
Defined.
