(* ===== verification/DaemonSpec.v ===== *)
(** * What the daemon guarantees (auditd/attester.rs, publisher.rs, mod.rs)

    The attester and the contract agree on the message that is signed, and what the
    attester reports as attested is on the ledger, for a root its own replica confirms; the
    publisher commits an epoch once.  And where the loops do less than they say: sequences
    that are never tried again, epochs left behind by an error, batches published in clear
    that are marked encrypted. *)

From stdpp Require Import pretty.
From S2P Require Import Prelude.
From S2P Require Import Bytes.
From S2P Require Import Text.
From S2P Require Import Interfaces.
From S2P Require Import AuditError.
From S2P Require Import OplogCanon.
From S2P Require Import PoseidonTree.
From S2P Require Import SledStore.
From S2P Require Import Strkey.
From S2P Require Import SorobanValues.
From S2P Require Import AuditLog.
From S2P Require Import OplogTree.
From S2P Require Import Contract.
From S2P Require Import ContractSpec.
From S2P Require Import StellarNative.
From S2P Require Import StellarSpec.
From S2P Require Import Epoch.
From S2P Require Import Daemon.
From S2P Require Import EpochSpec.
From S2P Require Import AuditExample.
From S2P Require Import ContractExample.
Local Open Scope N_scope.

(** ** The key file *)

(** The attester keeps its key: whatever the first start returns, a later start returns the
    same 32 bytes, and never touches the file. *)
Theorem attester_key_stable ok1 chmod1 chmod2 seed node key node' seed' :
  length seed = 32%nat -> load_or_generate_attester_key ok1 chmod1 seed node = (Ok key, node') ->
  length key = 32%nat /\ load_or_generate_attester_key true chmod2 seed' node' = (Ok key, node').
Proof.
  intros Hs H. assert (node' = KeyFile key /\ length key = 32%nat) as [-> Hl].
  { unfold load_or_generate_attester_key in H.
    destruct node as [|bytes|[]], ok1, chmod1; cbn in H; try discriminate H; try (by injection H as <- <-).
    all: destruct (Nat.eqb_spec (length bytes) 32); cbn in H; [by injection H as <- <-|done]. }
  split; [done|]. cbn. by rewrite Hl.
Qed.

Section daemon_spec.
Context {F Db : Type} {PF : PrimeField F} {Pos : Poseidon F}.
Context {Hx : Hex} {B64 : Base64} {Sha : Sha256} {Chr : Chrono} {AJ : AuditJson} {SD : SledDb Db}.
Context {EJ : EpochJson} {display : BsonDisplay} {Sg : Signer} {Xdr : StellarXdr}.
Context {Pay : PayloadXdr} {Rpc : SorobanRpc} {Ipfs : IpfsBackends} {Ed : Ed25519}.
Abbreviation world := (DaemonWorld (F := F) (Db := Db)).
Implicit Types w : world.

(** ** Runs of the handlers *)

Lemma on_net_Ok {A} (m : netM A) w a w' :
  on_net m w = (Ok a, w') -> exists n, m (dw_net w) = (Ok a, n) /\ dw_net w' = n.
Proof.
  unfold on_net. destruct (m (dw_net w)) as [[x|[e|msg|]] n]; intros [= <- <-]. by exists n.
Qed.

Lemma attempt_Ok {E E' A} (m : daemon E A) w r w' :
  attempt (E' := E') m w = (Ok r, w') ->
  m w = ((match r with Ok a => Ok a | Err e => Err (Failed e) end), w').
Proof. unfold attempt. destruct (m w) as [[a|[e|msg|]] w1]; by intros [= <- <-]. Qed.

Lemma try_with_Ok {E E' A} (f : E -> E') (r : result E A) w a w' :
  try_with f r w = (Ok a, w') -> r = Ok a /\ w' = w.
Proof. destruct r; [by intros [= -> ->]|done]. Qed.

Lemma ok_or_with {E A} (f : E -> E) (o : option A) e w a w' :
  try_with f (ok_or o e) w = (Ok a, w') -> o = Some a /\ w' = w.
Proof. intros [H ->]%try_with_Ok. split; [by apply ok_or_Ok in H|done]. Qed.

Lemma context_Ok {A} what (m : daemon AuditError A) w a w' :
  context what m w = (Ok a, w') -> m w = (Ok a, w').
Proof.
  unfold context. intros H. apply stateR_bind_Ok in H as (r & w1 & Hm%attempt_Ok & H).
  destruct r as [x|e]; [|done]. injection H as -> ->. exact Hm.
Qed.

(** ** The message *)

(** What the daemon signs is the message the contract checks. *)
Lemma daemon_message key (c : OplogCommitment) sig :
  length (oplog_root c) = 32%nat ->
  sign_oplog_attestation key (hex_encode (oplog_root c)) (Contract.oplog_end_ts c) = Ok sig ->
  sig = hex_encode (sign key (attestation_message c)).
Proof.
  intros Hl. unfold sign_oplog_attestation. rewrite hex_decode_encode. cbn [ok_or mbind result_bind].
  rewrite Hl. cbn [negb Nat.eqb]. by intros [= <-].
Qed.

Lemma daemon_signs key (c : OplogCommitment) :
  length (oplog_root c) = 32%nat ->
  sign_oplog_attestation key (hex_encode (oplog_root c)) (Contract.oplog_end_ts c) =
  Ok (hex_encode (sign key (attestation_message c))).
Proof.
  intros Hl. unfold sign_oplog_attestation. rewrite hex_decode_encode. cbn [ok_or mbind result_bind].
  by rewrite Hl.
Qed.

Section signature.
Context {Address : Type} `{EqDecision Address, Countable Address}.

(** C18: agreement of the attester and the contract: for a commitment of a well-formed
    ledger, the signature the daemon computes with a registered key from what it reads of
    the chain is accepted by the contract's [attest_oplog], and recorded. *)
Theorem daemon_signature_accepted env (s : Storage Address) a n c key :
  (forall k m, ed25519_ok (public_key_of k) m (sign k m) = true) ->
  ledger_ok s -> OplogCommitments s !! n = Some c -> authorized env a = true ->
  attesters s !! a = Some (public_key_of key) ->
  Forall (fun x => attester x <> a) (attestations_of n s) ->
  N.of_nat (length (attestations_of n s)) < Contract.u32_max ->
  exists sig, sign_oplog_attestation key (oc_oplog_root_hex (known_commitment n c))
                (oc_oplog_end_ts (known_commitment n c)) = Ok (hex_encode sig) /\
    (attest_oplog a n sig env s).1 = Done _ tt /\
    attestations_of n (invoke (attest_oplog a n sig) env s) =
      attestations_of n s ++ [{| attester := a; signature := sig; at_timestamp := timestamp env |}].
Proof.
  intros Hed Hok Hc Hauth Hkey Hnew Hlen.
  destruct (ok_oplog _ Hok n c Hc) as [[Hroot _] _].
  exists (sign key (attestation_message c)). split; [by apply daemon_signs|].
  assert (existsb (fun x => bool_decide (attester x = a)) (attestations_of n s) = false) as Hex.
  { apply not_true_iff_false. intros (x & Hin & He%bool_decide_eq_true)%existsb_exists.
    rewrite List.Forall_forall in Hnew. by apply (Hnew x). }
  assert (attest_oplog a n (sign key (attestation_message c)) env s =
          (Done unit tt, publish (AttestOplogEvent n a (timestamp env))
             (set_OplogAttestations n (attestations_of n s ++
                [{| attester := a; signature := sign key (attestation_message c);
                    at_timestamp := timestamp env |}]) s))) as Hrun.
  { unfold attest_oplog, require_auth, load, ok_or_fail, store, push_back, ledger_timestamp.
    unfold mbind, call_bind, mret, call_ret.
    rewrite Hauth, Hc, Hkey, length_signature. cbn [negb Nat.eqb]. rewrite Hex, Hed. cbn [negb].
    apply N.ltb_lt in Hlen. rewrite Hlen. done. }
  split; [by rewrite Hrun|]. unfold invoke. rewrite Hrun. unfold attestations_of at 1. cbn.
  by rewrite lookup_insert_eq.
Qed.
End signature.

(** ** The attester against the contract

    Accounts are named by their keys; [ledger] is the storage of the contract in a state of
    the network. *)

Section attester.
Context (contract : list byte) (ledger : Net -> Storage (list byte)).

(** What the RPC endpoint and the network do: the ledger of the contract only grows; a
    simulation of [get_oplog_commitment] returns the commitment as a map, or reports the
    contract's error; a transaction reported successful was applied, after it was sent. *)
Record honest_network : Prop := {
  hn_grows n n' : one_request n n' -> extends (ledger n) (ledger n');
  hn_commitment tx n answer n' seq :
    host_function tx = InvokeContract contract (as_bytes "get_oplog_commitment") [SvU64 seq] ->
    post_simulate tx n = (Parsed (Some answer) None, n') -> sim_error answer = None ->
    exists c first v m, OplogCommitments (ledger n') !! seq = Some c /\ results answer = [first] /\
      decoded_value first = Some v /\ inner_map v = Some m /\ encodes m (commitment_fields c);
  hn_applied env reply h n1 n2 n3 r err n4 pk seq sig :
    host_function (env_tx env) = InvokeContract contract (as_bytes "attest_oplog")
      [SvAddress (Account pk); SvU64 seq; SvBytes sig] ->
    post_send env n1 = (reply, n2) -> accepted reply h -> reaches n2 n3 ->
    post_get_transaction h n3 = (Parsed (Some r) err, n4) -> tx_status r = "SUCCESS"%string ->
    exists (env' : Env (list byte)) (s : Storage (list byte)), ledger_ok s /\ extends (ledger n1) s /\
      (attest_oplog pk seq sig env' s).1 = Done _ tt /\
      extends (invoke (attest_oplog pk seq sig) env' s) (ledger n4);
}.
Context (Hnet : honest_network).

Lemma ledger_grows n n' : reaches n n' -> extends (ledger n) (ledger n').
Proof.
  induction 1 as [n|n1 n2 n3 H12 _ IH]; [apply extends_refl|].
  eapply extends_trans; [by apply (hn_grows Hnet)|done].
Qed.

(** A call of [attest_oplog] that succeeds. *)
Lemma attest_oplog_Done (pk : list byte) (seq : N) (sig : list byte) (env : Env (list byte)) (s : Storage (list byte)) :
  (attest_oplog pk seq sig env s).1 = Done _ tt ->
  exists c key a, OplogCommitments s !! seq = Some c /\ attesters s !! pk = Some key /\
    ed25519_ok key (attestation_message c) sig = true /\
    OplogCommitments (invoke (attest_oplog pk seq sig) env s) !! seq = Some c /\
    a ∈ attestations_of seq (invoke (attest_oplog pk seq sig) env s) /\
    attester a = pk /\ Contract.signature a = sig.
Proof.
  unfold invoke, attest_oplog, require_auth, load, ok_or_fail, store, push_back, ledger_timestamp.
  unfold mbind, call_bind, mret, call_ret, Contract.fail, trap.
  destruct (authorized env pk); [|done].
  destruct (OplogCommitments s !! seq) as [c|] eqn:Hc; [|done].
  destruct (attesters s !! pk) as [key|] eqn:Hk; [|done].
  destruct (negb _); [done|]. destruct (existsb _ _); [done|].
  destruct (ed25519_ok key (attestation_message c) sig) eqn:Hv; [|done]. cbn [negb].
  destruct (_ <? _); [|done]. intros _.
  exists c, key, {| attester := pk; signature := sig; at_timestamp := timestamp env |}. split_and!; try done.
  unfold attestations_of at 1. cbn. rewrite lookup_insert_eq. apply elem_of_app. right.
  by apply list_elem_of_singleton.
Qed.

(** What the daemon reads of a commitment is the commitment. *)
Lemma read_commitment st kp seq w r w' :
  decode_contract_id (chain_contract_id st) = Ok contract ->
  (forall c, OplogCommitments (ledger (net (dw_net w'))) !! seq = Some c -> oplog_root c <> []) ->
  on_net (get_oplog_commitment_native seq kp (chain_contract_id st)) w = (Ok r, w') ->
  exists c, OplogCommitments (ledger (net (dw_net w'))) !! seq = Some c /\ r = Some (known_commitment seq c).
Proof.
  intros Hid Hne H. apply on_net_Ok in H as (n & H & Hn). unfold get_oplog_commitment_native in H.
  apply stateR_bind_Ok in H as (v & n1 & Hv & H). injection H as <- <-.
  apply simulate_call_run in Hv as (c0 & tx & answer & Hc0 & Hf & Hp & He & Hres).
  rewrite Hid in Hc0. injection Hc0 as <-. rewrite <-Hn in Hp.
  destruct (hn_commitment Hnet _ _ _ _ _ Hf Hp He) as (c & first & x & m & Hc & Hr & Hd & Hm & Henc).
  rewrite Hr in Hres. destruct Hres as (x' & Hx' & ->). rewrite Hd in Hx'. injection Hx' as <-.
  exists c. split; [done|]. cbn. eapply read_commitment_map; [exact Henc|by eapply Hne|exact Hm].
Qed.

(** Every state of the ledger is one the contract reaches. *)
Context (Hledger : forall n, ledger_ok (ledger n)).

Lemma root_not_empty n seq c : OplogCommitments (ledger n) !! seq = Some c -> oplog_root c <> [].
Proof. intros Hc Hr. destruct (ok_oplog _ (Hledger n) _ _ Hc) as [[Hl _] _]. by rewrite Hr in Hl. Qed.

Lemma range_run st client seq w kp found w' :
  decode_contract_id (chain_contract_id st) = Ok contract ->
  commitment_and_range st client seq w = (Ok (kp, found), w') ->
  attester_stellar_keypair st = Some kp /\
  exists c range, OplogCommitments (ledger (net (dw_net w'))) !! seq = Some c /\
    found = Some (known_commitment seq c, range) /\
    compute_oplog_range_hash (hello client) (read_oplog_range client) (Z.of_N seq)
      (unpack_u64 (Z.of_N (Contract.oplog_start_ts c))) (unpack_u64 (Z.of_N (Contract.oplog_end_ts c))) = Ok range.
Proof.
  intros Hid H. unfold commitment_and_range in H.
  apply stateR_bind_Ok in H as (kp' & w1 & [Hkp ->]%ok_or_with & H).
  apply stateR_bind_Ok in H as (oc & w2 & Hoc%context_Ok & H).
  destruct (read_commitment st kp' seq w oc w2 Hid (fun c => root_not_empty _ _ c) Hoc) as (c & Hc & ->).
  apply stateR_bind_Ok in H as (range & w3 & [Hrange ->]%try_with_Ok & H). injection H as <- <- <-.
  split; [done|]. exists c, range. by split_and!.
Qed.

Lemma attest_native_run polls kp seq sig_hex contract_id passphrase (w w' : NetWorld) :
  decode_contract_id contract_id = Ok contract ->
  attest_oplog_native polls kp seq sig_hex contract_id passphrase w = (Ok tt, w') ->
  exists sig s (env : Env (list byte)), hex_decode sig_hex = Some sig /\ extends (ledger (net w)) s /\
    (attest_oplog (public_bytes kp) seq sig env s).1 = Done _ tt /\
    extends (invoke (attest_oplog (public_bytes kp) seq sig) env s) (ledger (net w')).
Proof.
  intros Hid H. unfold attest_oplog_native in H.
  apply stateR_bind_Ok in H as (sv & w1 & [Hsv ->]%try_Ok & H).
  apply stateR_bind_Ok in H as ([h sim] & w2 & Hsub & H). injection H as <-.
  unfold hex_to_scbytes in Hsv. apply bind_Ok_inv in Hsv as (sig & Hsig%ok_or_Ok & Hsv).
  destruct (bounded _ _ sig) as [sig'|] eqn:Hb; [|done]. apply bounded_Ok in Hb as ->. injection Hsv as <-.
  apply submit_success in Hsub as (env & reply & n1 & n2 & n3 & r & err & Hcall & H01 & Hpost & Hacc & H23 & Hget & Hst).
  destruct Hcall as (sequence & tx & Hb & (_ & _ & Hf & _) & _).
  apply build_invoke_Ok in Hb as (c0 & Hc0 & _ & Hf0). rewrite Hid in Hc0. injection Hc0 as <-.
  rewrite Hf0 in Hf. unfold sv_account in Hf.
  destruct (hn_applied Hnet env reply h n1 n2 n3 r err (net w2) _ _ _ Hf Hpost Hacc H23 Hget Hst)
    as (env' & s & _ & H1s & Hdone & Hext).
  exists sig, s, env'. split_and!; [done| |done|done].
  eapply extends_trans; [by apply ledger_grows|done].
Qed.

Lemma submit_attestation_run polls st kp seq oc w w' :
  decode_contract_id (chain_contract_id st) = Ok contract ->
  submit_attestation polls st kp seq oc w = (Ok true, w') ->
  exists key sig_hex, attester_key st = Some key /\
    sign_oplog_attestation key (oc_oplog_root_hex oc) (oc_oplog_end_ts oc) = Ok sig_hex /\
    attest_oplog_native polls kp seq sig_hex (chain_contract_id st) (chain_passphrase st) (dw_net w) =
      (Ok tt, dw_net w').
Proof.
  intros Hid H. unfold submit_attestation in H.
  apply stateR_bind_Ok in H as (key & w1 & [Hk ->]%ok_or_with & H).
  apply stateR_bind_Ok in H as (sig_hex & w2 & [Hs ->]%try_with_Ok & H).
  apply stateR_bind_Ok in H as (r & w3 & Hr%attempt_Ok & H). injection H as Hok <-.
  destruct r as [[]|e]; [|done]. apply on_net_Ok in Hr as (n & Hn & Hn').
  exists key, sig_hex. split_and!; [done..|]. by rewrite Hn'.
Qed.

(** C7: what the attester reports as attested is on the ledger: the contract holds an
    attestation of the sequence by the attester's account, whose signature is the daemon's
    over the message of the committed root, verified by the contract under the key the
    admin registered; and the committed root is the root the attester computed from its
    own replica. *)
Theorem attested_is_on_ledger polls now st client seq w r w' :
  decode_contract_id (chain_contract_id st) = Ok contract ->
  attest_epoch polls now st client seq w = (Ok r, w') -> attested r = true ->
  let s := ledger (net (dw_net w')) in
  exists kp key registered c range a,
    attester_stellar_keypair st = Some kp /\ attester_key st = Some key /\
    OplogCommitments s !! seq = Some c /\
    compute_oplog_range_hash (hello client) (read_oplog_range client) (Z.of_N seq)
      (unpack_u64 (Z.of_N (Contract.oplog_start_ts c))) (unpack_u64 (Z.of_N (Contract.oplog_end_ts c))) = Ok range /\
    OplogTree.oplog_merkle_root_hex range = hex_encode (oplog_root c) /\
    a ∈ attestations_of seq s /\ attester a = public_bytes kp /\
    Contract.signature a = sign key (attestation_message c) /\
    ed25519_ok registered (attestation_message c) (Contract.signature a) = true.
Proof.
  intros Hid H Hatt s. unfold attest_epoch in H.
  apply stateR_bind_Ok in H as ([kp found] & w1 & Hr & H).
  apply (range_run _ _ _ _ _ _ _ Hid) in Hr as (Hkp & c & range & Hc & -> & Hrange).
  apply stateR_bind_Ok in H as ([att al] & w2 & Hsub & H). injection H as <- <-.
  cbn [attested] in Hatt. subst att.
  destruct (bool_decide_reflect (OplogTree.oplog_merkle_root_hex range = oc_oplog_root_hex (known_commitment seq c)))
    as [Hroot|Hroot]; [|done].
  apply stateR_bind_Ok in Hsub as (att & w3 & Hsub & Heq). injection Heq as -> _ <-.
  apply (submit_attestation_run _ _ _ _ _ _ _ Hid) in Hsub as (key & sig_hex & Hk & Hsig & Hnat).
  apply (attest_native_run _ _ _ _ _ _ _ _ Hid) in Hnat as (sig & s0 & env & Hdec & Hext0 & Hdone & Hext).
  destruct (ok_oplog _ (Hledger _) _ _ Hc) as [[Hl _] _].
  apply daemon_message in Hsig; [|done]. rewrite Hsig, hex_decode_encode in Hdec. injection Hdec as <-.
  destruct (attest_oplog_Done _ _ _ _ _ Hdone) as (c' & registered & a & Hc' & _ & Hv & Hcs & Ha & Hpk & Hsg).
  rewrite (ext_oplog _ _ Hext0 _ _ Hc) in Hc'. injection Hc' as <-.
  exists kp, key, registered, c, range, a. rewrite Hsg. split_and!; try done.
  - by apply (ext_oplog _ _ Hext).
  - destruct (ext_attest _ _ Hext seq) as [l Hpre]. unfold s. rewrite Hpre. apply elem_of_app. by left.
Qed.

(** The branch for an epoch without an oplog commitment is never taken: the contract
    answers with an error, so such a sequence is a failure and not a skip. *)
Theorem uncommitted_sequence_fails polls now st client seq w r w' :
  decode_contract_id (chain_contract_id st) = Ok contract ->
  attest_epoch polls now st client seq w = (Ok r, w') ->
  exists n c, OplogCommitments (ledger n) !! seq = Some c /\ on_chain_oplog_root r = hex_encode (oplog_root c).
Proof.
  intros Hid H. unfold attest_epoch in H.
  apply stateR_bind_Ok in H as ([kp found] & w1 & Hr & H).
  apply (range_run _ _ _ _ _ _ _ Hid) in Hr as (_ & c & range & Hc & -> & _).
  apply stateR_bind_Ok in H as ([att al] & w2 & _ & H). injection H as <- <-.
  by exists (net (dw_net w1)), c.
Qed.
End attester.

(** ** A disagreement *)

Abbreviation quiet := (keeps same_sent).

Lemma quiet_on_net {A} (m : netM A) w r w' :
  quiet m -> on_net m w = (r, w') -> sent (dw_net w') = sent (dw_net w).
Proof.
  intros Hq H. specialize (Hq (dw_net w)). unfold on_net in H. destruct (m (dw_net w)) as [x n].
  by injection H as _ <-.
Qed.

Lemma quiet_simulate_call kp contract_id f args what : quiet (simulate_call kp contract_id f args what).
Proof.
  unfold simulate_call. apply quiet_bind; [apply quiet_try|intros tx].
  apply quiet_bind; [apply quiet_simulate|intros sim]. unfold return_value.
  destruct (results sim); [apply quiet_ret|].
  apply quiet_bind; [apply quiet_try|intros bytes]. apply quiet_bind; [apply quiet_try|intros v]. apply quiet_ret.
Qed.

Lemma range_quiet st client seq w kp found w' :
  commitment_and_range st client seq w = (Ok (kp, found), w') -> sent (dw_net w') = sent (dw_net w).
Proof.
  unfold commitment_and_range. intros H.
  apply stateR_bind_Ok in H as (kp' & w1 & [_ ->]%ok_or_with & H).
  apply stateR_bind_Ok in H as (oc & w2 & Hoc%context_Ok & H).
  apply quiet_on_net in Hoc; [|apply quiet_bind; [apply quiet_simulate_call|intros; apply quiet_ret]].
  destruct oc as [oc|]; [|by injection H as _ _ <-].
  apply stateR_bind_Ok in H as (range & w3 & [_ ->]%try_with_Ok & H). by injection H as _ _ <-.
Qed.

(** A disagreement is an alert and nothing else: when the root computed from the
    attester's replica differs from the committed one, the result carries an alert with
    both roots, is not attested, and no transaction was sent; and whenever the result says
    that the roots agree there is no alert. *)
Theorem disagreement_raises_alert polls now st client seq w r w' :
  attest_epoch polls now st client seq w = (Ok r, w') -> on_chain_oplog_root r <> "none"%string ->
  (matched r = true <-> computed_oplog_root r = on_chain_oplog_root r) /\
  (matched r = true -> alert r = None) /\
  (matched r = false -> attested r = false /\ sent (dw_net w') = sent (dw_net w) /\
     exists a, alert r = Some a /\ aa_sequence a = seq /\
       aa_on_chain_oplog_root a = on_chain_oplog_root r /\ aa_computed_oplog_root a = computed_oplog_root r).
Proof.
  unfold attest_epoch. intros H Hnone.
  apply stateR_bind_Ok in H as ([kp [[c range]|]] & w1 & Hq%range_quiet & H).
  2: { injection H as <- <-. done. }
  apply stateR_bind_Ok in H as ([att al] & w2 & Hsub & H). injection H as <- <-. cbn.
  rewrite bool_decide_eq_true, bool_decide_eq_false. split; [done|].
  destruct (bool_decide_reflect (OplogTree.oplog_merkle_root_hex range = oc_oplog_root_hex c)) as [He|He].
  - split; [|done]. intros _. by apply stateR_bind_Ok in Hsub as (b & w3 & _ & [= _ <- _]).
  - split; [done|]. intros _. injection Hsub as <- <- <-. split_and!; [done|done|]. by eexists.
Qed.

(** ** The loop of the attester *)

Lemma attest_new_app polls st client l1 l2 last w m w1 :
  attest_new polls st client last l1 w = (Ok m, w1) ->
  attest_new polls st client last (l1 ++ l2) w = attest_new polls st client m l2 w1.
Proof.
  revert last w. induction l1 as [|seq l1 IH]; intros last w; cbn [app attest_new].
  - by intros [= -> ->].
  - intros H. apply stateR_bind_Ok in H as (r & w2 & Hr & H). apply IH in H.
    unfold mbind, stateR_bind in *. by rewrite Hr.
Qed.

Lemma attempt_Err {E E' A} (m : daemon E A) w e w' :
  m w = (Err (Failed e), w') -> attempt (E' := E') m w = (Ok (Err e), w').
Proof. unfold attempt. by intros ->. Qed.
Lemma attempt_ok {E E' A} (m : daemon E A) w a w' :
  m w = (Ok a, w') -> attempt (E' := E') m w = (Ok (Ok a), w').
Proof. unfold attempt. by intros ->. Qed.

(** A sequence whose attestation failed is given up as soon as a later one of the same
    pass does not fail: the pass ends at the later one, and while no newer root is
    committed the passes that follow send nothing. *)
Theorem failed_sequence_given_up polls probe st client last seqs failed seq w m w1 e w2 b w3 :
  attest_new polls st client last seqs w = (Ok m, w1) ->
  attest_epoch_internal polls st client failed w1 = (Err (Failed e), w2) ->
  attest_epoch_internal polls st client seq w2 = (Ok b, w3) ->
  attest_new polls st client last (seqs ++ [failed; seq]) w = (Ok seq, w3) /\
  forall w4 n w5, mongo_client st = Some client ->
    (forall root w6, get_current_root probe (chain_contract_id st) w4 = (Ok (Some root), w6) ->
       or_sequence root <= seq) ->
    auto_attest_pass polls probe st seq w4 = (Ok n, w5) ->
    n = seq /\ sent (dw_net w5) = sent (dw_net w4).
Proof.
  intros H1 H2 H3. split.
  - rewrite (attest_new_app _ _ _ _ _ _ _ _ _ H1). cbn [attest_new]. unfold mbind, stateR_bind.
    by rewrite (attempt_Err _ _ _ _ H2), (attempt_ok _ _ _ _ H3).
  - intros w4 n w5 Hm Hroot Hpass. unfold auto_attest_pass in Hpass. rewrite Hm in Hpass.
    apply stateR_bind_Ok in Hpass as (cr & w6 & Hcr%attempt_Ok & Hpass).
    assert (sent (dw_net w6) = sent (dw_net w4)) as Hsent.
    { unfold get_current_root in Hcr. eapply quiet_on_net; [|exact Hcr].
      apply quiet_bind; [apply quiet_simulate_call|intros; apply quiet_ret]. }
    destruct cr as [[root|]|e']; [|by injection Hpass as <- <-..].
    specialize (Hroot root w6 Hcr). apply N.leb_le in Hroot. rewrite Hroot in Hpass.
    by injection Hpass as <- <-.
Qed.

(** ** The publisher *)

Lemma find_epoch_insert n es i e e' :
  find_epoch n es = Some (i, e) -> epoch_number e' = n -> find_epoch n (<[i := e']> es) = Some (i, e').
Proof.
  unfold find_epoch. rewrite !list_find_Some. intros (Hi & _ & Hbefore) Hn.
  split_and!; [by apply list_lookup_insert_eq, lookup_lt_Some in Hi || by apply list_lookup_insert_eq; eapply lookup_lt_Some|done|].
  intros j y Hj Hlt. rewrite list_lookup_insert_ne in Hj by lia. by eapply Hbefore.
Qed.

(** What [mark_committed] leaves behind. *)
Lemma mark_committed_run now n tx (e e' : EpochWorld) :
  mark_committed now n tx e = (Ok tt, e') ->
  exists i epoch t, find_epoch n (epochs (manager e)) = Some (i, epoch) /\
    find_epoch n (epochs (manager e')) = Some (i, set_committed (to_rfc3339 now) (Some t) epoch).
Proof.
  unfold mark_committed. intros H. apply stateR_bind_Ok in H as (es & e1 & [= <- <-] & H).
  destruct (find_epoch n (epochs (manager e))) as [[i epoch]|] eqn:Hf; [|done].
  apply stateR_bind_Ok in H as ([] & e2 & [= <-] & H).
  set (tx' := if _ && _ then tx_hash epoch else Some tx) in H.
  assert (exists t, tx' = Some t) as [t Ht].
  { unfold tx'. destruct (tx_hash epoch) as [t|]; [destruct (_ && _); by eexists|].
    rewrite andb_false_r. by eexists. }
  exists i, epoch, t. split; [done|]. rewrite <-Ht.
  assert (epochs (manager e') = <[i := set_committed (to_rfc3339 now) tx' epoch]> (epochs (manager e))) as ->.
  { unfold save in H. cbn in H. destruct (persistence_path (manager e)); [|by injection H as <-].
    destruct (ep_error e); [done|]. by injection H as <-. }
  apply find_epoch_insert with epoch; [done|]. cbn. by apply list_find_Some in Hf as (_ & ? & _).
Qed.

Definition epochs_kept {E A} (m : daemon E A) : Prop := forall w, dw_epochs (m w).2 = dw_epochs w.

Lemma net_keeps_epochs {A} (m : netM A) : epochs_kept (on_net m).
Proof. intros w. unfold on_net. by destruct (m (dw_net w)) as [[a|[]] n]. Qed.
Lemma attempt_keeps_epochs {E E' A} (m : daemon E A) : epochs_kept m -> epochs_kept (attempt (E' := E') m).
Proof. intros Hm w. specialize (Hm w). unfold attempt. by destruct (m w) as [[a|[]] w1]. Qed.
Lemma cid_keeps_epochs n {E} : epochs_kept (ipfs_cid n (E := E)).
Proof.
  intros w. unfold ipfs_cid, attempt, on_audit, mbind, stateR_bind.
  by destruct (load_ipfs_cid (Z.of_N n) (dw_log w)) as [[a|e] x].
Qed.
Lemma kept_run {E A} (m : daemon E A) w r w' : epochs_kept m -> m w = (r, w') -> dw_epochs w' = dw_epochs w.
Proof. intros Hm H. specialize (Hm w). by rewrite H in Hm. Qed.

Lemma commit_native_root polls st kp epoch root_hex_ metadata w r w' :
  commit_native polls st kp epoch root_hex_ metadata w = (Ok r, w') -> cr_root_hex r = root_hex_.
Proof.
  unfold commit_native. destruct (Epoch.oplog_merkle_root_hex epoch) as [o|].
  all: intros H; apply on_net_Ok in H as (n & H & _).
  all: unfold commit_root_with_oplog_native, commit_root_native in H.
  all: repeat (apply stateR_bind_Ok in H as (? & ? & _ & H); try case_match).
  all: by injection H as <- _.
Qed.

(** The transaction of a commit, or the entry of the history it falls back to. *)
Lemma committed_root polls st kp probe epoch root metadata w cr w1 res w2 :
  attempt (E' := AuditError) (commit_native polls st kp epoch root metadata) w = (Ok cr, w1) ->
  match cr with
  | Ok r => mret r
  | Err e =>
    if str_contains "#2" (error_text e) then
      history ← on_net (get_root_history_native probe (chain_contract_id st) 20);
      existing ← try_with id (ok_or (List.find (fun e => bool_decide (or_root_hex e = root)) history)
        (Validation ("root " +:+ root +:+
          " is already committed but could not be found in the on-chain history")));
      mret {| cr_sequence := or_sequence existing; cr_tx_hash := ""; cr_root_hex := or_root_hex existing |}
    else fail e
  end w1 = (Ok res, w2) ->
  cr_root_hex res = root /\ dw_epochs w2 = dw_epochs w.
Proof.
  intros H1 H2.
  assert (dw_epochs w1 = dw_epochs w) as Hw1.
  { eapply kept_run; [|exact H1]. apply attempt_keeps_epochs. unfold commit_native.
    destruct (Epoch.oplog_merkle_root_hex epoch); apply net_keeps_epochs. }
  apply attempt_Ok in H1. destruct cr as [r|e].
  - injection H2 as <- <-. split; [by eapply commit_native_root|done].
  - destruct (str_contains _ _); [|done].
    apply stateR_bind_Ok in H2 as (history & w3 & Hh & H2).
    apply kept_run in Hh; [|apply net_keeps_epochs].
    apply stateR_bind_Ok in H2 as (x & w4 & [Hfound ->]%ok_or_with & H2). injection H2 as <- <-.
    apply List.find_some in Hfound as [_ Hfound%bool_decide_eq_true]. split; [done|by rewrite Hh].
Qed.

(** A committed epoch answers from its record. *)
Lemma answers_from_record polls now probe st n w epoch root t :
  epoch_by_number n (list_epochs (manager (dw_epochs w))) = Some epoch ->
  root_hex epoch = Some root -> is_open epoch = false -> committed epoch = true -> tx_hash epoch = Some t ->
  commit_epoch polls now probe st n w =
    (Ok {| cr_sequence := 0; cr_tx_hash := t; cr_root_hex := root |}, w).
Proof.
  intros He Hr Ho Hc Ht. unfold commit_epoch, all_epochs, gets, mbind, stateR_bind.
  rewrite He. cbn [try_with ok_or mret stateR_ret]. rewrite Ho. cbn. by rewrite Hr, Hc, Ht.
Qed.

Lemma recorded now n w w' epoch root tx :
  epoch_by_number n (list_epochs (manager (dw_epochs w))) = Some epoch ->
  root_hex epoch = Some root -> is_open epoch = false ->
  on_epochs (mark_committed now n tx) w = (Ok tt, w') ->
  exists t, forall polls now probe st, commit_epoch polls now probe st n w' =
    (Ok {| cr_sequence := 0; cr_tx_hash := t; cr_root_hex := root |}, w').
Proof.
  intros He Hr Ho H. unfold on_epochs in H.
  destruct (mark_committed now n tx (dw_epochs w)) as [[[]|[]] e'] eqn:Hm; try done. injection H as <-.
  apply mark_committed_run in Hm as (i & epoch' & t & Hf & Hf').
  unfold epoch_by_number, list_epochs in He. rewrite Hf in He. injection He as ->.
  exists t. intros. apply answers_from_record with (set_committed (to_rfc3339 now) (Some t) epoch); try done.
  unfold epoch_by_number, list_epochs. cbn. by rewrite Hf'.
Qed.

(** C19: committing an epoch again changes nothing: after a successful commit of an epoch
    whose root is frozen, any further request answers from the recorded transaction, with
    the same root, without touching the network, the epochs or the log. *)
Theorem commit_epoch_idempotent polls now probe st n w r w' :
  (forall e, epoch_by_number n (list_epochs (manager (dw_epochs w))) = Some e -> is_Some (root_hex e)) ->
  commit_epoch polls now probe st n w = (Ok r, w') ->
  exists r', cr_root_hex r' = cr_root_hex r /\
    forall polls' now' probe' st', commit_epoch polls' now' probe' st' n w' = (Ok r', w').
Proof.
  intros Hroot H. unfold commit_epoch in H.
  apply stateR_bind_Ok in H as (es & w1 & Hes & H). injection Hes as <- <-.
  apply stateR_bind_Ok in H as (epoch & w1 & [He ->]%ok_or_with & H).
  destruct (Hroot epoch He) as [root Hr]. destruct (is_open epoch) eqn:Hopen; [done|].
  apply stateR_bind_Ok in H as (fallback & w1 & Hfb & H). injection Hfb as <- <-.
  rewrite Hr in H. cbn [default] in H.
  destruct (committed epoch) eqn:Hc, (tx_hash epoch) as [t|] eqn:Ht.
  1: { injection H as <- <-. eexists. split; [|intros; by apply answers_from_record with epoch]. done. }
  all: apply stateR_bind_Ok in H as (cid & w1 & Hw1%(kept_run _ _ _ _ (cid_keeps_epochs n)) & H).
  all: apply stateR_bind_Ok in H as (kp & w2 & [_ ->]%ok_or_with & H).
  all: apply stateR_bind_Ok in H as (cr & w2 & Hcr & H).
  all: apply stateR_bind_Ok in H as (res & w3 & Hres & H).
  all: apply stateR_bind_Ok in H as ([] & w4 & Hm & H); injection H as <- <-.
  all: destruct (committed_root _ _ _ _ _ _ _ _ _ _ _ _ Hcr Hres) as [Hroot' Hw3].
  all: rewrite <-Hw1, <-Hw3 in He.
  all: destruct (recorded _ _ _ _ _ _ _ He Hr Hopen Hm) as [t' Ht'].
  all: eexists; split; [|exact Ht']; done.
Qed.

(** A batch whose encryption fails goes out in clear, and its receipt still says that it
    is encrypted. *)
Theorem clear_batch_marked_encrypted st n content e cid :
  age_recipients st <> [] -> encrypt_batch content (age_recipients st) = Err e -> pinata_config st = None ->
  kubo_publish n (as_bytes content) = Ok cid ->
  publish_epoch_batch_to_ipfs st n content = Ok {| cid := cid; encrypted := true |}.
Proof.
  intros Hr He Hp Hk. unfold publish_epoch_batch_to_ipfs. rewrite He, Hp.
  destruct (age_recipients st); [done|]. cbn. by rewrite Hk.
Qed.

(** With [oplog_hash_required], a request to close an epoch is refused when the server
    does not answer, but the epoch is closed all the same. *)
Theorem refused_close_still_closes st client w epoch w1 e :
  mongo_client st = Some client -> oplog_hash_required st = true -> hello client = Err e ->
  on_epochs (close_current_epoch (log (dw_log w))) w = (Ok epoch, w1) ->
  exists msg, close_epoch st w = (Err (Failed (Validation msg)), w1).
Proof.
  intros Hm Hreq Hh Hclose. eexists. unfold close_epoch, gets, mbind, stateR_bind. rewrite Hclose, Hm.
  unfold attempt, compute_and_attach_oplog_hash, context, gets, mbind, stateR_bind.
  rewrite Hh. cbn. by rewrite Hreq.
Qed.
End daemon_spec.

(** ** A network with the contract

    The state of the network is the transactions the contract has executed; a submission of
    an attestation executes at once, when the contract accepts it. *)

Import Concrete OplogTreeExample MemoryDb.
#[local] Existing Instance toy_bn254.
#[local] Obligation Tactic := idtac.

Module DaemonToy.
Abbreviation account := (list byte).

(** A signature is the key and the message, padded and cut to its length. *)
#[export] Program Instance open_signer : Signer :=
  {| public_key_of k := take 32 (k ++ replicate 32 x00);
     sign k m := take 64 (take 32 (k ++ replicate 32 x00) ++ m ++ replicate 64 x00) |}.
Next Obligation. intros k. cbv beta. rewrite length_take, length_app, length_replicate. lia. Qed.
Next Obligation. intros k m. cbv beta. rewrite length_take, !length_app, !length_replicate. lia. Qed.
#[export] Instance open_ed25519 : Ed25519 :=
  {| ed25519_ok key m sig := bool_decide (sig = take 64 (key ++ m ++ replicate 64 x00)) |}.

Lemma open_signatures k m : ed25519_ok (public_key_of k) m (sign k m) = true.
Proof. by apply bool_decide_eq_true. Qed.

Definition seed : list byte := replicate 32 x07.
Definition attester_kp : StellarKeypair := from_secret_bytes seed.
Definition owner : account := replicate 32 x01.
Definition by_account (a : account) : Env account :=
  {| timestamp := 5; authorized := fun b => bool_decide (a = b) |}.

(** The commitment of the two entries of the replica, at sequence 1. *)
Definition epoch_root : list byte := tree_root (build_oplog_tree [e1; e2]).
Definition the_commitment : OplogCommitment :=
  {| oplog_root := epoch_root; Contract.oplog_start_ts := Z.to_N (pack_u64 (ts 800 0));
     Contract.oplog_end_ts := Z.to_N (pack_u64 (ts 900 5)); Contract.oplog_entry_count := 2 |}.
Definition toy_points (n : nat) : VerifyingKey :=
  {| alpha := be_bytes 64 2; beta := be_bytes 128 3; gamma := be_bytes 128 1; delta := be_bytes 128 1;
     ic := List.repeat (be_bytes 64 0) (S n) |}.
Definition start_ledger : Storage account :=
  transact_all
    [(by_account owner, CommitRootWithOplog (be_bytes 32 10) epoch_root (Contract.oplog_start_ts the_commitment)
                          (Contract.oplog_end_ts the_commitment) 2 "epoch=1");
     (by_account owner, AuthorizeAttester (public_bytes attester_kp) (public_key_of seed))]
    (transact (by_account owner) (Initialize owner (toy_points 2)) Contract.fresh).
Definition ledger_of (n : list (Env account * message account)) : Storage account := transact_all n start_ledger.

#[export] Instance OplogCommitment_eq_dec : EqDecision OplogCommitment.
Proof. solve_decision. Defined.

Definition contract_bytes : list byte := replicate 32 x09.

#[export] Instance value_xdr : StellarXdr :=
  {| SorobanData := unit; SorobanAuth := unit;
     ScVal_from_xdr _ := Some (SvMap (Some (struct (commitment_fields the_commitment))));
     soroban_data_from_xdr _ := Some tt; auth_from_xdr _ := Some tt; ledger_entry_from_xdr _ := Some (Some 41%Z) |}.
#[export] Instance plain_payload : PayloadXdr :=
  {| payload_xdr id tx := id ++ source_account tx; contract_id_preimage_xdr id p := id ++ deployer p ++ salt p |}.

(** The attestation a transaction asks for. *)
Definition asked (tx : Transaction) : option (account * N * list byte) :=
  match host_function tx with
  | InvokeContract c f [SvAddress (Account pk); SvU64 seq; SvBytes sig] =>
    if bool_decide (c = contract_bytes) && bool_decide (f = as_bytes "attest_oplog") then Some (pk, seq, sig) else None
  | _ => None
  end.
Definition executes (pk : account) (seq : N) (sig : list byte) (s : Storage account) : bool :=
  match (attest_oplog pk seq sig (by_account pk) s).1 with Done _ _ => true | _ => false end.
Definition answers (error : option string) : SimulationResult :=
  {| transaction_data := Some "data"%string; transaction_data_owned := None; min_resource_fee := Some 1000%Z;
     results := [{| auth := []; xdr := "" |}]; sim_error := error |}.
(** A simulation that is not a call for the commitment of the ledger's first sequence. *)
Definition unknown_sequence (tx : Transaction) (s : Storage account) : bool :=
  match host_function tx with
  | InvokeContract _ f [SvU64 seq] =>
    bool_decide (f = as_bytes "get_oplog_commitment") && negb (bool_decide (OplogCommitments s !! seq = Some the_commitment))
  | _ => false
  end.

#[export] Instance contract_rpc : SorobanRpc :=
  {| Net := list (Env account * message account);
     post_ledger_entries _ n := (Parsed (Some ["entry"%string]) None, n);
     post_simulate tx n :=
       (Parsed (Some (answers (if unknown_sequence tx (ledger_of n)
                               then Some "HostError: Error(Contract, #7)"%string else None))) None, n);
     post_send env n :=
       match asked (env_tx env) with
       | Some (pk, seq, sig) =>
         if executes pk seq sig (ledger_of n)
         then (Parsed (Some {| send_status := "PENDING"; send_hash := "h"; error_result_xdr := None |}) None,
               n ++ [(by_account pk, AttestOplog pk seq sig)])
         else (SendFailed "refused", n)
       | None => (SendFailed "refused", n)
       end;
     post_get_transaction _ n := (Parsed (Some {| tx_status := "SUCCESS"; result_xdr := None |}) None, n) |}.

Lemma start_ledger_ok : ledger_ok start_ledger.
Proof. apply transact_all_extends, initialized_ok. reflexivity. Qed.
Lemma ledger_of_ok n : ledger_ok (ledger_of n).
Proof. apply transact_all_extends, start_ledger_ok. Qed.
Lemma ledger_of_app n l : ledger_of (n ++ l) = transact_all l (ledger_of n).
Proof. unfold ledger_of, transact_all. apply foldl_app. Qed.
Lemma ledger_of_grows n l : extends (ledger_of n) (ledger_of (n ++ l)).
Proof. rewrite ledger_of_app. apply transact_all_extends, ledger_of_ok. Qed.

Lemma request_appends n n' : one_request n n' -> exists l, n' = n ++ l.
Proof.
  intros [(? & ? & H)|[(? & ? & H)|[(env & ? & H)|(? & ? & H)]]]; cbn in H.
  1-2,4: injection H as _ <-; exists []; by rewrite app_nil_r.
  destruct (asked (env_tx env)) as [[[pk seq] sig]|]; [destruct (executes _ _ _ _)|].
  1: by injection H as _ <-; eexists.
  all: injection H as _ <-; exists []; by rewrite app_nil_r.
Qed.
Lemma reaches_appends n n' : reaches n n' -> exists l, n' = n ++ l.
Proof.
  induction 1 as [n|n1 n2 n3 H _ [l ->]]; [exists []; by rewrite app_nil_r|].
  apply request_appends in H as [l' ->]. exists (l' ++ l). by rewrite app_assoc.
Qed.

Lemma network_honest : honest_network contract_bytes ledger_of.
Proof.
  split.
  - intros n n' [l ->]%request_appends. apply ledger_of_grows.
  - intros tx n answer n' seq Hf [= <- <-] He. cbn in He. unfold unknown_sequence in He. rewrite Hf in He.
    rewrite bool_decide_eq_true_2 in He by done. cbn in He.
    destruct (bool_decide_reflect (OplogCommitments (ledger_of n) !! seq = Some the_commitment)) as [Hc|]; [|done].
    eexists the_commitment, _, _, _. split_and!; [exact Hc|reflexivity..|]. apply Permutation_refl.
  - intros env reply h n1 n2 n3 r err n4 pk seq sig Hf Hpost Hacc [l ->]%reaches_appends Hget Hst.
    cbn in Hpost, Hget. unfold asked in Hpost. rewrite Hf in Hpost.
    rewrite !bool_decide_eq_true_2 in Hpost by done. cbn in Hpost.
    destruct (executes pk seq sig (ledger_of n1)) eqn:Hex.
    2: { injection Hpost as <- <-. specialize (Hacc {| net := n1; sent := [] |}). discriminate Hacc. }
    injection Hpost as <- <-. injection Hget as _ _ <-. unfold executes in Hex.
    exists (by_account pk), (ledger_of n1). split_and!.
    + apply ledger_of_ok.
    + apply extends_refl.
    + by destruct (attest_oplog pk seq sig (by_account pk) (ledger_of n1)).1 as [[]| |].
    + rewrite <-app_assoc, ledger_of_app. cbn [app]. change (extends ?s (transact_all ((?e, ?m) :: ?l) ?s0)) with
        (extends s (transact_all l (transact e m s0))). cbn [transact].
      apply transact_all_extends. change (invoke ?x ?e ?s) with (transact e (AttestOplog pk seq sig) s).
      pose proof (ledger_of_ok (n1 ++ [(by_account pk, AttestOplog pk seq sig)])) as Hok.
      by rewrite ledger_of_app in Hok.
Qed.

(** ** The attester next to its replica *)

Definition replica : Mongo := {| hello := Ok hello_reply; read_oplog_range := server |}.
Definition attester_state : DaemonState :=
  {| mongo_client := Some replica; attester_key := Some seed; oplog_hash_required := true;
     signing_keypair := Some attester_kp; attester_stellar_keypair := Some attester_kp;
     chain_contract_id := encode_contract_id contract_bytes; chain_passphrase := "net"; pinata_config := None;
     age_recipients := []; events_jsonl := None |}.

#[export] Instance refused_ipfs : IpfsBackends :=
  {| encrypt_batch _ _ := Err (Validation "no recipients"); kubo_publish _ _ := Ok "Qm"%string;
     pinata_publish _ _ _ := Err (Validation "offline") |}.

Definition closed_epoch : Epoch :=
  {| epoch_number := 1; start_index := 0; end_index := Some 0; root_hex := Some "ab"%string; event_count := 1;
     committed := false; committed_at := None; tx_hash := None; oplog_start_ts := None; oplog_end_ts := None;
     oplog_entry_count := None; Epoch.oplog_merkle_root_hex := None; oplog_majority_commit_ts := None |}.
End DaemonToy.
Import DaemonToy.

Lemma attester_key_stable_witness :
  load_or_generate_attester_key true false (replicate 32 x02) (KeyFile seed) = (Ok seed, KeyFile seed).
Proof. apply (attester_key_stable true true false seed Missing seed (KeyFile seed) (replicate 32 x02)); reflexivity. Defined.

Lemma daemon_signature_accepted_witness :
  exists sig, sign_oplog_attestation seed (hex_encode epoch_root) (Contract.oplog_end_ts the_commitment) =
    Ok (hex_encode sig) /\
    (attest_oplog (public_bytes attester_kp) 1 sig (by_account (public_bytes attester_kp)) start_ledger).1 = Done _ tt.
Proof.
  destruct (daemon_signature_accepted (by_account (public_bytes attester_kp)) start_ledger (public_bytes attester_kp) 1
    the_commitment seed) as (sig & Hs & Hd & _).
  - exact open_signatures.
  - exact start_ledger_ok.
  - vm_compute. reflexivity.
  - reflexivity.
  - vm_compute. reflexivity.
  - constructor.
  - reflexivity.
  - exists sig. split; [exact Hs|exact Hd].
Defined.

Definition attester_world : DaemonWorld :=
  {| dw_net := {| net := []; sent := [] |}; dw_epochs := manager0; dw_log := AuditExample.fresh None |}.
Abbreviation attester_run := (attest_epoch 16 0 attester_state replica 1 attester_world).
Definition attester_result : AttestResult :=
  {| ar_sequence := 1; on_chain_oplog_root := hex_encode epoch_root; computed_oplog_root := hex_encode epoch_root;
     matched := true; attested := true; alert := None |}.

Lemma attester_attests : attester_run = (Ok attester_result, attester_run.2).
Proof.
  assert (attester_run.1 = Ok attester_result) as H by (vm_compute; reflexivity).
  destruct attester_run as [r w]. cbn in *. by rewrite H.
Qed.

Lemma attested_is_on_ledger_witness :
  exists a, a ∈ attestations_of 1 (ledger_of (net (dw_net attester_run.2))) /\ attested attester_result = true /\
    attester a = public_bytes attester_kp.
Proof.
  destruct (attested_is_on_ledger (Rpc := contract_rpc) contract_bytes ledger_of network_honest ledger_of_ok 16 0 attester_state replica 1
    attester_world attester_result attester_run.2) as (kp & key & reg & c & range & a & Hkp & _ & _ & _ & _ & Ha & Hk & _).
  - vm_compute. reflexivity.
  - exact attester_attests.
  - reflexivity.
  - exists a. injection Hkp as <-. split; [exact Ha|]. split; [reflexivity|exact Hk].
Defined.

(** A replica that does not have the second entry. *)
Definition censored : Mongo := {| hello := Ok hello_reply; read_oplog_range _ _ := Ok [e1] |}.
Abbreviation censored_run := (attest_epoch 16 0 attester_state censored 1 attester_world).

Lemma disagreement_raises_alert_witness :
  exists r, censored_run = (Ok r, censored_run.2) /\ attested r = false /\ is_Some (alert r).
Proof.
  assert (match censored_run.1 with Ok r => negb (matched r) && negb (bool_decide (on_chain_oplog_root r = "none"%string))
          | _ => false end = true) as H by (vm_compute; reflexivity).
  pose proof (surjective_pairing censored_run) as Hr. destruct (censored_run.1) as [r|e]; [|discriminate H].
  apply andb_true_iff in H as [Hm Hn]. apply negb_true_iff in Hm, Hn.
  exists r. split; [exact Hr|].
  destruct (disagreement_raises_alert 16 0 attester_state censored 1 attester_world r _ Hr) as (_ & _ & Hf).
  - by apply bool_decide_eq_false in Hn.
  - destruct (Hf Hm) as (Ha & _ & a & -> & _). split; [exact Ha|]. by exists a.
Defined.

(** The publisher, on a network that accepts everything after two rejections. *)
Definition publisher_world : DaemonWorld (Rpc := Toy.toy_rpc) (Xdr := Toy.toy_xdr) :=
  {| dw_net := Toy.toy_world;
     dw_epochs := {| manager := {| config := each_event; epochs := [closed_epoch]; next_oplog_start := None;
                                   persistence_path := None |}; ep_files := ∅; ep_error := None |};
     dw_log := AuditExample.fresh None |}.
Abbreviation first_commit := (commit_epoch (Sg := Toy.toy_signer) (Pay := Toy.toy_payload) 16 0 Toy.toy_key
  {| mongo_client := None; attester_key := None; oplog_hash_required := false;
     signing_keypair := Some Toy.toy_key; attester_stellar_keypair := None; chain_contract_id := Toy.toy_contract;
     chain_passphrase := "net"; pinata_config := None; age_recipients := []; events_jsonl := None |}
  1 publisher_world).

Lemma commit_epoch_idempotent_witness :
  exists r', cr_root_hex r' = "ab"%string /\ forall polls now probe st,
    commit_epoch (Sg := Toy.toy_signer) (Pay := Toy.toy_payload) polls now probe st 1 first_commit.2 = (Ok r', first_commit.2).
Proof.
  assert (match first_commit.1 with Ok r => bool_decide (cr_root_hex r = "ab"%string) | _ => false end = true) as H
    by (vm_compute; reflexivity).
  pose proof (surjective_pairing first_commit) as Hr. destruct (first_commit.1) as [r|e]; [|discriminate H].
  apply bool_decide_eq_true in H. rewrite <-H.
  refine (commit_epoch_idempotent (Sg := Toy.toy_signer) (Pay := Toy.toy_payload) 16 0 _ _ 1 _ r _ _ Hr).
  intros e [= <-]. by exists "ab"%string.
Defined.
